(* ===== verification/_CoqProject ===== *)
-Q . S2P
Prelude.v
Hashcode.v
GoStrings.v
Consistent.v
Coord.v
Peers.v
Partitions.v
ZkWatcher.v
ZkClose.v
Disk.v
Manifest.v
Block.v
BlockStore.v
Writable.v
Build.v
VersionMux.v
Backend.v
Db.v
Refresh.v
Proxy.v
Serve.v
Url.v
Cluster.v
Status.v
Multilock.v
BuildLocks.v
Config.v
Server.v
Debug.v
Main.v
