(* ===== verification/Prelude.v ===== *)
(** * Sequins: a verification library

    Sequins serves the output of batch jobs as a key/value store over HTTP.  A
    node downloads the newest version of each data set (a directory of
    sequence files), keeps it in block files on its own disk, and answers
    requests from it; the nodes of a cluster share the partitions of a version
    and pass requests on to each other.  This library models the program's own
    Go code as executable functions and step relations, and proves what makes
    it correct.

    ** The parts and their files

    - [Prelude.v] (this file): machine integers, errors, the monad [GoM] of
      stateful code that may panic, and [MapOrder]: a Go map is iterated in any
      order, so the theorems hold for every order.
    - [GoStrings.v]: the functions of Go's [strings], [strconv], [fmt] and
      [path] packages that the source calls.
    - [Hashcode.v]: [blocks/hashcode.go], which partition a key is in.
    - [Disk.v] (the interface to sparkey, the manifest file and the operating
      system), [Manifest.v], [Block.v] and [BlockStore.v]: the package
      [blocks/], from the files of one block to the store of a version.
    - [Writable.v] and [Build.v]: the records of sequence files, and [version.go]
      and [build.go], which load the files of a version into its store.
    - [VersionMux.v]: [version_mux.go], which version answers requests and when
      an old one may be closed.
    - [Backend.v]: the local, HDFS and S3 backends of [backend/].
    - [Db.v]: [db.go], the versions of one database over time; [Refresh.v]:
      its refreshes, upgrades and cleanups as machines that interleave between
      the calls they make, and an interpreter of schedules ([fine_exec]).
    - [Consistent.v], [Coord.v], [Peers.v], [Partitions.v]: the vendored hash
      ring, the interface of the zookeeper watcher, and [peers.go] and
      [partitions.go], which decide and publish which node has which
      partition.
    - [ZkWatcher.v]: [zk_watcher.go], the instance of the interface [Coord];
      [ZkClose.v]: the locks its goroutines take, and when [close] returns.
    - [Proxy.v], [Serve.v]: [proxy.go], [serve.go] and the routing of
      [sequins.go], the answer to a request.
    - [Url.v]: [newProxyRequest] of [proxy.go], the request a node sends to a
      peer, and what the peer reads off the wire.
    - [Cluster.v]: no code of its own; the composition of two nodes, from the
      files of a version to the reply a client gets.
    - [Status.v]: [status.go], the status pages.
    - [Multilock.v], [BuildLocks.v], [Config.v], [Server.v]: [multilock/], the
      locks that builds take, [config.go], and the startup and the refreshes of
      [sequins.go].
    - [Debug.v]: [debug.go], the request counts and the debug server.
    - [Main.v]: [main.go], the command line, and [start] and [shutdown] of
      [sequins.go].

    A request goes through [ServeHTTP], [mux_serveKey], [version_serveKey]
    ([Serve.v]), and from there to [Get] ([BlockStore.v]) or to [proxy]
    ([Proxy.v]) with the peers that [getPeers] ([Partitions.v]) names; the peer
    reads the request that [newProxyRequest] ([Url.v]) wrote and starts over at
    its own [ServeHTTP].  A refresh goes through [refreshAll] ([Server.v]), [db_refresh] ([Db.v]),
    [newVersion] and [build] ([Build.v]), [addFiles] and [Add] ([BlockStore.v]),
    and [updateLocalPartitions] ([Partitions.v]), which advertises through
    [zk_createEphemeral] ([ZkWatcher.v]).

    ** How state and effects are modelled

    Structs are records with the fields of the source; methods that hold a lock
    for their whole body are one function on the state.  A pointer that is
    shared is an address into a map (wait groups and timers of the mux, watches
    of the watcher, databases of the server), or a record with its address.
    [None] is a panic, and for loops with fuel that the fuel ran out; the
    theorems exclude both.  Errors are values ([res], [option error]).  What
    runs concurrently is a step relation ([sys_step], [db_step], [fine_step],
    [zk_step], [lock_step], [build_step], [ml_step]) whose invariants are proved by induction on the steps, or work
    that is recorded in the order in which it is started ([work],
    [server_work]).  Each component's witnesses, in a module [...Example], run
    the definitions on concrete inputs.

    Code that is not part of the repository is an interface with laws: sparkey
    and the file system ([Disk], [DiskLaws]), the zookeeper server ([Zk],
    [ZkLaws]), the listings of S3, HDFS and the local disk ([Backend.v]), the
    replies of other nodes ([Proxy.v], [PeerHttp]), the latency histogram
    ([Histogram]), the clients [main] connects to ([Main.v]).  Each has an
    in-memory instance.  [Coord]/[CoordLaws] is the interface between the cluster code
    and the watcher: the clients are proved against it and [zk_coord_laws]
    discharges it.

    ** What the theorems show

    - Data: [hashCode_java] and [KeyPartition_cascading] (the partition of a key
      is the one Hadoop and Cascading compute), [unwrapKeyValue_roundtrip],
      [block_write_read], [Get_refines] (the store implements a map of what was
      added, saved and reverted), [Save_reload], [Revert_restores].
    - The whole: [cluster_truthful], for a client of any node: a value in a
      reply is one that the data of the named version has for the key, and a
      404, for a key whose partition is certain, means that it has none.
    - Building: [addFile_complete], [addFiles_lookup], [build_outcome], and
      [build_locks_sound] for builds that run at the same time.
    - Versions: [remove_safe] and [remove_returns_iff] for the mux,
      [fine_refines_mux], [fine_never_panics] and [fine_rolls_forward] for a
      database with requests, refreshes, upgrades, cleanups and removals
      interleaved; the mux has a contract, written into the rules of [sys_step],
      that the database keeps while the backend's lists are complete and it is
      not closed; that it rolls forward needs neither ([db_refines_mux], [db_never_panics] and [db_rolls_forward]
      have each refresh as one step, and [refresh_atomic] relates the two);
      [databases_lifecycle] for the databases of a server.
    - Cluster: [GetN_replicas], [ring_history_independent],
      [every_partition_selected], [missing_exact], [advertised_exactly],
      [listing_roundtrip]; for the watcher [watcher_restores],
      [cleanup_keeps_ephemerals], and [cancelWatches_returns_iff] and
      [close_returns_iff], which say when its two blocking operations end
      ([cancelWatches_returns] is the first without the locks).
    - Requests: [serve_local], [serve_proxied], [no_second_hop],
      [proxy_outcome], [proxy_request_roundtrip], [ServeHTTP_routes].
    - Status, configuration and startup: [status_merges], [replication_counts],
      [stats_refine], [published_totals], [validate_sound], [initCluster_ok],
      [main_serves], [main_total], [multilock_admits], [directory_listing].
    - Behaviour that differs from what the code or its documentation intends:
      [pathological_404], [empty_partition_500], [Revert_after_failed_Save],
      [reload_forgets_compression], [close_dooms_removals],
      [delete_while_loading_panics], [stale_list_panics],
      [cleanup_deletes_current], [late_build_leaks], [close_returns_iff],
      [shutdown_while_down_blocks], [colliding_members_disagree],
      [failed_hooks_panic],
      [readvertise_disconnects], [never_underreplicated],
      [store_in_source_accepted], [s3_after_ignored], [s3_first_page_only],
      [s3_files_of_other_versions], [proxy_name_changed],
      [status_page_tracked], [negative_limit_panics].

    ** Fuel and bounds

    Loops over data are structural.  Fuel is used where the source has none:
    the ring's binary search has the length of the list as its fuel and
    [GetN_loop] one turn of the ring, which [GetN_replicas] shows to be enough;
    [createAll] has the length of the path plus one ([createAll_ok]: it always
    returns); [cleanupTree] and the paging of S3 take any fuel and their
    theorems hold for all.  The machines of [Refresh.v] and [BuildLocks.v] have
    no fuel: [refresh_left], [upgrade_left], [clean_left] and [steps_left] bound
    the steps that are left.  Go's [int] is 64 bits wide; arithmetic that can
    overflow is wrapped ([GoInt]), counters bounded by the number of partitions
    or files, or of the requests of a second, are not.

    ** What is not modelled

    Log messages; the text of JSON, TOML and HTML (the decoded structures are
    modelled); the encoding of durations; throttling and test delays; headers
    and bodies of HTTP requests other than those named; locks that protect one
    method call; the timing of tickers and signals (a refresh may happen at any
    time); the container format of sequence files, which a library reads.
    A run of [fine_step] that is lawful (its first argument) has complete lists
    and no [close] or [delete] of the database; [stale_list_panics] and
    [delete_while_loading_panics] show what happens otherwise.  [zk_step] is
    without the watcher's locks, [build_step] takes the three deferred unlocks
    of a build as one step; in [zk_step] other clients
    of zookeeper change the tree only between calls; in [Cluster.v] a peer
    answers a request in one step. *)

From Stdlib Require Import ZArith Lia Ascii String.
From stdpp Require Import base gmap sets list strings fin_maps sorting.

Set Default Proof Using "Type".

(** The string library blocks the reduction of [append]; the model computes
    with it. *)
Arguments String.append !_ _ : simpl nomatch.

(** ** Machine integers

    Go's [int32] and [int] (64 bits on every platform sequins supports) are
    integers in [Z] with the wrap-around of two's complement written out. *)

Module GoInt.

Open Scope Z_scope.

Definition MaxInt32 : Z := 2147483647.

(** Conversion to a signed [w]-bit integer. *)
Definition wrap (w : Z) (z : Z) : Z := (z + 2 ^ (w - 1)) mod 2 ^ w - 2 ^ (w - 1).

Definition int32 (z : Z) : Z := wrap 32 z.
Definition int64 (z : Z) : Z := wrap 64 z.

(** Go's [%] truncates towards zero and panics on a zero divisor. *)
Definition go_rem (a b : Z) : option Z :=
  if b =? 0 then None else Some (Z.rem a b).

Lemma wrap_bound w z : 0 < w -> - 2 ^ (w - 1) <= wrap w z < 2 ^ (w - 1).
Proof.
  intros Hw. unfold wrap.
  assert (2 ^ w = 2 * 2 ^ (w - 1)) as Hp.
  { rewrite <- Z.pow_succ_r by lia. f_equal. lia. }
  pose proof (Z.mod_pos_bound (z + 2 ^ (w - 1)) (2 ^ w)). lia.
Qed.

Lemma wrap_id w z : 0 < w -> - 2 ^ (w - 1) <= z < 2 ^ (w - 1) -> wrap w z = z.
Proof.
  intros Hw Hz. unfold wrap.
  assert (2 ^ w = 2 * 2 ^ (w - 1)) as Hp.
  { rewrite <- Z.pow_succ_r by lia. f_equal. lia. }
  rewrite Z.mod_small; lia.
Qed.

Lemma wrap_congr w a b : 0 < w -> a mod 2 ^ w = b mod 2 ^ w -> wrap w a = wrap w b.
Proof.
  intros Hw H. unfold wrap. f_equal.
  rewrite (Z.add_mod a), (Z.add_mod b), H by lia. reflexivity.
Qed.

Lemma wrap_mod w z : 0 < w -> wrap w z mod 2 ^ w = z mod 2 ^ w.
Proof.
  intros Hw. unfold wrap.
  rewrite Zminus_mod_idemp_l. f_equal. lia.
Qed.

Lemma mod_affine_congr m p q a b :
  m <> 0 -> a mod m = b mod m -> (a * p + q) mod m = (b * p + q) mod m.
Proof.
  intros Hm Hab. rewrite (Z.add_mod (a * p)), (Z.add_mod (b * p)) by done.
  by rewrite (Z.mul_mod a), (Z.mul_mod b), Hab by done.
Qed.

Lemma int32_bound z : - 2147483648 <= int32 z <= 2147483647.
Proof. pose proof (wrap_bound 32 z). unfold int32. lia. Qed.

Lemma int32_id z : - 2147483648 <= z <= 2147483647 -> int32 z = z.
Proof. intros Hz. apply wrap_id; lia. Qed.

Lemma int64_id z : - 2 ^ 63 <= z < 2 ^ 63 -> int64 z = z.
Proof. intros Hz. by apply wrap_id. Qed.

Lemma int64_add z y : int64 (int64 z + y) = int64 (z + y).
Proof.
  apply wrap_congr; [done|]. rewrite Z.add_mod by done.
  unfold int64. rewrite wrap_mod by done. by rewrite <- Z.add_mod.
Qed.

Lemma int32_mod z : int32 z mod 2 ^ 32 = z mod 2 ^ 32.
Proof. by apply wrap_mod. Qed.

(** The mask [x & math.MaxInt32] clears the sign bit. *)
Lemma land_MaxInt32 z : Z.land z MaxInt32 = z mod 2 ^ 31.
Proof. change MaxInt32 with (Z.ones 31). by rewrite Z.land_ones. Qed.

Lemma int32_mask_nonneg z : 0 <= z <= MaxInt32 -> Z.land z MaxInt32 = z.
Proof. unfold MaxInt32. intros. rewrite land_MaxInt32. apply Z.mod_small. lia. Qed.

Lemma int32_mask_neg z :
  - 2147483648 <= z < 0 -> Z.land z MaxInt32 = z + 2 ^ 31.
Proof.
  intros Hz. rewrite land_MaxInt32.
  rewrite <- (Z.mod_add z 1) by lia. apply Z.mod_small. lia.
Qed.

Lemma go_rem_nonneg a b : 0 <= a -> 0 < b -> go_rem a b = Some (a mod b).
Proof.
  intros Ha Hb. unfold go_rem.
  destruct (Z.eqb_spec b 0); [lia |]. by rewrite Z.rem_mod_nonneg.
Qed.

End GoInt.

(** ** Errors

    A Go [error] value.  The sentinels the code compares with [==] are
    constructors of their own; [fmt.Errorf] wraps the cause in a fresh error
    that is equal to no sentinel, [NewError] is [errors.New] at its use site;
    [LibErr] is an error of a library. *)
Inductive error : Type :=
  | ErrNoManifest | ErrPartitionNotFound | ErrMissingPartitions
  | ErrWrongVersion | ErrNotExist
  | errWrongPartition | errCanceled | errNoVersions
  | errNoAvailablePeers | errProxiedIncorrectly
  | errProxyTimeout | errRequestCanceled
  | ErrEmptyCircle
  | NewError (what : string)
  | Errorf (what : string) (cause : error)
  | LibErr (code : Z).

#[global] Instance error_eq_dec : EqDecision error.
Proof. solve_decision. Defined.

(** A pair [(T, error)] of which exactly one half is meaningful. *)
Inductive res (A : Type) : Type :=
  | Ok (a : A)
  | Err (e : error).
Arguments Ok {A} a.
Arguments Err {A} e.

(** ** Stateful code that may panic

    [GoM S A] is a computation on the state [S] that returns an [A] or panics
    ([None]).  Errors are values of the result, as in the source. *)
Definition GoM (S A : Type) : Type := S -> option (A * S).

#[global] Instance GoM_ret {S} : MRet (GoM S) := fun A a s => Some (a, s).
#[global] Instance GoM_bind {S} : MBind (GoM S) := fun A B k m s =>
  match m s with
  | Some (a, s') => k a s'
  | None => None
  end.

Lemma GoM_bind_eq {S A B} (m : GoM S A) (k : A -> GoM S B) s :
  (m ≫= k) s = match m s with Some (a, s') => k a s' | None => None end.
Proof. reflexivity. Qed.

(** A Go map is iterated in an unspecified order: any enumeration of its
    bindings. *)
Class MapOrder (K : Type) `{Countable K} := {
  range : forall {V : Type}, gmap K V -> list (K * V);
  range_perm : forall {V} (m : gmap K V), range m ≡ₚ map_to_list m;
  (** A [map[K]bool] used as a set. *)
  range_set : gset K -> list K;
  range_set_perm : forall (s : gset K), range_set s ≡ₚ elements s;
}.

(** The enumeration of the library, for concrete runs. *)
Definition list_order `{Countable K} : MapOrder K :=
  {| range V m := map_to_list m; range_perm V m := reflexivity _;
     range_set := elements; range_set_perm s := reflexivity _ |}.

(** An iteration visits every key once. *)
Lemma range_map {K V : Type} `{MapOrder K} (m : gmap K V) : NoDup (range m).*1 ∧ list_to_map (range m) = m.
Proof.
  assert (NoDup (range m).*1) as Hnd by (rewrite range_perm; apply NoDup_fst_map_to_list). split; [done|].
  rewrite (list_to_map_proper (range m) (map_to_list m)); [apply list_to_map_to_list|done|apply range_perm].
Qed.

(** The value of a computation that does not panic. *)
Lemma default_ok {A} (d : A) (x : option A) : bool_decide (is_Some x) = true -> x = Some (default d x).
Proof. by destruct x. Qed.

(** ** Lists *)

Lemma NoDup_fmap_filter {A B} (f : A -> B) (P : A -> Prop) `{∀ x, Decision (P x)} l :
  NoDup (f <$> l) -> NoDup (f <$> filter P l).
Proof.
  induction l as [|x l IH]; [done|]. rewrite fmap_cons, NoDup_cons, filter_cons.
  intros [Hx Hl]. case_decide; [|auto].
  rewrite fmap_cons. apply NoDup_cons. split; [|auto]. intros (y & Heq & [_ Hy]%list_elem_of_filter)%list_elem_of_fmap.
  apply Hx. rewrite Heq. by apply list_elem_of_fmap_2.
Qed.

Lemma filter_none {A} (P : A -> Prop) `{∀ x, Decision (P x)} l :
  (∀ x, x ∈ l -> ¬ P x) -> filter P l = [].
Proof.
  induction l as [|x l IH]; intros Hl; [done|]. rewrite filter_cons_False by (apply Hl; left).
  apply IH. intros y Hy. apply Hl. by right.
Qed.

(** How many elements of [l] satisfy [P]. *)
Definition tally {A} (P : A -> Prop) `{∀ x, Decision (P x)} (l : list A) : Z := Z.of_nat (length (filter P l)).

Lemma tally_cons {A} (P : A -> Prop) `{∀ x, Decision (P x)} x l :
  tally P (x :: l) = ((if decide (P x) then 1 else 0) + tally P l)%Z.
Proof. unfold tally. rewrite filter_cons. case_decide; cbn [length]; lia. Qed.

Lemma tally_nil {A} (P : A -> Prop) `{∀ x, Decision (P x)} : tally P [] = 0%Z.
Proof. done. Qed.

Lemma tally_iff {A} (P P' : A -> Prop) `{∀ x, Decision (P x), ∀ x, Decision (P' x)} l :
  (∀ x, P x <-> P' x) -> tally P l = tally P' l.
Proof. intros HP. unfold tally. by rewrite (list_filter_iff P P'). Qed.

Lemma tally_split {A} (P P' : A -> Prop) `{∀ x, Decision (P x), ∀ x, Decision (P' x)} l :
  (∀ x, x ∈ l -> P x <-> ¬ P' x) -> (tally P l + tally P' l)%Z = Z.of_nat (length l).
Proof.
  induction l as [|x l IH]; intros HP; [done|]. rewrite !tally_cons. cbn [length].
  pose proof (HP x ltac:(left)). rewrite Nat2Z.inj_succ, <- IH by (intros y Hy; apply HP; by right).
  repeat case_decide; try tauto; lia.
Qed.

Lemma tally_app {A} (P : A -> Prop) `{∀ x, Decision (P x)} l l' : tally P (l ++ l') = (tally P l + tally P l')%Z.
Proof. unfold tally. rewrite filter_app, length_app. lia. Qed.

(** ** Automation *)

Create HintDb sequins.

#[export] Hint Resolve GoInt.int32_bound : sequins.

(** Case analysis on the boolean tests of the source. *)
Ltac go_case :=
  match goal with
  | |- context [if ?b then _ else _] => destruct b eqn:?
  | H : context [if ?b then _ else _] |- _ => destruct b eqn:?
  end.
