(* ===== verification/Hashcode.v ===== *)
(** * blocks/hashcode.go: the partition of a key

    [hashCode], [KeyPartition] and [alternatePathologicalKeyPartition], with
    the int32 arithmetic of the source, and the two Hadoop partitioners the
    source's comment compares them with. *)

From Stdlib Require Import ZArith Lia Ascii String.
From stdpp Require Import base list strings.
From S2P Require Import Prelude.
Import GoInt.

Open Scope Z_scope.

(** A Go byte, as the integer [int32(b)]. *)
Definition byte_val (c : ascii) : Z := Z.of_N (N_of_ascii c).

(** [func hashCode(b []byte) int32]: the loop over the bytes with its
    accumulator [v]. *)
Fixpoint hashCode_loop (v : Z) (b : string) : Z :=
  match b with
  | EmptyString => v
  | String c b' => hashCode_loop (int32 (int32 (v * 31) + int32 (byte_val c))) b'
  end.

Definition hashCode (b : string) : Z := hashCode_loop 0 b.

(** [func alternatePathologicalKeyPartition(hc int32, totalPartitions int) int];
    [None] is the run-time panic of a remainder by zero. *)
Definition alternatePathologicalKeyPartition (hc totalPartitions : Z) : option Z :=
  if MaxInt32 - 32 <? hc then
    tupleHC ← go_rem (Z.land (int32 (hc + 31)) MaxInt32) totalPartitions;
    r31 ← go_rem 31 totalPartitions;
    let rotate := int64 (totalPartitions - r31) in
    go_rem (int64 (tupleHC + rotate)) totalPartitions
  else Some (-1).

(** [func KeyPartition(key []byte, totalPartitions int) (int, int)] *)
Definition KeyPartition (key : string) (totalPartitions : Z) : option (Z * Z) :=
  let hc := hashCode key in
  normal ← go_rem (Z.land (hashCode key) MaxInt32) totalPartitions;
  alternate ← alternatePathologicalKeyPartition hc totalPartitions;
  if alternate =? -1 then Some (normal, normal) else Some (normal, alternate).

(** ** Reference definitions *)

(** The closed form of [java.lang.String#hashCode] for a string whose
    characters are the given bytes: [s[0]*31^(n-1) + ... + s[n-1]], in the
    integers. *)
Fixpoint java_poly (b : string) : Z :=
  match b with
  | EmptyString => 0
  | String c b' => byte_val c * 31 ^ Z.of_nat (String.length b') + java_poly b'
  end.

(** Hadoop's HashPartitioner on a hash code. *)
Definition hadoop_partition (hc n : Z) : Z := Z.land hc MaxInt32 mod n.

(** Cascading hashes the key wrapped in a one-element tuple: exactly 31 more,
    in int32. *)
Definition tuple_partition (hc n : Z) : Z := hadoop_partition (int32 (31 + hc)) n.

(** ** hashCode *)

Lemma byte_val_bound c : 0 <= byte_val c < 256.
Proof. unfold byte_val. pose proof (N_ascii_bounded c). lia. Qed.

Lemma hashCode_loop_spec b v :
  hashCode_loop v b mod 2 ^ 32
  = (v * 31 ^ Z.of_nat (String.length b) + java_poly b) mod 2 ^ 32.
Proof.
  revert v. induction b as [|c b IH]; intros v; cbn [hashCode_loop java_poly String.length].
  { f_equal. lia. }
  rewrite IH.
  rewrite (int32_id (byte_val c)) by (pose proof (byte_val_bound c); lia).
  rewrite Nat2Z.inj_succ, Z.pow_succ_r by lia.
  rewrite (mod_affine_congr _ _ _ _ (v * 31 + byte_val c)); [f_equal; ring|done|].
  rewrite int32_mod.
  replace (int32 (v * 31) + byte_val c) with (int32 (v * 31) * 1 + byte_val c) by lia.
  replace (v * 31 + byte_val c) with ((v * 31) * 1 + byte_val c) by lia.
  by apply mod_affine_congr, int32_mod.
Qed.

Lemma hashCode_loop_bound b v :
  - 2147483648 <= v <= 2147483647 ->
  - 2147483648 <= hashCode_loop v b <= 2147483647.
Proof.
  revert v. induction b as [|c b IH]; cbn; intros v Hv; [done|].
  apply IH, int32_bound.
Qed.

Lemma hashCode_bound b : - 2147483648 <= hashCode b <= 2147483647.
Proof. apply hashCode_loop_bound. lia. Qed.

Lemma hashCode_poly b : hashCode b = int32 (java_poly b).
Proof.
  rewrite <- (int32_id (hashCode b)) by apply hashCode_bound.
  apply wrap_congr; [lia|]. unfold hashCode.
  rewrite hashCode_loop_spec. done.
Qed.

(** C33: [hashCode] computes the polynomial of [java.lang.String#hashCode] over
    the bytes of the key, wrapped to a signed 32-bit integer once at the end,
    although the loop wraps after every multiplication and addition. *)
Theorem hashCode_java (b : string) :
  hashCode b = int32 (java_poly b) ∧ - 2 ^ 31 <= hashCode b < 2 ^ 31.
Proof. split; [apply hashCode_poly|]. pose proof (hashCode_bound b). lia. Qed.

(** ** KeyPartition *)

Lemma alternate_no hc n :
  hc <= MaxInt32 - 32 -> alternatePathologicalKeyPartition hc n = Some (-1).
Proof.
  intros H. unfold alternatePathologicalKeyPartition.
  destruct (Z.ltb_spec (MaxInt32 - 32) hc); [lia|done].
Qed.

(** The alternate undoes the shift by 31 of the tuple's partition, modulo the
    number of partitions. *)
Lemma alternate_yes hc n :
  MaxInt32 - 32 < hc <= MaxInt32 -> 0 < n < 2 ^ 62 ->
  alternatePathologicalKeyPartition hc n = Some ((tuple_partition hc n - 31) mod n).
Proof.
  intros Hhc Hn. unfold alternatePathologicalKeyPartition.
  destruct (Z.ltb_spec (MaxInt32 - 32) hc); [|lia].
  assert (0 <= Z.land (int32 (hc + 31)) MaxInt32) as Hnn.
  { rewrite land_MaxInt32. apply Z.mod_pos_bound. lia. }
  rewrite (go_rem_nonneg _ n Hnn), (go_rem_nonneg 31 n) by lia. cbn.
  pose proof (Z.mod_pos_bound (Z.land (int32 (hc + 31)) MaxInt32) n).
  pose proof (Z.mod_pos_bound 31 n).
  rewrite (int64_id (n - _)) by lia. rewrite int64_id by lia.
  rewrite go_rem_nonneg by lia. f_equal.
  unfold tuple_partition, hadoop_partition. rewrite (Z.add_comm 31 hc).
  pose proof (Z.div_mod 31 n ltac:(lia)) as H31.
  rewrite <- (Z.mod_add (_ mod n - 31) (1 + 31 / n)) by lia. f_equal. lia.
Qed.

Lemma KeyPartition_normal key n :
  0 < n < 2 ^ 62 ->
  KeyPartition key n
  = Some (hadoop_partition (hashCode key) n,
          if MaxInt32 - 32 <? hashCode key
          then (tuple_partition (hashCode key) n - 31) mod n
          else hadoop_partition (hashCode key) n).
Proof.
  intros Hn. unfold KeyPartition, hadoop_partition.
  rewrite go_rem_nonneg; [|rewrite land_MaxInt32; apply Z.mod_pos_bound; lia|lia]. cbn.
  pose proof (hashCode_bound key).
  destruct (Z.ltb_spec (MaxInt32 - 32) (hashCode key)).
  - rewrite alternate_yes by (unfold MaxInt32 in *; lia). cbn.
    pose proof (Z.mod_pos_bound (tuple_partition (hashCode key) n - 31) n).
    destruct (Z.eqb_spec ((tuple_partition (hashCode key) n - 31) mod n) (-1)); [lia|done].
  - by rewrite alternate_no by lia.
Qed.

Lemma hadoop_partition_bound hc n : 0 < n -> 0 <= hadoop_partition hc n < n.
Proof. intros. by apply Z.mod_pos_bound. Qed.

(** For every positive number of partitions [KeyPartition] returns without
    a panic, both partitions are valid indices, the first is Hadoop's
    [(hashCode & MaxInt32) % n], and the second differs from it only for keys
    whose hash code is within 31 of [math.MaxInt32]. *)
Theorem KeyPartition_bounds (key : string) (n : Z) :
  0 < n < 2 ^ 62 ->
  ∃ p a, KeyPartition key n = Some (p, a)
    ∧ p = hadoop_partition (hashCode key) n
    ∧ 0 <= p < n ∧ 0 <= a < n
    ∧ (p <> a -> MaxInt32 - 31 < hashCode key).
Proof.
  intros Hn. rewrite KeyPartition_normal by done.
  eexists _, _. split; [done|]. split; [done|].
  split; [apply hadoop_partition_bound; lia|].
  destruct (Z.ltb_spec (MaxInt32 - 32) (hashCode key)) as [Hhc|].
  - split; [apply Z.mod_pos_bound; lia|]. intros Hne.
    destruct (decide (hashCode key = MaxInt32 - 31)) as [Heq|]; [|lia].
    destruct Hne. unfold tuple_partition, hadoop_partition. rewrite Heq.
    change (int32 (31 + (MaxInt32 - 31))) with MaxInt32.
    rewrite !int32_mask_nonneg by (unfold MaxInt32; lia).
    by rewrite Zminus_mod_idemp_l.
  - split; [apply hadoop_partition_bound; lia|done].
Qed.

Lemma KeyPartition_bounds_witness :
  0 < 20 < 2 ^ 62 ∧ ∃ p a, KeyPartition "fol" 20 = Some (p, a) ∧ 0 <= p < 20.
Proof.
  split; [lia|]. destruct (KeyPartition_bounds "fol" 20) as (p & a & H & _ & Hp & _); [lia|].
  by exists p, a.
Defined.

(** C32: the alternate partition is the partition the key takes in a data set
    shuffled by cascading's tuple hash: whenever the hash code is not in
    [-31, -1], shifting one of the two partitions by 31 gives the tuple's
    partition.  So a file that holds one tuple partition holds keys of one
    partition of [KeyPartition] only, up to the alternate. *)
Theorem KeyPartition_cascading (key : string) (n p a : Z) :
  0 < n < 2 ^ 62 ->
  KeyPartition key n = Some (p, a) ->
  hashCode key < -31 ∨ 0 <= hashCode key ->
  (a + 31) mod n = tuple_partition (hashCode key) n.
Proof.
  intros Hn HK Hhc. rewrite KeyPartition_normal in HK by done. simplify_eq.
  pose proof (hashCode_bound key) as Hb. set (hc := hashCode key) in *.
  assert (∀ z, z mod n mod n = z mod n) as Hmm by (intros; apply Z.mod_mod; lia).
  destruct (Z.ltb_spec (MaxInt32 - 32) hc).
  - rewrite Z.add_mod_idemp_l by lia. unfold tuple_partition, hadoop_partition.
    rewrite Z.sub_add. apply Hmm.
  - unfold tuple_partition, hadoop_partition, MaxInt32 in *.
    rewrite int32_id by lia. rewrite Z.add_mod_idemp_l by lia. f_equal.
    destruct Hhc.
    + rewrite !int32_mask_neg by lia. lia.
    + rewrite !int32_mask_nonneg by (unfold MaxInt32; lia). lia.
Qed.

(** The key of the source's own test, whose hash code is close to MaxInt32. *)
Definition pathological_key : string :=
  string_of_list_ascii (ascii_of_nat <$> [112; 23; 173; 120; 140; 94; 133; 241; 67; 39; 248; 103]%nat).

Lemma KeyPartition_cascading_witness :
  KeyPartition pathological_key 20 = Some (19, 11)
  ∧ (11 + 31) mod 20 = tuple_partition (hashCode pathological_key) 20.
Proof.
  split; [vm_compute; reflexivity|].
  apply (KeyPartition_cascading pathological_key 20 19 11);
    [lia|vm_compute; reflexivity|right; vm_compute; discriminate].
Defined.

Lemma mod_shift_iff x y n : 0 < n -> (x + y) mod n = x mod n <-> y mod n = 0.
Proof.
  intros Hn. split; intros H.
  - replace y with ((x + y) - x) by lia.
    by rewrite Zminus_mod, H, Z.sub_diag, Zmod_0_l.
  - by rewrite Z.add_mod, H, Z.add_0_r, Z.mod_mod by lia.
Qed.

(** For a key whose hash code is in [-31, -1] (the source's comment lists
    "within 31 of 0" among the pathological cases) [KeyPartition] gives no
    alternate, and the partition is consistent with the tuple's only when the
    number of partitions divides [2^31]. *)
Theorem KeyPartition_negative_gap (key : string) (n p a : Z) :
  0 < n < 2 ^ 62 ->
  KeyPartition key n = Some (p, a) ->
  -31 <= hashCode key < 0 ->
  p = a ∧ ((a + 31) mod n = tuple_partition (hashCode key) n <-> 2 ^ 31 mod n = 0).
Proof.
  intros Hn HK Hhc. rewrite KeyPartition_normal in HK by done.
  destruct (Z.ltb_spec (MaxInt32 - 32) (hashCode key)); [unfold MaxInt32 in *; lia|].
  simplify_eq. split; [done|].
  unfold tuple_partition, hadoop_partition.
  rewrite int32_mask_neg, int32_id by lia.
  rewrite int32_mask_nonneg by (unfold MaxInt32; lia).
  rewrite Z.add_mod_idemp_l by lia.
  rewrite <- (mod_shift_iff (31 + hashCode key)) by lia.
  by replace (hashCode key + 2 ^ 31 + 31) with (31 + hashCode key + 2 ^ 31) by lia.
Qed.

Lemma KeyPartition_negative_gap_witness :
  hashCode "yyaqlvpuz" = -5
  ∧ KeyPartition "yyaqlvpuz" 20 = Some (3, 3)
  ∧ (3 = 3 ∧ ((3 + 31) mod 20 = tuple_partition (hashCode "yyaqlvpuz") 20
              <-> 2 ^ 31 mod 20 = 0)).
Proof.
  split; [vm_compute; reflexivity|]. split; [vm_compute; reflexivity|].
  apply (KeyPartition_negative_gap "yyaqlvpuz" 20 3 3);
    [lia|vm_compute; reflexivity|vm_compute; split; congruence].
Defined.
