(* ===== verification/GoStrings.v ===== *)
(** * The string functions of Go's library that sequins uses

    Go strings and byte slices are sequences of bytes: Rocq's [string].  Here
    are [strings.Split]/[SplitN]/[Index]/[TrimPrefix], [strconv.Atoi],
    [fmt]'s [%d] and [%05d], and the lexical path functions [path.Clean],
    [path.Join], [path.Base] and [path.Split] (the Unix [filepath] functions of
    the same names agree with them). *)

From Stdlib Require Import ZArith Lia Ascii String DecimalString DecimalN DecimalFacts.
From stdpp Require Import base sets list strings.
From S2P Require Import Prelude.
Import GoInt.

Open Scope string_scope.

(** ** Splitting *)

(** [strings.Split(s, sep)] for a one-byte separator. *)
Fixpoint split (sep : ascii) (s : string) : list string :=
  match s with
  | EmptyString => [""]
  | String c s' =>
      if decide (c = sep) then "" :: split sep s'
      else match split sep s' with
           | w :: ws => String c w :: ws
           | [] => [String c ""]
           end
  end.

(** [strings.SplitN(s, sep, 2)]. *)
Fixpoint SplitN2 (sep : ascii) (s : string) : list string :=
  match s with
  | EmptyString => [""]
  | String c s' =>
      if decide (c = sep) then [""; s']
      else match SplitN2 sep s' with
           | w :: ws => String c w :: ws
           | [] => [String c ""]
           end
  end.

(** [strings.Index(s, sep)] for a one-byte separator: -1 when absent. *)
Fixpoint Index (s : string) (sep : ascii) : Z :=
  match s with
  | EmptyString => -1
  | String c s' =>
      if decide (c = sep) then 0
      else let i := Index s' sep in if (i <? 0)%Z then -1 else (i + 1)%Z
  end.

Definition HasPrefix (s pre : string) : bool := String.prefix pre s.

Arguments HasPrefix : simpl never.

Definition TrimPrefix (s pre : string) : string :=
  if HasPrefix s pre then String.substring (String.length pre) (String.length s - String.length pre) s
  else s.

Definition HasSuffix (s suf : string) : bool :=
  let n := (String.length s - String.length suf)%nat in
  (String.length suf <=? String.length s)%nat && bool_decide (String.substring n (String.length suf) s = suf).

Definition TrimSuffix (s suf : string) : string :=
  if HasSuffix s suf then String.substring 0 (String.length s - String.length suf) s else s.

(** [strings.TrimSpace(s) == ""], for the ASCII white space. *)
Fixpoint blank (s : string) : bool :=
  match s with
  | EmptyString => true
  | String c s' => bool_decide (c ∈ [" "; "009"; "010"; "011"; "012"; "013"]%char) && blank s'
  end.

(** The byte [c] occurs in [s]. *)
Fixpoint has_char (c : ascii) (s : string) : bool :=
  match s with
  | EmptyString => false
  | String c' s' => bool_decide (c' = c) || has_char c s'
  end.

(** ** Numbers *)

(** [strconv.Itoa] on the absolute value. *)
Definition itoa_abs (z : Z) : string := NilEmpty.string_of_uint (N.to_uint (Z.to_N (Z.abs z))).

Definition Itoa (z : Z) : string := (if (z <? 0)%Z then "-" else "") ++ itoa_abs z.

Fixpoint zeros (n : nat) : string :=
  match n with O => "" | S n' => String "0" (zeros n') end.

(** [fmt.Sprintf("%05d", z)]: the sign counts toward the width. *)
Definition fmt05d (z : Z) : string :=
  let sign := if (z <? 0)%Z then "-" else "" in
  sign ++ zeros (5 - String.length sign - String.length (itoa_abs z)) ++ itoa_abs z.

(** The digits of [strconv.ParseInt(s, 10, 64)]. *)
Definition parse_digits (s : string) : option Z :=
  if decide (s = "") then None
  else Z.of_N ∘ N.of_uint <$> NilEmpty.uint_of_string s.

(** [strconv.Atoi]: the value and whether there is an error; a syntax error
    gives 0 and a value out of range the nearest int64. *)
Definition Atoi (s : string) : Z * bool :=
  let neg := HasPrefix s "-" in
  let body := match s with
              | String c s' => if decide (c = "-"%char ∨ c = "+"%char) then s' else s
              | EmptyString => s
              end in
  match parse_digits body with
  | None => (0%Z, true)
  | Some n =>
      if neg then if (2 ^ 63 <? n)%Z then (- 2 ^ 63, true)%Z else (- n, false)%Z
      else if (2 ^ 63 <=? n)%Z then (2 ^ 63 - 1, true)%Z else (n, false)
  end.

(** ** Paths *)

(** One path element on the stack of the elements kept so far (last first). *)
Definition clean_step (rooted : bool) (stack : list string) (elem : string) : list string :=
  if decide (elem = "" ∨ elem = ".") then stack
  else if decide (elem = "..") then
    match stack with
    | top :: rest => if decide (top = "..") then ".." :: stack else rest
    | [] => if rooted then [] else [".."]
    end
  else elem :: stack.

Definition is_rooted (p : string) : bool := HasPrefix p "/".

Definition clean_elems (rooted : bool) (elems : list string) : list string :=
  foldl (clean_step rooted) [] elems.

Definition render (rooted : bool) (elems : list string) : string :=
  let body := String.concat "/" elems in
  if rooted then "/" ++ body else if decide (body = "") then "." else body.

Definition path_Clean (p : string) : string :=
  if decide (p = "") then "."
  else render (is_rooted p) (reverse (clean_elems (is_rooted p) (split "/" p))).

Fixpoint path_Join (elems : list string) : string :=
  match elems with
  | [] => ""
  | e :: rest => if decide (e = "") then path_Join rest else path_Clean (String.concat "/" elems)
  end.

Definition path_Base (p : string) : string :=
  if decide (p = "") then "."
  else default "/" (last (filter (λ e, e ≠ "") (split "/" p))).

(** [path.Split]: everything up to and including the last slash, and the rest. *)
Fixpoint path_Split (p : string) : string * string :=
  match p with
  | EmptyString => ("", "")
  | String c p' =>
      let '(dir, file) := path_Split p' in
      if decide (dir = "") then
        if decide (c = "/"%char) then (String c "", file) else ("", String c file)
      else (String c dir, file)
  end.

Arguments path_Clean : simpl never.
Arguments path_Join : simpl never.
Arguments path_Base : simpl never.
Arguments fmt05d : simpl never.

(** A path element that [path.Clean] keeps as it is. *)
Definition plain_elem (e : string) : Prop :=
  e ≠ "" ∧ e ≠ "." ∧ e ≠ ".." ∧ has_char "/" e = false.

#[global] Instance plain_elem_dec e : Decision (plain_elem e).
Proof. unfold plain_elem. apply _. Defined.

Example clean_1 : path_Clean "/a//b/../c/." = "/a/c". Proof. reflexivity. Qed.
Example clean_2 : path_Clean "../x/../../y" = "../../y". Proof. reflexivity. Qed.
Example clean_3 : path_Clean "/.." = "/". Proof. reflexivity. Qed.
Example join_1 : path_Join [""; "a"; ""; "b"] = "a/b". Proof. reflexivity. Qed.
Example base_1 : path_Base "/a/b//" = "b". Proof. reflexivity. Qed.
Example split_1 : path_Split "/a/b" = ("/a/", "b"). Proof. reflexivity. Qed.
Example fmt_1 : fmt05d 42 = "00042". Proof. reflexivity. Qed.
Example fmt_2 : fmt05d (-3) = "-0003". Proof. reflexivity. Qed.
Example fmt_3 : fmt05d 1234567 = "1234567". Proof. reflexivity. Qed.
Example atoi_1 : Atoi "00042" = (42%Z, false). Proof. reflexivity. Qed.
Example atoi_2 : Atoi "x1" = (0%Z, true). Proof. reflexivity. Qed.
Example trim_1 : TrimPrefix "/db/key" "/" = "db/key". Proof. reflexivity. Qed.

(** ** Lemmas: append and occurrence *)

Lemma str_app_nil_r s : s ++ "" = s.
Proof. induction s as [|c s IH]; cbn; congruence. Qed.

Lemma str_app_assoc s t u : (s ++ t) ++ u = s ++ (t ++ u).
Proof. induction s; cbn; congruence. Qed.

Lemma has_char_app c s t : has_char c (s ++ t) = has_char c s || has_char c t.
Proof. induction s as [|c' s IH]; cbn; [done|]. by rewrite IH, orb_assoc. Qed.

Lemma str_length_app s t : String.length (s ++ t) = (String.length s + String.length t)%nat.
Proof. induction s; cbn; congruence. Qed.

Lemma str_app_eq_nil s t : s ++ t = "" -> s = "" ∧ t = "".
Proof. by destruct s. Qed.

Lemma str_app_inj_r s t u : s ++ u = t ++ u -> s = t.
Proof.
  revert t. induction s as [|c s IH]; intros [|c' t] H; cbn in *; simplify_eq; [done|..].
  - apply (f_equal String.length) in H. cbn in H. rewrite str_length_app in H. lia.
  - apply (f_equal String.length) in H. cbn in H. rewrite str_length_app in H. lia.
  - f_equal. by apply IH.
Qed.

(** ** Lemmas: splitting *)

Lemma split_cons sep s : ∃ w ws, split sep s = w :: ws.
Proof.
  induction s as [|c s (w & ws & IH)]; cbn; [by eexists _, _|].
  case_decide; [by eexists _, _|]. rewrite IH. by eexists _, _.
Qed.

Lemma split_no_sep sep s : has_char sep s = false -> split sep s = [s].
Proof.
  induction s as [|c s IH]; cbn; [done|].
  intros [Hc Hs]%orb_false_iff. apply bool_decide_eq_false in Hc.
  rewrite decide_False by done. by rewrite IH.
Qed.

Lemma split_app sep s t : split sep (s ++ String sep t) = (split sep s ++ split sep t)%list.
Proof.
  induction s as [|c s IH]; cbn; [by rewrite decide_True|].
  case_decide; cbn; [by rewrite IH|].
  rewrite IH. destruct (split_cons sep s) as (w & ws & ->). done.
Qed.

Lemma SplitN2_app sep s t :
  has_char sep s = false -> SplitN2 sep (s ++ String sep t) = [s; t].
Proof.
  induction s as [|c s IH]; cbn; [by rewrite decide_True|].
  intros [Hc Hs]%orb_false_iff. apply bool_decide_eq_false in Hc.
  rewrite decide_False by done. by rewrite IH.
Qed.

(** ** Lemmas: numbers *)

Definition digits : list ascii := ["0"; "1"; "2"; "3"; "4"; "5"; "6"; "7"; "8"; "9"]%char.

Lemma string_of_uint_no_char c d :
  c ∉ digits -> has_char c (NilEmpty.string_of_uint d) = false.
Proof.
  unfold digits. intros Hc.
  induction d; cbn; [done|..]; (rewrite IHd, orb_false_r; apply bool_decide_eq_false; set_solver).
Qed.

Lemma itoa_abs_no_char c z : c ∉ digits -> has_char c (itoa_abs z) = false.
Proof. apply string_of_uint_no_char. Qed.

Lemma zeros_no_char c n : c ∉ digits -> has_char c (zeros n) = false.
Proof.
  unfold digits. intros Hc. induction n; cbn; [done|].
  rewrite IHn, bool_decide_eq_false_2 by set_solver. done.
Qed.

Lemma fmt05d_no_char c z : c ∉ "-"%char :: digits -> has_char c (fmt05d z) = false.
Proof.
  intros [Hm Hc]%not_elem_of_cons. unfold fmt05d.
  rewrite !has_char_app, zeros_no_char, itoa_abs_no_char by done.
  destruct (z <? 0)%Z; cbn; [|done]. by rewrite bool_decide_eq_false_2.
Qed.

Lemma uint_of_string_zeros n s :
  NilEmpty.uint_of_string (zeros n ++ s)
  = (λ d, Nat.iter n Decimal.D0 d) <$> NilEmpty.uint_of_string s.
Proof.
  induction n as [|n IH]; cbn; [by destruct (NilEmpty.uint_of_string s)|].
  rewrite IH. by destruct (NilEmpty.uint_of_string s).
Qed.

Lemma of_uint_zeros n d : N.of_uint (Nat.iter n Decimal.D0 d) = N.of_uint d.
Proof. by induction n. Qed.

Lemma itoa_abs_nonempty z : itoa_abs z ≠ "".
Proof.
  unfold itoa_abs. destruct (N.to_uint _) eqn:E; cbn; try done.
  pose proof (DecimalN.Unsigned.of_to (Z.to_N (Z.abs z))) as H. rewrite E in H.
  cbn in H. rewrite <- H in E. done.
Qed.

Lemma parse_digits_itoa n z :
  (0 <= z)%Z -> parse_digits (zeros n ++ itoa_abs z) = Some z.
Proof.
  intros Hz. unfold parse_digits. rewrite decide_False.
  2:{ intros [_ H]%str_app_eq_nil. by apply itoa_abs_nonempty in H. }
  rewrite uint_of_string_zeros. unfold itoa_abs. rewrite NilEmpty.usu. cbn.
  rewrite of_uint_zeros, DecimalN.Unsigned.of_to. f_equal. lia.
Qed.

(** A first byte that is no sign is left to [parse_digits]. *)
Lemma Atoi_unsigned s :
  has_char "-" s = false -> has_char "+" s = false ->
  Atoi s = match parse_digits s with
           | None => (0%Z, true)
           | Some n => if (2 ^ 63 <=? n)%Z then (2 ^ 63 - 1, true)%Z else (n, false)
           end.
Proof.
  intros Hm Hp. unfold Atoi, HasPrefix. destruct s as [|c s]; [done|]. cbn in Hm, Hp.
  apply orb_false_iff in Hm as [Hm _], Hp as [Hp _].
  apply bool_decide_eq_false in Hm, Hp. cbn [String.prefix].
  destruct (ascii_dec "-" c) as [Heq|]; [congruence|].
  by rewrite decide_False by (intros [|]; congruence).
Qed.

Ltac solve_no_char := apply (bool_decide_unpack _); vm_compute; exact I.

Lemma Atoi_fmt05d z : (0 <= z < 2 ^ 63)%Z -> Atoi (fmt05d z) = (z, false).
Proof.
  intros Hz. unfold fmt05d. destruct (Z.ltb_spec z 0); [lia|]. cbn [String.append].
  set (n := (5 - _ - _)%nat). rewrite Atoi_unsigned.
  - rewrite parse_digits_itoa by lia. destruct (Z.leb_spec (2 ^ 63) z); [lia|done].
  - by rewrite has_char_app, zeros_no_char, itoa_abs_no_char by solve_no_char.
  - by rewrite has_char_app, zeros_no_char, itoa_abs_no_char by solve_no_char.
Qed.

Lemma fmt05d_inj p q : (0 <= p < 2 ^ 63)%Z -> (0 <= q < 2 ^ 63)%Z -> fmt05d p = fmt05d q -> p = q.
Proof. intros Hp Hq H. apply (f_equal Atoi) in H. rewrite !Atoi_fmt05d in H by done. congruence. Qed.

(** A number that is not negative is printed without a dash. *)
Lemma fmt05d_no_dash p : (0 <= p)%Z -> has_char "-" (fmt05d p) = false.
Proof.
  intros Hp. unfold fmt05d. destruct (Z.ltb_spec p 0); [lia|].
  by rewrite !has_char_app, zeros_no_char, itoa_abs_no_char by solve_no_char.
Qed.

(** ** Lemmas: paths *)

Lemma concat_snoc sep es e :
  String.concat sep (es ++ [e])%list
  = (if decide (es = []) then "" else String.concat sep es ++ sep) ++ e.
Proof.
  induction es as [|x es IH]; [done|].
  rewrite decide_False by done. destruct es as [|y es].
  { cbn. by rewrite str_app_assoc. }
  change (String.concat sep ((x :: y :: es) ++ [e])%list)
    with (x ++ sep ++ String.concat sep ((y :: es) ++ [e])%list).
  rewrite IH, decide_False by done.
  change (String.concat sep (x :: y :: es)) with (x ++ sep ++ String.concat sep (y :: es)).
  by rewrite !str_app_assoc.
Qed.

(** What precedes the last element of a rendered path. *)
Definition dir_part (rooted : bool) (es : list string) : string :=
  (if rooted then "/" else "") ++ (if decide (es = []) then "" else String.concat "/" es ++ "/").

Lemma render_snoc rooted es e :
  e ≠ "" -> render rooted (es ++ [e])%list = dir_part rooted es ++ e.
Proof.
  intros He. unfold render, dir_part. rewrite concat_snoc. destruct rooted; [done|].
  rewrite decide_False; [done|]. intros [_ H]%str_app_eq_nil. done.
Qed.

Lemma is_rooted_app s t : s ≠ "" -> is_rooted (s ++ t) = is_rooted s.
Proof.
  unfold is_rooted, HasPrefix. destruct s as [|c s]; [done|]. intros _.
  cbn [String.prefix String.append]. by destruct (ascii_dec "/" c), (s ++ t), s.
Qed.

Lemma clean_step_plain rooted st e : plain_elem e -> clean_step rooted st e = e :: st.
Proof.
  intros (? & ? & ? & _). unfold clean_step.
  rewrite decide_False by (intros [|]; congruence). by rewrite decide_False.
Qed.

(** Joining a plain file name onto a non-empty directory pushes one element. *)
Lemma path_Join_snoc dir e :
  dir ≠ "" -> plain_elem e ->
  path_Join [dir; e]
  = dir_part (is_rooted dir) (reverse (clean_elems (is_rooted dir) (split "/" dir))) ++ e.
Proof.
  intros Hdir He. unfold path_Join. rewrite decide_False by done.
  unfold path_Clean. cbn [String.concat]. rewrite decide_False.
  2:{ intros [H _]%str_app_eq_nil. done. }
  rewrite is_rooted_app by done. cbn [String.append].
  rewrite split_app, (split_no_sep _ e) by apply He.
  unfold clean_elems. rewrite foldl_app. cbn [foldl].
  rewrite clean_step_plain by done. rewrite reverse_cons. by apply render_snoc, He.
Qed.

Lemma path_Join_inj dir e e' :
  dir ≠ "" -> plain_elem e -> plain_elem e' ->
  path_Join [dir; e] = path_Join [dir; e'] -> e = e'.
Proof.
  intros Hd He He'. rewrite !path_Join_snoc by done. apply String.app_inj.
Qed.

Lemma dir_part_split rooted es :
  ∃ ws, ∀ e, plain_elem e -> split "/" (dir_part rooted es ++ e) = (ws ++ [e])%list.
Proof.
  assert (∀ e, plain_elem e -> split "/" e = [e]) as Hs by (intros e He; apply split_no_sep, He).
  unfold dir_part. destruct (decide (es = [])).
  - destruct rooted; [exists [""]|exists []]; intros x Hx; cbn; by rewrite Hs.
  - set (x := (if rooted then "/" else "") ++ String.concat "/" es).
    exists (split "/" x). intros e He.
    replace (((if rooted then "/" else "") ++ String.concat "/" es ++ "/") ++ e) with (x ++ String "/" e).
    { by rewrite split_app, (Hs e He). }
    unfold x. by rewrite !str_app_assoc.
Qed.

Lemma path_Clean_nonempty p : path_Clean p ≠ "".
Proof.
  unfold path_Clean, render. case_decide; [done|]. destruct (is_rooted p); [done|]. by case_decide.
Qed.

(** Joining twice: what precedes a plain file name does not depend on it. *)
Lemma path_Join_nested dir d2 :
  dir ≠ "" -> d2 ≠ "" ->
  ∃ pre, ∀ e, plain_elem e -> path_Join [dir; path_Join [d2; e]] = pre ++ e.
Proof.
  intros Hd Hd2. set (es := reverse (clean_elems (is_rooted d2) (split "/" d2))).
  destruct (dir_part_split (is_rooted d2) es) as [ws Hws].
  exists (dir_part (is_rooted dir) (reverse (clean_elems (is_rooted dir) (split "/" dir ++ ws)%list))).
  intros e He. rewrite (path_Join_snoc d2 e) by done. fold es.
  unfold path_Join. rewrite decide_False by done.
  unfold path_Clean. cbn [String.concat]. rewrite decide_False.
  2:{ intros [H _]%str_app_eq_nil. done. }
  rewrite is_rooted_app by done. cbn [String.append].
  rewrite split_app, Hws, app_assoc by done.
  unfold clean_elems at 1. rewrite foldl_app. cbn [foldl].
  rewrite clean_step_plain by done. rewrite reverse_cons. by apply render_snoc, He.
Qed.

Lemma path_Base_Join dir e : dir ≠ "" -> plain_elem e -> path_Base (path_Join [dir; e]) = e.
Proof.
  intros Hd He. rewrite path_Join_snoc by done. set (st := reverse _).
  unfold path_Base. rewrite decide_False.
  2:{ intros [_ ?]%str_app_eq_nil. by destruct He. }
  destruct (dir_part_split (is_rooted dir) st) as [ws Hws]. rewrite Hws by done.
  rewrite filter_app, filter_cons_True, filter_nil by apply He. by rewrite last_snoc.
Qed.

(** ** Lemmas: absolute paths

    [abs_path es] is the clean absolute path with the elements [es]. *)

Definition abs_path (es : list string) : string := "/" ++ String.concat "/" es.

Lemma abs_path_eq es : abs_path es = render true es.
Proof. done. Qed.

Lemma clean_elems_plain rooted es st :
  Forall plain_elem es -> foldl (clean_step rooted) st es = (reverse es ++ st)%list.
Proof.
  intros H. revert st. induction H as [|e es He Hes IH]; intros st; [done|].
  cbn [foldl]. rewrite clean_step_plain, IH by done. by rewrite reverse_cons, <- app_assoc.
Qed.

Lemma split_concat es :
  Forall plain_elem es -> es ≠ [] -> split "/" (String.concat "/" es) = es.
Proof.
  intros H. induction H as [|e es He Hes IH]; intros Hne; [done|].
  destruct es as [|e' es]; [cbn; apply split_no_sep, He|].
  change (String.concat "/" (e :: e' :: es)) with (e ++ String "/" (String.concat "/" (e' :: es))).
  rewrite split_app, IH by done. by rewrite split_no_sep by apply He.
Qed.

(** A trailing slash makes no difference. *)
Lemma path_Clean_abs es :
  Forall plain_elem es -> path_Clean (abs_path es) = abs_path es ∧ path_Clean (abs_path es ++ "/") = abs_path es.
Proof.
  intros H. unfold path_Clean, abs_path.
  assert (∀ l, clean_elems true (split "/" ("/" ++ String.concat "/" es ++ l))
    = clean_elems true ("" :: split "/" (String.concat "/" es ++ l))) as Hs.
  { intros l. cbn [String.append split]. by rewrite decide_True. }
  assert (∀ l : list string, clean_elems true ("" :: es ++ l)%list = foldl (clean_step true) (reverse es) l) as Hc.
  { intros l. unfold clean_elems. cbn. rewrite foldl_app, (clean_elems_plain true es) by done. by rewrite app_nil_r. }
  assert (∀ x, is_rooted ("/" ++ x) = true) as Hr by (intros x; by apply (is_rooted_app "/")).
  split; rewrite decide_False, ?str_app_assoc, Hr by done.
  - pose proof (Hs "") as Hs0. rewrite str_app_nil_r in Hs0. rewrite Hs0.
    destruct (decide (es = [])) as [->|Hne]; [done|]. pose proof (Hc []) as Hc0. rewrite app_nil_r in Hc0.
    rewrite split_concat, Hc0 by done. cbn [foldl]. by rewrite reverse_involutive.
  - rewrite Hs. destruct (decide (es = [])) as [->|Hne]; [done|].
    rewrite (split_app "/" (String.concat "/" es) ""), split_concat, Hc by done.
    change (foldl (clean_step true) (reverse es) (split "/" "")) with (reverse es). by rewrite reverse_involutive.
Qed.

Lemma path_Split_app d e : has_char "/" e = false -> path_Split (d ++ String "/" e) = (d ++ "/", e).
Proof.
  intros He. assert (∀ e', has_char "/" e' = false -> path_Split e' = ("", e')) as Hno.
  { intros e'. induction e' as [|c e' IH]; [done|]. cbn. intros [Hc%bool_decide_eq_false Hs]%orb_false_iff.
    rewrite IH by done. rewrite (decide_True (P := "" = "")) by done. by rewrite decide_False. }
  induction d as [|c d IH]; cbn [String.append path_Split].
  - rewrite Hno by done. by rewrite decide_True, decide_True.
  - rewrite IH. rewrite decide_False; [done|]. intros H. apply str_app_eq_nil in H as [_ ?]. done.
Qed.

(** The parent of a path, as [createAll] finds it. *)
Lemma path_Split_abs es e :
  plain_elem e -> path_Split (abs_path (es ++ [e])%list) = (if decide (es = []) then "/" else abs_path es ++ "/", e).
Proof.
  intros He. unfold abs_path. rewrite concat_snoc. case_decide.
  - cbn [String.append]. apply (path_Split_app ""), He.
  - rewrite str_app_assoc, <- (str_app_assoc "/"). exact (path_Split_app ("/" ++ String.concat "/" es) e (proj2 (proj2 (proj2 He)))).
Qed.

Lemma abs_path_inj es es' :
  Forall plain_elem es -> Forall plain_elem es' -> abs_path es = abs_path es' -> es = es'.
Proof.
  intros H H' Heq. unfold abs_path in Heq. injection Heq as Heq.
  assert (∀ l, Forall plain_elem l -> l = [] <-> String.concat "/" l = "") as Hnil.
  { intros l Hl. split; [by intros ->|]. destruct Hl as [|x l (Hx & _) _]; [done|].
    destruct l; cbn; [done|]. by intros [? _]%str_app_eq_nil. }
  destruct (decide (es = [])) as [->|Hne].
  - cbn in Heq. symmetry in Heq. by apply Hnil in Heq.
  - destruct (decide (es' = [])) as [->|Hne'].
    { apply Hnil in Heq; [done|done]. }
    rewrite <- (split_concat es), <- (split_concat es') by done. by rewrite Heq.
Qed.

Lemma abs_path_Join es e :
  Forall plain_elem es -> plain_elem e -> path_Join [abs_path es; e] = abs_path (es ++ [e])%list.
Proof.
  intros Hes He. rewrite path_Join_snoc by done.
  assert (is_rooted (abs_path es) = true) as Hr by (unfold abs_path; apply (is_rooted_app "/"); done).
  rewrite Hr. assert (reverse (clean_elems true (split "/" (abs_path es))) = es) as ->.
  { unfold abs_path. cbn [String.append split]. rewrite decide_True by done.
    destruct (decide (es = [])) as [->|Hne]; [done|]. rewrite split_concat by done.
    unfold clean_elems. cbn [foldl]. change (clean_step true [] "") with (@nil string).
    rewrite (clean_elems_plain true es) by done. by rewrite app_nil_r, reverse_involutive. }
  rewrite abs_path_eq, render_snoc by apply He. done.
Qed.

Lemma split_elems sep s x : x ∈ split sep s -> has_char sep x = false.
Proof.
  revert x. induction s as [|c s IH]; intros x; cbn [split].
  { by intros ->%list_elem_of_singleton. }
  case_decide as Hc; [intros [->|?]%elem_of_cons; [done|auto]|].
  destruct (split_cons sep s) as (w & ws & Hs). rewrite Hs in *.
  intros [->|Hx]%elem_of_cons; [|apply IH; by right]. cbn [has_char].
  rewrite bool_decide_false by done. apply IH. by left.
Qed.

Lemma clean_step_rooted st e :
  has_char "/" e = false -> Forall plain_elem st -> Forall plain_elem (clean_step true st e).
Proof.
  intros He Hst. unfold clean_step. case_decide as H1; [done|]. case_decide as H2.
  - destruct Hst as [|x st Hx Hst]; [constructor|]. destruct Hx as (_ & _ & Hx & _). by rewrite decide_False.
  - constructor; [|done]. unfold plain_elem. split_and!; [| |done|done]; intros ->; apply H1; auto.
Qed.

(** A rooted path is cleaned to the absolute path of plain elements. *)
Lemma path_Clean_rooted p :
  is_rooted p = true -> ∃ es, Forall plain_elem es ∧ path_Clean p = abs_path es.
Proof.
  intros Hr. unfold path_Clean. rewrite decide_False by (by intros ->). rewrite Hr.
  exists (reverse (clean_elems true (split "/" p))). split; [|done]. apply Forall_reverse.
  unfold clean_elems. assert (∀ l st, (∀ x, x ∈ l -> has_char "/" x = false) -> Forall plain_elem st ->
    Forall plain_elem (foldl (clean_step true) st l)) as H.
  { induction l as [|x l IH]; intros st Hl Hst; [done|]. apply IH; [intros; apply Hl; by right|].
    apply clean_step_rooted; [apply Hl; by left|done]. }
  apply H; [|constructor]. intros x. apply split_elems.
Qed.

Lemma path_Join_rooted dir e :
  is_rooted dir = true -> ∃ es, Forall plain_elem es ∧ path_Join [dir; e] = abs_path es.
Proof.
  intros Hr. assert (dir ≠ "") as Hd by (by intros ->). unfold path_Join. rewrite decide_False by done.
  apply path_Clean_rooted. cbn [String.concat]. by rewrite is_rooted_app.
Qed.

(** ** Lemmas: slicing at a separator *)

Lemma Index_app sep a b : has_char sep a = false -> Index (a ++ String sep b) sep = Z.of_nat (String.length a).
Proof.
  induction a as [|c a IH]; cbn [String.append Index String.length has_char]; intros H.
  - by rewrite decide_True.
  - apply orb_false_iff in H as [Hc%bool_decide_eq_false Ha]. rewrite decide_False by congruence.
    rewrite IH by done. destruct (Z.ltb_spec (Z.of_nat (String.length a)) 0); lia.
Qed.

Lemma Index_none sep a : has_char sep a = false -> Index a sep = (-1)%Z.
Proof.
  induction a as [|c a IH]; cbn [Index has_char]; intros H; [done|].
  apply orb_false_iff in H as [Hc%bool_decide_eq_false Ha]. rewrite decide_False by congruence.
  by rewrite IH.
Qed.

Lemma substring_all s : String.substring 0 (String.length s) s = s.
Proof. induction s as [|c s IH]; cbn; [done|]. by rewrite IH. Qed.

Lemma substring_prefix a b : String.substring 0 (String.length a) (a ++ b) = a.
Proof. induction a as [|c a IH]; cbn; [by destruct b|]. by rewrite IH. Qed.

Lemma substring_suffix a b : String.substring (String.length a) (String.length b) (a ++ b) = b.
Proof. induction a as [|c a IH]; cbn; [apply substring_all|]. by rewrite IH. Qed.

Lemma HasPrefix_app s t : HasPrefix (s ++ t) s = true.
Proof. unfold HasPrefix. apply prefix_correct. apply substring_prefix. Qed.

Lemma HasPrefix_length s t : HasPrefix s t = true -> (String.length t <= String.length s)%nat.
Proof.
  unfold HasPrefix. revert s. induction t as [|c t IH]; intros s; cbn; [lia|]. destruct s as [|c' s]; [done|].
  cbn. destruct (ascii_dec c c'); [|done]. intros H%IH. lia.
Qed.

Lemma HasSuffix_app s suf : HasSuffix (s ++ suf) suf = true.
Proof.
  unfold HasSuffix. rewrite str_length_app, Nat.add_sub, substring_suffix, bool_decide_true by done.
  rewrite andb_true_r. apply Nat.leb_le. lia.
Qed.

Lemma TrimSuffix_app s suf : TrimSuffix (s ++ suf) suf = s.
Proof. unfold TrimSuffix. by rewrite HasSuffix_app, str_length_app, Nat.add_sub, substring_prefix. Qed.

Lemma substring_split n s :
  (n <= String.length s)%nat -> String.substring 0 n s ++ String.substring n (String.length s - n) s = s.
Proof.
  revert n. induction s as [|c s IH]; intros [|n] H; cbn in H; [done|lia| |].
  - cbn [String.substring String.append]. f_equal. rewrite Nat.sub_0_r. cbn. f_equal. apply substring_all.
  - cbn [String.substring String.append String.length]. f_equal. apply IH. lia.
Qed.

Lemma HasSuffix_inv s suf : HasSuffix s suf = true -> s = TrimSuffix s suf ++ suf.
Proof.
  intros H. unfold TrimSuffix. rewrite H. unfold HasSuffix in H.
  apply andb_true_iff in H as [Hl%Nat.leb_le Hs%bool_decide_eq_true].
  set (n := (String.length s - String.length suf)%nat) in *.
  rewrite <- (substring_split n s) at 1 by lia. f_equal.
  by replace (String.length s - n)%nat with (String.length suf) by lia.
Qed.

Lemma str_last s : s ≠ "" -> ∃ t c, s = t ++ String c "".
Proof.
  induction s as [|c s IH]; [done|]. intros _. destruct s as [|d s]; [by exists "", c|].
  destruct IH as (t & e & ->); [done|]. by exists (String c t), e.
Qed.

Lemma str_snoc_inj a b x y : a ++ String x "" = b ++ String y "" -> a = b ∧ x = y.
Proof.
  revert b. induction a as [|c a IH]; intros [|d b] H.
  - by injection H as ->.
  - injection H as _ H. by destruct b.
  - injection H as _ H. by destruct a.
  - injection H as -> H. by apply IH in H as [-> ->].
Qed.

Lemma TrimPrefix_app pre s : TrimPrefix (pre ++ s) pre = s.
Proof.
  unfold TrimPrefix. rewrite HasPrefix_app, str_length_app. replace (_ + _ - _)%nat with (String.length s) by lia.
  apply substring_suffix.
Qed.

Lemma concat_split c s : String.concat (String c "") (split c s) = s.
Proof.
  induction s as [|x s IH]; [done|]. cbn [split]. destruct (split_cons c s) as (w & ws & E). rewrite E in *.
  case_decide as Hx; [subst x|].
  - change (String.concat (String c "") ("" :: w :: ws)) with ("" ++ String c "" ++ String.concat (String c "") (w :: ws)).
    by rewrite IH.
  - destruct ws as [|w2 ws].
    + cbn in *. by rewrite IH.
    + change (String.concat (String c "") (String x w :: w2 :: ws))
        with (String x (w ++ String c "" ++ String.concat (String c "") (w2 :: ws))). f_equal. exact IH.
Qed.

Lemma TrimPrefix_slash s : TrimPrefix ("/" ++ s) "/" = s.
Proof.
  unfold TrimPrefix, HasPrefix. cbn. destruct s; cbn; [done|]. f_equal. apply substring_all.
Qed.

(** ** Order

    Go's [<] on strings is the lexicographic order of their bytes. *)

Definition str_lt (s t : string) : Prop := String.ltb s t = true.

#[global] Instance str_lt_dec s t : Decision (str_lt s t).
Proof. unfold str_lt. apply _. Defined.

Lemma str_lt_iff s t : str_lt s t <-> String.le s t ∧ s ≠ t.
Proof.
  unfold str_lt, String.ltb, String.le, String.leb. destruct (String.compare s t) eqn:E.
  - apply String.compare_eq_iff in E as ->. split; [done|by intros [_ ?]].
  - split; [|done]. intros _. split; [done|]. intros ->.
    pose proof (String.compare_antisym t t) as H. rewrite E in H. done.
  - by split; [|intros [[]]].
Qed.

Lemma str_lt_le s t : str_lt s t -> String.le s t.
Proof. by intros [? _]%str_lt_iff. Qed.

Lemma str_lt_irrefl s : ¬ str_lt s s.
Proof. by intros [_ ?]%str_lt_iff. Qed.

Lemma str_lt_trans s t u : str_lt s t -> str_lt t u -> str_lt s u.
Proof.
  intros [H1 H1']%str_lt_iff [H2 H2']%str_lt_iff. apply str_lt_iff. split; [by transitivity t|].
  intros ->. apply H1'. by apply (anti_symm String.le).
Qed.

Lemma str_le_lt_trans s t u : String.le s t -> str_lt t u -> str_lt s u.
Proof.
  intros H [H2 H2']%str_lt_iff. apply str_lt_iff. split; [by transitivity t|].
  intros ->. apply H2'. by apply (anti_symm String.le).
Qed.

Lemma str_ltb_false s t : String.ltb s t = false <-> String.le t s.
Proof.
  unfold String.le, String.ltb, String.leb. rewrite (String.compare_antisym t s).
  by destruct (String.compare s t).
Qed.

(** Not greater and different is less. *)
Lemma str_le_ne s t : String.ltb t s = false -> s ≠ t -> str_lt s t.
Proof. intros ?%str_ltb_false ?. by apply str_lt_iff. Qed.
