(* ===== verification/Consistent.v ===== *)
(** * stathat.com/c/consistent: the consistent hashing ring

    [peers.go] keeps the shards of the cluster on a hash ring and asks it which
    shards hold a partition.  The ring is the vendored package
    [consistent/consistent.go]; the state below is its [Consistent] struct
    without the lock and the scratch buffer, and every method is one step.

    The first part models the package.  The second shows that the ring depends
    on the set of members only, and what [GetN] returns. *)

From Stdlib Require Import ZArith Lia Ascii String.
From stdpp Require Import base gmap sets list strings fin_maps sorting.
From S2P Require Import Prelude Hashcode GoStrings.

Open Scope string_scope.

(** ** hash/crc32 *)

(** One bit of the reflected CRC with the IEEE polynomial. *)
Definition crc32_bit (crc : Z) : Z :=
  if Z.testbit crc 0 then Z.lxor (Z.shiftr crc 1) 3988292384 else Z.shiftr crc 1.

Fixpoint crc32_update (crc : Z) (p : string) : Z :=
  match p with
  | "" => crc
  | String c p' => crc32_update (Nat.iter 8 crc32_bit (Z.lxor crc (byte_val c))) p'
  end.

Definition ChecksumIEEE (p : string) : Z :=
  Z.lxor (crc32_update 4294967295 p) 4294967295.

(** The check value of the CRC catalogue. *)
Example crc32_check : ChecksumIEEE "123456789" = 3421780262%Z.
Proof. vm_compute. reflexivity. Qed.

(** ** sort.Search *)

(** The loop of [sort.Search] between [i] and [j]; [fuel] bounds its length. *)
Fixpoint Search_loop (fuel i j : nat) (f : nat -> bool) : nat :=
  match fuel with
  | 0 => i
  | S fuel' =>
      if i <? j
      then let h := (i + (j - i) / 2)%nat in
           if f h then Search_loop fuel' i h f else Search_loop fuel' (h + 1) j f
      else i
  end%nat.

Definition sort_Search (n : nat) (f : nat -> bool) : nat := Search_loop n 0 n f.

(** ** The ring *)

Record Consistent := {
  circle : gmap Z string;
  members : gset string;
  sortedHashes : list Z;
  NumberOfReplicas : nat;
  count : Z;
}.

Definition ring_New : Consistent :=
  {| circle := ∅; members := ∅; sortedHashes := []; NumberOfReplicas := 20; count := 0 |}.

Definition eltKey (elt : string) (idx : nat) : string := Itoa (Z.of_nat idx) ++ elt.

(** Both branches of the source checksum the bytes of [key]: short keys are
    copied to a buffer first. *)
Definition hashKey (key : string) : Z := ChecksumIEEE key.

(** The points of an element on the circle, in the order of the loops. *)
Definition points (replicas : nat) (elt : string) : list Z :=
  (λ i, hashKey (eltKey elt i)) <$> seq 0 replicas.

Section ring.
Context {MZ : MapOrder Z} {MS : MapOrder string}.

Definition updateSortedHashes (circle : gmap Z string) : list Z :=
  merge_sort Z.le (range circle).*1.

Definition ring_add (c : Consistent) (elt : string) : Consistent :=
  let circ := foldl (λ m h, <[h := elt]> m) (circle c) (points (NumberOfReplicas c) elt) in
  {| circle := circ; members := {[ elt ]} ∪ members c; sortedHashes := updateSortedHashes circ;
     NumberOfReplicas := NumberOfReplicas c; count := count c + 1 |}.

Definition ring_remove (c : Consistent) (elt : string) : Consistent :=
  let circ := foldl (λ m h, delete h m) (circle c) (points (NumberOfReplicas c) elt) in
  {| circle := circ; members := members c ∖ {[ elt ]}; sortedHashes := updateSortedHashes circ;
     NumberOfReplicas := NumberOfReplicas c; count := count c - 1 |}.

(** The two loops of [Set]; the first ranges over the map it deletes from. *)
Definition remove_stale (elts : list string) (c : Consistent) (l : list string) : Consistent :=
  foldl (λ c k, if bool_decide (k ∈ elts) then c else ring_remove c k) c l.

Definition add_new (c : Consistent) (elts : list string) : Consistent :=
  foldl (λ c v, if bool_decide (v ∈ members c) then c else ring_add c v) c elts.

Definition ring_Set (c : Consistent) (elts : list string) : Consistent :=
  add_new (remove_stale elts c (range_set (members c))) elts.
End ring.

(** The index of the first point after [key], or 0.  [sort.Search] only calls
    its argument on indices in range. *)
Definition ring_search (c : Consistent) (key : Z) : nat :=
  let i := sort_Search (length (sortedHashes c))
             (λ x, match sortedHashes c !! x with Some h => (key <? h)%Z | None => false end) in
  if (length (sortedHashes c) <=? i)%nat then 0%nat else i.

(** [c.circle[c.sortedHashes[i]]]: [None] is the panic of a bad index. *)
Definition elem_at (c : Consistent) (i : nat) : option string :=
  h ← sortedHashes c !! i; Some (default "" (circle c !! h)).

(** The loop of [GetN]; [None] when [fuel] is used up, or a panic. *)
Fixpoint GetN_loop (fuel : nat) (c : Consistent) (n start i : nat) (res : list string)
    : option (list string) :=
  match fuel with
  | 0%nat => None
  | S fuel' =>
      if (i =? start)%nat then Some res
      else
        let i := if (length (sortedHashes c) <=? i)%nat then 0%nat else i in
        elem ← elem_at c i;
        let res := if bool_decide (elem ∈ res) then res else (res ++ [elem])%list in
        if (length res =? n)%nat then Some res
        else GetN_loop fuel' c n start (i + 1)%nat res
  end.

(** [GetN] with a bound on its loop; a negative [n] panics when the result is
    allocated. *)
Definition GetN_bounded (fuel : nat) (c : Consistent) (name : string) (n : Z) : option (res (list string)) :=
  if bool_decide (circle c = ∅) then Some (Err ErrEmptyCircle)
  else
    let n := if (count c <? n)%Z then count c else n in
    if (n <? 0)%Z then None
    else
      let start := ring_search c (hashKey name) in
      elem ← elem_at c start;
      if (n =? 1)%Z then Some (Ok [elem])
      else res ← GetN_loop fuel c (Z.to_nat n) start (start + 1)%nat [elem]; Some (Ok res).

(** One turn of the ring is enough, see [GetN_spec]. *)
Definition ring_GetN (c : Consistent) (name : string) (n : Z) : option (res (list string)) :=
  GetN_bounded (length (sortedHashes c) + 1) c name n.

(** ** Searching *)

Lemma Search_loop_spec n f fuel i j :
  (∀ x y, (x <= y < n)%nat -> f x = true -> f y = true) ->
  (i <= j <= n)%nat -> (j - i <= fuel)%nat ->
  (∀ x, (x < i)%nat -> f x = false) -> (∀ x, (j <= x < n)%nat -> f x = true) ->
  let r := Search_loop fuel i j f in
  (r <= n)%nat ∧ (∀ x, (x < r)%nat -> f x = false) ∧ (∀ x, (r <= x < n)%nat -> f x = true).
Proof.
  intros Hmono. revert i j. induction fuel as [|fuel IH]; intros i j Hij Hfuel Hlo Hhi; cbn zeta; cbn [Search_loop].
  { assert (i = j) as -> by lia. auto with lia. }
  destruct (Nat.ltb_spec i j).
  - set (h := (i + (j - i) / 2)%nat).
    assert (i <= h < j)%nat by (subst h; pose proof (Nat.div_lt (j - i) 2); lia).
    destruct (f h) eqn:E; apply IH; auto with lia.
    + intros x Hx. apply (Hmono h x); [lia|done].
    + intros x Hx. destruct (f x) eqn:E'; [|done].
      rewrite (Hmono x h) in E; [done|lia|done].
  - assert (i = j) as -> by lia. auto with lia.
Qed.

(** The binary search finds the first point after [key], wrapping round. *)
Lemma ring_search_spec c key :
  StronglySorted Z.le (sortedHashes c) ->
  let i := ring_search c key in
  (∀ x h, (x < i)%nat -> sortedHashes c !! x = Some h -> (h <= key)%Z)
  ∧ ((∃ h, sortedHashes c !! i = Some h ∧ (key < h)%Z)
     ∨ (i = 0%nat ∧ Forall (λ h, h <= key)%Z (sortedHashes c))).
Proof.
  intros Hs. unfold ring_search, sort_Search.
  set (f := λ x : nat, match sortedHashes c !! x with Some h => (key <? h)%Z | None => false end).
  set (n := length (sortedHashes c)).
  destruct (Search_loop_spec n f n 0 n) as (Hr & Hlo & Hhi); [|lia|lia|lia|lia|].
  { intros x y Hxy. unfold f.
    destruct (lookup_lt_is_Some_2 (sortedHashes c) y) as [hy Hy]; [subst n; lia|].
    destruct (lookup_lt_is_Some_2 (sortedHashes c) x) as [hx Hx]; [subst n; lia|].
    rewrite Hx, Hy. intros ?%Z.ltb_lt. apply Z.ltb_lt.
    destruct (decide (x = y)) as [->|]; [simplify_eq; lia|].
    assert (hx <= hy)%Z; [|lia].
    rewrite <- (take_drop y (sortedHashes c)) in Hs.
    eapply (StronglySorted_app_1_elem_of Z.le _ _ hx hy Hs).
    - apply list_elem_of_lookup. exists x. rewrite lookup_take_lt by lia. done.
    - apply list_elem_of_lookup. exists 0%nat. rewrite lookup_drop. by rewrite Nat.add_0_r. }
  set (r := Search_loop n 0 n f) in *.
  assert (∀ x h, (x < r)%nat -> sortedHashes c !! x = Some h -> (h <= key)%Z) as Hbefore.
  { intros x h Hx Hl. specialize (Hlo x Hx). unfold f in Hlo. rewrite Hl in Hlo. lia. }
  destruct (Nat.leb_spec n r) as [Hge|Hlt]; cbn.
  - split; [lia|]. right. split; [done|]. apply Forall_lookup. intros x h Hx.
    apply (Hbefore x); [|done]. apply lookup_lt_Some in Hx. subst n. lia.
  - split; [done|]. left. destruct (lookup_lt_is_Some_2 (sortedHashes c) r) as [h Hl]; [subst n; lia|].
    exists h. split; [done|]. specialize (Hhi r). unfold f in Hhi. rewrite Hl in Hhi.
    apply Z.ltb_lt, Hhi. lia.
Qed.

(** ** The loop of [GetN]

    [collect n res l] visits [l] and keeps the new elements until there are
    [n]; the flag says whether [n] was reached. *)
Fixpoint collect (n : nat) (res l : list string) : list string * bool :=
  match l with
  | [] => (res, false)
  | e :: l' =>
      let res := if bool_decide (e ∈ res) then res else (res ++ [e])%list in
      if (length res =? n)%nat then (res, true) else collect n res l'
  end.

Lemma collect_app n res l1 l2 :
  collect n res (l1 ++ l2)
  = let '(res', done) := collect n res l1 in if done then (res', true) else collect n res' l2.
Proof.
  revert res. induction l1 as [|e l1 IH]; intros res; [done|]. cbn. case_match; [done|]. apply IH.
Qed.

Lemma collect_spec n res l :
  NoDup res -> (length res < n)%nat ->
  let '(res', done) := collect n res l in
  NoDup res' ∧ (∀ e, e ∈ res' -> e ∈ res ∨ e ∈ l) ∧ (∀ e, e ∈ res -> e ∈ res')
  ∧ (if done then length res' = n else (length res' < n)%nat ∧ ∀ e, e ∈ l -> e ∈ res').
Proof.
  revert res. induction l as [|e l IH]; intros res Hnd Hlen; cbn.
  { split_and!; auto. by intros e ?%not_elem_of_nil. }
  set (res1 := if bool_decide (e ∈ res) then res else (res ++ [e])%list).
  assert (NoDup res1 ∧ (length res1 <= n)%nat ∧ (∀ x, x ∈ res1 <-> x ∈ res ∨ x = e)) as (Hnd1 & Hl1 & Hin).
  { subst res1. case_bool_decide as He; [split_and!; [done|lia|naive_solver]|].
    rewrite length_app. cbn. split_and!; [|lia|set_solver].
    apply NoDup_app. split_and!; [done|set_solver|apply NoDup_singleton]. }
  destruct (Nat.eqb_spec (length res1) n) as [Heq|Hne].
  - split_and!; [done| |set_solver|done]. intros x [?| ->]%Hin; [by left|right; left].
  - specialize (IH res1 Hnd1 ltac:(lia)). destruct (collect n res1 l) as [res' done].
    destruct IH as (? & Hsub & Hsup & Hdone). split_and!; [done| |set_solver|].
    + intros x [[?| ->]%Hin|?]%Hsub; [by left|right; left|right; by right].
    + destruct done; [done|]. destruct Hdone as [? Hall]. split; [done|].
      intros x [->|?]%elem_of_cons; [apply Hsup, Hin; by right|by apply Hall].
Qed.

(** The owners of the points in the order of the circle. *)
Definition owners (c : Consistent) : list string :=
  (λ h, default "" (circle c !! h)) <$> sortedHashes c.

Lemma elem_at_owners c i : elem_at c i = owners c !! i.
Proof. unfold elem_at, owners. rewrite list_lookup_fmap. by destruct (sortedHashes c !! i). Qed.

Lemma owners_length c : length (owners c) = length (sortedHashes c).
Proof. apply length_fmap. Qed.

(** A stretch of the circle that does not contain [start]. *)
Lemma GetN_loop_stretch c n start l fuel i res :
  (∀ j e, l !! j = Some e -> owners c !! (i + j)%nat = Some e) ->
  (start < i ∨ i + length l <= start)%nat ->
  GetN_loop (length l + fuel) c n start i res
  = let '(res', done) := collect n res l in
    if done then Some res' else GetN_loop fuel c n start (i + length l)%nat res'.
Proof.
  revert i res. induction l as [|e l IH]; intros i res Hl Hs.
  { cbn. by rewrite Nat.add_0_r. }
  cbn [length Nat.add GetN_loop collect].
  assert (owners c !! i = Some e) as Hi by (specialize (Hl 0%nat e); rewrite Nat.add_0_r in Hl; by apply Hl).
  pose proof (lookup_lt_Some _ _ _ Hi) as Hlt. rewrite owners_length in Hlt.
  cbn [length] in Hs.
  destruct (Nat.eqb_spec i start); [lia|]. destruct (Nat.leb_spec (length (sortedHashes c)) i); [lia|].
  rewrite elem_at_owners, Hi. cbn [mbind option_bind].
  case_match; [done|]. rewrite IH.
  - by replace (i + 1 + length l)%nat with (i + S (length l))%nat by lia.
  - intros j e' Hj. replace (i + 1 + j)%nat with (i + S j)%nat by lia. by apply Hl.
  - lia.
Qed.

(** One turn of the ring, when the loop either does not start at 0 or finds
    all it needs. *)
Lemma GetN_loop_turn c n start res fuel :
  (start < length (owners c))%nat -> (length (owners c) <= fuel)%nat ->
  let r := collect n res (drop (S start) (owners c) ++ take start (owners c)) in
  start ≠ 0%nat ∨ r.2 = true ->
  GetN_loop fuel c n start (start + 1)%nat res = Some r.1.
Proof.
  intros Hst Hfuel r Hr. subst r. rewrite collect_app in *.
  set (tl := drop (S start) (owners c)) in *. set (hd := take start (owners c)) in *.
  assert (length tl = length (owners c) - S start)%nat as Htl by apply length_drop.
  assert (length hd = start) as Hhd by (subst hd; rewrite length_take; lia).
  replace fuel with (length tl + (fuel - length tl))%nat by lia.
  rewrite GetN_loop_stretch.
  2: { intros j e. subst tl. rewrite lookup_drop. by replace (start + 1 + j)%nat with (S start + j)%nat by lia. }
  2: { lia. }
  destruct (collect n res tl) as [res1 [|]]; [done|].
  replace (start + 1 + length tl)%nat with (length (owners c)) by lia.
  destruct (decide (start = 0%nat)) as [->|Hne].
  { destruct Hr as [?|Hr]; [done|]. subst hd. by rewrite take_0 in Hr. }
  set (f := (fuel - length tl)%nat). assert (length hd + 1 <= f)%nat as Hf by (subst f; lia).
  assert (GetN_loop f c n start (length (owners c)) res1 = GetN_loop f c n start 0 res1) as ->.
  { destruct f as [|f']; [lia|]. cbn [GetN_loop]. rewrite owners_length in Hst |- *.
    destruct (Nat.eqb_spec (length (sortedHashes c)) start); [lia|].
    destruct (Nat.eqb_spec 0 start); [lia|]. destruct (Nat.leb_spec (length (sortedHashes c)) 0); [lia|].
    by destruct (Nat.leb_spec (length (sortedHashes c)) (length (sortedHashes c))); [|lia]. }
  replace f with (length hd + (f - length hd))%nat by lia. rewrite GetN_loop_stretch.
  2: { intros j e Hj. subst hd. apply lookup_take_Some in Hj as [Hj _]. done. }
  2: { lia. }
  destruct (collect n res1 hd) as [res2 [|]]; [done|]. cbn.
  destruct (f - length hd)%nat as [|f'] eqn:E; [lia|]. cbn. rewrite Hhd, Nat.eqb_refl. done.
Qed.

(** ** The ring as a function of its members *)

(** No point of one member is a point of another. *)
Definition collision_free (r : nat) (M : gset string) : Prop :=
  ∀ e e' h, e ∈ M -> e' ∈ M -> h ∈ points r e -> h ∈ points r e' -> e = e'.

Record ring_ok (c : Consistent) : Prop := {
  ro_circle : ∀ h e, circle c !! h = Some e <-> e ∈ members c ∧ h ∈ points (NumberOfReplicas c) e;
  ro_sorted : StronglySorted Z.le (sortedHashes c);
  ro_hashes : sortedHashes c ≡ₚ (map_to_list (circle c)).*1;
  ro_count : count c = Z.of_nat (size (members c));
  ro_replicas : (0 < NumberOfReplicas c)%nat;
}.

Lemma insert_all_lookup (e : string) l (m : gmap Z string) h :
  foldl (λ m h, <[h := e]> m) m l !! h = if bool_decide (h ∈ l) then Some e else m !! h.
Proof.
  revert m. induction l as [|x l IH]; intros m; cbn; [done|].
  rewrite IH, lookup_insert. repeat case_bool_decide; repeat case_decide; set_solver.
Qed.

Lemma delete_all_lookup l (m : gmap Z string) h :
  foldl (λ m h, delete h m) m l !! h = if bool_decide (h ∈ l) then None else m !! h.
Proof.
  revert m. induction l as [|x l IH]; intros m; cbn; [done|].
  rewrite IH, lookup_delete. repeat case_bool_decide; repeat case_decide; set_solver.
Qed.

Section ring_props.
Context {MZ : MapOrder Z} {MS : MapOrder string}.

Lemma updateSortedHashes_ok m :
  StronglySorted Z.le (updateSortedHashes m) ∧ updateSortedHashes m ≡ₚ (map_to_list m).*1.
Proof.
  unfold updateSortedHashes. split; [apply StronglySorted_merge_sort; typeclasses eauto|].
  by rewrite merge_sort_Permutation, range_perm.
Qed.

Lemma ring_New_ok : ring_ok ring_New.
Proof.
  split; cbn; try done; [|constructor|lia]. intros h e. rewrite lookup_empty. set_solver.
Qed.

Lemma ring_add_ok c elt :
  ring_ok c -> elt ∉ members c -> collision_free (NumberOfReplicas c) ({[ elt ]} ∪ members c) ->
  ring_ok (ring_add c elt).
Proof.
  intros [Hc _ _ Hn Hr] Hnew Hcf. destruct (updateSortedHashes_ok (circle (ring_add c elt))).
  split; try done; cbn.
  - intros h e. rewrite insert_all_lookup, elem_of_union, elem_of_singleton.
    case_bool_decide as Hh; [|rewrite Hc; naive_solver].
    split; [intros; simplify_eq; auto|]. intros [Hin Hp]. f_equal.
    apply (Hcf _ _ h); set_solver.
  - rewrite size_union, size_singleton by set_solver. lia.
Qed.

Lemma ring_remove_ok c elt :
  ring_ok c -> elt ∈ members c -> collision_free (NumberOfReplicas c) (members c) ->
  ring_ok (ring_remove c elt).
Proof.
  intros [Hc _ _ Hn Hr] Hin Hcf. destruct (updateSortedHashes_ok (circle (ring_remove c elt))).
  split; try done; cbn.
  - intros h e. rewrite delete_all_lookup, elem_of_difference, elem_of_singleton.
    case_bool_decide as Hh; [|rewrite Hc; naive_solver].
    split; [done|]. intros [[He Hne] Hp]. destruct Hne. by apply (Hcf _ _ h).
  - rewrite size_difference, size_singleton by set_solver.
    assert (size (members c) ≠ 0)%nat; [|lia]. intros ?%size_empty_inv. set_solver.
Qed.

Lemma collision_free_mono r M M' : M' ⊆ M -> collision_free r M -> collision_free r M'.
Proof. intros Hs H e e' h ???. apply H; set_solver. Qed.

(** The first loop of [Set] keeps the members that are asked for. *)
Lemma remove_stale_ok elts l c :
  ring_ok c -> collision_free (NumberOfReplicas c) (members c) -> NoDup l -> list_to_set l ⊆ members c ->
  let c' := remove_stale elts c l in
  ring_ok c' ∧ NumberOfReplicas c' = NumberOfReplicas c
  ∧ ∀ e, e ∈ members c' <-> e ∈ members c ∧ (e ∈ l -> e ∈ elts).
Proof.
  revert c. induction l as [|k l IH]; intros c Hok Hcf Hnd Hsub; cbn.
  { split_and!; [done|done|set_solver]. }
  apply NoDup_cons in Hnd as [Hk Hnd]. case_bool_decide as Hin.
  - destruct (IH c) as (H1 & H2 & H3); [done|done|done|set_solver|].
    split_and!; [done|done|]. intros e. rewrite H3. set_solver.
  - destruct (IH (ring_remove c k)) as (H1 & H2 & H3);
      [apply ring_remove_ok; set_solver| |done|cbn; set_solver|].
    { eapply collision_free_mono; [|exact Hcf]. cbn. set_solver. }
    split_and!; [done|done|]. intros e. rewrite H3. cbn. set_solver.
Qed.

Lemma add_new_ok elts c (E : gset string) :
  ring_ok c -> collision_free (NumberOfReplicas c) E -> members c ⊆ E -> list_to_set elts ⊆ E ->
  let c' := add_new c elts in
  ring_ok c' ∧ NumberOfReplicas c' = NumberOfReplicas c ∧ members c' = members c ∪ list_to_set elts.
Proof.
  revert c. induction elts as [|v elts IH]; intros c Hok Hcf HM Hsub; cbn.
  { split_and!; [done|done|set_solver]. }
  case_bool_decide as Hin.
  - destruct (IH c) as (H1 & H2 & H3); [done|done|set_solver|set_solver|].
    split_and!; [done|done|]. etrans; [exact H3|]. set_solver.
  - destruct (IH (ring_add c v)) as (H1 & H2 & H3);
      [apply ring_add_ok; [done|done|] |done|cbn; set_solver|set_solver|].
    { eapply collision_free_mono; [|exact Hcf]. set_solver. }
    split_and!; [done|done|]. etrans; [exact H3|]. cbn. set_solver.
Qed.

Lemma ring_Set_ok c elts :
  ring_ok c -> collision_free (NumberOfReplicas c) (members c) ->
  collision_free (NumberOfReplicas c) (list_to_set elts) ->
  let c' := ring_Set c elts in
  ring_ok c' ∧ NumberOfReplicas c' = NumberOfReplicas c ∧ members c' = list_to_set elts.
Proof.
  intros Hok Hcf Hcf'. unfold ring_Set.
  destruct (remove_stale_ok elts (range_set (members c)) c) as (H1 & H2 & H3); [done|done| | |].
  { rewrite range_set_perm. apply NoDup_elements. }
  { rewrite range_set_perm. set_solver. }
  assert (∀ e, e ∈ members (remove_stale elts c (range_set (members c))) <-> e ∈ members c ∧ e ∈ elts) as H4.
  { intros e. rewrite H3. rewrite range_set_perm, elem_of_elements. naive_solver. }
  destruct (add_new_ok elts (remove_stale elts c (range_set (members c))) (list_to_set elts))
    as (H5 & H6 & H7); [done|by rewrite H2|set_solver|done|].
  split_and!; [done|congruence|]. rewrite H7. set_solver.
Qed.
End ring_props.

Lemma ring_unique c1 c2 :
  ring_ok c1 -> ring_ok c2 -> members c1 = members c2 -> NumberOfReplicas c1 = NumberOfReplicas c2 -> c1 = c2.
Proof.
  intros [Hc1 Hs1 Hh1 Hn1 _] [Hc2 Hs2 Hh2 Hn2 _] HM HR.
  assert (circle c1 = circle c2) as Hc.
  { apply map_eq. intros h. apply option_eq. intros e. by rewrite Hc1, Hc2, HM, HR. }
  assert (sortedHashes c1 = sortedHashes c2) as Hs.
  { apply (StronglySorted_unique Z.le); [done|done|]. by rewrite Hh1, Hh2, Hc. }
  destruct c1, c2; cbn in *. congruence.
Qed.

Lemma owners_members c e : ring_ok c -> e ∈ owners c <-> e ∈ members c.
Proof.
  intros [Hc Hs Hh Hn Hr]. unfold owners. rewrite list_elem_of_fmap. setoid_rewrite Hh. split.
  - intros (h & -> & ([h' e'] & -> & Hin%elem_of_map_to_list)%list_elem_of_fmap). cbn. rewrite Hin. cbn.
    by apply Hc in Hin as [? _].
  - intros He. assert (circle c !! hashKey (eltKey e 0) = Some e) as Hp.
    { apply Hc. split; [done|]. apply list_elem_of_fmap. exists 0%nat. split; [done|]. apply elem_of_seq. lia. }
    exists (hashKey (eltKey e 0)). rewrite Hp. split; [done|].
    apply list_elem_of_fmap. exists (hashKey (eltKey e 0), e). split; [done|]. by apply elem_of_map_to_list.
Qed.

Lemma ring_search_lt c key : sortedHashes c ≠ [] -> (ring_search c key < length (sortedHashes c))%nat.
Proof.
  intros Hne. unfold ring_search. destruct (Nat.leb_spec (length (sortedHashes c)) (sort_Search (length (sortedHashes c))
    (λ x, match sortedHashes c !! x with Some h => (key <? h)%Z | None => false end))) as [H|H]; [|done].
  destruct (sortedHashes c); [done|cbn; lia].
Qed.

Lemma collect_head n e res l : head res = Some e -> head (collect n res l).1 = Some e.
Proof.
  revert res. induction l as [|x l IH]; intros res Hr; cbn; [done|].
  assert (head (if bool_decide (x ∈ res) then res else (res ++ [x])%list) = Some e) as Hr'
    by (case_bool_decide; [done|]; by destruct res).
  destruct (_ =? n)%nat; [exact Hr'|by apply IH].
Qed.

(** A full turn finds as many members as asked for, if there are that many. *)
Lemma collect_turn c i e0 n :
  ring_ok c -> owners c !! i = Some e0 -> (1 < n <= size (members c))%nat ->
  let r := collect n [e0] (drop (S i) (owners c) ++ take i (owners c)) in
  r.2 = true ∧ NoDup r.1 ∧ (∀ e, e ∈ r.1 -> e ∈ members c) ∧ length r.1 = n ∧ head r.1 = Some e0.
Proof.
  intros Hok He0 Hn r.
  assert (∀ e, e ∈ members c <-> e = e0 ∨ e ∈ (drop (S i) (owners c) ++ take i (owners c))%list) as Hsplit.
  { intros e. rewrite <- (owners_members c e Hok), <- (take_drop_middle (owners c) i e0 He0) at 1. set_solver. }
  pose proof (collect_spec n [e0] (drop (S i) (owners c) ++ take i (owners c)) (NoDup_singleton e0)
                ltac:(cbn; lia)) as Hcol.
  pose proof (collect_head n e0 [e0] (drop (S i) (owners c) ++ take i (owners c)) eq_refl) as Hhead.
  fold r in Hcol, Hhead. destruct r as [res []]; destruct Hcol as (Hnd & Hsub & Hsup & Hdone); cbn.
  - split_and!; [done|done| |done|done]. intros e He. apply Hsplit. apply Hsub in He. set_solver.
  - exfalso. destruct Hdone as [Hlt Hall].
    assert (members c ⊆ list_to_set res) as Hincl.
    { intros e [->|He]%Hsplit; apply elem_of_list_to_set; [set_solver|auto]. }
    apply subseteq_size in Hincl. rewrite size_list_to_set in Hincl by done. lia.
Qed.

Lemma ring_nonempty c :
  ring_ok c -> members c ≠ ∅ ->
  circle c ≠ ∅ ∧ sortedHashes c ≠ [] ∧ (1 <= size (members c))%nat.
Proof.
  intros Hok Hne.
  assert (sortedHashes c ≠ []) as Hsh.
  { apply set_choose_L in Hne as [e He%(owners_members c e Hok)]. intros Hnil. unfold owners in He.
    rewrite Hnil in He. by apply not_elem_of_nil in He. }
  split_and!; [|done|].
  - intros Hc. apply Hsh. pose proof (ro_hashes c Hok) as Hh. rewrite Hc, map_to_list_empty in Hh.
    by apply Permutation_nil_r in Hh.
  - destruct (size (members c)) eqn:E; [|lia]. by apply size_empty_inv, leibniz_equiv in E.
Qed.

(** What [GetN] returns on a good ring: it terminates within one turn. *)
Lemma GetN_spec c name n :
  ring_ok c -> members c ≠ ∅ -> (1 <= n)%Z ->
  ∃ l, ring_GetN c name n = Some (Ok l) ∧ NoDup l ∧ (∀ e, e ∈ l -> e ∈ members c)
  ∧ length l = Nat.min (Z.to_nat n) (size (members c))
  ∧ head l = owners c !! ring_search c (hashKey name).
Proof.
  intros Hok Hne Hn. destruct (ring_nonempty c Hok Hne) as (Hcirc & Hsh & Hsz).
  set (start := ring_search c (hashKey name)).
  assert (start < length (owners c))%nat as Hst by (rewrite owners_length; by apply ring_search_lt).
  destruct (lookup_lt_is_Some_2 (owners c) start Hst) as [e0 He0].
  set (n' := if (count c <? n)%Z then count c else n).
  assert (n' = Z.of_nat (Nat.min (Z.to_nat n) (size (members c)))) as Hn'.
  { subst n'. rewrite (ro_count c Hok). destruct (Z.ltb_spec (Z.of_nat (size (members c))) n); lia. }
  unfold ring_GetN, GetN_bounded. fold n' start. rewrite bool_decide_false by done.
  destruct (Z.ltb_spec n' 0) as [|_]; [lia|]. rewrite elem_at_owners, He0. cbn [mbind option_bind].
  destruct (Z.eqb_spec n' 1) as [H1|H1].
  { exists [e0]. split_and!; [done|apply NoDup_singleton| |cbn; lia|done].
    intros e ->%list_elem_of_singleton. apply owners_members; [done|]. by eapply list_elem_of_lookup_2. }
  destruct (collect_turn c start e0 (Z.to_nat n') Hok He0 ltac:(lia)) as (Hd & Hnd & Hsub & Hlen & Hhead).
  rewrite GetN_loop_turn; [|done|rewrite owners_length; lia|by right].
  eexists. split; [done|]. split_and!; [done|done|lia|done].
Qed.

(** ** The theorems *)

(** The ring after a history of [Set]s, the latest last. *)
Definition ring_after {MZ : MapOrder Z} {MS : MapOrder string} (history : list (list string)) : Consistent :=
  foldl ring_Set ring_New history.

Lemma ring_after_snoc {MZ : MapOrder Z} {MS : MapOrder string} history elts :
  ring_after (history ++ [elts]) = ring_Set (ring_after history) elts.
Proof. unfold ring_after. by rewrite foldl_app. Qed.

Lemma ring_after_ok {MZ : MapOrder Z} {MS : MapOrder string} history :
  Forall (λ l, collision_free 20 (list_to_set l)) history ->
  ring_ok (ring_after history) ∧ NumberOfReplicas (ring_after history) = 20%nat
  ∧ members (ring_after history) = list_to_set (default [] (last history)).
Proof.
  induction history as [|elts history IH] using rev_ind; intros Hcf.
  { split_and!; [apply ring_New_ok|done|done]. }
  apply Forall_app in Hcf as [Hcf Hlast]. apply Forall_inv in Hlast.
  destruct IH as (Hok & HR & HM); [done|].
  rewrite ring_after_snoc, last_snoc.
  destruct (ring_Set_ok (ring_after history) elts) as (? & ? & ?);
    [done| |rewrite HR; exact Hlast|split_and!; [done|congruence|assumption]].
  rewrite HR, HM. destruct (last history) as [l|] eqn:E; cbn; [|intros e e' h; set_solver].
  apply last_Some_elem_of in E. eapply Forall_forall in Hcf; done.
Qed.

(** C12: the ring picks replicas.  After any history of [Set]s, [GetN] with a
    positive [n] returns, within one turn of the ring, exactly
    [min n (number of members)] pairwise distinct members, the first of which
    owns the first point after the hash of the name, going round.  The points
    of the members are assumed not to collide. *)
Theorem GetN_replicas (MZ : MapOrder Z) (MS : MapOrder string) history elts name n :
  Forall (λ l, collision_free 20 (list_to_set l)) (history ++ [elts]) ->
  elts ≠ [] -> (1 <= n)%Z ->
  let c := ring_after (history ++ [elts]) in
  ∃ l, ring_GetN c name n = Some (Ok l) ∧ NoDup l ∧ (∀ e, e ∈ l -> e ∈ elts)
  ∧ length l = Nat.min (Z.to_nat n) (size (list_to_set elts : gset string))
  ∧ ∃ i h e, head l = Some e ∧ sortedHashes c !! i = Some h ∧ h ∈ points 20 e
    ∧ (∀ x h', (x < i)%nat -> sortedHashes c !! x = Some h' -> (h' <= hashKey name)%Z)
    ∧ ((hashKey name < h)%Z ∨ (i = 0%nat ∧ Forall (λ h', h' <= hashKey name)%Z (sortedHashes c))).
Proof.
  intros Hcf Hne Hn c. destruct (ring_after_ok _ Hcf) as (Hok & HR & HM). fold c in Hok, HR, HM.
  rewrite last_snoc in HM. cbn in HM.
  assert (members c ≠ ∅) as Hmem by (rewrite HM; destruct elts; set_solver).
  destruct (GetN_spec c name n Hok Hmem Hn) as (l & Hget & Hnd & Hsub & Hlen & Hhead).
  exists l. split_and!; [done|done|set_solver|congruence|].
  destruct (ring_search_spec c (hashKey name) (ro_sorted c Hok)) as [Hbefore Hfound].
  destruct (ring_nonempty c Hok Hmem) as (_ & Hsh & _).
  pose proof (ring_search_lt c (hashKey name) Hsh) as Hlt.
  set (i := ring_search c (hashKey name)) in *.
  destruct (lookup_lt_is_Some_2 (sortedHashes c) i Hlt) as [h Hh].
  assert (h ∈ dom (circle c)) as [e He]%elem_of_dom.
  { apply list_elem_of_lookup_2 in Hh. rewrite (ro_hashes c Hok) in Hh.
    apply list_elem_of_fmap in Hh as ([h' e] & -> & Hin%elem_of_map_to_list). by apply elem_of_dom. }
  exists i, h, e. split_and!; [|done| |done|].
  - rewrite Hhead. unfold owners. rewrite list_lookup_fmap, Hh. cbn. by rewrite He.
  - apply (ro_circle c Hok) in He as [_ He]. by rewrite HR in He.
  - destruct Hfound as [(h1 & ? & ?)|?]; [left|by right]. by simplify_eq.
Qed.

(** C13: as long as no two members of any list a node was given share a point
    of the ring ([collision_free]), the ring depends on the current members
    only.  Two nodes that have seen different such histories, and whose maps
    are iterated in different orders, have the same ring as soon as the last
    lists they were given hold the same members; so they pick the same
    replicas for every name.  Members that do share a point (the ids "1" and
    "11", whose points 11 and 1 are both the hash of "111") can leave two
    nodes with different rings ([colliding_members_disagree]). *)
Theorem ring_history_independent (MZ1 MZ2 : MapOrder Z) (MS1 MS2 : MapOrder string) hist1 hist2 l1 l2 :
  Forall (λ l, collision_free 20 (list_to_set l)) (hist1 ++ [l1]) ->
  Forall (λ l, collision_free 20 (list_to_set l)) (hist2 ++ [l2]) ->
  (∀ e, e ∈ l1 <-> e ∈ l2) ->
  @ring_after MZ1 MS1 (hist1 ++ [l1]) = @ring_after MZ2 MS2 (hist2 ++ [l2]).
Proof.
  intros H1 H2 Hl.
  destruct (@ring_after_ok MZ1 MS1 _ H1) as (? & ? & HM1).
  destruct (@ring_after_ok MZ2 MS2 _ H2) as (? & ? & HM2).
  apply ring_unique; [done|done| |congruence].
  rewrite HM1, HM2, !last_snoc. cbn. set_solver.
Qed.

(** A sufficient condition that evaluates. *)
Lemma collision_free_NoDup r l : NoDup (l ≫= points r) -> collision_free r (list_to_set l).
Proof.
  induction l as [|x l IH]; intros Hnd; [intros e e' h; set_solver|]. cbn in Hnd.
  apply NoDup_app in Hnd as (_ & Hx & Hl). specialize (IH Hl).
  intros e e' h He He' Hh Hh'. rewrite elem_of_list_to_set in He, He'.
  apply elem_of_cons in He as [->|He], He' as [->|He']; [done|exfalso..|apply (IH e e' h); set_solver].
  - apply (Hx h); [done|]. apply list_elem_of_bind. by exists e'.
  - apply (Hx h); [done|]. apply list_elem_of_bind. by exists e.
Qed.

Module RingExample.
Definition order_Z : MapOrder Z := list_order.
Definition order_string : MapOrder string := list_order.
#[local] Existing Instances order_Z order_string.

Definition shards : list string := ["shard1"; "shard2"; "shard3"].
Definition fewer : list string := ["shard1"; "shard2"].

Lemma example_free :
  collision_free 20 (list_to_set shards) ∧ collision_free 20 (list_to_set fewer).
Proof.
  split; apply collision_free_NoDup; apply (bool_decide_unpack (NoDup _)); vm_compute; exact I.
Qed.

Lemma GetN_replicas_witness :
  let c := ring_after ([fewer] ++ [shards]) in
  ∃ l, ring_GetN c "partitions/db/1:00000" 2 = Some (Ok l) ∧ NoDup l ∧ (∀ e, e ∈ l -> e ∈ shards)
  ∧ length l = Nat.min (Z.to_nat 2) (size (list_to_set shards : gset string))
  ∧ ∃ i h e, head l = Some e ∧ sortedHashes c !! i = Some h ∧ h ∈ points 20 e
    ∧ (∀ x h', (x < i)%nat -> sortedHashes c !! x = Some h' -> (h' <= hashKey "partitions/db/1:00000")%Z)
    ∧ ((hashKey "partitions/db/1:00000" < h)%Z
       ∨ (i = 0%nat ∧ Forall (λ h', h' <= hashKey "partitions/db/1:00000")%Z (sortedHashes c))).
Proof.
  destruct example_free as [H1 H2].
  apply (GetN_replicas order_Z order_string [fewer] shards "partitions/db/1:00000" 2); [|done|lia].
  cbn. by repeat constructor.
Defined.

Lemma ring_history_independent_witness :
  ring_after ([fewer] ++ [shards]) = ring_after ([] ++ [reverse shards]).
Proof.
  destruct example_free as [H1 H2].
  apply (ring_history_independent order_Z order_Z order_string order_string [fewer] [] shards (reverse shards)).
  - cbn. by repeat constructor.
  - apply Forall_singleton. intros e e' h He He'. rewrite elem_of_list_to_set, elem_of_reverse in He, He'.
    apply H1; by apply elem_of_list_to_set.
  - intros e. by rewrite elem_of_reverse.
Defined.

(** The condition that members share no point is needed: the point that "1"
    and "11" share belongs to the one that was added last, so two nodes that
    learned of the two shards in different orders have different rings. *)
Theorem colliding_members_disagree :
  ¬ collision_free 20 {[ "1"; "11" ]}
  ∧ ring_after [["1"]; ["1"; "11"]] ≠ ring_after [["11"]; ["1"; "11"]].
Proof.
  split.
  - intros H. assert (hashKey "111" ∈ points 20 "1" ∧ hashKey "111" ∈ points 20 "11") as [H1 H2].
    { split; apply (bool_decide_unpack _); vm_compute; exact I. }
    specialize (H "1" "11" _ ltac:(set_solver) ltac:(set_solver) H1 H2). done.
  - intros H. apply (f_equal (λ c, circle c !! hashKey "111")) in H. vm_compute in H. discriminate H.
Qed.

Example ring_pick :
  ring_GetN (ring_after [shards]) "partitions/db/1:00000" 2 = Some (Ok ["shard2"; "shard3"]).
Proof. vm_compute. reflexivity. Qed.
End RingExample.
