(* ===== verification/Coord.v ===== *)
(** * What the cluster code needs of zookeeper

    [peers.go] and [partitions.go] publish ephemeral nodes through the
    [zkWatcher] and receive the children of the nodes they watch.  The
    interface [Coord] has the four calls they make; [CoordLaws] says what the
    calls do to the set of nodes the watcher keeps alive and to the set of
    nodes it watches.  [ZkWatcher.v] models [zk_watcher.go] and is the
    instance. *)

From Stdlib Require Import ZArith String.
From stdpp Require Import base gmap sets strings.
From S2P Require Import Prelude GoStrings.

Open Scope string_scope.

Class Coord := {
  zkw : Type;
  createEphemeral : string -> zkw -> zkw;
  removeEphemeral : string -> zkw -> zkw;
  watchChildren : string -> zkw -> zkw;
  removeWatch : string -> zkw -> zkw;
}.

Class CoordLaws (C : Coord) := {
  zk_prefix : zkw -> string;
  registered : zkw -> gset string;
  watching : zkw -> gset string;

  createEphemeral_ok : ∀ n z,
    zk_prefix (createEphemeral n z) = zk_prefix z
    ∧ registered (createEphemeral n z) = {[ path_Join [zk_prefix z; n] ]} ∪ registered z
    ∧ watching (createEphemeral n z) = watching z;
  removeEphemeral_ok : ∀ n z,
    zk_prefix (removeEphemeral n z) = zk_prefix z
    ∧ registered (removeEphemeral n z) = registered z ∖ {[ path_Join [zk_prefix z; n] ]}
    ∧ watching (removeEphemeral n z) = watching z;
  watchChildren_ok : ∀ n z,
    zk_prefix (watchChildren n z) = zk_prefix z
    ∧ registered (watchChildren n z) = registered z
    ∧ watching (watchChildren n z) = {[ path_Join [zk_prefix z; n] ]} ∪ watching z;
  removeWatch_ok : ∀ n z,
    zk_prefix (removeWatch n z) = zk_prefix z
    ∧ registered (removeWatch n z) = registered z
    ∧ watching (removeWatch n z) = watching z ∖ {[ path_Join [zk_prefix z; n] ]};
}.

(** ** The simplest watcher: it only keeps its two sets. *)

Module SetCoord.
#[local] Instance coord : Coord := {|
  zkw := string * gset string * gset string;
  createEphemeral n z := (z.1.1, {[ path_Join [z.1.1; n] ]} ∪ z.1.2, z.2);
  removeEphemeral n z := (z.1.1, z.1.2 ∖ {[ path_Join [z.1.1; n] ]}, z.2);
  watchChildren n z := (z.1.1, z.1.2, {[ path_Join [z.1.1; n] ]} ∪ z.2);
  removeWatch n z := (z.1.1, z.1.2, z.2 ∖ {[ path_Join [z.1.1; n] ]});
|}.

#[local] Instance laws : CoordLaws coord.
Proof.
  refine {| zk_prefix := λ z : zkw, z.1.1; registered := λ z : zkw, z.1.2; watching := λ z : zkw, z.2 |};
    by intros n [[? ?] ?].
Defined.
End SetCoord.
