(* ===== verification/Peers.v ===== *)
(** * peers.go: the nodes of the cluster

    A node registers itself under [nodes/] as [shardID@address] and keeps the
    list of the others.  The shards are the members of a hash ring; [pick] asks
    the ring which shards replicate a partition.  The methods run under the
    lock of the struct, so each is one step; messages are not modelled. *)

From Stdlib Require Import ZArith Lia Ascii String.
From stdpp Require Import base gmap sets list strings fin_maps sorting.
From S2P Require Import Prelude GoStrings Consistent Coord.

Open Scope string_scope.
Set Default Proof Using "Type".

Definition peerSelf : string := "(self)".

Record peer := { peer_shardID : string; peer_address : string }.

#[global] Instance peer_eq_dec : EqDecision peer.
Proof. solve_decision. Defined.
#[global] Instance peer_countable : Countable peer.
Proof.
  refine (inj_countable' (λ p, (peer_shardID p, peer_address p))
            (λ x, {| peer_shardID := x.1; peer_address := x.2 |}) _).
  by intros [].
Defined.

Record peers := {
  ps_shardID : string;
  ps_address : string;
  ps_peers : gset peer;
  ps_ring : Consistent;
}.

(** The name a node registers. *)
Definition node_name (shardID address : string) : string := shardID ++ "@" ++ address.

(** The struct [watchPeers] starts with, before the first update. *)
Definition new_peers (shardID address : string) : peers :=
  {| ps_shardID := shardID; ps_address := address; ps_peers := ∅; ps_ring := ring_New |}.

Definition watchPeers {C : Coord} (shardID address : string) (z : zkw) : peers * zkw :=
  let p := new_peers shardID address in
  let node := path_Join ["nodes"; node_name (ps_shardID p) (ps_address p)] in
  let z := createEphemeral node z in
  (p, watchChildren "nodes" z).

(** The first loop of [updatePeers]; [None] is the panic of [parts[1]]. *)
Fixpoint scan_nodes (self : string) (addrs : list string) (newPeers : gset peer) (shards : gset string)
    : option (gset peer * gset string) :=
  match addrs with
  | [] => Some (newPeers, shards)
  | node :: addrs' =>
      let parts := SplitN2 "@" node in
      id ← parts !! 0%nat;
      addr ← parts !! 1%nat;
      if bool_decide (addr = self) then scan_nodes self addrs' newPeers shards
      else scan_nodes self addrs' ({[ {| peer_shardID := id; peer_address := addr |} ]} ∪ newPeers)
             ({[ id ]} ∪ shards)
  end.

Section peers.
Context {MZ : MapOrder Z} {MS : MapOrder string} {MP : MapOrder peer}.

Definition updatePeers (p : peers) (addrs : list string) : option peers :=
  found ← scan_nodes (ps_address p) addrs ∅ ∅;
  let '(newPeers, shards) := found in
  let allShards := range_set ({[ ps_shardID p ]} ∪ shards) in
  Some {| ps_shardID := ps_shardID p; ps_address := ps_address p; ps_peers := newPeers;
          ps_ring := ring_Set (ps_ring p) allShards |}.

Definition getAll (p : peers) : list string := peer_address <$> range_set (ps_peers p).

(** [None] when the ring search does not return. *)
Definition pick (p : peers) (partitionId : string) (n : Z) : option (list string) :=
  r ← ring_GetN (ps_ring p) partitionId n;
  let picked := match r with Ok l => l | Err _ => [] end in
  let shards : gset string := list_to_set picked in
  let addrs := peer_address <$> filter (λ q, peer_shardID q ∈ shards) (range_set (ps_peers p)) in
  Some (if bool_decide (ps_shardID p ∈ shards) then (addrs ++ [peerSelf])%list else addrs).

(** One turn of [sync]: an update, or a lost connection.  A closed channel
    delivers [nil], which is skipped like a disconnection. *)
Inductive sync_event := Updates (nodes : option (list string)) | Disconnected.

Definition sync_step (p : peers) (ev : sync_event) : option peers :=
  let nodes := match ev with Updates nodes => nodes | Disconnected => None end in
  match nodes with
  | Some nodes => updatePeers p nodes
  | None => Some p
  end.

Fixpoint sync_run (p : peers) (evs : list sync_event) : option peers :=
  match evs with
  | [] => Some p
  | ev :: evs' => p' ← sync_step p ev; sync_run p' evs'
  end.
End peers.

(** [waitToConverge] on a clock: [resets] are the times at which [sync] sends a
    reset, in order; the timer wins a tie.  The result is the time of return. *)
Fixpoint waitToConverge (dur now : Z) (resets : list Z) : Z :=
  match resets with
  | [] => now + dur
  | t :: resets' => if t <? now + dur then waitToConverge dur t resets' else now + dur
  end%Z.

Definition display (p : peer) : string :=
  if bool_decide (peer_shardID p = peer_address p) then peer_address p
  else peer_address p ++ " (" ++ peer_shardID p ++ ")".

(** ** Updates *)

(** A node as it appears in the watched directory. *)
Definition entry (sa : string * string) : string := node_name sa.1 sa.2.

Definition as_peer (sa : string * string) : peer := {| peer_shardID := sa.1; peer_address := sa.2 |}.

(** Shard ids are free of the separator. *)
Definition well_named (sa : string * string) : Prop := has_char "@" sa.1 = false.

Lemma entry_parts sa : well_named sa -> SplitN2 "@" (entry sa) = [sa.1; sa.2].
Proof. intros Hs. unfold entry, node_name. cbn [String.append]. by apply SplitN2_app. Qed.

Lemma scan_nodes_ok self nodes N S :
  Forall well_named nodes ->
  ∃ N' S', scan_nodes self (entry <$> nodes) N S = Some (N', S')
  ∧ (∀ q, q ∈ N' <-> q ∈ N ∨ ∃ sa, sa ∈ nodes ∧ sa.2 ≠ self ∧ q = as_peer sa)
  ∧ (∀ s, s ∈ S' <-> s ∈ S ∨ ∃ sa, sa ∈ nodes ∧ sa.2 ≠ self ∧ s = sa.1).
Proof.
  revert N S. induction nodes as [|sa nodes IH]; intros N S Hw.
  { exists N, S. split_and!; [done|set_solver..]. }
  apply Forall_cons in Hw as [Hsa Hw]. rewrite fmap_cons. cbn [scan_nodes].
  rewrite entry_parts by done. cbn. case_bool_decide as Hself.
  - destruct (IH N S Hw) as (N' & S' & H & HN & HS). exists N', S'. split; [done|].
    setoid_rewrite HN. setoid_rewrite HS. setoid_rewrite elem_of_cons. naive_solver.
  - destruct (IH ({[as_peer sa]} ∪ N) ({[sa.1]} ∪ S) Hw) as (N' & S' & H & HN & HS).
    exists N', S'. split; [done|]. setoid_rewrite HN. setoid_rewrite HS. setoid_rewrite elem_of_cons.
    split; set_solver.
Qed.

(** The ring is good and holds shards of the universe [U] only. *)
Record peers_ok (U : gset string) (p : peers) : Prop := {
  po_ring : ring_ok (ps_ring p);
  po_replicas : NumberOfReplicas (ps_ring p) = 20%nat;
  po_universe : members (ps_ring p) ⊆ U;
  po_self : ps_shardID p ∈ U;
}.

(** A directory listing whose shards are in the universe. *)
Definition listing_ok (U : gset string) (nodes : list (string * string)) : Prop :=
  Forall (λ sa, well_named sa ∧ sa.1 ∈ U) nodes.

Definition event_of (o : option (list (string * string))) : sync_event :=
  match o with Some nodes => Updates (Some (entry <$> nodes)) | None => Disconnected end.

Definition event_ok (U : gset string) (o : option (list (string * string))) : Prop :=
  from_option (listing_ok U) True o.

Section peers_props.
Context {MZ : MapOrder Z} {MS : MapOrder string} {MP : MapOrder peer}.
Context (U : gset string) (HU : collision_free 20 U).

Lemma new_peers_ok sh addr : sh ∈ U -> peers_ok U (new_peers sh addr).
Proof using HU. split; [apply ring_New_ok|done|set_solver|done]. Qed.

Lemma updatePeers_ok p nodes :
  peers_ok U p -> listing_ok U nodes ->
  ∃ p', updatePeers p (entry <$> nodes) = Some p' ∧ peers_ok U p'
  ∧ ps_shardID p' = ps_shardID p ∧ ps_address p' = ps_address p
  ∧ (∀ q, q ∈ ps_peers p' <-> ∃ sa, sa ∈ nodes ∧ sa.2 ≠ ps_address p ∧ q = as_peer sa)
  ∧ (∀ s, s ∈ members (ps_ring p')
          <-> s = ps_shardID p ∨ ∃ sa, sa ∈ nodes ∧ sa.2 ≠ ps_address p ∧ s = sa.1).
Proof using HU.
  intros [Hok HR HM Hself] Hl.
  destruct (scan_nodes_ok (ps_address p) nodes ∅ ∅) as (N & S & Hscan & HN & HS).
  { eapply Forall_impl; [exact Hl|]. naive_solver. }
  unfold updatePeers. rewrite Hscan. cbn [mbind option_bind].
  assert ({[ps_shardID p]} ∪ S ⊆ U) as Hsub.
  { apply union_subseteq. split; [set_solver|]. intros s [?|(sa & Hin & _ & ->)]%HS; [set_solver|].
    by eapply Forall_forall in Hl as [_ ?]. }
  set (all := range_set ({[ps_shardID p]} ∪ S)).
  assert (list_to_set all = {[ps_shardID p]} ∪ S :> gset string) as Hall.
  { apply set_eq. intros s. subst all. by rewrite elem_of_list_to_set, range_set_perm, elem_of_elements. }
  destruct (ring_Set_ok (ps_ring p) all) as (H1 & H2 & H3); [done| | |].
  { rewrite HR. by eapply collision_free_mono. }
  { rewrite HR, Hall. by eapply collision_free_mono. }
  eexists. split; [done|]. cbn. split_and!; [|done|done|set_solver|].
  - split; cbn; [done|congruence|by rewrite H3, Hall|done].
  - intros s. rewrite H3, Hall. set_solver.
Qed.

Lemma sync_run_ok p hist :
  peers_ok U p -> Forall (event_ok U) hist ->
  ∃ p', sync_run p (event_of <$> hist) = Some p' ∧ peers_ok U p'
  ∧ ps_shardID p' = ps_shardID p ∧ ps_address p' = ps_address p.
Proof using HU.
  revert p. induction hist as [|[nodes|] hist IH]; intros p Hp Hh; [by exists p| |];
    apply Forall_cons in Hh as [Hn Hh]; cbn.
  - destruct (updatePeers_ok p nodes Hp Hn) as (p1 & -> & Hp1 & Hs1 & Ha1 & _). cbn.
    destruct (IH p1 Hp1 Hh) as (p2 & ? & ? & ? & ?). exists p2. split_and!; congruence.
  - by apply IH.
Qed.

Lemma sync_run_app p l1 l2 : sync_run p (l1 ++ l2) = (sync_run p l1 ≫= λ p', sync_run p' l2).
Proof.
  revert p. induction l1 as [|ev l1 IH]; intros p; [done|]. cbn.
  destruct (sync_step p ev); [apply IH|done].
Qed.

End peers_props.

(** [pick] in terms of the shards the ring returns. *)
Lemma pick_ok {MP : MapOrder peer} p id n l :
  ring_GetN (ps_ring p) id n = Some (Ok l) ->
  (∀ q, q ∈ ps_peers p -> peer_address q ≠ peerSelf) ->
  ∃ addrs, pick p id n = Some addrs
  ∧ (peerSelf ∈ addrs <-> ps_shardID p ∈ l)
  ∧ (∀ a, a ≠ peerSelf -> a ∈ addrs <-> ∃ q, q ∈ ps_peers p ∧ peer_address q = a ∧ peer_shardID q ∈ l).
Proof.
  intros Hget Hns. unfold pick. rewrite Hget. cbn [mbind option_bind]. eexists. split; [done|].
  set (addrs := peer_address <$> _).
  assert (∀ a, a ∈ addrs <-> ∃ q, q ∈ ps_peers p ∧ peer_address q = a ∧ peer_shardID q ∈ l) as Ha.
  { intros a. subst addrs. rewrite list_elem_of_fmap. setoid_rewrite list_elem_of_filter.
    setoid_rewrite elem_of_list_to_set. setoid_rewrite range_set_perm. setoid_rewrite elem_of_elements.
    naive_solver. }
  assert (peerSelf ∉ addrs) as Hself by (rewrite Ha; naive_solver).
  case_bool_decide as Hin; rewrite elem_of_list_to_set in Hin; [|naive_solver].
  split; [set_solver|]. intros a Hne. rewrite elem_of_app, Ha, list_elem_of_singleton. naive_solver.
Qed.

(** ** The theorems *)

Lemma address_unique (cluster : list (string * string)) sa sa' :
  NoDup cluster.*2 -> sa ∈ cluster -> sa' ∈ cluster -> sa.2 = sa'.2 -> sa = sa'.
Proof.
  intros Hnd [i Hi]%list_elem_of_lookup [j Hj]%list_elem_of_lookup Heq.
  assert (i = j) as ->; [|by simplify_eq].
  eapply (NoDup_lookup cluster.*2); [done|..]; rewrite list_lookup_fmap, ?Hi, ?Hj; cbn; by rewrite ?Heq.
Qed.

(** The state of a node whose last listing is the cluster. *)
Lemma converged U (HU : collision_free 20 U) (MZ : MapOrder Z) (MS : MapOrder string)
    (cluster listing : list (string * string)) sh addr hist :
  listing_ok U cluster -> NoDup cluster.*2 -> (sh, addr) ∈ cluster -> Forall (event_ok U) hist ->
  listing ≡ₚ cluster ->
  ∃ p, sync_run (new_peers sh addr) (event_of <$> (hist ++ [Some listing])%list) = Some p
  ∧ peers_ok U p ∧ ps_shardID p = sh ∧ ps_address p = addr
  ∧ members (ps_ring p) = list_to_set cluster.*1
  ∧ ∀ q, q ∈ ps_peers p <-> ∃ sa, sa ∈ cluster ∧ sa.2 ≠ addr ∧ q = as_peer sa.
Proof.
  intros Hl Hnd Hin Hhist Hperm.
  assert (listing_ok U listing) as Hll by (unfold listing_ok; by rewrite Hperm).
  assert (sh ∈ U) as HshU by (eapply Forall_forall in Hl; [|exact Hin]; by destruct Hl).
  destruct (sync_run_ok U HU (new_peers sh addr) hist (new_peers_ok U HU sh addr HshU) Hhist)
    as (p1 & Hrun & Hp1 & Hs1 & Ha1). cbn in Hs1, Ha1.
  destruct (updatePeers_ok U HU p1 listing Hp1 Hll) as (p & Hupd & Hp & Hs & Ha & Hpeers & Hmem).
  rewrite Hs1 in Hs, Hmem. rewrite Ha1 in Ha, Hpeers, Hmem. exists p. split_and!; [|done..| |].
  - rewrite fmap_app, sync_run_app, Hrun. cbn. by rewrite Hupd.
  - apply set_eq. intros s. rewrite Hmem, elem_of_list_to_set, list_elem_of_fmap. setoid_rewrite Hperm. split.
    + intros [->|(sa & ? & ? & ->)]; [by exists (sh, addr)|by exists sa].
    + intros (sa & -> & Hsa). destruct (decide (sa.2 = addr)) as [Heq|]; [left|right; eauto].
      by rewrite (address_unique cluster sa (sh, addr)).
  - intros q. rewrite Hpeers. by setoid_rewrite Hperm.
Qed.

(** The cluster agrees on replicas.  Fix a cluster (shard and address of every
    node).  For each partition id there is one set of shards, of size
    [min replication (number of shards)], such that every node whose last
    listing shows this cluster, whatever it saw before and in whatever order its
    maps are iterated, picks exactly those shards: it finds itself among the
    replicas iff its shard is in the set, and another node iff that node's shard
    is. *)
Lemma replicas_agree (U : gset string) (cluster : list (string * string)) (partitionId : string) (n : Z) :
  collision_free 20 U -> listing_ok U cluster -> cluster ≠ [] -> (1 <= n)%Z ->
  NoDup cluster.*2 -> peerSelf ∉ cluster.*2 ->
  ∃ S : gset string,
    S ⊆ list_to_set cluster.*1
    ∧ size S = Nat.min (Z.to_nat n) (size (list_to_set cluster.*1 : gset string))
    ∧ ∀ (MZ : MapOrder Z) (MS : MapOrder string) (MP : MapOrder peer) sh addr hist listing,
        (sh, addr) ∈ cluster -> Forall (event_ok U) hist -> listing ≡ₚ cluster ->
        ∃ p addrs, sync_run (new_peers sh addr) (event_of <$> (hist ++ [Some listing])%list) = Some p
        ∧ pick p partitionId n = Some addrs
        ∧ (peerSelf ∈ addrs <-> sh ∈ S)
        ∧ ∀ sh' addr', (sh', addr') ∈ cluster -> addr' ≠ addr -> addr' ∈ addrs <-> sh' ∈ S.
Proof.
  intros HU Hl Hne Hn Hnd Hns.
  set (c0 := @ring_after list_order list_order [cluster.*1]).
  assert (list_to_set cluster.*1 ⊆ U) as HcU.
  { intros s. rewrite elem_of_list_to_set, list_elem_of_fmap. intros (sa & -> & Hin).
    by eapply Forall_forall in Hl as [_ ?]. }
  destruct (@ring_after_ok list_order list_order [cluster.*1]) as (Hok0 & HR0 & HM0).
  { apply Forall_singleton. by eapply collision_free_mono. }
  fold c0 in Hok0, HR0, HM0. cbn [last from_option id] in HM0.
  destruct (GetN_spec c0 partitionId n Hok0) as (l & Hget & Hndl & Hsub & Hlen & _); [|done|].
  { rewrite HM0. destruct cluster as [|sa cl]; [done|]. rewrite fmap_cons. cbn. set_solver. }
  exists (list_to_set l). split; [rewrite <- HM0; set_solver|].
  split; [rewrite size_list_to_set by done; congruence|].
  intros MZ MS MP sh addr hist listing Hin Hhist Hperm.
  destruct (converged U HU MZ MS cluster listing sh addr hist Hl Hnd Hin Hhist Hperm)
    as (p & Hrun & Hp & Hs & Ha & Hmem & Hpeers).
  assert (ps_ring p = c0) as Hring.
  { apply ring_unique; [apply Hp|done|congruence|by rewrite (po_replicas U p Hp)]. }
  rewrite <- Hring in Hget.
  assert (∀ sa, sa ∈ cluster -> sa.2 ≠ peerSelf) as Hns'.
  { intros sa Hsa Heq. apply Hns, list_elem_of_fmap. by exists sa. }
  destruct (pick_ok p partitionId n l Hget) as (addrs & Hpick & Hself & Hother).
  { intros q (sa & Hsa & _ & ->)%Hpeers. by apply Hns'. }
  exists p, addrs. split_and!; [done|done|by rewrite Hself, Hs, elem_of_list_to_set|].
  intros sh' addr' Hin' Hne'. rewrite Hother, elem_of_list_to_set by (by apply (Hns' (sh', addr'))).
  setoid_rewrite Hpeers. split.
  - intros (q & (sa & Hsa & _ & ->) & Heq & Hl'). cbn in Heq, Hl'.
    by rewrite (address_unique cluster sa (sh', addr')) in Hl'.
  - intros Hs'. exists (as_peer (sh', addr')). split_and!; [|done|done]. by exists (sh', addr').
Qed.

(** A node does not start before its view of the cluster is stable: when
    [waitToConverge] returns, at least [dur] has passed since it was called,
    and none of the resets came within the last [dur]. *)
Theorem waitToConverge_stable dur now resets :
  (0 < dur)%Z -> Sorted Z.le (now :: resets) ->
  let r := waitToConverge dur now resets in
  (now + dur <= r)%Z ∧ ∀ t, t ∈ resets -> (t <= r - dur ∨ r <= t)%Z.
Proof.
  intros Hdur Hs r. subst r. revert now Hs. induction resets as [|t resets IH]; intros now Hs; cbn.
  { split; [lia|set_solver]. }
  apply Sorted_StronglySorted in Hs; [|typeclasses eauto].
  apply StronglySorted_inv in Hs as [Hs Hall].
  apply Forall_cons in Hall as [Ht Hall].
  destruct (Z.ltb_spec t (now + dur)).
  - destruct (IH t (StronglySorted_Sorted Hs)) as [Hr Hq]. split; [lia|].
    intros t' [->|?]%elem_of_cons; [lia|auto].
  - split; [lia|]. apply StronglySorted_inv in Hs as [_ Hall']. intros t' [->|Hin]%elem_of_cons; [lia|].
    eapply Forall_forall in Hall'; [|done]. lia.
Qed.

Module PeersExample.
Lemma waitToConverge_stable_witness :
  waitToConverge 10 0 [3; 9; 30]%Z = 19%Z
  ∧ (0 + 10 <= waitToConverge 10 0 [3; 9; 30]%Z)%Z
  ∧ ∀ t, t ∈ [3; 9; 30]%Z -> (t <= waitToConverge 10 0 [3; 9; 30]%Z - 10 ∨ waitToConverge 10 0 [3; 9; 30]%Z <= t)%Z.
Proof.
  split; [reflexivity|]. apply (waitToConverge_stable 10 0 [3; 9; 30]%Z); [lia|].
  repeat constructor; lia.
Defined.
End PeersExample.
