(* ===== verification/Partitions.v ===== *)
(** * partitions.go: the partitions of one version and where they are

    A node selects the partitions it replicates, keeps the ones it has loaded
    ([local]) and the ones its peers advertise ([remote]), and publishes its own
    through zookeeper.  [ready] is a channel that is closed once every
    partition is available somewhere; closing it twice would panic.  The
    methods run under the lock of the struct, so each is one step on the struct
    and on the watcher of [Coord.v]; [None] is a panic. *)

From Stdlib Require Import ZArith Lia Ascii String.
From stdpp Require Import base gmap sets list strings fin_maps.
From S2P Require Import Prelude GoStrings Consistent Coord Peers.

Open Scope string_scope.
Set Default Proof Using "Type".

(** Of [peers] only the address, which does not change, is used once the
    partitions are picked. *)
Record partitions := {
  pt_peers : option peers;
  pt_db : string;
  pt_version : string;
  pt_zkPath : string;
  pt_numPartitions : Z;
  pt_replication : Z;
  pt_selected : gset Z;
  pt_local : gset Z;
  pt_remote : gmap Z (list string);
  pt_numMissing : Z;
  pt_ready : bool;       (** the channel is closed *)
  pt_readyClosed : bool;
  pt_shouldAdvertise : bool;
}.

Definition set_selected (p : partitions) (s : gset Z) : partitions :=
  {| pt_peers := pt_peers p; pt_db := pt_db p; pt_version := pt_version p; pt_zkPath := pt_zkPath p;
     pt_numPartitions := pt_numPartitions p; pt_replication := pt_replication p; pt_selected := s;
     pt_local := pt_local p; pt_remote := pt_remote p; pt_numMissing := pt_numMissing p;
     pt_ready := pt_ready p; pt_readyClosed := pt_readyClosed p; pt_shouldAdvertise := pt_shouldAdvertise p |}.

Definition set_places (p : partitions) (local : gset Z) (remote : gmap Z (list string)) : partitions :=
  {| pt_peers := pt_peers p; pt_db := pt_db p; pt_version := pt_version p; pt_zkPath := pt_zkPath p;
     pt_numPartitions := pt_numPartitions p; pt_replication := pt_replication p; pt_selected := pt_selected p;
     pt_local := local; pt_remote := remote; pt_numMissing := pt_numMissing p;
     pt_ready := pt_ready p; pt_readyClosed := pt_readyClosed p; pt_shouldAdvertise := pt_shouldAdvertise p |}.

Definition set_missing (p : partitions) (n : Z) (ready closed : bool) : partitions :=
  {| pt_peers := pt_peers p; pt_db := pt_db p; pt_version := pt_version p; pt_zkPath := pt_zkPath p;
     pt_numPartitions := pt_numPartitions p; pt_replication := pt_replication p; pt_selected := pt_selected p;
     pt_local := pt_local p; pt_remote := pt_remote p; pt_numMissing := n;
     pt_ready := ready; pt_readyClosed := closed; pt_shouldAdvertise := pt_shouldAdvertise p |}.

Definition set_advertise (p : partitions) (b : bool) : partitions :=
  {| pt_peers := pt_peers p; pt_db := pt_db p; pt_version := pt_version p; pt_zkPath := pt_zkPath p;
     pt_numPartitions := pt_numPartitions p; pt_replication := pt_replication p; pt_selected := pt_selected p;
     pt_local := pt_local p; pt_remote := pt_remote p; pt_numMissing := pt_numMissing p;
     pt_ready := pt_ready p; pt_readyClosed := pt_readyClosed p; pt_shouldAdvertise := b |}.

Definition partitionId (p : partitions) (partition : Z) : string :=
  pt_zkPath p ++ ":" ++ fmt05d partition.

(** The last element of the path a partition is advertised under. *)
Definition partition_entry (address : string) (partition : Z) : string :=
  fmt05d partition ++ "@" ++ address.

(** [None]: [p.peers] is [nil]. *)
Definition partitionZKNode (p : partitions) (partition : Z) : option string :=
  ps ← pt_peers p; Some (path_Join [pt_zkPath p; partition_entry (ps_address ps) partition]).

(** [close(p.ready)] panics on a closed channel. *)
Definition close_ready (p : partitions) : option bool := if pt_ready p then None else Some true.

(** Partition [i] is neither local nor advertised by a peer. *)
Definition unavailable (p : partitions) (i : Z) : bool :=
  negb (bool_decide (i ∈ pt_local p)) && negb (bool_decide (is_Some (pt_remote p !! i))).

Definition updateMissing (p : partitions) : option partitions :=
  let missing := Z.of_nat (length (filter (λ i, unavailable p i = true) (seqZ 0 (pt_numPartitions p)))) in
  if (missing =? 0)%Z && negb (pt_readyClosed p)
  then ready ← close_ready p; Some (set_missing p missing ready true)
  else Some (set_missing p missing (pt_ready p) (pt_readyClosed p)).

(** The loop of [updateRemotePartitions]; [None] is the panic of [parts[1]]. *)
Fixpoint scan_remote (self : string) (nodes : list string) (remote : gmap Z (list string))
    : option (gmap Z (list string)) :=
  match nodes with
  | [] => Some remote
  | node :: nodes' =>
      let parts := SplitN2 "@" node in
      first ← parts !! 0%nat;
      let partition := (Atoi first).1 in
      host ← parts !! 1%nat;
      if bool_decide (host ≠ self)
      then scan_remote self nodes' (<[partition := (default [] (remote !! partition) ++ [host])%list]> remote)
      else scan_remote self nodes' remote
  end.

Definition updateRemotePartitions (p : partitions) (nodes : list string) : option partitions :=
  match pt_peers p with
  | None => Some p
  | Some ps =>
      remote ← scan_remote (ps_address ps) nodes ∅;
      updateMissing (set_places p (pt_local p) remote)
  end.

(** [sync]: the listings that are received, until the channel is closed. *)
Fixpoint partitions_sync (updates : list (list string)) (p : partitions) : option partitions :=
  match updates with
  | [] => Some p
  | nodes :: updates' => p ← updateRemotePartitions p nodes; partitions_sync updates' p
  end.

Definition missing (p : partitions) : Z := pt_numMissing p.

Definition needed (p : partitions) : gset Z := filter (λ i, i ∉ pt_local p) (pt_selected p).

Definition have (p : partitions) (partition : Z) : bool := bool_decide (partition ∈ pt_local p).

Definition getPeers (p : partitions) (partition : Z) : list string :=
  match pt_peers p with
  | None => []
  | Some _ => default [] (pt_remote p !! partition)
  end.

(** The struct before its partitions are picked. *)
Definition unpicked (ps : option peers) (db version : string) (n repl : Z) : partitions :=
  {| pt_peers := ps; pt_db := db; pt_version := version;
     pt_zkPath := path_Join ["partitions"; db; version];
     pt_numPartitions := n; pt_replication := repl;
     pt_selected := ∅; pt_local := ∅; pt_remote := ∅; pt_numMissing := 0;
     pt_ready := false; pt_readyClosed := false; pt_shouldAdvertise := false |}.

Section partitions.
Context {MZ : MapOrder Z} {MS : MapOrder string} {MP : MapOrder peer} {C : Coord}.

(** The loop of [pickLocalPartitions]. *)
Fixpoint pick_loop (p : partitions) (l : list Z) (selected : gset Z) : option (gset Z) :=
  match l with
  | [] => Some selected
  | i :: l' =>
      match pt_peers p with
      | Some ps =>
          replicas ← pick ps (partitionId p i) (pt_replication p);
          pick_loop p l' (if bool_decide (peerSelf ∈ replicas) then {[ i ]} ∪ selected else selected)
      | None => pick_loop p l' ({[ i ]} ∪ selected)
      end
  end.

Definition pickLocalPartitions (p : partitions) : option partitions :=
  selected ← pick_loop p (seqZ 0 (pt_numPartitions p)) ∅; Some (set_selected p selected).

(** [f] on the node of each partition of a list. *)
Fixpoint each_node (f : string -> zkw -> zkw) (p : partitions) (l : list Z) (z : zkw) : option zkw :=
  match l with
  | [] => Some z
  | partition :: l' => node ← partitionZKNode p partition; each_node f p l' (f node z)
  end.

Definition updateLocalPartitions (p : partitions) (local : gset Z) (z : zkw) : option (partitions * zkw) :=
  p ← updateMissing (set_places p (pt_local p ∪ local) (pt_remote p));
  if pt_shouldAdvertise p
  then z ← each_node createEphemeral p (range_set (pt_local p)) z; Some (p, z)
  else Some (p, z).

Definition advertisePartitions (p : partitions) (z : zkw) : option (partitions * zkw) :=
  match pt_peers p with
  | None => Some (p, z)
  | Some _ =>
      let p := set_advertise p true in
      z ← each_node createEphemeral p (range_set (pt_local p)) z; Some (p, z)
  end.

Definition unadvertisePartitions (p : partitions) (z : zkw) : option (partitions * zkw) :=
  match pt_peers p with
  | None => Some (p, z)
  | Some _ =>
      let p := set_advertise p false in
      z ← each_node removeEphemeral p (range_set (pt_local p)) z; Some (p, z)
  end.

Definition partitions_close (p : partitions) (z : zkw) : option (partitions * zkw) :=
  match pt_peers p with
  | None => Some (p, z)
  | Some _ =>
      pz ← unadvertisePartitions p z;
      let '(p, z) := pz in
      Some (p, removeWatch (pt_zkPath p) z)
  end.

(** [first] is the listing the new watch delivers first; [sync] then calls
    [updateRemotePartitions] for each further one. *)
Definition watchPartitions (ps : option peers) (db version : string) (numPartitions replication : Z)
    (first : list string) (z : zkw) : option (partitions * zkw) :=
  p ← pickLocalPartitions (unpicked ps db version numPartitions replication);
  match ps with
  | Some _ =>
      let z := watchChildren (pt_zkPath p) z in
      p ← updateRemotePartitions p first;
      p ← updateMissing p;
      Some (p, z)
  | None => p ← updateMissing p; Some (p, z)
  end.
End partitions.

(** ** Counting what is missing *)

Definition count_missing (p : partitions) : Z :=
  Z.of_nat (length (filter (λ i, unavailable p i = true) (seqZ 0 (pt_numPartitions p)))).

Record pt_ok (p : partitions) : Prop := {
  ok_missing : pt_numMissing p = count_missing p;
  ok_closed : pt_ready p = pt_readyClosed p;
  ok_ready : pt_numMissing p = 0%Z -> pt_ready p = true;
}.

(** Everything but the count and the channel is unchanged. *)
Definition same_places (p p' : partitions) : Prop :=
  p' = set_missing p (pt_numMissing p') (pt_ready p') (pt_readyClosed p').

Lemma updateMissing_ok p :
  pt_ready p = pt_readyClosed p ->
  ∃ p', updateMissing p = Some p' ∧ pt_ok p' ∧ same_places p p'
  ∧ (pt_ready p' = true <-> pt_ready p = true ∨ count_missing p' = 0%Z).
Proof.
  intros Hc. unfold updateMissing. fold (count_missing p).
  destruct (Z.eqb_spec (count_missing p) 0) as [H0|H0]; cbn [andb].
  - destruct (pt_readyClosed p) eqn:E; cbn [negb].
    + eexists. split; [done|]. split; [by split|]. split; [done|]. cbn. naive_solver.
    + unfold close_ready. rewrite Hc. eexists. split; [done|]. split; [by split|].
      split; [done|]. cbn. unfold count_missing in *. cbn. naive_solver.
  - eexists. split; [done|]. split; [by split|]. split; [done|].
    unfold count_missing in *. cbn. naive_solver.
Qed.

Lemma unavailable_spec p i :
  unavailable p i = true <-> (i ∉ pt_local p) ∧ (pt_remote p !! i = None).
Proof.
  unfold unavailable. rewrite andb_true_iff, !negb_true_iff, !bool_decide_eq_false, <- eq_None_not_Some. done.
Qed.

(** Nothing is missing iff every partition in range is available somewhere. *)
Lemma count_missing_zero p :
  count_missing p = 0%Z
  <-> ∀ i, (0 <= i < pt_numPartitions p)%Z -> i ∈ pt_local p ∨ is_Some (pt_remote p !! i).
Proof.
  unfold count_missing. split.
  - intros H i Hi. apply (f_equal Z.to_nat) in H. rewrite Nat2Z.id in H. apply length_zero_iff_nil in H.
    destruct (decide (i ∈ pt_local p)); [by left|]. destruct (pt_remote p !! i) eqn:E; [by right|exfalso].
    eapply filter_nil_not_elem_of with (x := i) in H; [apply H, elem_of_seqZ; lia|]. by apply unavailable_spec.
  - intros H. rewrite filter_none; [done|]. intros i Hi%elem_of_seqZ. rewrite unavailable_spec.
    destruct (H i ltac:(lia)) as [|[? ?]]; [tauto|]. intros [_ ?]. congruence.
Qed.

(** ** What the peers advertise *)

Definition in_int (i : Z) : Prop := (0 <= i < 2 ^ 63)%Z.

Lemma entry_split addr i : in_int i -> SplitN2 "@" (partition_entry addr i) = [fmt05d i; addr].
Proof.
  intros [Hi _]. unfold partition_entry. cbn [String.append]. apply SplitN2_app.
  apply fmt05d_no_char. solve_no_char.
Qed.

(** The addresses other than [self] that are listed for partition [i]. *)
Definition hosts (self : string) (i : Z) (l : list (Z * string)) : list string :=
  (filter (λ x, x.1 = i ∧ x.2 ≠ self) l).*2.

Lemma scan_remote_ok self l remote :
  Forall (λ x, in_int x.1) l ->
  ∃ remote', scan_remote self ((λ x, partition_entry x.2 x.1) <$> l) remote = Some remote'
  ∧ ∀ i, default [] (remote' !! i) = (default [] (remote !! i) ++ hosts self i l)%list
         ∧ (is_Some (remote' !! i) <-> is_Some (remote !! i) ∨ hosts self i l ≠ []).
Proof.
  revert remote. induction l as [|[j addr] l IH]; intros remote Hl.
  { exists remote. split; [done|]. intros i. rewrite app_nil_r. unfold hosts. cbn. naive_solver. }
  apply Forall_cons in Hl as [Hj Hl]. rewrite fmap_cons. cbn [scan_remote].
  cbn [fst snd] in *. rewrite entry_split by done. cbn [lookup list_lookup mbind option_bind].
  rewrite Atoi_fmt05d by done. cbn [fst]. unfold hosts. setoid_rewrite filter_cons. cbn [fst snd].
  case_bool_decide as Hself.
  - destruct (IH (<[j := (default [] (remote !! j) ++ [addr])%list]> remote) Hl) as (r' & Hs & Hr).
    exists r'. split; [done|]. intros i. destruct (Hr i) as [H1 H2]. rewrite H1, H2, lookup_insert.
    repeat case_decide; try tauto; subst; cbn; rewrite <- ?(assoc_L (++)%list); split; try done; naive_solver.
  - destruct (IH remote Hl) as (r' & Hs & Hr). exists r'. split; [done|]. intros i.
    destruct (Hr i) as [H1 H2]. rewrite decide_False by naive_solver. done.
Qed.

Lemma hosts_elem self i l addr : addr ∈ hosts self i l <-> (i, addr) ∈ l ∧ addr ≠ self.
Proof.
  unfold hosts. rewrite list_elem_of_fmap. setoid_rewrite list_elem_of_filter. split.
  - intros ([j a] & -> & (? & ?) & ?). naive_solver.
  - intros [? ?]. by exists (i, addr).
Qed.

(** [updateRemotePartitions] in terms of the pairs that are listed. *)
Lemma updateRemote_places p nodes p' :
  updateRemotePartitions p nodes = Some p' ->
  pt_peers p' = pt_peers p ∧ ∀ ps, pt_peers p = Some ps -> scan_remote (ps_address ps) nodes ∅ = Some (pt_remote p').
Proof.
  unfold updateRemotePartitions, updateMissing. destruct (pt_peers p) as [ps|] eqn:Ep; [|intros; by simplify_eq].
  destruct (scan_remote (ps_address ps) nodes ∅) as [remote|] eqn:Es; [|done]. cbn.
  intros H. assert (pt_peers p' = pt_peers p ∧ pt_remote p' = remote) as [-> ->].
  { case_match; [|by simplify_eq]. destruct (close_ready _); [|done]. by simplify_eq/=. }
  split; [done|]. intros ? [= <-]. done.
Qed.

(** What is known of the peers is what the last listing says. *)
Lemma sync_last updates nodes p ps p' :
  pt_peers p = Some ps -> partitions_sync (updates ++ [nodes]) p = Some p' ->
  scan_remote (ps_address ps) nodes ∅ = Some (pt_remote p').
Proof.
  revert p. induction updates as [|u updates IH]; intros p Hp H; cbn in H.
  - destruct (updateRemotePartitions p nodes) as [p1|] eqn:E; [|done]. cbn in H. simplify_eq.
    by apply updateRemote_places in E as [_ E]; apply E.
  - destruct (updateRemotePartitions p u) as [p1|] eqn:E; [|done]. cbn in H.
    apply updateRemote_places in E as [E _]. apply (IH p1); [congruence|done].
Qed.

Lemma updateRemote_ok p ps l :
  pt_peers p = Some ps -> pt_ready p = pt_readyClosed p -> Forall (λ x, in_int x.1) l ->
  ∃ p', updateRemotePartitions p ((λ x, partition_entry x.2 x.1) <$> l) = Some p' ∧ pt_ok p'
  ∧ pt_local p' = pt_local p ∧ pt_numPartitions p' = pt_numPartitions p
  ∧ (∀ i, getPeers p' i = hosts (ps_address ps) i l)
  ∧ (∀ i, is_Some (pt_remote p' !! i) <-> hosts (ps_address ps) i l ≠ []).
Proof.
  intros Hps Hc Hl. unfold updateRemotePartitions. rewrite Hps.
  destruct (scan_remote_ok (ps_address ps) l ∅ Hl) as (r & -> & Hr). cbn [mbind option_bind].
  destruct (updateMissing_ok (set_places p (pt_local p) r) Hc) as (p' & -> & Hok & Hsame & _).
  exists p'. rewrite Hsame. cbn. split_and!; [by rewrite <- Hsame|by rewrite <- Hsame|done|done|..].
  - intros i. unfold getPeers. cbn. rewrite Hps. destruct (Hr i) as [-> _]. done.
  - intros i. destruct (Hr i) as [_ ->]. rewrite lookup_empty. split; [intros [[? ?]|]; done|auto].
Qed.

(** ** What the node advertises *)

Section advertise.
Context {MZ : MapOrder Z} {MS : MapOrder string} {MP : MapOrder peer} {C : Coord} {L : CoordLaws C}.

(** The full path of a partition's node. *)
Definition node_path (p : partitions) (addr pre : string) (i : Z) : string :=
  path_Join [pre; path_Join [pt_zkPath p; partition_entry addr i]].

Lemma partition_entry_plain addr i : has_char "/" addr = false -> plain_elem (partition_entry addr i).
Proof.
  intros Ha. assert (has_char "@" (partition_entry addr i) = true) as Hat.
  { unfold partition_entry. rewrite !has_char_app. cbn. by rewrite orb_true_r. }
  split_and!; [by intros H; rewrite H in Hat..|].
  unfold partition_entry. rewrite !has_char_app, Ha, fmt05d_no_char; [done|solve_no_char].
Qed.

Lemma node_path_inj p addr pre i j :
  pre ≠ "" -> pt_zkPath p ≠ "" -> has_char "/" addr = false -> in_int i -> in_int j ->
  node_path p addr pre i = node_path p addr pre j -> i = j.
Proof.
  intros Hpre Hzk Ha Hi Hj. unfold node_path. destruct (path_Join_nested pre (pt_zkPath p)) as [x Hx]; [done..|].
  rewrite !Hx by by apply partition_entry_plain. intros H%String.app_inj.
  apply (f_equal (SplitN2 "@")) in H. rewrite !entry_split in H by done. simplify_eq.
  by eapply fmt05d_inj.
Qed.

Lemma each_node_create p ps l z :
  pt_peers p = Some ps ->
  ∃ z', each_node createEphemeral p l z = Some z' ∧ zk_prefix z' = zk_prefix z
  ∧ registered z' = list_to_set (node_path p (ps_address ps) (zk_prefix z) <$> l) ∪ registered z
  ∧ watching z' = watching z.
Proof.
  intros Hps. revert z. induction l as [|i l IH]; intros z; cbn.
  { exists z. split_and!; [done|done|set_solver|done]. }
  unfold partitionZKNode. rewrite Hps. cbn.
  match goal with |- context [createEphemeral ?n z] =>
    destruct (createEphemeral_ok n z) as (Hp & Hr & Hw); destruct (IH (createEphemeral n z)) as (z' & -> & Hp' & Hr' & Hw') end.
  exists z'. split_and!; [done|congruence| |congruence]. rewrite Hr', Hp, Hr. unfold node_path. set_solver.
Qed.

Lemma each_node_remove p ps l z :
  pt_peers p = Some ps ->
  ∃ z', each_node removeEphemeral p l z = Some z' ∧ zk_prefix z' = zk_prefix z
  ∧ registered z' = registered z ∖ list_to_set (node_path p (ps_address ps) (zk_prefix z) <$> l)
  ∧ watching z' = watching z.
Proof.
  intros Hps. revert z. induction l as [|i l IH]; intros z; cbn.
  { exists z. split_and!; [done|done|set_solver|done]. }
  unfold partitionZKNode. rewrite Hps. cbn.
  match goal with |- context [removeEphemeral ?n z] =>
    destruct (removeEphemeral_ok n z) as (Hp & Hr & Hw); destruct (IH (removeEphemeral n z)) as (z' & -> & Hp' & Hr' & Hw') end.
  exists z'. split_and!; [done|congruence| |congruence]. rewrite Hr', Hp, Hr. unfold node_path. set_solver.
Qed.

(** The nodes of this version in zookeeper are those of the local partitions
    while the node advertises, and none otherwise. *)
Definition adv_ok (p : partitions) (z : zkw) : Prop :=
  match pt_peers p with
  | None => pt_shouldAdvertise p = false
  | Some ps => ∀ i, in_int i ->
      node_path p (ps_address ps) (zk_prefix z) i ∈ registered z
      <-> pt_shouldAdvertise p = true ∧ i ∈ pt_local p
  end.

Record cluster_params (p : partitions) (z : zkw) : Prop := {
  cp_prefix : zk_prefix z ≠ "";
  cp_zkPath : pt_zkPath p ≠ "";
  cp_address : ∀ ps, pt_peers p = Some ps -> has_char "/" (ps_address ps) = false;
  cp_local : ∀ i, i ∈ pt_local p -> in_int i;
}.

Record node_ok (p : partitions) (z : zkw) : Prop := {
  no_count : pt_ok p;
  no_adv : adv_ok p z;
  no_params : cluster_params p z;
}.

(** The node paths of a set of partitions. *)
Lemma in_paths p ps z (s : gset Z) i :
  cluster_params p z -> pt_peers p = Some ps -> (∀ j, j ∈ s -> in_int j) -> in_int i ->
  node_path p (ps_address ps) (zk_prefix z) i
    ∈ node_path p (ps_address ps) (zk_prefix z) <$> range_set s <-> i ∈ s.
Proof.
  intros [Hpre Hzk Ha _] Hps Hs Hi. rewrite list_elem_of_fmap. setoid_rewrite range_set_perm.
  setoid_rewrite elem_of_elements. split; [|by eauto].
  intros (j & Heq & Hj). apply node_path_inj in Heq as ->; auto.
Qed.

Lemma params_places p z z' p' :
  cluster_params p z -> zk_prefix z' = zk_prefix z -> pt_zkPath p' = pt_zkPath p -> pt_peers p' = pt_peers p ->
  (∀ i, i ∈ pt_local p' -> in_int i) -> cluster_params p' z'.
Proof. intros [? ? ? ?] Hz Hp Hps Hl. split; congruence || (rewrite ?Hps; done). Qed.

(** What every operation preserves. *)
Definition evolves (p p' : partitions) : Prop :=
  pt_peers p' = pt_peers p ∧ pt_zkPath p' = pt_zkPath p ∧ pt_numPartitions p' = pt_numPartitions p
  ∧ pt_selected p' = pt_selected p ∧ pt_local p ⊆ pt_local p' ∧ (pt_ready p = true -> pt_ready p' = true).

Lemma node_path_zk p p' addr pre i :
  pt_zkPath p' = pt_zkPath p -> node_path p' addr pre i = node_path p addr pre i.
Proof. unfold node_path. by intros ->. Qed.

Lemma updateLocal_ok p z local :
  node_ok p z -> (∀ i, i ∈ local -> in_int i) ->
  ∃ p' z', updateLocalPartitions p local z = Some (p', z') ∧ node_ok p' z' ∧ evolves p p'
  ∧ pt_local p' = pt_local p ∪ local ∧ pt_remote p' = pt_remote p ∧ watching z' = watching z.
Proof.
  intros [[_ Hc _] Hadv Hpar] Hloc. unfold updateLocalPartitions.
  destruct (updateMissing_ok (set_places p (pt_local p ∪ local) (pt_remote p)) Hc) as (p' & -> & Hok & Hsame & Hrdy).
  cbn [mbind option_bind]. cbn in Hrdy.
  assert (evolves p p' ∧ pt_local p' = pt_local p ∪ local ∧ pt_remote p' = pt_remote p
          ∧ pt_shouldAdvertise p' = pt_shouldAdvertise p) as (Hev & Hl' & Hr' & Ha').
  { rewrite Hsame. unfold evolves. cbn. split_and!; try done; [set_solver|naive_solver]. }
  pose proof Hev as (Hps & Hzk & _).
  assert (∀ i, i ∈ pt_local p' -> in_int i) as Hint.
  { rewrite Hl'. intros i [?|?]%elem_of_union; [by eapply cp_local|auto]. }
  unfold adv_ok in Hadv. destruct (pt_shouldAdvertise p) eqn:Es; rewrite Ha'.
  - destruct (pt_peers p) as [ps|] eqn:Ep; [|done].
    destruct (each_node_create p' ps (range_set (pt_local p')) z Hps) as (z' & -> & Hpre & Hreg & Hw).
    assert (cluster_params p' z') as Hpar' by (eapply params_places; eauto; congruence).
    exists p', z'. split; [done|]. split; [split; [done| |done]|done].
    unfold adv_ok. rewrite Hps, Hpre. intros i Hi.
    rewrite Hreg, elem_of_union, elem_of_list_to_set, <- Hpre.
    rewrite (in_paths p' ps z') by done. rewrite Hpre, (node_path_zk p p') by done. rewrite Hadv by done.
    rewrite Hl', Ha'. set_solver.
  - assert (cluster_params p' z) as Hpar' by (eapply params_places; eauto; congruence).
    exists p', z. split; [done|]. split; [split; [done| |done]|done].
    unfold adv_ok. rewrite Hps. destruct (pt_peers p); [|done]. intros i Hi.
    rewrite (node_path_zk p p'), Hadv, Ha' by done. naive_solver.
Qed.

Lemma advertise_ok p z :
  node_ok p z ->
  ∃ p' z', advertisePartitions p z = Some (p', z') ∧ node_ok p' z' ∧ evolves p p'
  ∧ pt_local p' = pt_local p ∧ pt_remote p' = pt_remote p ∧ watching z' = watching z.
Proof.
  intros [Hok Hadv Hpar]. unfold advertisePartitions. destruct (pt_peers p) as [ps|] eqn:Ep.
  2: { exists p, z. split_and!; try done. }
  destruct (each_node_create (set_advertise p true) ps (range_set (pt_local p)) z Ep) as (z' & Hz & Hpre & Hreg & Hw).
  cbn [pt_local set_advertise] in *. rewrite Hz. cbn. eexists _, z'. split; [done|].
  assert (cluster_params (set_advertise p true) z') as Hpar' by (eapply params_places; eauto; by destruct Hpar).
  split; [split|split_and!; done]; [by destruct Hok; split| |done].
  unfold adv_ok in Hadv |- *. cbn. rewrite Ep in Hadv |- *. rewrite Hpre. intros i Hi.
  rewrite Hreg, elem_of_union, elem_of_list_to_set, <- Hpre.
  rewrite (in_paths (set_advertise p true) ps z'); [|done|done|by destruct Hpar|done].
  rewrite Hpre, (node_path_zk p (set_advertise p true)), Hadv by done. naive_solver.
Qed.

Lemma unadvertise_ok p z :
  node_ok p z ->
  ∃ p' z', unadvertisePartitions p z = Some (p', z') ∧ node_ok p' z' ∧ evolves p p'
  ∧ pt_local p' = pt_local p ∧ pt_shouldAdvertise p' = false ∧ watching z' = watching z.
Proof.
  intros [Hok Hadv Hpar]. unfold unadvertisePartitions. destruct (pt_peers p) as [ps|] eqn:Ep.
  2: { exists p, z. split; [done|]. split; [by split|]. unfold adv_ok in Hadv. rewrite Ep in Hadv. by split_and!. }
  destruct (each_node_remove (set_advertise p false) ps (range_set (pt_local p)) z Ep) as (z' & Hz & Hpre & Hreg & Hw).
  cbn [pt_local set_advertise] in *. rewrite Hz. cbn. eexists _, z'. split; [done|].
  assert (cluster_params (set_advertise p false) z') as Hpar' by (eapply params_places; eauto; by destruct Hpar).
  split; [split|split_and!; done]; [by destruct Hok; split| |done].
  unfold adv_ok in Hadv |- *. cbn. rewrite Ep in Hadv |- *. rewrite Hpre. intros i Hi.
  rewrite Hreg, elem_of_difference, elem_of_list_to_set, <- Hpre.
  rewrite (in_paths (set_advertise p false) ps z'); [|done|done|by destruct Hpar|done].
  rewrite Hpre, (node_path_zk p (set_advertise p false)), Hadv by done. naive_solver.
Qed.

Lemma close_ok p z :
  node_ok p z ->
  ∃ p' z', partitions_close p z = Some (p', z') ∧ node_ok p' z' ∧ evolves p p' ∧ pt_local p' = pt_local p
  ∧ pt_shouldAdvertise p' = false
  ∧ (is_Some (pt_peers p) -> watching z' = watching z ∖ {[ path_Join [zk_prefix z'; pt_zkPath p] ]}).
Proof.
  intros Hn. destruct (unadvertise_ok p z Hn) as (p1 & z1 & H1 & [Hok1 Hadv1 Hpar1] & Hev & Hl & Hs & Hw).
  unfold partitions_close. destruct (pt_peers p) as [ps|] eqn:Ep.
  2: { unfold unadvertisePartitions in H1. rewrite Ep in H1. simplify_eq.
       exists p1, z1. by split_and!. }
  rewrite H1. cbn. destruct (removeWatch_ok (pt_zkPath p1) z1) as (Hpre & Hreg & Hwa).
  exists p1, (removeWatch (pt_zkPath p1) z1). split; [done|].
  split; [|split_and!; [done..|by rewrite Hwa, Hw, Hpre; destruct Hev as (_ & -> & _)]].
  split; [done| |eapply params_places; eauto; by destruct Hpar1].
  unfold adv_ok in *. destruct (pt_peers p1); [|done]. intros i Hi. rewrite Hpre, Hreg. by apply Hadv1.
Qed.
End advertise.

(** ** Histories

    The calls a version makes, in any order, interleaved with changes of the
    watcher by other versions, which leave the nodes of this one alone. *)

Inductive pt_op :=
  | OpLocal (local : gset Z)
  | OpRemote (listing : list (Z * string))
  | OpAdvertise
  | OpUnadvertise
  | OpClose.

Definition op_ok (op : pt_op) : Prop :=
  match op with
  | OpLocal local => ∀ i, i ∈ local -> in_int i
  | OpRemote l => Forall (λ x, in_int x.1) l
  | _ => True
  end.

Section history.
Context {MZ : MapOrder Z} {MS : MapOrder string} {MP : MapOrder peer} {C : Coord} {L : CoordLaws C}.

Definition pt_exec (op : pt_op) (s : partitions * zkw) : option (partitions * zkw) :=
  let '(p, z) := s in
  match op with
  | OpLocal local => updateLocalPartitions p local z
  | OpRemote l => p' ← updateRemotePartitions p ((λ x, partition_entry x.2 x.1) <$> l); Some (p', z)
  | OpAdvertise => advertisePartitions p z
  | OpUnadvertise => unadvertisePartitions p z
  | OpClose => partitions_close p z
  end.

Inductive pt_step : partitions * zkw -> partitions * zkw -> Prop :=
  | step_op op s s' : op_ok op -> pt_exec op s = Some s' -> pt_step s s'
  | step_env p z z' :
      zk_prefix z' = zk_prefix z ->
      (∀ ps i, pt_peers p = Some ps -> node_path p (ps_address ps) (zk_prefix z) i ∈ registered z'
                                      <-> node_path p (ps_address ps) (zk_prefix z) i ∈ registered z) ->
      pt_step (p, z) (p, z').

Lemma pt_exec_ok op p z :
  node_ok p z -> op_ok op ->
  ∃ p' z', pt_exec op (p, z) = Some (p', z') ∧ node_ok p' z' ∧ evolves p p'.
Proof.
  intros Hn Hop. destruct op as [local|l| | |]; cbn in *.
  - destruct (updateLocal_ok p z local Hn Hop) as (p' & z' & ? & ? & ? & _). eauto.
  - destruct Hn as [[Hm Hc Hr] Hadv Hpar]. destruct (pt_peers p) as [ps|] eqn:Ep.
    + destruct (updateRemote_ok p ps l Ep Hc Hop) as (p' & Hu & Hok & _).
      unfold updateRemotePartitions in Hu. rewrite Ep in Hu. destruct (scan_remote _ _ _) as [r|] eqn:Es; [|done].
      cbn in Hu. destruct (updateMissing_ok (set_places p (pt_local p) r) Hc) as (p1 & H1 & _ & Hsame & Hrdy).
      rewrite Hu in H1. simplify_eq. unfold updateRemotePartitions. rewrite Ep, Es. cbn. rewrite Hu. cbn.
      eexists _, _. split; [done|]. rewrite Hsame in Hok |- *.
      split; [split; [done| |by destruct Hpar; split]|].
      * unfold adv_ok in *. cbn. by rewrite Ep in *.
      * split_and!; try done. cbn in *. rewrite Hrdy. auto.
    + unfold updateRemotePartitions. rewrite Ep. cbn. exists p, z. split; [done|]. split; [by split|]. by split_and!.
  - destruct (advertise_ok p z Hn) as (p' & z' & ? & ? & ? & _). eauto.
  - destruct (unadvertise_ok p z Hn) as (p' & z' & ? & ? & ? & _). eauto.
  - destruct (close_ok p z Hn) as (p' & z' & ? & ? & ? & _). eauto.
Qed.

Lemma evolves_refl p : evolves p p.
Proof. by split_and!. Qed.

Lemma evolves_trans p1 p2 p3 : evolves p1 p2 -> evolves p2 p3 -> evolves p1 p3.
Proof.
  intros (? & ? & ? & ? & ? & ?) (? & ? & ? & ? & ? & ?). split_and!; try congruence; [set_solver|auto].
Qed.

Lemma pt_steps_ok s s' :
  rtc pt_step s s' -> node_ok s.1 s.2 -> node_ok s'.1 s'.2 ∧ evolves s.1 s'.1.
Proof.
  induction 1 as [s|s s1 s2 Hstep _ IH]; intros Hn; [split; [done|apply evolves_refl]|].
  enough (node_ok s1.1 s1.2 ∧ evolves s.1 s1.1) as [Hn1 Hev1].
  { destruct (IH Hn1). split; [done|]. by eapply evolves_trans. }
  destruct Hstep as [op [p z] s' Hop Hex|p z z' Hpre Henv]; cbn in *.
  - destruct (pt_exec_ok op p z Hn Hop) as (p' & z' & Hex' & ? & ?). unfold pt_exec in Hex'.
    rewrite Hex in Hex'. by simplify_eq.
  - split; [|apply evolves_refl]. destruct Hn as [Hok Hadv [? ? ? ?]]. split; [done| |split; congruence || done].
    unfold adv_ok in *. destruct (pt_peers p); [|done]. intros i Hi. rewrite Hpre, Henv by done. by apply Hadv.
Qed.

Lemma watchPartitions_ok ps db version n repl l z p z' :
  watchPartitions ps db version n repl ((λ x, partition_entry x.2 x.1) <$> l) z = Some (p, z') ->
  zk_prefix z ≠ "" -> (∀ q, ps = Some q -> has_char "/" (ps_address q) = false) ->
  (∀ i q, ps = Some q -> node_path p (ps_address q) (zk_prefix z) i ∉ registered z) ->
  Forall (λ x, in_int x.1) l ->
  node_ok p z' ∧ pt_numPartitions p = n ∧ pt_local p = ∅ ∧ pt_peers p = ps.
Proof.
  intros Hw Hpre Haddr Hfree Hl. unfold watchPartitions in Hw.
  match type of Hw with (pickLocalPartitions ?q ≫= _) = _ => set (p0 := q) in Hw end.
  unfold pickLocalPartitions in Hw. destruct (pick_loop _ _ _) as [sel|]; [|done]. cbn in Hw.
  set (p1 := set_selected p0 sel) in Hw.
  assert (pt_zkPath p1 ≠ "") as Hzk by apply path_Clean_nonempty.
  assert (∃ p2 z2, z' = z2 ∧ updateMissing p2 = Some p ∧ pt_ready p2 = pt_readyClosed p2 ∧ pt_local p2 = ∅
          ∧ pt_peers p2 = ps ∧ pt_zkPath p2 = pt_zkPath p1 ∧ pt_numPartitions p2 = n ∧ pt_shouldAdvertise p2 = false
          ∧ zk_prefix z2 = zk_prefix z ∧ registered z2 = registered z) as H.
  { destruct ps as [q|].
    - destruct (updateRemotePartitions p1 _) as [p2|] eqn:Eu; [|done]. cbn in Hw.
      destruct (updateMissing p2) as [p3|] eqn:Em; [|done]. cbn in Hw. simplify_eq.
      unfold updateRemotePartitions in Eu. cbn in Eu. destruct (scan_remote _ _ _) as [r|]; [|done]. cbn in Eu.
      destruct (updateMissing_ok (set_places p1 (pt_local p1) r) eq_refl) as (p2' & H2 & Hok & Hsame & _).
      cbn in H2. rewrite H2 in Eu. simplify_eq.
      destruct (watchChildren_ok (pt_zkPath p1) z) as (? & ? & _).
      pose proof (ok_closed _ Hok) as Hcl.
      exists p2, (watchChildren (pt_zkPath p1) z). split_and!; try done; rewrite Hsame; done.
    - destruct (updateMissing p1) as [p3|] eqn:Em; [|done]. cbn in Hw. simplify_eq. exists p1, z'. by split_and!. }
  destruct H as (p2 & z2 & -> & Hm & Hc & Hl2 & Hps & Hzk2 & Hn & Hs & Hpre2 & Hreg).
  destruct (updateMissing_ok p2 Hc) as (p' & H' & Hok & Hsame & _). rewrite Hm in H'. simplify_eq.
  assert (pt_local p' = ∅ ∧ pt_peers p' = pt_peers p2 ∧ pt_zkPath p' = pt_zkPath p2
          ∧ pt_numPartitions p' = pt_numPartitions p2 ∧ pt_shouldAdvertise p' = false) as (Hl' & Hps' & Hzk' & Hn' & Hs').
  { rewrite Hsame. cbn. by split_and!. }
  split; [split; [done| |split]|split_and!; congruence]; try congruence.
  - unfold adv_ok. rewrite Hps'. destruct (pt_peers p2) as [q|] eqn:Eq; [|done].
    intros i Hi. rewrite Hpre2, Hreg, Hs'. split; [|by intros [? _]]. intros Hin. by eapply Hfree in Hin.
  - rewrite Hps'. intros q Hq. by apply Haddr.
  - rewrite Hl'. set_solver.
Qed.
End history.

(** ** The theorems *)

Section theorems.
Context {MZ : MapOrder Z} {MS : MapOrder string} {MP : MapOrder peer} {C : Coord} {L : CoordLaws C}.

(** The tracked version: it was opened on a watcher that holds none of its
    nodes yet, and then went through some history. *)
Record tracked (ps : option peers) (n : Z) (p : partitions) (z : zkw) : Prop := {
  tr_node : node_ok p z;
  tr_peers : pt_peers p = ps;
  tr_parts : pt_numPartitions p = n;
}.

Lemma history_tracked ps db version n repl l z0 p0 z1 p z :
  watchPartitions ps db version n repl ((λ x, partition_entry x.2 x.1) <$> l) z0 = Some (p0, z1) ->
  zk_prefix z0 ≠ "" -> (∀ q, ps = Some q -> has_char "/" (ps_address q) = false) ->
  (∀ i q, ps = Some q -> node_path p0 (ps_address q) (zk_prefix z0) i ∉ registered z0) ->
  Forall (λ x, in_int x.1) l -> rtc pt_step (p0, z1) (p, z) ->
  tracked ps n p z ∧ evolves p0 p.
Proof.
  intros Hw Hpre Haddr Hfree Hl Hrtc.
  destruct (watchPartitions_ok _ _ _ _ _ _ _ _ _ Hw Hpre Haddr Hfree Hl) as (Hn & Hnp & _ & Hps).
  destruct (pt_steps_ok _ _ Hrtc Hn) as [Hn' Hev]. cbn in Hn', Hev.
  destruct Hev as (Hp & Hz & Hnum & Hrest) eqn:E. clear E. split; [|done]. split; congruence.
Qed.

(** C6: [missing] is exact.  In every state of a version, whatever the order
    of loads, listings and advertisements, the reported number is the number of
    partitions that are neither local nor listed by a peer; [ready] has been
    closed when it is 0, and stays closed; and no call panics, in particular
    [ready] is never closed twice. *)
Theorem missing_exact ps db version n repl l z0 p0 z1 p z :
  watchPartitions ps db version n repl ((λ x, partition_entry x.2 x.1) <$> l) z0 = Some (p0, z1) ->
  zk_prefix z0 ≠ "" -> (∀ q, ps = Some q -> has_char "/" (ps_address q) = false) ->
  (∀ i q, ps = Some q -> node_path p0 (ps_address q) (zk_prefix z0) i ∉ registered z0) ->
  Forall (λ x, in_int x.1) l -> rtc pt_step (p0, z1) (p, z) ->
  missing p = Z.of_nat (length (filter (λ i, (i ∉ pt_local p) ∧ pt_remote p !! i = None) (seqZ 0 n)))
  ∧ (missing p = 0%Z -> pt_ready p = true) ∧ (pt_ready p0 = true -> pt_ready p = true)
  ∧ ∀ op, op_ok op -> is_Some (pt_exec op (p, z)).
Proof.
  intros Hw Hpre Haddr Hfree Hl Hrtc.
  destruct (history_tracked _ _ _ _ _ _ _ _ _ _ _ Hw Hpre Haddr Hfree Hl Hrtc) as [[Hn _ Hnp] Hev].
  destruct (no_count _ _ Hn) as [Hm _ Hr]. split_and!; [|done|apply Hev|].
  - unfold missing. rewrite Hm. unfold count_missing. do 2 f_equal. rewrite Hnp.
    apply list_filter_iff. intros i. apply unavailable_spec.
  - intros op Hop. destruct (pt_exec_ok op p z Hn Hop) as (p' & z' & -> & _). by eexists.
Qed.

(** C22: what is advertised.  In every state of a version in a cluster, the
    nodes it keeps in zookeeper are those of its local partitions while it
    advertises, and none otherwise; and closing it leaves none, and no watch. *)
Theorem advertised_exactly q db version n repl l z0 p0 z1 p z :
  watchPartitions (Some q) db version n repl ((λ x, partition_entry x.2 x.1) <$> l) z0 = Some (p0, z1) ->
  zk_prefix z0 ≠ "" -> has_char "/" (ps_address q) = false ->
  (∀ i, node_path p0 (ps_address q) (zk_prefix z0) i ∉ registered z0) ->
  Forall (λ x, in_int x.1) l -> rtc pt_step (p0, z1) (p, z) ->
  (∀ i, in_int i -> node_path p (ps_address q) (zk_prefix z) i ∈ registered z
                    <-> pt_shouldAdvertise p = true ∧ i ∈ pt_local p)
  ∧ ∃ p' z', partitions_close p z = Some (p', z')
    ∧ (∀ i, in_int i -> node_path p' (ps_address q) (zk_prefix z') i ∉ registered z')
    ∧ path_Join [zk_prefix z'; pt_zkPath p'] ∉ watching z'.
Proof.
  intros Hw Hpre Haddr Hfree Hl Hrtc.
  destruct (history_tracked (Some q) db version n repl l z0 p0 z1 p z) as [[Hn Hps _] Hev];
    [done|done|intros; by simplify_eq|intros; by simplify_eq|done|done|].
  split.
  - pose proof (no_adv _ _ Hn) as Hadv. unfold adv_ok in Hadv. by rewrite Hps in Hadv.
  - destruct (close_ok p z Hn) as (p' & z' & Hc & Hn' & (Hps' & Hzk & _) & Hl' & Hs & Hwatch).
    exists p', z'. split; [done|]. split.
    + intros i Hi. pose proof (no_adv _ _ Hn') as Hadv. unfold adv_ok in Hadv.
      rewrite Hps', Hps in Hadv. rewrite Hadv, Hs by done. naive_solver.
    + rewrite Hwatch, Hzk by (rewrite Hps; done). set_solver.
Qed.

(** C31: a cluster becomes ready.  The listing a node receives is built from
    the entries the nodes advertise: entry [(i, addr)] for each partition [i]
    that is local at [addr].  After the update, the peers the node would ask
    for partition [i] are exactly the other nodes that have it; and if every
    partition is local here or there, nothing is missing and [ready] is
    closed. *)
Theorem listing_roundtrip p z ps (cluster : list (string * gset Z)) listing :
  node_ok p z -> pt_peers p = Some ps ->
  (∀ addr s i, (addr, s) ∈ cluster -> i ∈ s -> in_int i) ->
  listing ≡ₚ (cluster ≫= λ x, (λ i, (i, x.1)) <$> elements x.2) ->
  ∃ p', updateRemotePartitions p ((λ x, partition_entry x.2 x.1) <$> listing) = Some p'
  ∧ (∀ i addr, addr ∈ getPeers p' i
               <-> addr ≠ ps_address ps ∧ ∃ s, (addr, s) ∈ cluster ∧ i ∈ s)
  ∧ ((∀ i, (0 <= i < pt_numPartitions p)%Z ->
        i ∈ pt_local p ∨ ∃ addr s, addr ≠ ps_address ps ∧ (addr, s) ∈ cluster ∧ i ∈ s) ->
     missing p' = 0%Z ∧ pt_ready p' = true).
Proof.
  intros Hn Hps Hint Hperm.
  assert (∀ i addr, (i, addr) ∈ listing <-> ∃ s, (addr, s) ∈ cluster ∧ i ∈ s) as Hlist.
  { intros i addr. rewrite Hperm, list_elem_of_bind. setoid_rewrite list_elem_of_fmap.
    setoid_rewrite elem_of_elements. split.
    - intros ([a s] & (j & ? & ?) & ?). naive_solver.
    - intros (s & ? & ?). exists (addr, s). naive_solver. }
  assert (Forall (λ x, in_int x.1) listing) as Hl.
  { apply Forall_forall. intros [i addr] (s & ? & ?)%Hlist. eauto. }
  destruct (updateRemote_ok p ps listing Hps (ok_closed _ (no_count _ _ Hn)) Hl)
    as (p2 & Hu & Hok & Hloc & Hnum & Hget & Hrem).
  exists p2. split; [done|]. split.
  - intros i addr. rewrite Hget, hosts_elem, Hlist. naive_solver.
  - intros Hall. assert (count_missing p2 = 0%Z) as H0.
    { apply count_missing_zero. rewrite Hnum, Hloc. intros i Hi. destruct (Hall i Hi) as [?|(addr & s & ? & ? & ?)]; [by left|right].
      apply Hrem. assert (addr ∈ hosts (ps_address ps) i listing) as Hin by (apply hosts_elem; rewrite Hlist; eauto).
      intros Hnil. rewrite Hnil in Hin. by apply not_elem_of_nil in Hin. }
    destruct Hok as [Hm _ Hr]. unfold missing. rewrite Hm in *. auto.
Qed.
End theorems.

(** ** Selection *)

Lemma pick_loop_ok {MP : MapOrder peer} p ps l sel :
  pt_peers p = Some ps ->
  (∀ i, i ∈ l -> is_Some (pick ps (partitionId p i) (pt_replication p))) ->
  ∃ sel', pick_loop p l sel = Some sel'
  ∧ ∀ i, i ∈ sel' <-> i ∈ sel ∨ (i ∈ l ∧ ∃ r, pick ps (partitionId p i) (pt_replication p) = Some r ∧ peerSelf ∈ r).
Proof.
  intros Hps. revert sel. induction l as [|j l IH]; intros sel Hl; cbn.
  { exists sel. split; [done|]. set_solver. }
  rewrite Hps. destruct (Hl j) as [r Hr]; [by left|]. rewrite Hr. cbn.
  destruct (IH (if bool_decide (peerSelf ∈ r) then {[j]} ∪ sel else sel)) as (sel' & Hp & Hsel).
  { intros i Hi. apply Hl. by right. }
  exists sel'. split; [done|]. intros i. rewrite Hsel, elem_of_cons. case_bool_decide; set_solver.
Qed.

(** C7: every partition has its replicas.  Fix a set of shard ids, free of
    the separator "@", no two of which share a point of the ring
    ([collision_free]; the ids "1" and "11" do share one, and nodes may then
    disagree: [colliding_members_disagree]), a cluster of nodes whose shards
    are in the set and whose addresses are distinct and not "(self)", and a
    version.  For each partition there is a set of
    [min replication (number of shards)] shards such that each node that has
    converged on this cluster, whatever listings over these shards it saw
    before, selects the partition iff its shard is in the set.  So with a
    positive replication every partition is selected by a node. *)
Theorem every_partition_selected (U : gset string) (cluster : list (string * string)) db version n repl i :
  collision_free 20 U -> listing_ok U cluster -> cluster ≠ [] -> (1 <= repl)%Z ->
  NoDup cluster.*2 -> peerSelf ∉ cluster.*2 -> (0 <= i < n)%Z ->
  ∃ S : gset string,
    S ⊆ list_to_set cluster.*1
    ∧ size S = Nat.min (Z.to_nat repl) (size (list_to_set cluster.*1 : gset string))
    ∧ (∃ sh addr, (sh, addr) ∈ cluster ∧ sh ∈ S)
    ∧ ∀ (MZ : MapOrder Z) (MS : MapOrder string) (MP : MapOrder peer) sh addr hist listing,
        (sh, addr) ∈ cluster -> Forall (event_ok U) hist -> listing ≡ₚ cluster ->
        ∃ ps p, sync_run (new_peers sh addr) (event_of <$> (hist ++ [Some listing])%list) = Some ps
        ∧ pickLocalPartitions (unpicked (Some ps) db version n repl) = Some p
        ∧ (i ∈ pt_selected p <-> sh ∈ S) ∧ (i ∈ needed p <-> sh ∈ S).
Proof.
  intros HU Hl Hne Hr Hnd Hns Hi.
  set (id := λ j, partitionId (unpicked None db version n repl) j).
  destruct (replicas_agree U cluster (id i) repl HU Hl Hne Hr Hnd Hns) as (S & Hsub & Hsize & HS).
  exists S. split; [done|]. split; [done|]. split.
  { destruct (decide (S = ∅)) as [->|[sh Hsh]%set_choose_L].
    - exfalso. destruct cluster as [|[sh addr] cl]; [done|].
      rewrite size_empty, fmap_cons, list_to_set_cons in Hsize.
      assert (0 < size ({[sh]} ∪ list_to_set cl.*1 : gset string))%nat; [|cbn in Hsize; lia].
      apply Nat.neq_0_lt_0. intros ?%size_empty_inv. set_solver.
    - exists sh. apply Hsub in Hsh as Hin. apply elem_of_list_to_set, list_elem_of_fmap in Hin as ([s a] & -> & ?).
      by exists a. }
  intros MZ MS MP sh addr hist listing Hin Hhist Hperm.
  destruct (HS MZ MS MP sh addr hist listing Hin Hhist Hperm) as (ps & addrs & Hrun & Hpick & Hself & _).
  destruct (pick_loop_ok (unpicked (Some ps) db version n repl) ps (seqZ 0 n) ∅ eq_refl) as (sel & Hloop & Hsel).
  { intros j _. destruct (replicas_agree U cluster (id j) repl HU Hl Hne Hr Hnd Hns) as (S' & _ & _ & HS').
    destruct (HS' MZ MS MP sh addr hist listing Hin Hhist Hperm) as (ps' & addrs' & Hrun' & Hpick' & _).
    rewrite Hrun in Hrun'. simplify_eq. exists addrs'. exact Hpick'. }
  exists ps, (set_selected (unpicked (Some ps) db version n repl) sel). split; [done|].
  unfold pickLocalPartitions. cbn [pt_numPartitions unpicked] in *. rewrite Hloop. split; [done|].
  assert (i ∈ sel <-> sh ∈ S) as Hiff.
  { rewrite Hsel, <- Hself. change (partitionId (unpicked (Some ps) db version n repl) i) with (id i). cbn [pt_replication unpicked].
    rewrite Hpick, elem_of_seqZ. split; [|intros; right; split; [lia|eauto]].
    intros [?|(_ & r & ? & ?)]; [set_solver|by simplify_eq]. }
  split; [done|]. unfold needed. cbn. rewrite elem_of_filter. set_solver.
Qed.

(** A build loads what is needed: [needed] is what is selected and not
    yet local, and once it has been loaded nothing is needed and everything
    selected is there; what was local stays local. *)
Theorem needed_loaded {MZ : MapOrder Z} {MS : MapOrder string} {MP : MapOrder peer} {C : Coord} {L : CoordLaws C} p z :
  node_ok p z -> (∀ i, i ∈ pt_selected p -> in_int i) ->
  ∃ p' z', updateLocalPartitions p (needed p) z = Some (p', z')
  ∧ needed p' = ∅ ∧ (∀ i, have p' i = true <-> i ∈ pt_local p ∨ i ∈ pt_selected p).
Proof.
  intros Hn Hsel.
  assert (∀ i, i ∈ needed p <-> i ∈ pt_selected p ∧ (i ∉ pt_local p)) as Hneed.
  { intros i. unfold needed. rewrite elem_of_filter. tauto. }
  destruct (updateLocal_ok p z (needed p) Hn) as (p' & z' & Hu & _ & (_ & _ & _ & Hs & _) & Hl & _).
  { intros i [? _]%Hneed. auto. }
  exists p', z'. split; [done|]. split.
  - apply set_eq. intros i. unfold needed at 1. rewrite elem_of_filter, Hl, Hs, elem_of_union, Hneed.
    destruct (decide (i ∈ pt_local p)); set_solver.
  - intros i. unfold have. rewrite bool_decide_eq_true, Hl, elem_of_union, Hneed.
    destruct (decide (i ∈ pt_local p)); naive_solver.
Qed.

(** ** Witnesses: a version of four partitions in a cluster of three shards *)

Module PartitionsExample.
#[local] Existing Instances SetCoord.coord SetCoord.laws RingExample.order_Z RingExample.order_string.
#[local] Instance order_peer : MapOrder peer := list_order.

Definition cluster : list (string * string) :=
  [("shard1", "10.0.0.1:9599"); ("shard2", "10.0.0.2:9599"); ("shard3", "10.0.0.3:9599");
   ("shard1", "10.0.0.4:9599")].

Definition node : peers :=
  Eval vm_compute in default (new_peers "" "") (updatePeers (new_peers "shard2" "10.0.0.2:9599") (entry <$> cluster)).

Definition z0 : zkw := ("/sequins/v1", ∅, ∅).
Definition first : list (Z * string) := [(0%Z, "10.0.0.1:9599"); (3%Z, "10.0.0.4:9599")].
Definition zero : partitions := unpicked None "" "" 0 0.

Definition opened : partitions * zkw :=
  Eval vm_compute in default (zero, z0) (watchPartitions (Some node) "db" "v1" 4 2 ((λ x, partition_entry x.2 x.1) <$> first) z0).

Lemma opened_ok :
  watchPartitions (Some node) "db" "v1" 4 2 ((λ x, partition_entry x.2 x.1) <$> first) z0 = Some opened.
Proof. vm_cast_no_check (eq_refl (Some opened)). Qed.

Lemma node_address : has_char "/" (ps_address node) = false.
Proof. vm_compute. reflexivity. Qed.

Lemma node_addresses q : Some node = Some q -> has_char "/" (ps_address q) = false.
Proof.
  intros Hq. exact (match Hq in _ = o
                    return match o with Some q => has_char "/" (ps_address q) = false | None => True end
                    with eq_refl => node_address end).
Qed.

(** Two partitions are loaded, then the node starts to advertise. *)
Definition loaded : partitions * zkw :=
  Eval vm_compute in default (zero, z0) (pt_exec (OpLocal {[ 1; 2 ]}%Z) opened).
Definition advertising : partitions * zkw :=
  Eval vm_compute in default (zero, z0) (pt_exec OpAdvertise loaded).

Lemma steps_ok : pt_exec (OpLocal {[ 1; 2 ]}%Z) opened = Some loaded ∧ pt_exec OpAdvertise loaded = Some advertising.
Proof. split; [vm_cast_no_check (eq_refl (Some loaded))|vm_cast_no_check (eq_refl (Some advertising))]. Qed.

Lemma small_set (l : list Z) i : i ∈ (list_to_set l : gset Z) -> Forall (λ j, in_int j) l -> in_int i.
Proof. intros Hi%elem_of_list_to_set Hl. by eapply Forall_forall in Hl. Qed.

Lemma example_history : rtc pt_step (opened.1, opened.2) (advertising.1, advertising.2).
Proof.
  destruct steps_ok as [H1 H2]. rewrite <- !surjective_pairing.
  eapply rtc_l; [eapply (step_op (OpLocal _)); [|exact H1]|eapply rtc_once, (step_op OpAdvertise); [done|exact H2]].
  intros i Hi. apply (small_set [1; 2]%Z i); [set_solver +Hi|repeat constructor; lia].
Qed.

Lemma first_ok : Forall (λ x, in_int x.1) first.
Proof. repeat constructor; cbn; lia. Qed.

Lemma example_tracked : tracked (Some node) 4 opened.1 opened.2.
Proof.
  pose proof opened_ok as H. rewrite (surjective_pairing opened) in H.
  destruct (history_tracked (Some node) "db" "v1" 4 2 first z0 opened.1 opened.2 opened.1 opened.2) as [Ht _];
    [exact H|done|exact node_addresses|intros i q _; apply not_elem_of_empty
    |apply first_ok|apply rtc_refl|exact Ht].
Qed.

Lemma missing_exact_witness :
  missing advertising.1 = 0%Z
  ∧ missing advertising.1
    = Z.of_nat (length (filter (λ i, (i ∉ pt_local advertising.1) ∧ pt_remote advertising.1 !! i = None) (seqZ 0 4)))
  ∧ (missing advertising.1 = 0%Z -> pt_ready advertising.1 = true)
  ∧ (pt_ready opened.1 = true -> pt_ready advertising.1 = true)
  ∧ ∀ op, op_ok op -> is_Some (pt_exec op (advertising.1, advertising.2)).
Proof.
  split; [vm_compute; reflexivity|]. pose proof opened_ok as H. rewrite (surjective_pairing opened) in H.
  eapply (missing_exact (Some node) "db" "v1" 4 2 first z0 opened.1 opened.2);
    [exact H|done|exact node_addresses|intros i q _; apply not_elem_of_empty
    |apply first_ok|apply example_history].
Defined.

Lemma advertised_exactly_witness :
  (∀ i, in_int i -> node_path advertising.1 (ps_address node) (zk_prefix advertising.2) i ∈ registered advertising.2
                    <-> pt_shouldAdvertise advertising.1 = true ∧ i ∈ pt_local advertising.1)
  ∧ ∃ p' z', partitions_close advertising.1 advertising.2 = Some (p', z')
    ∧ (∀ i, in_int i -> node_path p' (ps_address node) (zk_prefix z') i ∉ registered z')
    ∧ path_Join [zk_prefix z'; pt_zkPath p'] ∉ watching z'.
Proof.
  pose proof opened_ok as H. rewrite (surjective_pairing opened) in H.
  eapply (advertised_exactly node "db" "v1" 4 2 first z0 opened.1 opened.2);
    [exact H|done|apply node_address|intros i; apply not_elem_of_empty|apply first_ok|apply example_history].
Defined.

Definition holders : list (string * gset Z) :=
  [("10.0.0.1:9599", {[ 0; 1 ]}%Z); ("10.0.0.2:9599", ∅); ("10.0.0.3:9599", {[ 2; 3 ]}%Z)].

Lemma listing_roundtrip_witness :
  ∃ p', updateRemotePartitions opened.1
          ((λ x, partition_entry x.2 x.1) <$> (holders ≫= λ x, (λ i, (i, x.1)) <$> elements x.2)) = Some p'
  ∧ (∀ i addr, addr ∈ getPeers p' i
               <-> addr ≠ ps_address node ∧ ∃ s, (addr, s) ∈ holders ∧ i ∈ s)
  ∧ ((∀ i, (0 <= i < pt_numPartitions opened.1)%Z ->
        i ∈ pt_local opened.1 ∨ ∃ addr s, addr ≠ ps_address node ∧ (addr, s) ∈ holders ∧ i ∈ s) ->
     missing p' = 0%Z ∧ pt_ready p' = true).
Proof.
  destruct example_tracked as [Hn Hps _].
  apply (listing_roundtrip opened.1 opened.2 node holders); [exact Hn|exact Hps|clear Hn Hps|done].
  unfold holders. intros addr s i [?|[?|[?|?%not_elem_of_nil]%elem_of_cons]%elem_of_cons]%elem_of_cons Hi; simplify_eq.
  - apply (small_set [0; 1]%Z i); [set_solver +Hi|repeat constructor; lia].
  - by apply not_elem_of_empty in Hi.
  - apply (small_set [2; 3]%Z i); [set_solver +Hi|repeat constructor; lia].
  - done.
Defined.

Lemma every_partition_selected_witness :
  ∃ S : gset string,
    S ⊆ list_to_set cluster.*1
    ∧ size S = Nat.min (Z.to_nat 2) (size (list_to_set cluster.*1 : gset string))
    ∧ (∃ sh addr, (sh, addr) ∈ cluster ∧ sh ∈ S)
    ∧ ∀ (MZ : MapOrder Z) (MS : MapOrder string) (MP : MapOrder peer) sh addr hist listing,
        (sh, addr) ∈ cluster -> Forall (event_ok (list_to_set RingExample.shards)) hist -> listing ≡ₚ cluster ->
        ∃ ps p, sync_run (new_peers sh addr) (event_of <$> (hist ++ [Some listing])%list) = Some ps
        ∧ pickLocalPartitions (unpicked (Some ps) "db" "v1" 4 2) = Some p
        ∧ (0%Z ∈ pt_selected p <-> sh ∈ S) ∧ (0%Z ∈ needed p <-> sh ∈ S).
Proof.
  apply (every_partition_selected (list_to_set RingExample.shards) cluster "db" "v1" 4 2 0).
  - apply RingExample.example_free.
  - repeat constructor; set_solver.
  - done.
  - lia.
  - apply (bool_decide_unpack _). vm_compute. exact I.
  - apply (bool_decide_unpack _). vm_compute. exact I.
  - lia.
Defined.

Lemma needed_loaded_witness :
  elements (needed opened.1) = [2; 1; 0]%Z
  ∧ ∃ p' z', updateLocalPartitions opened.1 (needed opened.1) opened.2 = Some (p', z')
    ∧ needed p' = ∅ ∧ (∀ i, have p' i = true <-> i ∈ pt_local opened.1 ∨ i ∈ pt_selected opened.1).
Proof.
  split; [vm_compute; reflexivity|]. destruct example_tracked as [Hn _ _].
  apply (needed_loaded opened.1 opened.2 Hn). intros i Hi.
  assert (pt_selected opened.1 = {[ 2; 1; 0 ]}%Z) as Hsel by (vm_compute; reflexivity).
  rewrite Hsel in Hi. apply (small_set [2; 1; 0]%Z i); [set_solver +Hi|repeat constructor; lia].
Defined.
End PartitionsExample.
