(* ===== verification/ZkWatcher.v ===== *)
(** * zk_watcher.go: keeping ephemeral nodes and watches alive

    The watcher owns the connection to zookeeper.  It remembers the ephemeral
    nodes it was asked to create and the directories it was asked to watch, and
    after every reconnection creates and watches them again.  Each watch is a
    goroutine that offers a listing, waits for the directory to change and
    lists it again; it ends when it receives from the watch's cancel channel.

    The server is the interface [Zk]; [ZkLaws] says what its calls do to the
    tree of nodes.  The watcher is the instance of the interface [Coord] that
    [Peers.v] and [Partitions.v] use.  Other clients of the server do not
    interfere during a call; a reconnection may find any tree.  The locks the
    methods take, and the channel [close] sends on, are in [ZkClose.v]. *)

From Stdlib Require Import ZArith Lia Ascii String.
From stdpp Require Import base gmap sets list strings fin_maps relations.
From S2P Require Import Prelude GoStrings Consistent Coord Peers Partitions.

Open Scope string_scope.
Set Default Proof Using "Type".

(** ** The server *)

Definition ZNONODE : error := LibErr (-101).
Definition ZNODEEXISTS : error := LibErr (-110).

Class Zk := {
  zk_conn : Type;
  (** path, and whether the node is ephemeral *)
  zk_Create : string -> bool -> zk_conn -> option error * zk_conn;
  zk_Delete : string -> zk_conn -> option error * zk_conn;
  (** the names of the children, and whether the node is ephemeral *)
  zk_Children : string -> zk_conn -> res (list string * bool);
}.

(** The nodes are a tree, named by their elements; ephemeral nodes have no
    children.  A call that fails for another reason, such as a lost
    connection, may have been executed. *)
Class ZkLaws (Z : Zk) := {
  znodes : zk_conn -> gmap (list string) bool;
  zk_root : ∀ c, znodes c !! [] = Some false;
  zk_tree : ∀ c es e b, znodes c !! (es ++ [e])%list = Some b -> znodes c !! es = Some false;
  Create_ok : ∀ es e eph c r c', Forall plain_elem (es ++ [e])%list ->
    zk_Create (abs_path (es ++ [e])) eph c = (r, c') ->
    match r with
    | None => znodes c !! (es ++ [e])%list = None ∧ znodes c' = <[(es ++ [e])%list := eph]> (znodes c)
    | Some err =>
        (err = ZNODEEXISTS -> is_Some (znodes c !! (es ++ [e])%list))
        ∧ (err = ZNONODE -> znodes c !! es = None)
        ∧ (znodes c' = znodes c
           ∨ (znodes c !! (es ++ [e])%list = None ∧ znodes c' = <[(es ++ [e])%list := eph]> (znodes c)))
    end;
  Create_root : ∀ eph c r c', zk_Create "/" eph c = (r, c') ->
    znodes c' = znodes c ∧ r ≠ None ∧ r ≠ Some ZNONODE;
  Delete_ok : ∀ es c r c', Forall plain_elem es -> zk_Delete (abs_path es) c = (r, c') ->
    znodes c' = znodes c ∨ (znodes c' = delete es (znodes c) ∧ ∀ e, znodes c !! (es ++ [e])%list = None);
  Children_ok : ∀ es c r, Forall plain_elem es -> zk_Children (abs_path es) c = r ->
    match r with
    | Ok (children, eph) =>
        znodes c !! es = Some eph ∧ ∀ e, e ∈ children -> is_Some (znodes c !! (es ++ [e])%list) ∧ plain_elem e
    | Err err => err = ZNONODE -> znodes c !! es = None
    end;
}.

Definition isNodeExists (err : error) : bool := bool_decide (err = ZNODEEXISTS).
Definition isNoNode (err : error) : bool := bool_decide (err = ZNONODE).

Definition maxCreateRetries : nat := 5.
Definition coordinationVersion : string := "v1".
Definition defaultZKPort : Z := 2181.

(** ** Calls on the connection *)

Section conn.
Context {Z : Zk}.

Definition Create (path : string) (eph : bool) : GoM zk_conn (option error) := λ c, Some (zk_Create path eph c).

(** [createAll]; [None] when the fuel runs out, see [createAll_ok]. *)
Fixpoint createAll_loop (fuel : nat) (node : string) : GoM zk_conn (option error) :=
  match fuel with
  | O => λ _, None
  | S fuel =>
      let base := (path_Split (path_Clean node)).1 in
      err ← (if bool_decide (base ≠ "" ∧ base ≠ "/") then createAll_loop fuel base else mret None);
      match err with
      | Some e => mret (Some e)
      | None =>
          err ← Create (path_Clean node) false;
          mret (match err with
                | Some e => if isNodeExists e then None else Some e
                | None => None
                end)
      end
  end.

Definition createAll (node : string) : GoM zk_conn (option error) := createAll_loop (S (String.length node)) node.

(** The loop of [hookCreateEphemeral], with [i] attempts left. *)
Fixpoint hookCreate_loop (i : nat) (node : string) : GoM zk_conn (option error) :=
  match i with
  | O => mret None
  | S i =>
      err ← Create node true;
      match err with
      | None => mret None
      | Some e =>
          if negb (isNoNode e) then mret (Some e)
          else
            err ← createAll (path_Split node).1;
            match err with
            | Some e => mret (Some (Errorf "create" e))
            | None => hookCreate_loop i node
            end
      end
  end.

Definition hookCreateEphemeral (node : string) : GoM zk_conn (option error) := hookCreate_loop maxCreateRetries node.

(** The loop of [childrenW]; after the last attempt it returns no error and
    [nil] for the children and the events ([Ok None]). *)
Fixpoint childrenW_loop (i : nat) (node : string) : GoM zk_conn (res (option (list string))) :=
  match i with
  | O => mret (Ok None)
  | S i => λ c,
      match zk_Children node c with
      | Ok (children, _) => Some (Ok (Some children), c)
      | Err e =>
          if negb (isNoNode e) then Some (Err e, c)
          else
            (err ← createAll node;
             match err with
             | Some e => mret (Err (Errorf "create" e))
             | None => childrenW_loop i node
             end) c
      end
  end.

Definition childrenW (node : string) : GoM zk_conn (res (option (list string))) := childrenW_loop maxCreateRetries node.

(** [cleanupTree] ignores all errors; the fuel bounds the depth. *)
Fixpoint cleanupTree (fuel : nat) (node : string) (c : zk_conn) : zk_conn :=
  match fuel with
  | O => c
  | S fuel =>
      match zk_Children node c with
      | Err _ => c
      | Ok (children, ephemeralOwner) =>
          if (ephemeralOwner : bool) then c
          else
            let c := foldl (λ c child, cleanupTree fuel (path_Join [node; child]) c) c children in
            (zk_Delete node c).2
      end
  end.
End conn.

(** ** The watcher *)

(** The goroutine of a watch: it offers a listing, waits for an event, or waits
    to be cancelled after an error; [true] when it then learns whether the
    cancel channel was closed.  [Drain] is the goroutine that stands in for a
    watch that could not be set. *)
Inductive routine :=
  | Sending (children : option (list string))
  | Listening
  | Failed (learns : bool)
  | Drain.

Section watcher.
Context {Z : Zk}.

Record zkWatcher := ZkW {
  w_prefix : string;
  w_conn : zk_conn;
  w_errs : option error;                   (** the channel has room for one *)
  w_ephemeralNodes : gset string;
  w_watchedNodes : gmap string nat;        (** the channels of a watch, by number *)
  w_routines : gmap nat (list routine);    (** the goroutines of a watch *)
  w_closed : gset nat;                     (** the watches whose updates are closed *)
  w_next : nat;
}.

Definition w_set_conn (w : zkWatcher) (c : zk_conn) : zkWatcher :=
  ZkW (w_prefix w) c (w_errs w) (w_ephemeralNodes w) (w_watchedNodes w) (w_routines w) (w_closed w) (w_next w).
Definition w_set_errs (w : zkWatcher) (e : option error) : zkWatcher :=
  ZkW (w_prefix w) (w_conn w) e (w_ephemeralNodes w) (w_watchedNodes w) (w_routines w) (w_closed w) (w_next w).
Definition w_set_ephemeral (w : zkWatcher) (s : gset string) : zkWatcher :=
  ZkW (w_prefix w) (w_conn w) (w_errs w) s (w_watchedNodes w) (w_routines w) (w_closed w) (w_next w).
Definition w_set_routines (w : zkWatcher) (r : gmap nat (list routine)) : zkWatcher :=
  ZkW (w_prefix w) (w_conn w) (w_errs w) (w_ephemeralNodes w) (w_watchedNodes w) r (w_closed w) (w_next w).

Definition routines_of (w : zkWatcher) (wn : nat) : list routine := default [] (w_routines w !! wn).

(** [go func() { ... }] for the watch [wn]. *)
Definition start (wn : nat) (r : routine) : GoM zkWatcher unit := λ w,
  Some (tt, w_set_routines w (<[wn := (routines_of w wn ++ [r])%list]> (w_routines w))).

Definition on_conn {A} (f : GoM zk_conn A) : GoM zkWatcher A := λ w,
  '(a, c) ← f (w_conn w); Some (a, w_set_conn w c).

(** An error that does not fit the channel is dropped. *)
Definition sendErr (e : error) : GoM zkWatcher unit := λ w,
  Some (tt, match w_errs w with None => w_set_errs w (Some e) | Some _ => w end).

Definition zk_createEphemeral (node : string) : GoM zkWatcher unit := λ w,
  let node := path_Join [w_prefix w; node] in
  (err ← on_conn (hookCreateEphemeral node);
   match err with
   | Some e => sendErr e
   | None => mret tt
   end) (w_set_ephemeral w ({[ node ]} ∪ w_ephemeralNodes w)).

Definition zk_removeEphemeral (node : string) : GoM zkWatcher unit := λ w,
  let node := path_Join [w_prefix w; node] in
  let w := w_set_conn w (zk_Delete node (w_conn w)).2 in
  Some (tt, w_set_ephemeral w (w_ephemeralNodes w ∖ {[ node ]})).

Definition hookWatchChildren (node : string) (wn : nat) : GoM zkWatcher (option error) :=
  r ← on_conn (childrenW node);
  match r with
  | Err e => mret (Some e)
  | Ok children => _ ← start wn (Sending children); mret None
  end.

Definition zk_watchChildren (node : string) : GoM zkWatcher unit := λ w,
  let node := path_Join [w_prefix w; node] in
  let wn := w_next w in
  let w := ZkW (w_prefix w) (w_conn w) (w_errs w) (w_ephemeralNodes w)
               (<[node := wn]> (w_watchedNodes w)) (w_routines w) (w_closed w) (S wn) in
  (err ← hookWatchChildren node wn;
   match err with
   | Some e => _ ← sendErr e; start wn Drain
   | None => mret tt
   end) w.

(** Whether a goroutine that is told that the cancel channel was closed closes
    [updates] and [disconnected]. *)
Definition closes (r : routine) : bool :=
  match r with
  | Sending _ | Listening => true
  | Failed learns => learns
  | Drain => false
  end.

(** [removeWatch]: all goroutines of the watch end; two that close [updates]
    make the second one panic. *)
Definition zk_removeWatch (node : string) : GoM zkWatcher unit := λ w,
  let node := path_Join [w_prefix w; node] in
  match w_watchedNodes w !! node with
  | None => Some (tt, w)
  | Some wn =>
      let closing := filter (λ r, closes r = true) (routines_of w wn) in
      if (2 <=? length closing)%nat then None
      else Some (tt, ZkW (w_prefix w) (w_conn w) (w_errs w) (w_ephemeralNodes w) (delete node (w_watchedNodes w))
                         (delete wn (w_routines w))
                         (if decide (closing = []) then w_closed w else {[ wn ]} ∪ w_closed w) (w_next w))
  end.

(** ** Reconnecting *)

Context {MS : MapOrder string}.

Fixpoint run_create_hooks (nodes : list string) : GoM zkWatcher (option error) :=
  match nodes with
  | [] => mret None
  | node :: nodes' =>
      err ← on_conn (hookCreateEphemeral node);
      match err with
      | Some e => mret (Some e)
      | None => run_create_hooks nodes'
      end
  end.

Fixpoint run_watch_hooks (l : list (string * nat)) : GoM zkWatcher (option error) :=
  match l with
  | [] => mret None
  | (node, wn) :: l' =>
      err ← hookWatchChildren node wn;
      match err with
      | Some e => mret (Some e)
      | None => run_watch_hooks l'
      end
  end.

Definition runHooks : GoM zkWatcher (option error) := λ w,
  (err ← run_create_hooks (range_set (w_ephemeralNodes w));
   match err with
   | Some e => mret (Some e)
   | None => run_watch_hooks (range (w_watchedNodes w))
   end) w.

(** The servers to dial. *)
Definition zk_servers (servers : list string) : string :=
  String.concat "," ((λ s, if (Index s ":" <? 0)%Z then s ++ ":" ++ Itoa defaultZKPort else s) <$> servers).

(** [reconnect]: [dialed] is the new connection, and [connected] whether its
    first event, in time, says so. *)
Definition reconnect (dialed : res zk_conn) (connected : bool) : GoM zkWatcher (option error) := λ w,
  match dialed with
  | Err e => Some (Some e, w)
  | Ok conn =>
      let w := w_set_conn w conn in
      if connected then
        (err ← on_conn (createAll (w_prefix w));
         mret (match err with Some e => Some (Errorf "creating base path" e) | None => None end)) w
      else Some (Some (NewError "connection error"), w)
  end.

(** The loop of [cancelWatches]: one goroutine of each watch, [pick] of them,
    receives the signal and ends.  [None] when there is none: it blocks. *)
Fixpoint cancel_loop (pick : nat -> nat) (l : list (string * nat)) (w : zkWatcher) : option zkWatcher :=
  match l with
  | [] => Some w
  | (_, wn) :: l' =>
      let rs := routines_of w wn in
      let i := (pick wn `mod` length rs)%nat in
      match rs with
      | [] => None
      | _ => cancel_loop pick l' (w_set_routines w (<[wn := (take i rs ++ drop (S i) rs)%list]> (w_routines w)))
      end
  end.

(** [notifyDisconnected]: the watches whose reader is at its select and takes
    the notice; the others miss it.  [cancelWatches] calls it first. *)
Definition notifyDisconnected (reading : nat -> bool) (w : zkWatcher) : list nat :=
  filter (λ wn, reading wn = true) (snd <$> range (w_watchedNodes w)).

Definition cancelWatches (pick : nat -> nat) (w : zkWatcher) : option zkWatcher :=
  cancel_loop pick (range (w_watchedNodes w)) w.

Definition triggerCleanup (fuel : nat) (w : zkWatcher) : zkWatcher :=
  w_set_conn w (cleanupTree fuel (w_prefix w) (w_conn w)).
End watcher.

Arguments zkWatcher : clear implicits.

(** Every reader that waits is told, and nobody else. *)
Lemma notifyDisconnected_spec {Z : Zk} {MS : MapOrder string} reading (w : zkWatcher Z) wn :
  wn ∈ notifyDisconnected reading w <-> reading wn = true ∧ ∃ node, w_watchedNodes w !! node = Some wn.
Proof.
  unfold notifyDisconnected. rewrite list_elem_of_filter, list_elem_of_fmap. split.
  - intros [Hr ([node wn'] & -> & Hin)]. rewrite range_perm in Hin. apply elem_of_map_to_list in Hin. eauto.
  - intros [Hr [node Hn]]. split; [done|]. exists (node, wn). split; [done|]. rewrite range_perm. by apply elem_of_map_to_list.
Qed.

(** ** Creating nodes *)

Section conn_props.
Context {Z : Zk} {L : ZkLaws Z}.

Lemma zk_ancestor c es q b : znodes c !! es = Some b -> q `prefix_of` es -> is_Some (znodes c !! q).
Proof.
  intros Hes [k ->]. revert b Hes. induction k as [|x k IH] using rev_ind; intros b; [rewrite app_nil_r; by eexists|].
  rewrite app_assoc. intros Hb%zk_tree. by eapply IH.
Qed.

(** Only persistent nodes on the way to [es] are added. *)
Record grows_to (es : list string) (c c' : zk_conn) : Prop := {
  gt_sub : znodes c ⊆ znodes c';
  gt_new : ∀ q b, znodes c' !! q = Some b -> znodes c !! q = Some b ∨ (b = false ∧ q `prefix_of` es);
}.

Lemma grows_to_refl es c : grows_to es c c.
Proof. split; auto. Qed.

Lemma grows_to_eq es c c' : znodes c' = znodes c -> grows_to es c c'.
Proof. intros H. split; rewrite H; auto. Qed.

Lemma grows_to_insert es c c' :
  znodes c !! es = None -> znodes c' = <[es := false]> (znodes c) -> grows_to es c c'.
Proof.
  intros Hn Hc. split; rewrite Hc; [by apply insert_subseteq|].
  intros q b. rewrite lookup_insert. case_decide; [intros; simplify_eq; by right|by left].
Qed.

Lemma grows_to_trans es es' c1 c2 c3 :
  es `prefix_of` es' -> grows_to es c1 c2 -> grows_to es' c2 c3 -> grows_to es' c1 c3.
Proof.
  intros Hp [H1 H1'] [H2 H2']. split; [by etransitivity|].
  intros q b [[?|[-> ?]]%H1'|?]%H2'; auto. right. split; [done|]. by etransitivity.
Qed.

(** The last call of [createAll]. *)
Lemma Create_persistent es e c r c' :
  Forall plain_elem (es ++ [e])%list -> is_Some (znodes c !! es) -> zk_Create (abs_path (es ++ [e])) false c = (r, c') ->
  grows_to (es ++ [e]) c c'
  ∧ match r with
    | Some err => if isNodeExists err then is_Some (znodes c' !! (es ++ [e])%list) else isNoNode err = false
    | None => is_Some (znodes c' !! (es ++ [e])%list)
    end.
Proof.
  intros Hp Hpar H. pose proof (Create_ok _ _ _ _ _ _ Hp H) as Hc. destruct r as [err|].
  - destruct Hc as (Hex & Hno & Hz). assert (grows_to (es ++ [e]) c c') as Hg.
    { destruct Hz as [?|[? ?]]; [by apply grows_to_eq|by apply grows_to_insert]. }
    split; [done|]. unfold isNodeExists, isNoNode. case_bool_decide as He.
    + destruct (Hex He) as [b Hb]. exists b. eapply lookup_weaken; [exact Hb|apply Hg].
    + apply bool_decide_eq_false. intros Hn. specialize (Hno Hn). destruct Hpar. congruence.
  - destruct Hc as [Hn Hz]. split; [by apply grows_to_insert|]. rewrite Hz, lookup_insert_eq. by eexists.
Qed.

Lemma createAll_loop_ok es :
  Forall plain_elem es -> ∀ fuel node c,
  node = abs_path es ∨ node = abs_path es ++ "/" -> (length es < fuel)%nat ->
  ∃ err c', createAll_loop fuel node c = Some (err, c') ∧ grows_to es c c'
  ∧ match err with None => is_Some (znodes c' !! es) | Some e => isNoNode e = false end.
Proof.
  induction es as [|e es IH] using rev_ind; intros Hp fuel node c Hnode Hfuel.
  - destruct fuel as [|fuel]; [lia|]. assert (path_Clean node = "/") as Hcl by (destruct Hnode as [->| ->]; done).
    cbn [createAll_loop]. rewrite Hcl. change (path_Split "/") with ("/", ""). cbn [fst].
    rewrite bool_decide_false by (by intros [_ ?]). rewrite GoM_bind_eq. cbn [mret GoM_ret]. rewrite GoM_bind_eq.
    unfold Create. destruct (zk_Create "/" false c) as [r c'] eqn:E.
    destruct (Create_root _ _ _ _ E) as (Hz & Hr & Hn). eexists _, _. split; [reflexivity|].
    split; [by apply grows_to_eq|]. destruct r as [err|]; [|done]. unfold isNodeExists, isNoNode. case_bool_decide.
    + rewrite Hz, zk_root. by eexists.
    + apply bool_decide_eq_false. congruence.
  - destruct fuel as [|fuel]; [lia|]. rewrite length_app in Hfuel. cbn in Hfuel.
    pose proof Hp as [Hes [He _]%Forall_cons]%Forall_app.
    assert (path_Clean node = abs_path (es ++ [e])) as Hcl by (destruct Hnode as [->| ->]; by apply path_Clean_abs).
    assert (∃ err c1, (if bool_decide ((path_Split (abs_path (es ++ [e]))).1 ≠ "" ∧ (path_Split (abs_path (es ++ [e]))).1 ≠ "/")
        then createAll_loop fuel (path_Split (abs_path (es ++ [e]))).1 else mret None) c = Some (err, c1)
      ∧ grows_to es c c1 ∧ match err with None => is_Some (znodes c1 !! es) | Some e => isNoNode e = false end)
      as (err & c1 & Hrec & Hg & Herr).
    { rewrite path_Split_abs by done. cbn [fst]. case_decide as Hnil.
      - subst es. rewrite bool_decide_false by (by intros [_ ?]). eexists None, c. split; [done|].
        split; [apply grows_to_refl|]. rewrite zk_root. by eexists.
      - rewrite bool_decide_true.
        + apply IH; [done|by right|lia].
        + split; [by intros [? _]%str_app_eq_nil|]. intros H. unfold abs_path in H. cbn in H. injection H as H.
          by apply str_app_eq_nil in H as [_ ?]. }
    cbn [createAll_loop]. rewrite Hcl, GoM_bind_eq, Hrec. destruct err as [err|].
    { eexists _, _. split; [reflexivity|]. split; [|done].
      eapply grows_to_trans; [|exact Hg|apply grows_to_refl]. by apply prefix_app_r. }
    rewrite GoM_bind_eq. unfold Create. destruct (zk_Create _ false c1) as [r c'] eqn:E.
    destruct (Create_persistent _ _ _ _ _ Hp Herr E) as [Hg' Hr]. eexists _, _. split; [reflexivity|].
    split; [eapply grows_to_trans; [|exact Hg|exact Hg']; by apply prefix_app_r|].
    destruct r as [err|]; [|done]. by destruct (isNodeExists err).
Qed.

Lemma abs_path_length es : Forall plain_elem es -> (length es <= String.length (abs_path es))%nat.
Proof.
  intros H. unfold abs_path. cbn. enough (length es <= S (String.length (String.concat "/" es)))%nat by lia.
  induction H as [|e es (He & _) Hes IH]; [cbn; lia|]. destruct es as [|e' es]; [cbn; lia|].
  change (String.concat "/" (e :: e' :: es)) with (e ++ String "/" (String.concat "/" (e' :: es))).
  rewrite str_length_app. cbn [length String.length] in *. lia.
Qed.

Lemma createAll_ok es node c :
  Forall plain_elem es -> node = abs_path es ∨ node = abs_path es ++ "/" ->
  ∃ err c', createAll node c = Some (err, c') ∧ grows_to es c c'
  ∧ match err with None => is_Some (znodes c' !! es) | Some e => isNoNode e = false end.
Proof.
  intros Hp Hn. apply createAll_loop_ok; [done..|]. pose proof (abs_path_length es Hp).
  destruct Hn as [->| ->]; rewrite ?str_length_app; lia.
Qed.

Lemma Create_ephemeral es e c r c' :
  Forall plain_elem (es ++ [e])%list -> zk_Create (abs_path (es ++ [e])) true c = (r, c') ->
  znodes c ⊆ znodes c'
  ∧ match r with
    | None => znodes c !! (es ++ [e])%list = None ∧ znodes c' !! (es ++ [e])%list = Some true
    | Some err => isNoNode err = true -> znodes c !! es = None
    end.
Proof.
  intros Hp H. pose proof (Create_ok _ _ _ _ _ _ Hp H) as Hc. destruct r as [err|].
  - destruct Hc as (_ & Hno & Hz). split; [|intros Hn; apply Hno; by apply bool_decide_eq_true in Hn].
    destruct Hz as [->|[? ->]]; [done|by apply insert_subseteq].
  - destruct Hc as [Hn Hz]. rewrite Hz, lookup_insert_eq. split; [by apply insert_subseteq|done].
Qed.

(** Two attempts are enough: the second finds the parent. *)
Lemma hookCreate_ok i es e c :
  Forall plain_elem (es ++ [e])%list ->
  ∃ err c', hookCreate_loop (S (S i)) (abs_path (es ++ [e])) c = Some (err, c') ∧ znodes c ⊆ znodes c'
  ∧ (err = None -> znodes c !! (es ++ [e])%list = None ∧ znodes c' !! (es ++ [e])%list = Some true).
Proof.
  intros Hp. pose proof Hp as [Hes [He _]%Forall_cons]%Forall_app. cbn [hookCreate_loop].
  rewrite GoM_bind_eq. unfold Create at 1. destruct (zk_Create _ true c) as [r c1] eqn:E1.
  destruct (Create_ephemeral _ _ _ _ _ Hp E1) as [Hsub1 H1].
  destruct r as [err|]; [|by exists None, c1]. destruct (isNoNode err) eqn:En; [|by exists (Some err), c1].
  cbn [negb]. rewrite path_Split_abs by done. cbn [fst]. rewrite GoM_bind_eq.
  destruct (createAll_ok es (if decide (es = []) then "/" else abs_path es ++ "/") c1) as (err2 & c2 & Hall & [Hsub2 Hnew2] & H2).
  { done. } { case_decide; [left; by subst|by right]. }
  rewrite Hall. destruct err2 as [err2|].
  { eexists (Some _), _. split; [reflexivity|]. split; [by etransitivity|done]. }
  rewrite GoM_bind_eq. unfold Create at 1. destruct (zk_Create _ true c2) as [r3 c3] eqn:E3.
  destruct (Create_ephemeral _ _ _ _ _ Hp E3) as [Hsub3 H3].
  assert (znodes c ⊆ znodes c3) as Hsub by (etransitivity; [exact Hsub1|]; by etransitivity).
  destruct r3 as [err3|].
  - destruct (isNoNode err3) eqn:En3; [|by exists (Some err3), c3]. destruct H2 as [b Hb]. rewrite H3 in Hb; done.
  - exists None, c3. split_and!; [done..|]. intros _. destruct H3 as [H3 H3']. split; [|done].
    destruct (znodes c !! (es ++ [e])%list) as [b|] eqn:Eb; [|done].
    assert (znodes c2 !! (es ++ [e])%list = Some b) as Hb; [|congruence].
    eapply lookup_weaken; [|exact Hsub2]. eapply lookup_weaken; [exact Eb|exact Hsub1].
Qed.

(** The same for the watch of a directory. *)
Lemma childrenW_ok i es c :
  Forall plain_elem es ->
  ∃ r c', childrenW_loop (S (S i)) (abs_path es) c = Some (r, c') ∧ znodes c ⊆ znodes c'
  ∧ match r with
    | Ok None => False
    | Ok (Some children) => is_Some (znodes c' !! es) ∧ ∃ eph, zk_Children (abs_path es) c' = Ok (children, eph)
    | Err _ => True
    end.
Proof.
  intros Hp. cbn [childrenW_loop]. pose proof (Children_ok es c _ Hp eq_refl) as H1.
  destruct (zk_Children (abs_path es) c) as [[children eph]|e] eqn:Ech.
  { eexists _, _. split; [reflexivity|]. split; [done|]. destruct H1 as [-> _]. split; [by eexists|by exists eph]. }
  destruct (isNoNode e) eqn:En; cbn [negb]; [|eexists _, _; split; [reflexivity|done]].
  rewrite GoM_bind_eq. destruct (createAll_ok es (abs_path es) c) as (err & c1 & Hall & [Hsub _] & H2); [done|by left|].
  rewrite Hall. destruct err as [err|]; [eexists _, _; split; [reflexivity|done]|].
  pose proof (Children_ok es c1 _ Hp eq_refl) as H3.
  destruct (zk_Children (abs_path es) c1) as [[children eph]|e1] eqn:Ech1.
  { eexists _, _. split; [reflexivity|]. split; [done|]. split; [done|by exists eph]. }
  destruct (isNoNode e1) eqn:En1; [|eexists _, _; split; [reflexivity|done]].
  apply bool_decide_eq_true in En1. destruct H2 as [b Hb]. rewrite (H3 En1) in Hb. done.
Qed.

(** [createAll] creates the whole path, and nothing else.  It returns for every
    absolute path; when it succeeds the node exists, and so do all nodes on the
    way to it; what it adds are persistent nodes on that way; and it never fails
    because a parent is missing. *)
Lemma createAll_creates es c :
  Forall plain_elem es ->
  ∃ err c', createAll (abs_path es) c = Some (err, c') ∧ znodes c ⊆ znodes c'
  ∧ (∀ q b, znodes c' !! q = Some b -> znodes c !! q = Some b ∨ (b = false ∧ q `prefix_of` es))
  ∧ (err = None -> ∀ q, q `prefix_of` es -> is_Some (znodes c' !! q)) ∧ err ≠ Some ZNONODE.
Proof.
  intros Hp. destruct (createAll_ok es (abs_path es) c Hp) as (err & c' & Hall & [Hsub Hnew] & He); [by left|].
  exists err, c'. split_and!; [done..| |].
  - intros -> q Hq. destruct He as [b Hb]. by eapply zk_ancestor.
  - intros ->. by apply bool_decide_eq_false in He.
Qed.

(** *** The calls a connection has served

    Only [Create] changes the tree during a reconnection. *)
Inductive conn_call : zk_conn -> zk_conn -> Prop :=
  | cc_create path eph c r c' : zk_Create path eph c = (r, c') -> conn_call c c'.

(** The call [f] leads from a connection to a later state of it. *)
Definition served {A} (f : GoM zk_conn A) : Prop := ∀ c a c', f c = Some (a, c') -> rtc conn_call c c'.

Lemma served_ret {A} (a : A) : served (mret a).
Proof. intros c x c' [= _ <-]. apply rtc_refl. Qed.

Lemma served_bind {A B} (f : GoM zk_conn A) (g : A -> GoM zk_conn B) :
  served f -> (∀ a, served (g a)) -> served (f ≫= g).
Proof.
  intros Hf Hg c b c'. rewrite GoM_bind_eq. destruct (f c) as [[a c1]|] eqn:E; [|done].
  intros H. etransitivity; [by eapply Hf|by eapply Hg].
Qed.

Lemma served_Create path eph : served (Create path eph).
Proof. intros c a c' [= H]. eapply rtc_once, cc_create. exact H. Qed.

Lemma served_createAll fuel node : served (createAll_loop fuel node).
Proof.
  revert node. induction fuel as [|fuel IH]; intros node; [by intros c a c'|]. cbn [createAll_loop].
  apply served_bind; [case_match; [apply IH|apply served_ret]|].
  intros [e|]; [apply served_ret|]. apply served_bind; [apply served_Create|]. intros err. apply served_ret.
Qed.

Lemma served_hookCreate i node : served (hookCreate_loop i node).
Proof.
  induction i as [|i IH]; [apply served_ret|]. cbn [hookCreate_loop].
  apply served_bind; [apply served_Create|]. intros [e|]; [|apply served_ret].
  destruct (negb _); [apply served_ret|]. apply served_bind; [apply served_createAll|].
  intros [e'|]; [apply served_ret|apply IH].
Qed.

Lemma served_childrenW i node : served (childrenW_loop i node).
Proof.
  induction i as [|i IH]; [apply served_ret|]. cbn [childrenW_loop]. intros c a c' H.
  destruct (zk_Children node c) as [[ch eph]|e]; [injection H as _ <-; apply rtc_refl|].
  destruct (negb _); [injection H as _ <-; apply rtc_refl|]. revert H.
  apply served_bind; [apply served_createAll|]. intros [e'|]; [apply served_ret|apply IH].
Qed.

(** ** Cleaning up *)

Lemma cleanupTree_ok fuel es c :
  Forall plain_elem es ->
  znodes (cleanupTree fuel (abs_path es) c) ⊆ znodes c
  ∧ ∀ q, znodes c !! q = Some true -> znodes (cleanupTree fuel (abs_path es) c) !! q = Some true.
Proof.
  revert es c. induction fuel as [|fuel IH]; intros es c Hp; [done|]. cbn [cleanupTree].
  pose proof (Children_ok es c _ Hp eq_refl) as Hch.
  destruct (zk_Children (abs_path es) c) as [[children eph]|]; [|done]. destruct Hch as [Hes Hch].
  destruct eph; [done|].
  assert (∀ l, (∀ x, x ∈ l -> plain_elem x) -> ∀ c0,
    let c1 := foldl (λ c child, cleanupTree fuel (path_Join [abs_path es; child]) c) c0 l in
    znodes c1 ⊆ znodes c0 ∧ ∀ q, znodes c0 !! q = Some true -> znodes c1 !! q = Some true) as Hfold.
  { induction l as [|x l IHl]; intros Hl c0; [done|]. cbn [foldl].
    assert (plain_elem x) as Hx by (apply Hl; by left). rewrite abs_path_Join by done.
    destruct (IH (es ++ [x])%list c0) as [H1 H1']; [apply Forall_app; split; [done|by apply Forall_singleton]|].
    destruct (IHl (λ y Hy, Hl y ltac:(by right)) (cleanupTree fuel (abs_path (es ++ [x])) c0)) as [H2 H2'].
    split; [by etransitivity|]. intros q Hq. apply H2', H1', Hq. }
  destruct (Hfold children (λ x Hx, proj2 (Hch x Hx)) c) as [Hsub Heph].
  set (c1 := foldl _ c children) in *. destruct (zk_Delete (abs_path es) c1) as [r c2] eqn:Ed. cbn [snd].
  destruct (Delete_ok _ _ _ _ Hp Ed) as [->|[-> _]]; [done|]. split.
  - etransitivity; [apply delete_subseteq|done].
  - intros q Hq. rewrite lookup_delete_ne; [by apply Heph|]. intros <-. congruence.
Qed.
End conn_props.

(** ** The watcher's calls always return *)

Section watcher_props.
Context {Z : Zk} {L : ZkLaws Z} {MS : MapOrder string}.

(** A name in the watcher's maps. *)
Definition zk_name (node : string) (es : list string) : Prop := Forall plain_elem es ∧ node = abs_path es.

Lemma hookCreateEphemeral_ok node es c :
  zk_name node es ->
  ∃ err c', hookCreateEphemeral node c = Some (err, c') ∧ znodes c ⊆ znodes c'
  ∧ (err = None -> znodes c !! es = None ∧ znodes c' !! es = Some true).
Proof.
  intros [Hp ->]. unfold hookCreateEphemeral, maxCreateRetries.
  destruct es as [|e es _] using rev_ind; [|by apply hookCreate_ok].
  cbn [hookCreate_loop]. rewrite GoM_bind_eq. unfold Create at 1. change (abs_path []) with "/".
  destruct (zk_Create "/" true c) as [r c1] eqn:E. destruct (Create_root _ _ _ _ E) as (Hz & Hr & Hn).
  destruct r as [err|]; [|done]. destruct (isNoNode err) eqn:En.
  { apply bool_decide_eq_true in En. congruence. }
  exists (Some err), c1. split_and!; [done|by rewrite Hz|done].
Qed.

Lemma on_conn_eq {A} (f : GoM zk_conn A) (w : zkWatcher Z) a c :
  f (w_conn w) = Some (a, c) -> on_conn f w = Some (a, w_set_conn w c).
Proof. intros H. unfold on_conn. by rewrite H. Qed.

(** What a call of [hookWatchChildren] does to the watcher. *)
Lemma hookWatchChildren_ok node es wn (w : zkWatcher Z) :
  zk_name node es ->
  ∃ err w', hookWatchChildren node wn w = Some (err, w') ∧ znodes (w_conn w) ⊆ znodes (w_conn w')
  ∧ match err with
    | Some _ => w' = w_set_conn w (w_conn w')
    | None => is_Some (znodes (w_conn w') !! es)
              ∧ ∃ children eph, zk_Children node (w_conn w') = Ok (children, eph) ∧ w' = w_set_routines (w_set_conn w (w_conn w'))
                                   (<[wn := (routines_of w wn ++ [Sending (Some children)])%list]> (w_routines w))
    end.
Proof.
  intros [Hp ->]. unfold hookWatchChildren. rewrite GoM_bind_eq.
  destruct (childrenW_ok 3 es (w_conn w) Hp) as (r & c' & Hc & Hsub & Hr).
  rewrite (on_conn_eq (childrenW (abs_path es)) w r c') by exact Hc.
  destruct r as [[children|]|e]; [|done|].
  - eexists None, _. split; [reflexivity|]. split; [exact Hsub|]. destruct Hr as [Hr [eph Hch]].
    split; [exact Hr|]. by exists children, eph.
  - eexists (Some e), _. split; [reflexivity|]. by split.
Qed.

Lemma zk_createEphemeral_ok n es (w : zkWatcher Z) :
  zk_name (path_Join [w_prefix w; n]) es ->
  ∃ w', zk_createEphemeral n w = Some (tt, w')
  ∧ w_prefix w' = w_prefix w ∧ w_ephemeralNodes w' = {[ path_Join [w_prefix w; n] ]} ∪ w_ephemeralNodes w
  ∧ w_watchedNodes w' = w_watchedNodes w ∧ w_routines w' = w_routines w ∧ w_next w' = w_next w
  ∧ znodes (w_conn w) ⊆ znodes (w_conn w')
  ∧ (w_errs w ≠ None -> w_errs w' ≠ None)
  ∧ (w_errs w' = None -> znodes (w_conn w) !! es = None ∧ znodes (w_conn w') !! es = Some true).
Proof.
  intros Hn. unfold zk_createEphemeral. rewrite GoM_bind_eq.
  destruct (hookCreateEphemeral_ok _ _ (w_conn w) Hn) as (err & c' & Hc & Hsub & Herr).
  erewrite on_conn_eq by exact Hc. destruct err as [e|].
  - unfold sendErr. destruct (w_errs w) as [e0|] eqn:Ee; cbn; rewrite Ee; eexists; (split; [reflexivity|]);
      cbn; rewrite ?Ee; split_and!; done.
  - eexists. split; [reflexivity|]. cbn. split_and!; auto.
Qed.

Lemma zk_watchChildren_ok n es (w : zkWatcher Z) :
  zk_name (path_Join [w_prefix w; n]) es ->
  ∃ w' r, zk_watchChildren n w = Some (tt, w')
  ∧ w_prefix w' = w_prefix w ∧ w_ephemeralNodes w' = w_ephemeralNodes w
  ∧ w_watchedNodes w' = <[path_Join [w_prefix w; n] := w_next w]> (w_watchedNodes w)
  ∧ w_routines w' = <[w_next w := (routines_of w (w_next w) ++ [r])%list]> (w_routines w)
  ∧ w_next w' = S (w_next w).
Proof using L.
  intros Hn. unfold zk_watchChildren. rewrite GoM_bind_eq.
  match goal with |- context [hookWatchChildren _ _ ?w1] => set (w1' := w1) end.
  destruct (hookWatchChildren_ok _ es (w_next w) w1' Hn) as (err & w2 & Hh & _ & Herr). rewrite Hh.
  destruct err as [e|].
  - rewrite Herr. unfold w1'. rewrite GoM_bind_eq. unfold sendErr. cbn. destruct (w_errs w) eqn:Ee; cbn;
      (eexists _, Drain; split; [reflexivity|]); by split_and!.
  - destruct Herr as (_ & children & eph & _ & ->). eexists _, _. split; [reflexivity|]. by split_and!.
Qed.
End watcher_props.

(** ** The watcher is what the cluster code needs *)

(** A call that does not return, which cannot happen under an absolute prefix,
    or that panics has no state after it; the maps are as if it had returned. *)
#[global] Instance zk_coord {Z : Zk} : Coord := {|
  zkw := zkWatcher Z;
  createEphemeral n w :=
    match zk_createEphemeral n w with
    | Some (_, w') => w'
    | None => w_set_ephemeral w ({[ path_Join [w_prefix w; n] ]} ∪ w_ephemeralNodes w)
    end;
  removeEphemeral n w := match zk_removeEphemeral n w with Some (_, w') => w' | None => w end;
  watchChildren n w :=
    match zk_watchChildren n w with
    | Some (_, w') => w'
    | None => ZkW (w_prefix w) (w_conn w) (w_errs w) (w_ephemeralNodes w)
                  (<[path_Join [w_prefix w; n] := w_next w]> (w_watchedNodes w)) (w_routines w) (w_closed w) (w_next w)
    end;
  removeWatch n w :=
    match zk_removeWatch n w with
    | Some (_, w') => w'
    | None => ZkW (w_prefix w) (w_conn w) (w_errs w) (w_ephemeralNodes w)
                  (delete (path_Join [w_prefix w; n]) (w_watchedNodes w)) (w_routines w) (w_closed w) (w_next w)
    end;
|}.

Section coord.
Context {Z : Zk}.

Lemma on_conn_inv {A} (f : GoM zk_conn A) (w : zkWatcher Z) a w' :
  on_conn f w = Some (a, w') -> ∃ c, w' = w_set_conn w c.
Proof.
  unfold on_conn. destruct (f (w_conn w)) as [[x c]|]; [|done]. cbn. intros H. injection H as _ <-. by exists c.
Qed.

Lemma createEphemeral_frame n (w w' : zkWatcher Z) u :
  zk_createEphemeral n w = Some (u, w') ->
  w_prefix w' = w_prefix w ∧ w_ephemeralNodes w' = {[ path_Join [w_prefix w; n] ]} ∪ w_ephemeralNodes w
  ∧ w_watchedNodes w' = w_watchedNodes w.
Proof.
  unfold zk_createEphemeral. rewrite GoM_bind_eq. intros H.
  destruct (on_conn _ _) as [[err w1]|] eqn:E; [|done]. apply on_conn_inv in E as [c ->].
  destruct err as [e|]; [unfold sendErr in H; cbn in H; destruct (w_errs w)|]; injection H as _ <-; done.
Qed.

Lemma watchChildren_frame n (w w' : zkWatcher Z) u :
  zk_watchChildren n w = Some (u, w') ->
  w_prefix w' = w_prefix w ∧ w_ephemeralNodes w' = w_ephemeralNodes w
  ∧ w_watchedNodes w' = <[path_Join [w_prefix w; n] := w_next w]> (w_watchedNodes w).
Proof.
  unfold zk_watchChildren, hookWatchChildren. rewrite !GoM_bind_eq. intros H.
  destruct (on_conn _ _) as [[r w1]|] eqn:E; [|done]. apply on_conn_inv in E as [c ->].
  destruct r as [children|e]; cbn in H; [by injection H as _ <-|].
  rewrite GoM_bind_eq in H. unfold sendErr in H. cbn in H. destruct (w_errs w); by injection H as _ <-.
Qed.

#[global] Instance zk_coord_laws : CoordLaws zk_coord.
Proof.
  refine {| zk_prefix := w_prefix : @zkw zk_coord -> string; registered := w_ephemeralNodes : @zkw zk_coord -> _;
            watching := (λ w, dom (w_watchedNodes w)) : @zkw zk_coord -> _ |}; intros n w; cbn.
  - destruct (zk_createEphemeral n w) as [[u w']|] eqn:E; [|done].
    destruct (createEphemeral_frame _ _ _ _ E) as (-> & -> & ->). done.
  - done.
  - destruct (zk_watchChildren n w) as [[u w']|] eqn:E.
    + destruct (watchChildren_frame _ _ _ _ E) as (-> & -> & ->). split_and!; [done..|]. set_solver.
    + cbn. split_and!; [done..|]. set_solver.
  - unfold zk_removeWatch. destruct (w_watchedNodes w !! _) as [wn|] eqn:E.
    + destruct (2 <=? _)%nat; cbn; (split; [done|]); (split; [done|]); rewrite dom_delete_L; set_solver.
    + split_and!; [done..|]. apply not_elem_of_dom in E. set_solver.
Defined.
End coord.

(** ** The main loop

    [run] is connected, waits to reconnect, or has ended.  The methods hold
    [hooksLock], and so do [cancelWatches] and [runHooks], so each is one step.
    The events of the goroutines come in between; which directory a goroutine
    lists again is left open. *)

Inductive phase := Connected | Down | Closed.

Section run.
Context {Z : Zk} {MS : MapOrder string}.

Definition set_routine (wn i : nat) (r : routine) (w : zkWatcher Z) : zkWatcher Z :=
  w_set_routines w (<[wn := <[i := r]> (routines_of w wn)]> (w_routines w)).

(** One turn of the loop of [run] while it is disconnected. *)
Definition try_reconnect (dialed : res zk_conn) (connected : bool) : GoM (zkWatcher Z) phase :=
  err ← reconnect dialed connected;
  match err with
  | Some _ => mret Down
  | None =>
      err ← runHooks;
      mret (match err with Some _ => Down | None => Connected end)
  end.

(** [close]: [run] leaves its loop and cancels the watches. *)
Definition zk_close (pick : nat -> nat) (w : zkWatcher Z) : option (phase * zkWatcher Z) :=
  w ← cancelWatches pick w; Some (Closed, w).

(** The operations of the watcher one after the other, in any order.  Its two
    locks are left out: the calls here are those that got them, each as one
    step, so that nothing here says that a call gets its turn.  Where the
    goroutines wait for the locks and for each other is [ZkClose.v]. *)
Inductive zk_step : phase * zkWatcher Z -> phase * zkWatcher Z -> Prop :=
  | zs_create n ph w w' : zk_createEphemeral n w = Some (tt, w') -> zk_step (ph, w) (ph, w')
  | zs_remove n ph w w' : zk_removeEphemeral n w = Some (tt, w') -> zk_step (ph, w) (ph, w')
  | zs_watch n ph w w' : zk_watchChildren n w = Some (tt, w') -> zk_step (ph, w) (ph, w')
  | zs_unwatch n ph w w' : zk_removeWatch n w = Some (tt, w') -> zk_step (ph, w) (ph, w')
  | zs_cleanup fuel ph w : zk_step (ph, w) (ph, triggerCleanup fuel w)
  | zs_deliver wn i children ph w :
      routines_of w wn !! i = Some (Sending children) -> zk_step (ph, w) (ph, set_routine wn i Listening w)
  | zs_changed node wn i r ph w w' :
      routines_of w wn !! i = Some Listening -> on_conn (childrenW node) w = Some (r, w') ->
      zk_step (ph, w) (match r with
                       | Ok children => (ph, set_routine wn i (Sending children) w')
                       | Err e => (ph, set_routine wn i (Failed true)
                                         (w_set_errs w' (Some (default e (w_errs w')))))
                       end)
  | zs_lost wn i e ph w :
      routines_of w wn !! i = Some Listening ->
      zk_step (ph, w) (ph, set_routine wn i (Failed false) (w_set_errs w (Some (default e (w_errs w)))))
  | zs_session e ph w :       (** the session's own events *)
      zk_step (ph, w) (ph, w_set_errs w (Some (default e (w_errs w))))
  | zs_disconnect e pick w w' :
      w_errs w = Some e -> cancelWatches pick (w_set_errs w None) = Some w' -> zk_step (Connected, w) (Down, w')
  | zs_reconnect dialed connected ph w w' :
      try_reconnect dialed connected w = Some (ph, w') -> zk_step (Down, w) (ph, w')
  | zs_close pick ph w s : ph ≠ Closed -> zk_close pick w = Some s -> zk_step (ph, w) s.

(** After [connectZookeeper]: the prefix has the version of the protocol. *)
Definition zk_init (prefix : string) (c : zk_conn) : phase * zkWatcher Z :=
  (Connected, ZkW (path_Join [prefix; coordinationVersion]) c None ∅ ∅ ∅ ∅ 0).

Record zk_ok (s : phase * zkWatcher Z) : Prop := {
  zo_prefix : ∃ es, zk_name (w_prefix s.2) es;
  zo_ephemeral : ∀ node, node ∈ w_ephemeralNodes s.2 -> ∃ es, zk_name node es;
  zo_watched : ∀ node wn, w_watchedNodes s.2 !! node = Some wn -> (wn < w_next s.2)%nat ∧ ∃ es, zk_name node es;
  zo_inj : ∀ n n' wn, w_watchedNodes s.2 !! n = Some wn -> w_watchedNodes s.2 !! n' = Some wn -> n = n';
  zo_alive : s.1 = Connected -> ∀ node wn, w_watchedNodes s.2 !! node = Some wn -> routines_of s.2 wn ≠ [];
}.
End run.

Section run_props.
Context {Z : Zk} {L : ZkLaws Z} {MS : MapOrder string}.

Lemma rooted_name prefix n : (∃ es, zk_name prefix es) -> ∃ es, zk_name (path_Join [prefix; n]) es.
Proof. intros (es & _ & ->). apply path_Join_rooted. by apply (is_rooted_app "/"). Qed.

Lemma routines_insert (w : zkWatcher Z) wn wn' rs :
  routines_of (w_set_routines w (<[wn := rs]> (w_routines w))) wn' = if decide (wn = wn') then rs else routines_of w wn'.
Proof. unfold routines_of. cbn. rewrite lookup_insert. by case_decide. Qed.

(** Fewer demands on the maps, at least as many goroutines. *)
Lemma zk_ok_weaken ph ph' (w w' : zkWatcher Z) :
  zk_ok (ph, w) -> w_prefix w' = w_prefix w -> w_ephemeralNodes w' ⊆ w_ephemeralNodes w ->
  w_watchedNodes w' ⊆ w_watchedNodes w -> (w_next w <= w_next w')%nat ->
  (ph' = Connected -> ∀ node wn, w_watchedNodes w' !! node = Some wn -> routines_of w' wn ≠ []) ->
  zk_ok (ph', w').
Proof.
  intros [Hp He Hw Hi _] Hp' He' Hw' Hn Ha. cbn in *. split; cbn; [by rewrite Hp'|by auto| | |done].
  - intros node wn H. eapply lookup_weaken in H; [|exact Hw']. destruct (Hw _ _ H). split; [lia|done].
  - intros n n' wn H H'. eapply Hi; by eapply lookup_weaken.
Qed.

Lemma run_create_hooks_ok nodes (w : zkWatcher Z) :
  (∀ node, node ∈ nodes -> ∃ es, zk_name node es) ->
  ∃ err c', run_create_hooks nodes w = Some (err, w_set_conn w c') ∧ znodes (w_conn w) ⊆ znodes c'
  ∧ rtc conn_call (w_conn w) c'
  ∧ (err = None -> ∀ node es, node ∈ nodes -> zk_name node es -> znodes c' !! es = Some true).
Proof.
  revert w. induction nodes as [|node nodes IH]; intros w Hn; cbn [run_create_hooks].
  { exists None, (w_conn w). split_and!; [by destruct w|done|apply rtc_refl|]. by intros _ ? ? ?%not_elem_of_nil. }
  destruct (Hn node) as [es Hes]; [by left|]. rewrite GoM_bind_eq.
  destruct (hookCreateEphemeral_ok _ _ (w_conn w) Hes) as (err & c1 & Hc & Hsub & Herr).
  pose proof (served_hookCreate _ _ _ _ _ Hc) as Hcalls.
  rewrite (on_conn_eq _ _ _ _ Hc). destruct err as [e|].
  { exists (Some e), c1. by split_and!. }
  destruct (IH (w_set_conn w c1)) as (err & c' & Hr & Hsub' & Hcalls' & Hall); [intros; apply Hn; by right|].
  exists err, c'. split_and!; [exact Hr|by etransitivity|by etransitivity|]. intros -> node' es' [->|Hin]%elem_of_cons Hes'.
  - assert (es' = es) as ->. { destruct Hes as [? ->], Hes' as [? ?]. symmetry. by apply abs_path_inj. }
    eapply lookup_weaken; [by apply Herr|exact Hsub'].
  - by eapply Hall.
Qed.

(** The watch [wn] of [node] has got a goroutine that offers the listing made
    when the connection [c], in use since [c0], was in state [ci]. *)
Definition rewatched (c0 : zk_conn) (w w' : zkWatcher Z) (node : string) (wn : nat) : Prop :=
  ∃ ci children eph, rtc conn_call c0 ci ∧ rtc conn_call ci (w_conn w')
  ∧ zk_Children node ci = Ok (children, eph)
  ∧ routines_of w' wn = (routines_of w wn ++ [Sending (Some children)])%list.

Lemma hookWatchChildren_calls node wn (w w' : zkWatcher Z) err :
  hookWatchChildren node wn w = Some (err, w') -> rtc conn_call (w_conn w) (w_conn w').
Proof.
  unfold hookWatchChildren. rewrite GoM_bind_eq. unfold on_conn.
  destruct (childrenW node (w_conn w)) as [[r c]|] eqn:E; [|done]. apply served_childrenW in E. cbn.
  destruct r as [ch|e]; intros H; by injection H as _ <-.
Qed.

Lemma run_watch_hooks_ok l (w : zkWatcher Z) :
  (∀ node wn, (node, wn) ∈ l -> ∃ es, zk_name node es) -> NoDup l.*2 ->
  ∃ err w', run_watch_hooks l w = Some (err, w') ∧ znodes (w_conn w) ⊆ znodes (w_conn w')
  ∧ rtc conn_call (w_conn w) (w_conn w')
  ∧ w_prefix w' = w_prefix w ∧ w_ephemeralNodes w' = w_ephemeralNodes w ∧ w_watchedNodes w' = w_watchedNodes w
  ∧ w_next w' = w_next w ∧ (∀ wn, wn ∉ l.*2 -> routines_of w' wn = routines_of w wn)
  ∧ (err = None -> ∀ node wn es, (node, wn) ∈ l -> zk_name node es ->
     is_Some (znodes (w_conn w') !! es) ∧ rewatched (w_conn w) w w' node wn).
Proof.
  revert w. induction l as [|[node wn] l IH]; intros w Hn Hnd; cbn [run_watch_hooks].
  { exists None, w. split_and!; try done. by intros _ ? ? ? ?%not_elem_of_nil. }
  rewrite fmap_cons in Hnd |- *. cbn [snd] in Hnd |- *. apply NoDup_cons in Hnd as [Hwn Hnd].
  destruct (Hn node wn) as [es Hes]; [by left|]. rewrite GoM_bind_eq.
  destruct (hookWatchChildren_ok _ _ wn w Hes) as (err & w1 & Hc & Hsub & Herr). rewrite Hc.
  apply hookWatchChildren_calls in Hc as Hcalls. destruct err as [e|].
  { exists (Some e), w1. rewrite Herr. split_and!; try done. }
  destruct Herr as (Hex & children & eph & Hch & Hw1).
  destruct (IH w1) as (err & w' & Hr & Hsub' & Hcalls' & Hp & He & Hw & Hnx & Hrs & Hall);
    [intros; eapply Hn; by right|done|].
  assert (∀ wn', routines_of w1 wn' = if decide (wn = wn') then (routines_of w wn ++ [Sending (Some children)])%list
                                      else routines_of w wn') as Hrs1.
  { intros wn'. rewrite Hw1. by rewrite (routines_insert (w_set_conn w (w_conn w1)) wn wn'). }
  exists err, w'. split_and!; [exact Hr|by etransitivity|by etransitivity|by rewrite Hp, Hw1|by rewrite He, Hw1|by rewrite Hw, Hw1|by rewrite Hnx, Hw1| |].
  - intros wn' [Hne Hni]%not_elem_of_cons. rewrite Hrs, Hrs1 by done. by rewrite decide_False.
  - intros -> node' wn' es' [Heq|Hin]%elem_of_cons Hes'.
    + injection Heq as -> ->. assert (es' = es) as ->.
      { destruct Hes as [? ->], Hes' as [? ?]. symmetry. by apply abs_path_inj. }
      split; [destruct Hex as [b Hb]; exists b; by eapply lookup_weaken|].
      exists (w_conn w1), children, eph. split_and!; [done..|]. rewrite Hrs, Hrs1 by done. by rewrite decide_True.
    + destruct (Hall eq_refl node' wn' es' Hin Hes') as (Hex' & ci & ch & eph' & H1 & H2 & H3 & H4).
      split; [done|]. exists ci, ch, eph'. split_and!; [by etransitivity|done..|].
      rewrite H4, Hrs1, decide_False; [done|]. intros <-. apply Hwn, list_elem_of_fmap. by exists (node', wn).
Qed.

Lemma watched_NoDup ph (w : zkWatcher Z) : zk_ok (ph, w) -> NoDup (range (w_watchedNodes w)).*2.
Proof.
  intros Hok. rewrite range_perm. apply NoDup_fmap_2_strong; [|apply NoDup_map_to_list].
  intros [n1 wn] [n2 wn'] H1%elem_of_map_to_list H2%elem_of_map_to_list Heq. cbn in Heq. subst wn'.
  f_equal. by eapply (zo_inj _ Hok).
Qed.

Lemma runHooks_ok ph (w : zkWatcher Z) :
  zk_ok (ph, w) ->
  ∃ err w', runHooks w = Some (err, w')
  ∧ w_prefix w' = w_prefix w ∧ w_ephemeralNodes w' = w_ephemeralNodes w ∧ w_watchedNodes w' = w_watchedNodes w
  ∧ w_next w' = w_next w
  ∧ (err = None ->
     (∀ node es, node ∈ w_ephemeralNodes w -> zk_name node es -> znodes (w_conn w') !! es = Some true)
     ∧ ∀ node wn es, w_watchedNodes w !! node = Some wn -> zk_name node es ->
       is_Some (znodes (w_conn w') !! es) ∧ rewatched (w_conn w) w w' node wn).
Proof.
  intros Hok. unfold runHooks. rewrite GoM_bind_eq.
  assert (∀ node, node ∈ range_set (w_ephemeralNodes w) <-> node ∈ w_ephemeralNodes w) as Hrange.
  { intros node. by rewrite range_set_perm, elem_of_elements. }
  destruct (run_create_hooks_ok (range_set (w_ephemeralNodes w)) w) as (err & c1 & Hc & Hsub & Hcalls & Hnew).
  { intros node Hin. apply (zo_ephemeral _ Hok). cbn. by apply Hrange. }
  rewrite Hc. destruct err as [e|]; [by exists (Some e), (w_set_conn w c1); split_and!|].
  assert (∀ node wn, (node, wn) ∈ range (w_watchedNodes w) <-> w_watchedNodes w !! node = Some wn) as Hwr.
  { intros node wn. by rewrite range_perm, elem_of_map_to_list. }
  destruct (run_watch_hooks_ok (range (w_watchedNodes w)) (w_set_conn w c1))
    as (err & w' & Hr & Hsub' & _ & Hp & He & Hw & Hnx & _ & Hall).
  { intros node wn Hin%Hwr. by apply (zo_watched _ Hok) in Hin as [_ ?]. }
  { by eapply watched_NoDup. }
  exists err, w'. split_and!; [done..|]. intros ->. split.
  - intros node es Hin Hes. eapply lookup_weaken; [|exact Hsub']. apply (Hnew eq_refl node es); [by apply Hrange|done].
  - intros node wn es Hin Hes. destruct (Hall eq_refl node wn es) as (Hex & ci & ch & eph & H1 & H2 & H3 & H4);
      [by apply Hwr|done|].
    split; [done|]. exists ci, ch, eph. split_and!; [by etransitivity|done..].
Qed.

Lemma cancel_loop_ok pick l (w : zkWatcher Z) :
  NoDup l.*2 -> (∀ node wn, (node, wn) ∈ l -> routines_of w wn ≠ []) ->
  ∃ w', cancel_loop pick l w = Some w' ∧ w_prefix w' = w_prefix w ∧ w_ephemeralNodes w' = w_ephemeralNodes w
  ∧ w_watchedNodes w' = w_watchedNodes w ∧ w_next w' = w_next w.
Proof.
  revert w. induction l as [|[node wn] l IH]; intros w Hnd Hl; cbn [cancel_loop]; [by exists w|].
  apply NoDup_cons in Hnd as [Hwn Hnd]. cbn in Hwn.
  pose proof (Hl node wn ltac:(by left)) as Hne. destruct (routines_of w wn) as [|r rs] eqn:Er; [done|].
  match goal with |- context [cancel_loop pick l ?w1] => destruct (IH w1 Hnd) as (w' & H) end; [|by exists w'].
  intros node' wn' Hin. rewrite routines_insert. rewrite decide_False; [eapply Hl; by right|].
  intros ->. apply Hwn. apply list_elem_of_fmap. by exists (node', wn').
Qed.

Lemma cancelWatches_ok pick (w : zkWatcher Z) :
  zk_ok (Connected, w) ->
  ∃ w', cancelWatches pick w = Some w' ∧ w_prefix w' = w_prefix w ∧ w_ephemeralNodes w' = w_ephemeralNodes w
  ∧ w_watchedNodes w' = w_watchedNodes w ∧ w_next w' = w_next w.
Proof.
  intros Hok. apply cancel_loop_ok.
  - by eapply watched_NoDup.
  - intros node wn Hin. rewrite range_perm, elem_of_map_to_list in Hin. by eapply (zo_alive _ Hok).
Qed.

Lemma cancel_loop_frame pick l (w w' : zkWatcher Z) :
  cancel_loop pick l w = Some w' ->
  w_prefix w' = w_prefix w ∧ w_ephemeralNodes w' = w_ephemeralNodes w ∧ w_watchedNodes w' = w_watchedNodes w
  ∧ w_next w' = w_next w.
Proof.
  revert w. induction l as [|[node wn] l IH]; intros w H; cbn [cancel_loop] in H; [by injection H as <-|].
  destruct (routines_of w wn); [done|]. apply IH in H. exact H.
Qed.

Lemma reconnect_frame dialed connected (w w' : zkWatcher Z) err :
  reconnect dialed connected w = Some (err, w') ->
  w_prefix w' = w_prefix w ∧ w_ephemeralNodes w' = w_ephemeralNodes w ∧ w_watchedNodes w' = w_watchedNodes w
  ∧ w_next w' = w_next w.
Proof.
  unfold reconnect. destruct dialed as [c|e]; [|intros H; by injection H as _ <-].
  destruct connected; [|intros H; by injection H as _ <-]. rewrite GoM_bind_eq.
  destruct (on_conn _ _) as [[r w1]|] eqn:E; [|done]. apply on_conn_inv in E as [c' ->].
  intros H. by injection H as _ <-.
Qed.

(** The maps do not change, and no watch loses its goroutine. *)
Lemma zk_ok_routine ph (w w1 : zkWatcher Z) wn i r :
  zk_ok (ph, w) -> w_prefix w1 = w_prefix w -> w_ephemeralNodes w1 = w_ephemeralNodes w ->
  w_watchedNodes w1 = w_watchedNodes w -> w_next w1 = w_next w -> w_routines w1 = w_routines w ->
  zk_ok (ph, set_routine wn i r w1).
Proof.
  intros Hok Hp He Hw Hn Hr. eapply zk_ok_weaken; [exact Hok|done|by cbn; rewrite He|by cbn; rewrite Hw|by cbn; rewrite Hn|].
  intros -> node wn' Hin. cbn in Hin. rewrite Hw in Hin. apply (zo_alive _ Hok) in Hin; [|done].
  unfold set_routine. rewrite routines_insert. unfold routines_of in *. cbn in Hin. rewrite Hr.
  case_decide; [|done]. subst wn'. intros H. apply (f_equal length) in H. rewrite length_insert in H.
  destruct (default [] (w_routines w !! wn)); done.
Qed.

(** What a successful [reconnect] has done to the connection. *)
Lemma reconnect_conn dialed connected (w w' : zkWatcher Z) :
  reconnect dialed connected w = Some (None, w') ->
  ∃ c0, dialed = Ok c0 ∧ rtc conn_call c0 (w_conn w') ∧ w_routines w' = w_routines w.
Proof.
  unfold reconnect. destruct dialed as [c|e]; [|done].
  destruct connected; [|intros H; cbn in H; discriminate H]. rewrite GoM_bind_eq.
  destruct (createAll (w_prefix w) c) as [[err c']|] eqn:E.
  - rewrite (on_conn_eq _ (w_set_conn w c) err c') by exact E. apply served_createAll in E.
    destruct err; intros H; [discriminate H|]. injection H as <-. by exists c.
  - unfold on_conn, createAll in *. cbn in *. rewrite E. intros H. discriminate H.
Qed.

Lemma reconnect_total dialed connected (w : zkWatcher Z) :
  zk_ok (Down, w) -> ∃ err w', reconnect dialed connected w = Some (err, w').
Proof using L.
  intros Hok. unfold reconnect. destruct dialed as [c|]; [|eauto]. destruct connected; [|eauto].
  destruct (zo_prefix _ Hok) as (es & Hp & Hpre). cbn in Hpre. rewrite GoM_bind_eq.
  destruct (createAll_ok es (w_prefix w) c Hp) as (err & c' & Hc & _); [by left|].
  rewrite (on_conn_eq _ (w_set_conn w c) err c') by exact Hc. eexists _, _. reflexivity.
Qed.

(** A reconnection, whatever connection it gets. *)
Lemma try_reconnect_ok dialed connected (w : zkWatcher Z) :
  zk_ok (Down, w) ->
  ∃ ph w', try_reconnect dialed connected w = Some (ph, w') ∧ zk_ok (ph, w')
  ∧ w_ephemeralNodes w' = w_ephemeralNodes w ∧ w_watchedNodes w' = w_watchedNodes w
  ∧ (ph = Connected -> ∃ c0, dialed = Ok c0
     ∧ (∀ node es, node ∈ w_ephemeralNodes w -> zk_name node es -> znodes (w_conn w') !! es = Some true)
     ∧ ∀ node wn es, w_watchedNodes w !! node = Some wn -> zk_name node es ->
       is_Some (znodes (w_conn w') !! es) ∧ rewatched c0 w w' node wn).
Proof.
  intros Hok. unfold try_reconnect. rewrite GoM_bind_eq.
  destruct (reconnect_total dialed connected w Hok) as (err & w1 & E). rewrite E.
  destruct (reconnect_frame _ _ _ _ _ E) as (Hp & Heph & Hw & Hn).
  assert (zk_ok (Down, w1)) as Hok1.
  { eapply zk_ok_weaken; [exact Hok|done|by rewrite Heph|by rewrite Hw|by rewrite Hn|done]. }
  destruct err as [e|]; [eexists Down, w1; by split_and!|]. rewrite GoM_bind_eq.
  destruct (reconnect_conn _ _ _ _ E) as (c0 & Hc0 & Hcalls & Hrs).
  destruct (runHooks_ok _ _ Hok1) as (err & w2 & Hr & Hp2 & He2 & Hw2 & Hn2 & Hall). rewrite Hr.
  rewrite Heph, Hw in Hall. eexists _, w2. split; [reflexivity|]. split_and!; [|congruence|congruence|].
  - eapply zk_ok_weaken; [exact Hok1|done|by rewrite He2|by rewrite Hw2|by rewrite Hn2|].
    intros Hc node wn Hin. destruct err as [e|]; [done|]. destruct (Hall eq_refl) as [_ Hwat].
    rewrite Hw2, Hw in Hin. destruct (zo_watched _ Hok _ _ Hin) as [_ [es Hes]].
    destruct (Hwat _ _ _ Hin Hes) as [_ (ci & ch & eph & _ & _ & _ & H4)]. intros H0. rewrite H0 in H4.
    by destruct (routines_of w1 wn).
  - intros Hc. exists c0. split; [done|]. destruct (Hall ltac:(by destruct err)) as [H1 H2]. split; [done|].
    intros node wn es Hin Hes. destruct (H2 node wn es Hin Hes) as (Hex & ci & ch & eph & H3 & H4 & H5 & H6).
    split; [done|]. exists ci, ch, eph. split_and!; [by etransitivity|done..|].
    rewrite H6. unfold routines_of. by rewrite Hrs.
Qed.

Lemma zk_watch_ok n ph (w w' : zkWatcher Z) :
  zk_watchChildren n w = Some (tt, w') -> zk_ok (ph, w) -> zk_ok (ph, w').
Proof using L.
  intros H Hok. destruct (rooted_name (w_prefix w) n (zo_prefix _ Hok)) as [es Hes].
  destruct (zk_watchChildren_ok n es w Hes) as (w2 & r & H2 & Hp & Heph & Hw & Hr & Hn).
  rewrite H in H2. injection H2 as <-. destruct Hok as [Zp Ze Zw Zi Za]. cbn in *.
  split; cbn; rewrite ?Hp, ?Heph, ?Hw, ?Hn; try done.
  - intros node wn. rewrite lookup_insert. case_decide; intros Hl; [simplify_eq; split; [lia|by exists es]|].
    destruct (Zw _ _ Hl). split; [lia|done].
  - intros n1 n2 wn. rewrite !lookup_insert. repeat case_decide; intros Ha Hb; simplify_eq; try done.
    + apply Zw in Hb as [? _]. lia.
    + apply Zw in Ha as [? _]. lia.
    + by eapply Zi.
  - intros Hc node wn Hin. unfold routines_of. rewrite Hr, lookup_insert. case_decide as Hwn.
    { cbn. intros Hnil. by apply app_nil in Hnil as [_ ?]. }
    rewrite lookup_insert in Hin. case_decide; [congruence|]. by apply (Za Hc node).
Qed.

Lemma zk_step_ok s s' : zk_step s s' -> zk_ok s -> zk_ok s'.
Proof using L.
  intros [n ph w w' H|n ph w w' H|n ph w w' H|n ph w w' H|fuel ph w|wn i children ph w Hi
    |node wn i r ph w w' Hi H|wn i e ph w Hi|e ph w|e pick w w' He H|dialed connected ph w w' H
    |pick ph w s0 Hph H] Hok.
  - destruct (rooted_name (w_prefix w) n (zo_prefix _ Hok)) as [es Hes].
    destruct (zk_createEphemeral_ok n es w Hes) as (w2 & H2 & Hp & Heph & Hw & Hr & Hn & _).
    rewrite H in H2. injection H2 as <-. destruct Hok as [Zp Ze Zw Zi Za]. cbn in *. split; cbn; rewrite ?Hp, ?Hw, ?Hn; try done.
    + rewrite Heph. intros node [->%elem_of_singleton|?]%elem_of_union; [by exists es|auto].
    + intros Hc node wn. unfold routines_of. rewrite Hr. by apply Za.
  - unfold zk_removeEphemeral in H. injection H as <-.
    eapply zk_ok_weaken; [exact Hok|done|cbn; set_solver|done|done|apply (zo_alive _ Hok)].
  - by eapply zk_watch_ok.
  - unfold zk_removeWatch in H. destruct (w_watchedNodes w !! _) as [wn0|] eqn:E; [|by injection H as <-].
    destruct (2 <=? _)%nat; [done|]. injection H as <-.
    eapply zk_ok_weaken; [exact Hok|done|done|apply delete_subseteq|done|].
    intros -> node wn Hin. cbn in Hin. apply lookup_delete_Some in Hin as [Hne Hin]. unfold routines_of. cbn. rewrite lookup_delete_ne.
    + by apply (zo_alive _ Hok eq_refl node).
    + intros ->. apply Hne. by eapply (zo_inj _ Hok).
  - eapply zk_ok_weaken; [exact Hok|done|done|done|done|apply (zo_alive _ Hok)].
  - by apply (zk_ok_routine ph w w).
  - apply on_conn_inv in H as [c ->]. destruct r; by apply (zk_ok_routine ph w).
  - by apply (zk_ok_routine ph w).
  - eapply zk_ok_weaken; [exact Hok|done|done|done|done|apply (zo_alive _ Hok)].
  - destruct (cancelWatches_ok pick (w_set_errs w None)) as (w2 & H2 & Hp & Heph & Hw & Hn).
    { eapply zk_ok_weaken; [exact Hok|done|done|done|done|apply (zo_alive _ Hok)]. }
    rewrite H in H2. injection H2 as <-.
    eapply zk_ok_weaken; [exact Hok|done|by rewrite Heph|by rewrite Hw|by rewrite Hn|done].
  - destruct (try_reconnect_ok dialed connected w Hok) as (ph2 & w2 & H2 & Hok2 & _). rewrite H in H2. by simplify_eq.
  - unfold zk_close in H. destruct (cancelWatches pick w) as [w'|] eqn:E; [|done]. injection H as <-.
    apply cancel_loop_frame in E as (Hp & Heph & Hw & Hn).
    eapply zk_ok_weaken; [exact Hok|done|by rewrite Heph|by rewrite Hw|by rewrite Hn|done].
Qed.

Lemma zk_reachable prefix c s : is_rooted prefix = true -> rtc zk_step (zk_init prefix c) s -> zk_ok s.
Proof using L.
  intros Hr Hs. assert (zk_ok (zk_init prefix c)) as H0.
  { split; cbn; [by apply path_Join_rooted|done..]. }
  induction Hs; eauto using zk_step_ok.
Qed.

(** C11: a reconnection restores everything.  The locks aside, for which
    [close] can make it wait for ever (C40), the calls a reconnection makes all
    return; and when the watcher is connected again, whatever the server had
    lost or kept, nothing was forgotten: all ephemeral nodes it was asked for
    exist, and for every watched directory, which exists, exactly one new
    goroutine was started, which offers the listing that the new connection
    gave for this directory between the dialing and the end of the
    reconnection. *)
Theorem watcher_restores prefix c (w : zkWatcher Z) dialed connected :
  is_rooted prefix = true -> rtc zk_step (zk_init prefix c) (Down, w) ->
  ∃ ph w', try_reconnect dialed connected w = Some (ph, w')
  ∧ registered w' = registered w ∧ w_watchedNodes w' = w_watchedNodes w
  ∧ (ph = Connected -> ∃ c0, dialed = Ok c0
     ∧ (∀ node, node ∈ registered w -> ∃ es, node = abs_path es ∧ znodes (w_conn w') !! es = Some true)
     ∧ ∀ node wn, w_watchedNodes w !! node = Some wn ->
       ∃ es ci children eph, node = abs_path es ∧ is_Some (znodes (w_conn w') !! es)
       ∧ rtc conn_call c0 ci ∧ rtc conn_call ci (w_conn w') ∧ zk_Children node ci = Ok (children, eph)
       ∧ routines_of w' wn = (routines_of w wn ++ [Sending (Some children)])%list).
Proof.
  intros Hroot Hr. pose proof (zk_reachable _ _ _ Hroot Hr) as Hok.
  destruct (try_reconnect_ok dialed connected w Hok) as (ph & w' & H & _ & He & Hw & Hall).
  exists ph, w'. split_and!; [done..|]. intros Hc. destruct (Hall Hc) as (c0 & Hc0 & H1 & H2).
  exists c0. split; [done|]. split.
  - intros node Hin. destruct (zo_ephemeral _ Hok node Hin) as [es Hes]. exists es. split; [apply Hes|by eapply H1].
  - intros node wn Hin. destruct (zo_watched _ Hok node wn Hin) as (_ & es & Hes).
    destruct (H2 _ _ _ Hin Hes) as (Hex & ci & children & eph & Hrest). exists es, ci, children, eph.
    split; [apply Hes|]. by split.
Qed.

(** While the watcher is connected every watch has a goroutine that
    [cancelWatches] can signal, whatever watches were set, failed, lost or
    removed before.  Whether that goroutine gets to the point where it receives
    the signal depends on the locks: see [cancelWatches_returns_iff] in
    [ZkClose.v]. *)
Theorem cancelWatches_returns prefix c (w : zkWatcher Z) pick :
  is_rooted prefix = true -> rtc zk_step (zk_init prefix c) (Connected, w) -> is_Some (cancelWatches pick w).
Proof using L.
  intros Hroot Hr. destruct (cancelWatches_ok pick w (zk_reachable _ _ _ Hroot Hr)) as (w' & H & _). by rewrite H.
Qed.

(** C24: cleaning up never removes a live node: every ephemeral node, and every
    node on the way to it, survives; nothing is created. *)
Theorem cleanup_keeps_ephemerals prefix c ph (w : zkWatcher Z) fuel :
  is_rooted prefix = true -> rtc zk_step (zk_init prefix c) (ph, w) ->
  znodes (w_conn (triggerCleanup fuel w)) ⊆ znodes (w_conn w)
  ∧ ∀ es q, znodes (w_conn w) !! es = Some true -> q `prefix_of` es ->
    is_Some (znodes (w_conn (triggerCleanup fuel w)) !! q).
Proof.
  intros Hroot Hr. destruct (zo_prefix _ (zk_reachable _ _ _ Hroot Hr)) as (pre & Hp & Hpre). cbn in Hpre.
  unfold triggerCleanup. cbn. rewrite Hpre. destruct (cleanupTree_ok fuel pre (w_conn w) Hp) as [Hsub Heph].
  split; [done|]. intros es q Hes%Heph Hq. by eapply zk_ancestor.
Qed.
End run_props.

(** ** Advertising a partition again *)

Section readvertise.
Context {K : Zk} {L : ZkLaws K} {MZ : MapOrder Z}.

(** One call, as [partitions.go] makes it. *)
Lemma createEphemeral_call n (z : zkWatcher K) :
  is_rooted (w_prefix z) = true ->
  let z' := createEphemeral n z in
  w_prefix z' = w_prefix z ∧ znodes (w_conn z) ⊆ znodes (w_conn z') ∧ (w_errs z ≠ None -> w_errs z' ≠ None)
  ∧ ∀ es b, zk_name (path_Join [w_prefix z; n]) es -> znodes (w_conn z) !! es = Some b -> w_errs z' ≠ None.
Proof.
  intros Hr. destruct (path_Join_rooted (w_prefix z) n Hr) as (es & Hes).
  destruct (zk_createEphemeral_ok n es z Hes) as (z' & H & Hp & _ & _ & _ & _ & Hsub & Hmono & Hnone).
  cbn. rewrite H. split_and!; [done..|]. intros es' b Hes' Hb Herr.
  assert (es' = es) as ->. { destruct Hes as [? H1], Hes' as [? H2]. apply abs_path_inj; [done..|congruence]. }
  destruct (Hnone Herr). congruence.
Qed.

Lemma each_node_pending p l (z z' : zkWatcher K) :
  is_rooted (w_prefix z) = true -> each_node createEphemeral p l z = Some z' ->
  (w_errs z ≠ None -> w_errs z' ≠ None)
  ∧ ∀ i node es b, i ∈ l -> partitionZKNode p i = Some node -> zk_name (path_Join [w_prefix z; node]) es ->
    znodes (w_conn z) !! es = Some b -> w_errs z' ≠ None.
Proof.
  revert z. induction l as [|j l IH]; intros z Hr H; cbn in H.
  { injection H as <-. split; [done|]. by intros ? ? ? ? ?%not_elem_of_nil. }
  destruct (partitionZKNode p j) as [node|] eqn:En; [|done]. cbn [mbind option_bind] in H.
  destruct (createEphemeral_call node z Hr) as (Hp & Hsub & Hmono & Hhit).
  destruct (IH _ ltac:(by rewrite Hp) H) as [Hmono' Hhit']. split; [auto|].
  intros i node' es b [->|Hin]%elem_of_cons Hnode Hes Hb.
  - simplify_eq. apply Hmono'. by eapply Hhit.
  - eapply (Hhit' i node' es b); [done|done|by rewrite Hp|by eapply lookup_weaken].
Qed.

(** Loading more partitions of a version that already advertises some
    makes the node drop its connection: [updateLocalPartitions] creates the
    nodes of all local partitions again, creating a node that exists is an
    error, and an error that reaches the watcher makes it cancel all watches and
    reconnect. *)
Theorem readvertise_disconnects p ps (z : zkWatcher K) i node es b new :
  is_rooted (w_prefix z) = true -> pt_peers p = Some ps -> pt_shouldAdvertise p = true ->
  pt_ready p = pt_readyClosed p -> i ∈ pt_local p ->
  partitionZKNode p i = Some node -> path_Join [w_prefix z; node] = abs_path es -> Forall plain_elem es ->
  znodes (w_conn z) !! es = Some b ->
  ∃ p' z', updateLocalPartitions p new z = Some (p', z') ∧ w_errs z' ≠ None.
Proof.
  intros Hr Hps Hadv Hready Hi Hnode Hpath Hes Hb. unfold updateLocalPartitions.
  destruct (updateMissing_ok (set_places p (pt_local p ∪ new) (pt_remote p)) Hready) as (p' & Hm & _ & Hsame & _).
  rewrite Hm. cbn [mbind option_bind]. rewrite Hsame. cbn [set_missing set_places pt_shouldAdvertise pt_local].
  rewrite Hadv. set (p1 := set_missing _ _ _ _).
  assert (∀ l z0, ∃ z', each_node createEphemeral p1 l z0 = Some (z' : zkWatcher K)) as Htot.
  { induction l as [|j l IH]; intros z0; [by exists z0|]. cbn. unfold partitionZKNode. cbn. rewrite Hps. cbn. apply IH. }
  destruct (Htot (range_set (pt_local p ∪ new)) z) as [z' Hz]. rewrite Hz. eexists _, z'. split; [done|].
  destruct (each_node_pending _ _ _ _ Hr Hz) as [_ Hhit]. eapply (Hhit i node es b); [|done|by split|done].
  rewrite range_set_perm, elem_of_elements. set_solver.
Qed.
End readvertise.

(** ** A server in memory, and witnesses *)

Module ZkExample.
Definition tree_ok (m : gmap (list string) bool) : Prop :=
  m !! [] = Some false ∧ ∀ es e b, m !! (es ++ [e])%list = Some b -> m !! es = Some false.

Definition tree : Type := { m : gmap (list string) bool | tree_ok m }.

Definition parse (p : string) : list string := filter (λ e, e ≠ "") (split "/" p).
Definition parent (es : list string) : list string := take (length es - 1) es.

#[local] Arguments parent : simpl never.

Lemma parse_abs es : Forall plain_elem es -> parse (abs_path es) = es.
Proof.
  intros H. unfold parse, abs_path. cbn [String.append split]. rewrite decide_True by done.
  rewrite filter_cons_False by (intros ?; done). destruct (decide (es = [])) as [->|Hne]; [done|].
  rewrite split_concat by done. clear Hne. induction H as [|e es (He & _) Hes IH]; [done|].
  rewrite filter_cons_True by done. by rewrite IH.
Qed.

Lemma parent_snoc es e : parent (es ++ [e]) = es.
Proof. unfold parent. rewrite length_app. cbn. rewrite Nat.add_sub. by rewrite take_app_length. Qed.

Lemma tree_insert m es e eph :
  tree_ok m -> m !! (es ++ [e])%list = None -> m !! es = Some false -> tree_ok (<[(es ++ [e])%list := eph]> m).
Proof.
  intros [Hroot Htree] Hnew Hpar. split.
  - rewrite lookup_insert_ne; [done|]. by destruct es.
  - intros es' e' b Hb. destruct (decide ((es ++ [e])%list = (es' ++ [e'])%list)) as [H1|H1].
    + apply app_inj_tail in H1 as [-> ->]. rewrite lookup_insert_ne; [done|].
      intros H. apply (f_equal length) in H. rewrite length_app in H. cbn in H. lia.
    + rewrite lookup_insert_ne in Hb by done. apply Htree in Hb. rewrite lookup_insert_ne; [done|congruence].
Qed.

Lemma tree_insert_node m es eph :
  tree_ok m -> es ≠ [] -> ¬ is_Some (m !! es) -> m !! parent es = Some false -> tree_ok (<[es := eph]> m).
Proof.
  intros Hm Hne Hnew Hpar. destruct es as [|e es' _] using rev_ind; [done|].
  rewrite parent_snoc in Hpar. apply tree_insert; [done|by apply eq_None_not_Some|done].
Qed.

Definition children (es : list string) (m : gmap (list string) bool) : list string :=
  omap (λ kb, if decide (kb.1 ≠ [] ∧ parent kb.1 = es) then last kb.1 else None) (map_to_list m).

Lemma elem_of_children es m e : e ∈ children es m <-> is_Some (m !! (es ++ [e])%list).
Proof.
  unfold children. rewrite list_elem_of_omap. split.
  - intros ([k b] & Hk%elem_of_map_to_list & He). cbn [fst] in He.
    case_decide as Hd; [|done]. destruct Hd as [Hne Hpar].
    destruct k as [|x k _] using rev_ind; [done|]. rewrite last_snoc in He. rewrite parent_snoc in Hpar.
    simplify_eq. by eexists.
  - intros [b Hb]. exists ((es ++ [e])%list, b). split; [by apply elem_of_map_to_list|]. cbn.
    rewrite decide_True, last_snoc; [done|]. split; [by destruct es|by rewrite parent_snoc].
Qed.

Lemma tree_delete m es :
  tree_ok m -> es ≠ [] -> children es m = [] -> tree_ok (delete es m).
Proof.
  intros [Hroot Htree] Hne Hch. split; [by rewrite lookup_delete_ne|].
  intros es' e' b [Hd Hb]%lookup_delete_Some. rewrite lookup_delete_ne; [by eapply Htree|].
  intros ->. assert (e' ∈ children es' m) as Hin by (apply elem_of_children; by eexists).
  rewrite Hch in Hin. by apply not_elem_of_nil in Hin.
Qed.

Definition create (p : string) (eph : bool) (c : tree) : option error * tree :=
  let es := parse p in
  match decide (es ≠ [] ∧ ¬ is_Some (`c !! es) ∧ `c !! parent es = Some false) with
  | left H =>
      (None, <[es := eph]> (`c) ↾ tree_insert_node (`c) es eph (proj2_sig c) (proj1 H) (proj1 (proj2 H)) (proj2 (proj2 H)))
  | right _ =>
      (Some (if decide (is_Some (`c !! es)) then ZNODEEXISTS
             else if decide (`c !! parent es = None) then ZNONODE else LibErr (-108)), c)
  end.

Definition remove (p : string) (c : tree) : option error * tree :=
  let es := parse p in
  match decide (es ≠ [] ∧ children es (`c) = []) with
  | left H => (None, delete es (`c) ↾ tree_delete (`c) es (proj2_sig c) (proj1 H) (proj2 H))
  | right _ => (Some (LibErr (-111)), c)
  end.

Definition list_children (p : string) (c : tree) : res (list string * bool) :=
  let es := parse p in
  match `c !! es with
  | Some eph => Ok (filter (λ e, plain_elem e) (children es (`c)), eph)
  | None => Err ZNONODE
  end.

#[local] Instance server : Zk := {|
  zk_conn := tree; zk_Create := create; zk_Delete := remove; zk_Children := list_children
|}.

#[local] Instance laws : ZkLaws server.
Proof.
  refine {| znodes := (λ c : tree, `c) : @zk_conn server -> _ |}.
  - intros c. apply (proj2_sig c).
  - intros c. apply (proj2_sig c).
  - intros es e eph c r c' Hp. cbn [zk_Create zk_Delete zk_Children server]. unfold create. rewrite parse_abs by done.
    destruct (decide _) as [(H0 & H1 & H2)|H]; intros [= <- <-].
    + split; [by apply eq_None_not_Some|done].
    + rewrite parent_snoc. split_and!; [repeat case_decide; done..|by left].
  - intros eph c r c'. cbn [zk_Create zk_Delete zk_Children server]. unfold create. change (parse "/") with (@nil string).
    destruct (decide _) as [(H0 & H1 & H2)|H]; [done|]. intros [= <- <-]. split; [done|].
    rewrite decide_True by (exists false; apply (proj2_sig c)). done.
  - intros es c r c' Hp. cbn [zk_Create zk_Delete zk_Children server]. unfold remove. rewrite parse_abs by done.
    destruct (decide _) as [(Hne & Hch)|H]; intros [= <- <-]; [right|by left].
    split; [done|]. intros e. apply eq_None_not_Some. intros Hs.
    apply elem_of_children in Hs. rewrite Hch in Hs. by apply not_elem_of_nil in Hs.
  - intros es c r Hp <-. cbn [zk_Create zk_Delete zk_Children server]. unfold list_children. rewrite parse_abs by done.
    destruct (`c !! es) as [eph|]; [|done]. split; [done|]. intros e [He Hin]%list_elem_of_filter.
    split; [by apply elem_of_children|done].
Defined.

(** *** A run *)

#[local] Instance by_name : MapOrder string := list_order.

Lemma root_ok : tree_ok {[ [] := false ]}.
Proof. split; [done|]. intros es e b [H _]%lookup_singleton_Some. by destruct es. Qed.

Definition root : zk_conn := {[ [] := false ]} ↾ root_ok.

Definition ran {A} (x : option (A * zkWatcher server)) : zkWatcher server :=
  match x with
  | Some (_, w) => w
  | None => (zk_init "/" root).2
  end.

(** It advertises a node, watches a directory, is told that the session is
    lost, and cancels its watch. *)
Definition w0 : zkWatcher server := (zk_init "/sequins" root).2.
Definition w1 := ran (zk_createEphemeral "partitions/db/1/3@node" w0).
Definition w2 := ran (zk_watchChildren "nodes" w1).
Definition w3 := w_set_errs w2 (Some (LibErr (-112))).
Definition w4 := default w3 (cancelWatches (λ _, 0%nat) (w_set_errs w3 None)).

Lemma ran_ok (x : option (unit * zkWatcher server)) : bool_decide (is_Some x) = true -> x = Some (tt, ran x).
Proof. by destruct x as [[[] w]|]. Qed.

Lemma run3 : rtc zk_step (zk_init "/sequins" root) (Connected, w3).
Proof.
  eapply rtc_l; [apply (zs_create "partitions/db/1/3@node" Connected w0 w1), ran_ok; vm_compute; reflexivity|].
  eapply rtc_l; [apply (zs_watch "nodes" Connected w1 w2), ran_ok; vm_compute; reflexivity|].
  apply rtc_once. assert (w_errs w2 = None) as E by (vm_compute; reflexivity).
  pose proof (zs_session (LibErr (-112)) Connected w2) as H. rewrite E in H. exact H.
Qed.

Lemma cancel3 : cancelWatches (λ _, 0%nat) (w_set_errs w3 None) = Some w4.
Proof. apply default_ok. vm_compute. reflexivity. Qed.

Lemma run4 : rtc zk_step (zk_init "/sequins" root) (Down, w4).
Proof. eapply rtc_r; [apply run3|]. apply (zs_disconnect (LibErr (-112)) (λ _, 0%nat) w3 w4); [reflexivity|apply cancel3]. Qed.

(** The new session finds an empty tree: the reconnection succeeds, and the
    advertised node exists again. *)
Lemma watcher_restores_witness :
  fst <$> try_reconnect (Ok root) true w4 = Some Connected
  ∧ ∃ w', try_reconnect (Ok root) true w4 = Some (Connected, w')
    ∧ "/sequins/v1/partitions/db/1/3@node" ∈ registered w4
    ∧ ∃ es, "/sequins/v1/partitions/db/1/3@node" = abs_path es ∧ znodes (w_conn w') !! es = Some true
    ∧ ∃ wn children, w_watchedNodes w4 !! "/sequins/v1/nodes" = Some wn
      ∧ routines_of w' wn = (routines_of w4 wn ++ [Sending (Some children)])%list.
Proof.
  assert (fst <$> try_reconnect (Ok root) true w4 = Some Connected) as Hc by (vm_compute; reflexivity).
  destruct (watcher_restores "/sequins" root w4 (Ok root) true ltac:(vm_compute; reflexivity) run4)
    as (ph & w' & H & Hreg & _ & Hall).
  split; [exact Hc|]. rewrite H in Hc. injection Hc as Hph. rewrite Hph in H. exists w'. split; [exact H|].
  assert ("/sequins/v1/partitions/db/1/3@node" ∈ registered w4) as Hin
    by (apply (bool_decide_unpack _); vm_compute; exact I).
  split; [exact Hin|]. destruct (Hall Hph) as (c0 & _ & Heph & Hwat).
  destruct (Heph _ Hin) as (es & Hes & Hex). exists es. split; [exact Hes|]. split; [exact Hex|].
  destruct (w_watchedNodes w4 !! "/sequins/v1/nodes") as [wn|] eqn:Ewn; [|vm_compute in Ewn; discriminate Ewn].
  destruct (Hwat _ _ Ewn) as (es' & ci & children & eph & _ & _ & _ & _ & _ & Hrs).
  exists wn, children. split; [reflexivity|exact Hrs].
Defined.

Lemma cancelWatches_returns_witness :
  size (w_watchedNodes w3) = 1%nat ∧ is_Some (cancelWatches (λ _, 0%nat) w3).
Proof.
  split; [vm_compute; reflexivity|].
  exact (cancelWatches_returns "/sequins" root w3 (λ _, 0%nat) ltac:(vm_compute; reflexivity) run3).
Defined.

(** The empty directory "nodes" is removed; the way to the advertised node is
    kept. *)
Lemma cleanup_keeps_ephemerals_witness :
  znodes (w_conn w3) !! ["sequins"; "v1"; "nodes"] = Some false
  ∧ znodes (w_conn (triggerCleanup 9 w3)) !! ["sequins"; "v1"; "nodes"] = None
  ∧ is_Some (znodes (w_conn (triggerCleanup 9 w3)) !! ["sequins"; "v1"; "partitions"; "db"]).
Proof.
  split; [vm_compute; reflexivity|]. split; [vm_compute; reflexivity|].
  apply (proj2 (cleanup_keeps_ephemerals "/sequins" root Connected w3 9 ltac:(vm_compute; reflexivity) run3)
           ["sequins"; "v1"; "partitions"; "db"; "1"; "3@node"]); [vm_compute; reflexivity|].
  by exists ["1"; "3@node"].
Defined.

(** A version with two partitions advertises the first, and loads the second. *)
#[local] Instance by_index : MapOrder Z := list_order.

Definition version_1 : partitions :=
  {| pt_peers := Some (new_peers "shard" "node:9599"); pt_db := "db"; pt_version := "1"; pt_zkPath := "partitions/db/1";
     pt_numPartitions := 2; pt_replication := 1; pt_selected := {[ 0%Z ]}; pt_local := {[ 0%Z ]}; pt_remote := ∅;
     pt_numMissing := 1; pt_ready := false; pt_readyClosed := false; pt_shouldAdvertise := true |}.

Definition advertised := ran (zk_createEphemeral (default "" (partitionZKNode version_1 0)) w0).

Lemma readvertise_disconnects_witness :
  w_errs advertised = None
  ∧ ∃ p' z', updateLocalPartitions version_1 {[ 1%Z ]} advertised = Some (p', z') ∧ w_errs z' ≠ None.
Proof.
  split; [vm_compute; reflexivity|].
  apply (readvertise_disconnects version_1 (new_peers "shard" "node:9599") advertised 0
           "partitions/db/1/00000@node:9599" ["sequins"; "v1"; "partitions"; "db"; "1"; "00000@node:9599"] true {[ 1%Z ]});
    first [reflexivity | vm_compute; reflexivity | apply (bool_decide_unpack _); vm_compute; exact I].
Defined.
End ZkExample.

(** ** A reconnection that fails half way *)

Module FlakyExample.
Import ZkExample.

(** The same server, which may lose the connection when one directory is
    listed. *)
#[local] Instance flaky : Zk := {|
  zk_conn := bool * tree;
  zk_Create p eph c := let '(r, t) := create p eph c.2 in (r, (c.1, t));
  zk_Delete p c := let '(r, t) := remove p c.2 in (r, (c.1, t));
  zk_Children p c := if c.1 && String.eqb p "/sequins/v1/b" then Err (LibErr (-4)) else list_children p c.2;
|}.

#[local] Instance flaky_laws : ZkLaws flaky.
Proof.
  refine {| znodes := (λ c, proj1_sig c.2) : @zk_conn flaky -> _ |}.
  - intros c. apply (@zk_root server laws).
  - intros c. apply (@zk_tree server laws).
  - intros es e eph [b c] r [b' c'] Hp H. cbn in H. destruct (create _ eph c) as [r1 t1] eqn:E. injection H as <- _ <-.
    exact (@Create_ok server laws _ _ _ _ _ _ Hp E).
  - intros eph [b c] r [b' c'] H. cbn in H. destruct (create _ eph c) as [r1 t1] eqn:E. injection H as <- _ <-.
    exact (@Create_root server laws _ _ _ _ E).
  - intros es [b c] r [b' c'] Hp H. cbn in H. destruct (remove _ c) as [r1 t1] eqn:E. injection H as _ _ <-.
    exact (@Delete_ok server laws _ _ _ _ Hp E).
  - intros es [b c] r Hp <-. cbn [zk_Children flaky fst snd]. destruct (b && _); [done|].
    exact (@Children_ok server laws _ _ _ Hp eq_refl).
Defined.

#[local] Instance by_name : MapOrder string := list_order.

Definition end_of {A} (d : zkWatcher flaky) (x : option (A * zkWatcher flaky)) : zkWatcher flaky :=
  match x with Some (_, w) => w | None => d end.

(** Two directories are watched; the session is lost; the first reconnection
    sets one watch and fails, the second succeeds. *)
Definition w0 : zkWatcher flaky := (zk_init "/sequins" (false, root)).2.
Definition w1 := end_of w0 (zk_watchChildren "a" w0).
Definition w2 := end_of w1 (zk_watchChildren "b" w1).
Definition w3 := w_set_errs w2 (Some (LibErr (-112))).
Definition w4 := default w3 (cancelWatches (λ _, 0%nat) (w_set_errs w3 None)).
Definition lossy : @zk_conn flaky := (true, (w_conn w4).2).
Definition w5 := end_of w4 (try_reconnect (Ok lossy) true w4).
Definition sound : @zk_conn flaky := (false, (w_conn w5).2).
Definition w6 := end_of w5 (try_reconnect (Ok sound) true w5).

Lemma end_of_ok {A} (d : zkWatcher flaky) (x : option (A * zkWatcher flaky)) a : fst <$> x = Some a -> x = Some (a, end_of d x).
Proof. destruct x as [[a' w]|]; [|done]. by intros [= ->]. Qed.

Lemma flaky_run : rtc zk_step (zk_init "/sequins" (false, root)) (Connected, w6).
Proof.
  eapply rtc_l; [apply (zs_watch "a" Connected w0 w1), end_of_ok; vm_compute; reflexivity|].
  eapply rtc_l; [apply (zs_watch "b" Connected w1 w2), end_of_ok; vm_compute; reflexivity|].
  eapply rtc_l; [apply (zs_session (LibErr (-112)) Connected w2)|].
  assert (w_errs w2 = None) as -> by (vm_compute; reflexivity). cbn [default]. fold w3.
  eapply rtc_l; [apply (zs_disconnect (LibErr (-112)) (λ _, 0%nat) w3 w4); [reflexivity|]|].
  { apply default_ok. vm_compute. reflexivity. }
  eapply rtc_l; [apply (zs_reconnect (Ok lossy) true Down w4 w5), end_of_ok; vm_compute; reflexivity|].
  apply rtc_once. apply (zs_reconnect (Ok sound) true Connected w5 w6), end_of_ok. vm_compute. reflexivity.
Qed.

(** A reconnection whose hooks fail half way leaves the goroutines of the
    watches it has set running; the next reconnection starts a second one for
    each of them.  When such a watch is removed (which happens when a version is
    closed) both close its channels, and the second one panics. *)
Theorem failed_hooks_panic :
  ∃ w, rtc zk_step (zk_init "/sequins" (false, root)) (Connected, w) ∧ zk_removeWatch "a" w = None.
Proof.
  exists w6. split; [apply flaky_run|].
  assert (match zk_removeWatch "a" w6 with None => true | Some _ => false end = true) as H by (vm_compute; reflexivity).
  by destruct (zk_removeWatch "a" w6).
Qed.
End FlakyExample.
