(* ===== verification/ZkClose.v ===== *)
(** * zk_watcher.go: the locks around [close]

    [ZkWatcher.v] has each method of the watcher as one step.  Here are the
    locks they take: the read-write lock of the watcher ([w.Lock], [w.RLock]),
    [hooksLock], and the channel [shutdown], which has no buffer.  [close] holds
    the write lock while it sends on [shutdown]; [run] receives from it in the
    two selects of its loop only.

    The goroutines are [run], the caller of [close], the goroutines of the
    watches, and the callers of [createEphemeral], [removeEphemeral] and
    [watchChildren], of which the one that holds [hooksLock] matters.  What they
    do to nodes and watches is in [ZkWatcher.v]; a call to the server may fail at
    any time. *)

From Stdlib Require Import Lia.
From stdpp Require Import base list sets relations.
From S2P Require Import Prelude.

Set Default Proof Using "Type".

(** Where [run] is. *)
Inductive run_pc :=
  | RunSelect                                        (** the select on [shutdown] and [errs] *)
  | RunCancelWait (final : bool)                     (** [cancelWatches], waiting for [hooksLock] *)
  | RunCancel (final : bool) (left : list nat)       (** sending on the cancel channels of these watches *)
  | RunTimer                                         (** the select on [shutdown] and the timer *)
  | RunLock                                          (** [reconnect], waiting for the write lock *)
  | RunDial                                          (** [reconnect], with the lock *)
  | RunHooksWait                                     (** [runHooks], waiting for [hooksLock] *)
  | RunHooks (hooks : list (option nat))             (** before the hooks that are left *)
  | RunHook (h : option nat) (hooks : list (option nat))   (** in a hook, with the read lock *)
  | RunExit.

(** Where the caller of [close] is. *)
Inductive close_pc := CloseIdle | CloseLock | CloseSend | CloseConn | CloseDone.

#[global] Instance close_pc_eq_dec : EqDecision close_pc.
Proof. solve_decision. Defined.

(** Where the goroutine of a watch is: in a select or waiting to be cancelled,
    where it receives from the cancel channel; waiting for the read lock; or
    listing the children. *)
Inductive watch_pc := WatchSelect | WatchRLock | WatchList.

#[global] Instance watch_pc_eq_dec : EqDecision watch_pc.
Proof. solve_decision. Defined.

(** Who holds [hooksLock]: [run], or a method that waits for, or has, the read
    lock. *)
Inductive holder := HeldByRun | HeldWaiting | HeldReading.

Record locks := Locks {
  lk_writer : bool;
  lk_readers : nat;
  lk_hooks : option holder;
  lk_run : run_pc;
  lk_close : close_pc;
  lk_watches : list (nat * watch_pc);
}.

Section Locks.
(** The ephemeral nodes (their number), and the watches. *)
Context (ephemeral : nat) (watches : list nat).

(** What [runHooks] runs: a hook for each node, and one for each watch. *)
Definition hooks : list (option nat) := (replicate ephemeral None ++ (Some <$> watches))%list.

Inductive lock_step : locks -> locks -> Prop :=
  (** [run] *)
  | ls_err w n h c g : lock_step (Locks w n h RunSelect c g) (Locks w n h (RunCancelWait false) c g)
  | ls_shutdown w n h r g :
      r = RunSelect ∨ r = RunTimer ->
      lock_step (Locks w n h r CloseSend g) (Locks w n h (RunCancelWait true) CloseConn g)
  | ls_timer w n h c g : lock_step (Locks w n h RunTimer c g) (Locks w n h RunLock c g)
  | ls_lock h c g : lock_step (Locks false 0 h RunLock c g) (Locks true 0 h RunDial c g)
  | ls_dialed w n h c g : lock_step (Locks w n h RunDial c g) (Locks false n h RunHooksWait c g)
  | ls_dial_failed w n h c g : lock_step (Locks w n h RunDial c g) (Locks false n h RunTimer c g)
  | ls_hooks w n c g :
      lock_step (Locks w n None RunHooksWait c g) (Locks w n (Some HeldByRun) (RunHooks hooks) c g)
  | ls_hook n h x l c g : lock_step (Locks false n h (RunHooks (x :: l)) c g) (Locks false (S n) h (RunHook x l) c g)
  | ls_hook_done w n h x l c g :
      lock_step (Locks w (S n) h (RunHook x l) c g)
        (Locks w n h (RunHooks l) c (((λ wn, (wn, WatchSelect)) <$> option_list x) ++ g))
  | ls_hook_failed w n h x l c g : lock_step (Locks w (S n) h (RunHook x l) c g) (Locks w n None RunTimer c g)
  | ls_hooks_done w n h c g : lock_step (Locks w n h (RunHooks []) c g) (Locks w n None RunSelect c g)
  | ls_cancel w n f c g :
      lock_step (Locks w n None (RunCancelWait f) c g) (Locks w n (Some HeldByRun) (RunCancel f watches) c g)
  | ls_canceled w n h f wn l c g1 g2 :
      lock_step (Locks w n h (RunCancel f (wn :: l)) c (g1 ++ (wn, WatchSelect) :: g2))
        (Locks w n h (RunCancel f l) c (g1 ++ g2))
  | ls_cancel_done w n h f c g :
      lock_step (Locks w n h (RunCancel f []) c g) (Locks w n None (if f then RunExit else RunTimer) c g)
  (** [close] *)
  | ls_close w n h r g : lock_step (Locks w n h r CloseIdle g) (Locks w n h r CloseLock g)
  | ls_close_lock h r g : lock_step (Locks false 0 h r CloseLock g) (Locks true 0 h r CloseSend g)
  | ls_close_done w n h r g : lock_step (Locks w n h r CloseConn g) (Locks false n h r CloseDone g)
  (** the goroutine of a watch *)
  | ls_event w n h r c g1 wn g2 :
      lock_step (Locks w n h r c (g1 ++ (wn, WatchSelect) :: g2)) (Locks w n h r c (g1 ++ (wn, WatchRLock) :: g2))
  | ls_list n h r c g1 wn g2 :
      lock_step (Locks false n h r c (g1 ++ (wn, WatchRLock) :: g2)) (Locks false (S n) h r c (g1 ++ (wn, WatchList) :: g2))
  | ls_listed w n h r c g1 wn g2 :
      lock_step (Locks w (S n) h r c (g1 ++ (wn, WatchList) :: g2)) (Locks w n h r c (g1 ++ (wn, WatchSelect) :: g2))
  (** the methods *)
  | ls_method w n r c g : lock_step (Locks w n None r c g) (Locks w n (Some HeldWaiting) r c g)
  | ls_method_read n r c g :
      lock_step (Locks false n (Some HeldWaiting) r c g) (Locks false (S n) (Some HeldReading) r c g)
  | ls_method_done w n r c g :
      lock_step (Locks w (S n) (Some HeldReading) r c g) (Locks w n None r c g).

(** Connected, with a goroutine for each watch. *)
Definition locks_init : locks :=
  Locks false 0 None RunSelect CloseIdle ((λ wn, (wn, WatchSelect)) <$> watches)%list.

(** ** The invariant of the locks *)

Definition run_reads (r : run_pc) : nat := match r with RunHook _ _ => 1 | _ => 0 end.
Definition hooks_reads (h : option holder) : nat := match h with Some HeldReading => 1 | _ => 0 end.
Definition watch_reads (g : list (nat * watch_pc)) : nat :=
  length (filter (λ x, match x.2 with WatchList => true | _ => false end = true) g).

Definition run_writes (r : run_pc) : bool := match r with RunDial => true | _ => false end.
Definition close_writes (c : close_pc) : bool := match c with CloseSend | CloseConn => true | _ => false end.
Definition run_hooked (r : run_pc) : bool :=
  match r with RunCancel _ _ | RunHooks _ | RunHook _ _ => true | _ => false end.
Definition run_ended (r : run_pc) : bool :=
  match r with RunCancelWait f | RunCancel f _ => f | RunExit => true | _ => false end.

Record locks_ok (s : locks) : Prop := {
  lo_readers : lk_readers s = run_reads (lk_run s) + hooks_reads (lk_hooks s) + watch_reads (lk_watches s);
  lo_excl : lk_writer s = true -> lk_readers s = 0;
  lo_writer : lk_writer s = xorb (run_writes (lk_run s)) (close_writes (lk_close s));
  lo_one : run_writes (lk_run s) = true -> close_writes (lk_close s) = false;
  lo_hooks : run_hooked (lk_run s) = true <-> lk_hooks s = Some HeldByRun;
  lo_ended : run_ended (lk_run s) = match lk_close s with CloseConn | CloseDone => true | _ => false end;
  lo_left : match lk_run s with RunCancel _ l => NoDup l | _ => True end;
}.

#[local] Arguments watch_reads : simpl never.

Lemma watch_reads_mid g1 wn p g2 :
  watch_reads (g1 ++ (wn, p) :: g2) = watch_reads (g1 ++ g2) + match p with WatchList => 1 | _ => 0 end.
Proof. unfold watch_reads. rewrite !filter_app, filter_cons. cbn. case_decide; rewrite !length_app; destruct p; cbn; (done || lia). Qed.

Lemma watch_reads_new ws g : watch_reads (((λ wn, (wn, WatchSelect)) <$> ws) ++ g) = watch_reads g.
Proof. unfold watch_reads. rewrite filter_app. induction ws as [|w ws IH]; [done|]. cbn. exact IH. Qed.

Context (watches_NoDup : NoDup watches).

Lemma lock_step_ok s s' : lock_step s s' -> locks_ok s -> locks_ok s'.
Proof using watches_NoDup.
  intros Hs [Hr He Hw Ho Hh Hen Hl]. destruct Hs; cbn in *; rewrite ?watch_reads_mid, ?watch_reads_new in Hr; cbn in Hr;
    split; cbn; rewrite ?watch_reads_mid, ?watch_reads_new; cbn.
  all: try (intuition (congruence || lia)).
  all: try (apply NoDup_cons in Hl as [_ ?]; done).
  all: try match goal with H : context [run_writes ?r] |- _ => destruct (run_writes r) end.
  all: try match goal with H : context [close_writes ?c] |- _ => destruct (close_writes c) end.
  all: try match goal with |- context [if ?f then RunExit else RunTimer] => destruct f end.
  all: cbn in *; try (intuition (congruence || lia)).
  all: try exact Hh.
  all: try (match goal with H : _ ∨ _ |- _ => destruct H as [->| ->] end; cbn in *; (exact Hh || lia)).
  all: pose proof (proj1 Hh eq_refl); subst; cbn in *; lia.
Qed.

Lemma locks_init_ok : locks_ok locks_init.
Proof.
  split; cbn; try done. pose proof (watch_reads_new watches []) as H. rewrite app_nil_r in H. by rewrite H.
Qed.

Lemma locks_reachable s : rtc lock_step locks_init s -> locks_ok s.
Proof using watches_NoDup.
  intros Hr. pose proof locks_init_ok as H0. induction Hr; eauto using lock_step_ok.
Qed.

(** ** When [close] returns *)

(** No goroutine of the watch receives from its cancel channel. *)
Definition deaf (wn : nat) (g : list (nat * watch_pc)) : Prop := (wn, WatchSelect) ∉ g.

(** [close] holds the write lock, and [run] needs it, or waits for somebody who
    needs it, before it receives from [shutdown]. *)
Definition doomed (s : locks) : Prop :=
  lk_close s = CloseSend
  ∧ match lk_run s with
    | RunLock | RunHooks (_ :: _) => True
    | RunHooksWait => hooks ≠ [] ∨ lk_hooks s = Some HeldWaiting
    | RunCancelWait _ => lk_hooks s = Some HeldWaiting ∨ ∃ wn, wn ∈ watches ∧ deaf wn (lk_watches s)
    | RunCancel _ l => ∃ wn, wn ∈ l ∧ deaf wn (lk_watches s)
    | _ => False
    end.

(** While [close] sends nobody has the read lock. *)
Lemma sending_frozen s :
  locks_ok s -> lk_close s = CloseSend ->
  lk_writer s = true ∧ lk_readers s = 0 ∧ run_reads (lk_run s) = 0 ∧ run_writes (lk_run s) = false
  ∧ lk_hooks s ≠ Some HeldReading ∧ (∀ wn, (wn, WatchList) ∉ lk_watches s) ∧ run_ended (lk_run s) = false.
Proof.
  intros [Hr He Hw Ho Hh Hen Hl] Hc. rewrite Hc in *. cbn in *.
  assert (run_writes (lk_run s) = false) as Hrw by (destruct (run_writes (lk_run s)); [by specialize (Ho eq_refl)|done]).
  rewrite Hrw in Hw. cbn in Hw. specialize (He Hw). split_and!; try done; try lia.
  - intros H. rewrite H in Hr. cbn in Hr. lia.
  - intros wn (g1 & g2 & Hg)%list_elem_of_split. rewrite Hg, watch_reads_mid in Hr. lia.
Qed.

Lemma deaf_sub wn g g' : (∀ x, x ∈ g' -> x.2 = WatchSelect -> x ∈ g) -> deaf wn g -> deaf wn g'.
Proof. intros Hg Hd Hin. by apply Hd, Hg. Qed.

Lemma doomed_step s s' : locks_ok s -> lock_step s s' -> doomed s -> doomed s'.
Proof using watches_NoDup.
  intros Hok Hs [Hc Hd]. destruct (sending_frozen _ Hok Hc) as (Hw & Hn & Hrr & Hrw & Hh & Hg & _).
  destruct Hs; cbn in *; try done; subst; try done;
    try match goal with H : _ = RunSelect ∨ _ |- _ => by destruct H as [->| ->] end; (split; [done|]); cbn.
  - destruct Hd as [Hd|?]; [|done]. by destruct hooks.
  - destruct Hd as [?|Hd]; done.
  - destruct Hd as (wn' & Hin & Hdeaf). exists wn'. apply elem_of_cons in Hin as [->|Hin].
    + exfalso. apply Hdeaf. set_solver.
    + split; [done|]. eapply deaf_sub; [|exact Hdeaf]. set_solver.
  - by destruct Hd as (wn & ?%not_elem_of_nil & _).
  - assert (∀ wn', deaf wn' (g1 ++ (wn, WatchSelect) :: g2) -> deaf wn' (g1 ++ (wn, WatchRLock) :: g2)) as Hm.
    { intros wn'. apply deaf_sub. intros [u p]. rewrite !elem_of_app, !elem_of_cons. cbn. naive_solver. }
    destruct r; naive_solver.
  - destruct r; naive_solver.
Qed.

Lemma doomed_for_ever s s' : locks_ok s -> rtc lock_step s s' -> doomed s -> doomed s'.
Proof using watches_NoDup. intros Hok Hr. revert Hok. induction Hr; eauto using doomed_step, lock_step_ok. Qed.

(** From a select, [close] returns. *)
Lemma select_returns w n h r g :
  r = RunSelect ∨ r = RunTimer -> ∃ s', rtc lock_step (Locks w n h r CloseSend g) s' ∧ lk_close s' = CloseDone.
Proof.
  intros Hr. eexists. split; [|shelve]. eapply rtc_l; [by apply ls_shutdown|]. eapply rtc_l; [apply ls_close_done|].
  apply rtc_refl. Unshelve. done.
Qed.

Lemma cancel_returns w n h l g :
  NoDup l -> (∀ wn, wn ∈ l -> ¬ deaf wn g) ->
  ∃ s', rtc lock_step (Locks w n h (RunCancel false l) CloseSend g) s' ∧ lk_close s' = CloseDone.
Proof using watches_NoDup.
  revert g. induction l as [|wn l IH]; intros g Hnd Hl.
  - destruct (select_returns w n None RunTimer g) as (s' & Hr & Hs); [by right|]. exists s'. split; [|done].
    eapply rtc_l; [apply ls_cancel_done|exact Hr].
  - apply NoDup_cons in Hnd as [Hwn Hnd]. destruct (decide ((wn, WatchSelect) ∈ g)) as [Hin|Hin].
    2: { exfalso. by apply (Hl wn); [left|]. }
    apply list_elem_of_split in Hin as (g1 & g2 & ->).
    destruct (IH (g1 ++ g2)%list Hnd) as (s' & Hr & Hs).
    { intros u Hu Hd. apply (Hl u); [by right|]. intros Hin. apply Hd. assert (u ≠ wn) by congruence. set_solver. }
    exists s'. split; [|done]. eapply rtc_l; [apply ls_canceled|exact Hr].
Qed.

Lemma undoomed_returns s :
  locks_ok s -> lk_close s = CloseSend -> ¬ doomed s -> ∃ s', rtc lock_step s s' ∧ lk_close s' = CloseDone.
Proof using watches_NoDup.
  intros Hok Hc Hd. destruct (sending_frozen _ Hok Hc) as (Hw & Hn & Hrr & Hrw & Hh & Hg & Hen).
  destruct s as [w n h r c g]. unfold doomed in Hd. cbn in *. subst c. pose proof (lo_hooks _ Hok) as Hhk. cbn in Hhk.
  assert (h = Some HeldWaiting ∨ h = None ∨ run_hooked r = true) as Hcase.
  { destruct h as [[]|]; [right; right; by apply Hhk|by left|done|by right; left]. }
  destruct r as [|f|f l| | | | |l|x l|]; cbn in *; try done.
  - apply select_returns. by left.
  - subst f. destruct h as [[]|]; [by destruct Hcase as [?|[?|?]]|exfalso; apply Hd; by split; [|left]|done|].
    destruct (cancel_returns w n (Some HeldByRun) watches g) as (s' & Hr & Hs); [done| |].
    { intros wn Hwn Hdeaf. apply Hd. split; [done|]. right. by exists wn. }
    exists s'. split; [|done]. eapply rtc_l; [apply ls_cancel|exact Hr].
  - subst f. apply cancel_returns; [apply (lo_left _ Hok)|]. intros wn Hwn Hdeaf. apply Hd. split; [done|]. by exists wn.
  - apply select_returns. by right.
  - by destruct Hd.
  - destruct hooks eqn:Ehk; [|exfalso; apply Hd; by split; [|left]].
    destruct h as [[]|]; [by destruct Hcase as [?|[?|?]]|exfalso; apply Hd; by split; [|right]|done|].
    destruct (select_returns w n None RunSelect g) as (s' & Hr & Hs); [by left|]. exists s'. split; [|done].
    eapply rtc_l; [apply ls_hooks|]. rewrite Ehk. eapply rtc_l; [apply ls_hooks_done|exact Hr].
  - destruct l; [|by destruct Hd]. destruct (select_returns w n None RunSelect g) as (s' & Hr & Hs); [by left|].
    exists s'. split; [|done]. eapply rtc_l; [apply ls_hooks_done|exact Hr].
Qed.

(** ** When [cancelWatches] returns *)

(** The watches that [cancelWatches] has still to signal. *)
Definition to_cancel (r : run_pc) : option (list nat) :=
  match r with
  | RunCancelWait _ => Some watches
  | RunCancel _ l => Some l
  | _ => None
  end.

(** The goroutines that are running, by watch. *)
Definition running (s : locks) : list nat := (lk_watches s).*1.

(** While [run] is connected every watch has a goroutine, and so has every
    watch whose hook has run during a reconnection. *)
Definition alive (s : locks) : Prop :=
  match lk_run s with
  | RunSelect | RunCancelWait false => ∀ wn, wn ∈ watches -> wn ∈ running s
  | RunCancel false l => ∀ wn, wn ∈ l -> wn ∈ running s
  | RunHooks l => ∀ wn, wn ∈ watches -> Some wn ∈ l ∨ wn ∈ running s
  | RunHook x l => ∀ wn, wn ∈ watches -> Some wn ∈ x :: l ∨ wn ∈ running s
  | _ => True
  end.

Lemma running_mid g1 wn p g2 : (g1 ++ (wn, p) :: g2 : list (nat * watch_pc)).*1 = (g1.*1 ++ wn :: g2.*1)%list.
Proof. by rewrite fmap_app, fmap_cons. Qed.

Lemma running_new ws (g : list (nat * watch_pc)) : (((λ wn, (wn, WatchSelect)) <$> ws) ++ g).*1 = (ws ++ g.*1)%list.
Proof. rewrite fmap_app. f_equal. induction ws as [|w ws IH]; cbn; [done|]. by rewrite IH. Qed.

Lemma alive_step s s' : locks_ok s -> lock_step s s' -> alive s -> alive s'.
Proof using watches_NoDup.
  intros Hok Hs. pose proof (lo_left _ Hok) as Hl. unfold alive, running.
  destruct Hs; cbn in *; rewrite ?running_mid, ?running_new; try done;
    try (by destruct H as [->| ->]).
  - intros _ wn Hwn. left. unfold hooks. apply elem_of_app. right. by apply list_elem_of_fmap_2.
  - intros H wn Hwn. specialize (H wn Hwn). rewrite elem_of_cons in H. rewrite elem_of_app.
    destruct x as [u|]; cbn; [rewrite list_elem_of_singleton|]; naive_solver.
  - intros H wn Hwn. specialize (H wn Hwn). by destruct H as [?%not_elem_of_nil|?].
  - destruct f; [done|]. intros H u Hu. specialize (H u ltac:(by right)). apply NoDup_cons in Hl as [Hni _].
    rewrite fmap_app. assert (u ≠ wn) by congruence. set_solver.
  - by destruct f.
Qed.

Lemma alive_reachable s : rtc lock_step locks_init s -> alive s.
Proof using watches_NoDup.
  intros Hr. assert (alive locks_init) as H0.
  { unfold alive, running. cbn. intros wn Hwn. pose proof (running_new watches []) as H. rewrite !app_nil_r in H. by rewrite H. }
  pose proof locks_init_ok as Hok. revert Hok H0. induction Hr; eauto using alive_step, lock_step_ok.
Qed.

(** A watch that has no goroutine is not signalled. *)
Definition lost (wn : nat) (s : locks) : Prop :=
  ∃ l, to_cancel (lk_run s) = Some l ∧ wn ∈ l ∧ wn ∉ running s.

Lemma lost_step wn s s' : lock_step s s' -> lost wn s -> lost wn s'.
Proof using watches_NoDup.
  intros Hs (l & Hl & Hin & Hni). unfold lost, running in *. destruct Hs; cbn in *; rewrite ?running_mid in *;
    try discriminate Hl; try (by destruct H as [->| ->]); try (by exists l).
  - injection Hl as <-. eexists. split; [done|]. apply elem_of_cons in Hin as [->|Hin]; [set_solver|].
    split; [done|]. rewrite fmap_app. set_solver.
  - injection Hl as <-. by apply not_elem_of_nil in Hin.
Qed.

Lemma lost_for_ever wn s s' : rtc lock_step s s' -> lost wn s -> lost wn s'.
Proof using watches_NoDup. induction 1; eauto using lost_step. Qed.

(** With nobody writing, every goroutine gets back to where it receives. *)
Lemma wake n h r c g1 g2 :
  watch_reads g2 <= n ->
  rtc lock_step (Locks false n h r c (g1 ++ g2))
    (Locks false (n - watch_reads g2) h r c (g1 ++ ((λ x, (x.1, WatchSelect)) <$> g2))).
Proof using watches_NoDup.
  revert n g1. induction g2 as [|[wn p] g2 IH]; intros n g1 Hn; [by rewrite Nat.sub_0_r|].
  pose proof (watch_reads_mid [] wn p g2) as Hm. cbn in Hm. rewrite Hm in *.
  assert (∀ m, watch_reads g2 <= m -> rtc lock_step (Locks false m h r c (g1 ++ (wn, WatchSelect) :: g2))
    (Locks false (m - watch_reads g2) h r c (g1 ++ ((λ x, (x.1, WatchSelect)) <$> (wn, p) :: g2)))) as Hrest.
  { intros m Hle. specialize (IH m (g1 ++ [(wn, WatchSelect)])%list Hle). by rewrite <- !(assoc_L (++)%list) in IH. }
  destruct p.
  - rewrite Nat.add_0_r in *. by apply Hrest.
  - rewrite Nat.add_0_r in *. eapply rtc_l; [apply ls_list|]. eapply rtc_l; [apply ls_listed|]. by apply Hrest.
  - destruct n as [|n]; [lia|]. eapply rtc_l; [apply ls_listed|].
    replace (S n - (watch_reads g2 + 1)) with (n - watch_reads g2) by lia. apply Hrest. lia.
Qed.

(** When every watch that is left receives, the loop ends. *)
Lemma cancel_all w n h f l c g :
  NoDup l -> (∀ wn, wn ∈ l -> ¬ deaf wn g) ->
  ∃ s', rtc lock_step (Locks w n h (RunCancel f l) c g) s' ∧ (lk_run s' = RunTimer ∨ lk_run s' = RunExit).
Proof using watches_NoDup.
  revert g. induction l as [|wn l IH]; intros g Hnd Hl.
  - eexists. split; [eapply rtc_once, ls_cancel_done|]. destruct f; [by right|by left].
  - apply NoDup_cons in Hnd as [Hwn Hnd]. destruct (decide ((wn, WatchSelect) ∈ g)) as [Hin|Hin].
    2: { exfalso. by apply (Hl wn); [left|]. }
    apply list_elem_of_split in Hin as (g1 & g2 & ->).
    destruct (IH (g1 ++ g2)%list Hnd) as (s' & Hr & Hs).
    { intros u Hu Hd. apply (Hl u); [by right|]. intros Hin. apply Hd. assert (u ≠ wn) by congruence. set_solver. }
    exists s'. split; [|done]. eapply rtc_l; [apply ls_canceled|exact Hr].
Qed.

(** With nobody writing, [cancelWatches] needs a goroutine for each watch. *)
Lemma free_cancel_returns n h r c g left :
  locks_ok (Locks false n h r c g) -> to_cancel r = Some left -> (∀ wn, wn ∈ left -> wn ∈ g.*1) ->
  ∃ s', rtc lock_step (Locks false n h r c g) s' ∧ (lk_run s' = RunTimer ∨ lk_run s' = RunExit).
Proof using watches_NoDup.
  intros Hok Hleft Hall. pose proof (lo_readers _ Hok) as Hn. pose proof (lo_hooks _ Hok) as Hh. cbn in Hn, Hh.
  pose proof (lo_left _ Hok) as Hnd. cbn in Hnd.
  set (g' := ((λ x, (x.1, WatchSelect)) <$> g) : list (nat * watch_pc)).
  assert (∀ wn, wn ∈ g.*1 -> ¬ deaf wn g') as Hg'.
  { intros wn ([u p] & -> & Hin)%list_elem_of_fmap Hd. apply Hd, list_elem_of_fmap. by exists (u, p). }
  assert (∀ m h' r', watch_reads g <= m ->
    rtc lock_step (Locks false m h' r' c g) (Locks false (m - watch_reads g) h' r' c g')) as Hwake.
  { intros m h' r' Hm. exact (wake m h' r' c [] g Hm). }
  destruct r as [|f|f l| | | | | | |]; cbn in Hleft; try discriminate Hleft; injection Hleft as <-.
  - assert (∃ m, watch_reads g <= m
      ∧ rtc lock_step (Locks false n h (RunCancelWait f) c g) (Locks false m None (RunCancelWait f) c g)) as (m & Hm & Hfree).
    { destruct h as [[| |]|]; cbn in Hn.
      - destruct Hh as [_ Hh]. by specialize (Hh eq_refl).
      - exists n. split; [lia|]. eapply rtc_l; [apply ls_method_read|]. eapply rtc_once, ls_method_done.
      - destruct n as [|n]; [lia|]. exists n. split; [lia|]. eapply rtc_once, ls_method_done.
      - exists n. split; [lia|]. apply rtc_refl. }
    destruct (cancel_all false (m - watch_reads g) (Some HeldByRun) f watches c g' watches_NoDup) as (s' & Hr & Hs).
    { intros wn Hwn. by apply Hg', Hall. }
    exists s'. split; [|done]. etransitivity; [exact Hfree|]. etransitivity; [by apply Hwake|].
    eapply rtc_l; [apply ls_cancel|exact Hr].
  - destruct (cancel_all false (n - watch_reads g) h f l c g' Hnd) as (s' & Hr & Hs).
    { intros wn Hwn. by apply Hg', Hall. }
    exists s'. split; [|done]. etransitivity; [apply Hwake; lia|exact Hr].
Qed.


End Locks.

(** ** Witnesses *)

Module CloseExample.
(** One ephemeral node and one watch. *)
Definition step : locks -> locks -> Prop := lock_step 1 [0].

(** [close] is called while the watcher reconnects: it gets the lock between
    [reconnect] and the first hook. *)
Definition reconnecting : locks :=
  Locks true 0 (Some HeldByRun) (RunHooks [None; Some 0]) CloseSend [].

Lemma reconnecting_run : rtc step (locks_init [0]) reconnecting.
Proof.
  unfold locks_init, step. cbn.
  eapply rtc_l; [apply ls_err|]. eapply rtc_l; [apply ls_cancel|].
  eapply rtc_l; [apply (ls_canceled _ _ _ _ _ _ 0 [] _ [] [])|]. eapply rtc_l; [apply ls_cancel_done|].
  eapply rtc_l; [apply ls_timer|]. eapply rtc_l; [apply ls_lock|]. eapply rtc_l; [apply ls_dialed|].
  eapply rtc_l; [apply ls_hooks|]. eapply rtc_l; [apply ls_close|]. eapply rtc_l; [apply ls_close_lock|].
  apply rtc_refl.
Qed.

(** An error comes while the goroutine of the watch is about to list its
    directory: it will get to the select, unless [close] gets the lock. *)
Definition listing : locks := Locks false 0 None (RunCancelWait false) CloseIdle [(0, WatchRLock)].
Definition locked_out : locks := Locks true 0 None (RunCancelWait false) CloseSend [(0, WatchRLock)].

Lemma listing_run : rtc step (locks_init [0]) listing.
Proof.
  unfold locks_init, step. cbn. eapply rtc_l; [apply (ls_event _ _ _ _ _ _ _ [] 0 [])|].
  eapply rtc_once, ls_err.
Qed.

Lemma locked_out_run : rtc step (locks_init [0]) locked_out.
Proof.
  etransitivity; [apply listing_run|]. unfold step. eapply rtc_l; [apply ls_close|]. eapply rtc_once, ls_close_lock.
Qed.

Lemma locked_out_doomed : doomed 1 [0] locked_out.
Proof.
  split; [reflexivity|]. right. exists 0. split; [by left|]. intros H. apply list_elem_of_singleton in H. discriminate H.
Qed.


(** The watcher is shut down after a reconnection that failed: no watch has a
    goroutine, and the [cancelWatches] on the way out of [run] never returns.
    It keeps [hooksLock], so that every later call of a method blocks. *)
Theorem shutdown_while_down_blocks :
  ∃ s, rtc step (locks_init [0]) s ∧ lk_close s = CloseDone
  ∧ ∀ s', rtc step s s' -> lk_hooks s' = Some HeldByRun ∧ lk_run s' = RunCancel true [0].
Proof.
  set (down := Locks false 0 None RunTimer CloseIdle [] : locks).
  assert (rtc step (locks_init [0]) down) as Hdown.
  { unfold locks_init, step. cbn. eapply rtc_l; [apply ls_err|]. eapply rtc_l; [apply ls_cancel|].
    eapply rtc_l; [apply (ls_canceled _ _ _ _ _ _ 0 [] _ [] [])|]. eapply rtc_l; [apply ls_cancel_done|].
    eapply rtc_l; [apply ls_timer|]. eapply rtc_l; [apply ls_lock|]. eapply rtc_once, ls_dial_failed. }
  set (s := Locks false 0 (Some HeldByRun) (RunCancel true [0]) CloseDone [] : locks).
  exists s. split; [|split; [done|]].
  - etransitivity; [exact Hdown|]. unfold step, down. eapply rtc_l; [apply ls_close|].
    eapply rtc_l; [apply ls_close_lock|]. eapply rtc_l; [apply ls_shutdown; by right|].
    eapply rtc_l; [apply ls_close_done|]. eapply rtc_once, ls_cancel.
  - assert (∀ s1 s', rtc step s1 s' -> s1 = s -> s' = s) as Hstay.
    { induction 1 as [|s1 s2 s3 Hs _ IH]; [done|]. intros ->. apply IH. unfold s in *.
      inversion Hs; subst; try discriminate; exfalso; repeat match goal with H : _ = [] |- _ => by apply app_nil in H as [_ ?]
        | H : [] = _ |- _ => symmetry in H; by apply app_nil in H as [_ ?] end.
      all: match goal with H : (_ ++ _ :: _)%list = [] |- _ => by apply app_nil in H as [_ ?] | _ => idtac end. }
    intros s' Hr. by rewrite (Hstay _ _ Hr eq_refl).
Qed.

End CloseExample.
