(* ===== verification/Disk.v ===== *)
(** * The disk: sparkey's files, the manifest file and the OS calls on them

    [blocks/] keeps its data in sparkey log and hash files (a C library behind
    cgo bindings) and in one JSON file per version.  What it relies on is the
    interface [Disk] (the operations it calls) and the laws [DiskLaws] (their
    documented behaviour).  Every operation may fail; the laws only constrain
    what a successful call did and which other files any call left alone.
    [MemDisk] is an executable instance. *)

From Stdlib Require Import ZArith Lia Ascii String.
From stdpp Require Import base gmap list strings.
From S2P Require Import Prelude GoStrings.

Open Scope string_scope.

Inductive CompressionType := COMPRESSION_NONE | COMPRESSION_SNAPPY.

Record Options := { opt_Compression : CompressionType; opt_BlockSize : Z }.

Inductive IteratorState := ITERATOR_NEW | ITERATOR_ACTIVE | ITERATOR_CLOSED | ITERATOR_INVALID.

#[global] Instance IteratorState_eq_dec : EqDecision IteratorState.
Proof. solve_decision. Defined.

(** A JSON document as a tree; [JBytes] is a string that encodes a byte slice
    in base64, as encoding/json writes a [[]byte]. *)
#[warnings="-register-all"]
Inductive json :=
  | JNull
  | JNum (z : Z)
  | JStr (s : string)
  | JBytes (s : string)
  | JArr (l : list json)
  | JObj (l : list (string * json)).

(** The entries a log holds, oldest first; a later entry for a key replaces an
    earlier one. *)
Abbreviation log := (list (string * string)).

Definition log_map (l : log) : gmap string string :=
  foldl (fun m kv => <[kv.1 := kv.2]> m) ∅ l.

Class Disk := {
  fs : Type;
  LogWriter : Type;
  HashReader : Type;
  HashIter : Type;

  CreateLogWriter : string -> Options -> fs -> res LogWriter * fs;
  Put : LogWriter -> string -> string -> LogWriter * option error;
  WriteHashFile : LogWriter -> Z -> fs -> option error * fs;
  LogWriter_Close : LogWriter -> fs -> option error * fs;
  Open : string -> fs -> res HashReader;
  Iterator : HashReader -> res HashIter;
  Seek : HashIter -> string -> HashIter * option error;
  State : HashIter -> IteratorState;
  IterValue : HashIter -> string;

  os_WriteFile : string -> json -> fs -> option error * fs;
  os_ReadFile : string -> fs -> res json;
  os_Remove : string -> fs -> fs;
  os_RemoveAll : string -> fs -> option error * fs;
}.

(** [sync.Pool.Get]: some pooled item or nothing; the pool may drop items. *)
Class SyncPool (A : Type) := {
  Pool_Get : list A -> option A * list A;
  Pool_Get_sub : forall l o l', Pool_Get l = (o, l') -> (option_list o ++ l')%list ⊆+ l;
}.

(** Not one of the sentinels of [build.go]. *)
Definition foreign (e : error) : Prop := e ≠ errWrongPartition ∧ e ≠ errCanceled.

Class DiskLaws (D : Disk) := {
  (** Views: what a handle or a path stands for. *)
  writer_path : LogWriter -> string;
  writer_log : LogWriter -> log;
  reader_log : HashReader -> log;
  iter_log : HashIter -> log;
  file_log : fs -> string -> option log;
  file_json : fs -> string -> option json;

  untouched (p : string) (d d' : fs) : Prop :=
    ∀ q, q ≠ p -> file_log d' q = file_log d q ∧ file_json d' q = file_json d q;

  CreateLogWriter_frame : ∀ p o d r d', CreateLogWriter p o d = (r, d') -> untouched p d d';
  CreateLogWriter_ok : ∀ p o d w d', CreateLogWriter p o d = (Ok w, d') ->
    writer_path w = p ∧ writer_log w = [];

  Put_path : ∀ w k v w' e, Put w k v = (w', e) -> writer_path w' = writer_path w;
  (** The errors of the libraries are their own. *)
  Put_err : ∀ w k v w' e, Put w k v = (w', Some e) -> foreign e;
  WriteHashFile_err : ∀ w n d e d', WriteHashFile w n d = (Some e, d') -> foreign e;
  LogWriter_Close_err : ∀ w d e d', LogWriter_Close w d = (Some e, d') -> foreign e;
  os_WriteFile_err : ∀ p j d e d', os_WriteFile p j d = (Some e, d') -> foreign e;

  Put_ok : ∀ w k v w', Put w k v = (w', None) -> writer_log w' = (writer_log w ++ [(k, v)])%list;

  WriteHashFile_frame : ∀ w n d e d', WriteHashFile w n d = (e, d') -> untouched (writer_path w) d d';
  WriteHashFile_ok : ∀ w n d d', WriteHashFile w n d = (None, d') ->
    file_log d' (writer_path w) = Some (writer_log w);

  LogWriter_Close_frame : ∀ w d e d', LogWriter_Close w d = (e, d') -> untouched (writer_path w) d d';
  LogWriter_Close_ok : ∀ w d d', LogWriter_Close w d = (None, d') ->
    file_log d' (writer_path w) = file_log d (writer_path w);

  Open_ok : ∀ p d r, Open p d = Ok r -> file_log d p = Some (reader_log r);
  Iterator_ok : ∀ r it, Iterator r = Ok it -> iter_log it = reader_log r;
  Seek_log : ∀ it k it' e, Seek it k = (it', e) -> iter_log it' = iter_log it;
  Seek_ok : ∀ it k it', Seek it k = (it', None) ->
    match log_map (iter_log it) !! k with
    | Some v => State it' = ITERATOR_ACTIVE ∧ IterValue it' = v
    | None => State it' ≠ ITERATOR_ACTIVE
    end;

  os_WriteFile_frame : ∀ p j d e d', os_WriteFile p j d = (e, d') -> untouched p d d';
  os_WriteFile_ok : ∀ p j d d', os_WriteFile p j d = (None, d') -> file_json d' p = Some j;
  os_ReadFile_ok : ∀ p d j, os_ReadFile p d = Ok j -> file_json d p = Some j;
  os_Remove_frame : ∀ p d, untouched p d (os_Remove p d);
  os_RemoveAll_ok : ∀ p d d' q, os_RemoveAll p d = (None, d') -> HasPrefix q (p ++ "/") = true ->
    file_log d' q = None ∧ file_json d' q = None;
  os_RemoveAll_frame : ∀ p d e d' q, os_RemoveAll p d = (e, d') ->
    q ≠ p -> HasPrefix q (p ++ "/") = false ->
    file_log d' q = file_log d q ∧ file_json d' q = file_json d q;
}.

(** ** An in-memory disk

    Files are kept in two maps.  A path for which [bad] holds fails when its
    hash file is written, which exercises the error paths of the callers. *)

Module MemDisk.
Section mem.
Context (bad : string -> bool).

Record mem := Mem { logs : gmap string log; docs : gmap string json }.

Definition keep (p : string) {A} (m : gmap string A) : gmap string A :=
  filter (λ kv, negb (HasPrefix kv.1 (p ++ "/")) = true) m.

#[local] Instance disk : Disk := {|
  fs := mem;
  LogWriter := string * log;
  HashReader := log;
  HashIter := log * option string;
  CreateLogWriter p _ d := (Ok (p, []), Mem (delete p d.(logs)) d.(docs));
  Put w k v := ((w.1, (w.2 ++ [(k, v)])%list), None);
  WriteHashFile w _ d :=
    if bad w.1 then (Some (LibErr 1), d)
    else (None, Mem (<[w.1 := w.2]> d.(logs)) d.(docs));
  LogWriter_Close _ d := (None, d);
  Open p d := match d.(logs) !! p with Some l => Ok l | None => Err ErrNotExist end;
  Iterator r := Ok (r, None);
  Seek it k := ((it.1, log_map it.1 !! k), None);
  State it := match it.2 with Some _ => ITERATOR_ACTIVE | None => ITERATOR_INVALID end;
  IterValue it := default "" it.2;
  os_WriteFile p j d := (None, Mem d.(logs) (<[p := j]> d.(docs)));
  os_ReadFile p d := match d.(docs) !! p with Some j => Ok j | None => Err ErrNotExist end;
  os_Remove p d := Mem (delete p d.(logs)) (delete p d.(docs));
  os_RemoveAll p d := (None, Mem (keep p (delete p d.(logs))) (keep p (delete p d.(docs))));
|}.

Lemma keep_lookup {A} p (m : gmap string A) q :
  keep p m !! q = if HasPrefix q (p ++ "/") then None else m !! q.
Proof.
  unfold keep. destruct (HasPrefix q (p ++ "/")) eqn:E.
  - apply map_lookup_filter_None. right. intros x _. cbn. by rewrite E.
  - destruct (m !! q) eqn:Em.
    + apply map_lookup_filter_Some. cbn. by rewrite E.
    + apply map_lookup_filter_None. by left.
Qed.

#[local] Instance laws : DiskLaws disk.
Proof.
  refine {| writer_path := fst : LogWriter -> string; writer_log := snd : LogWriter -> log;
            reader_log l := l; iter_log := fst : HashIter -> log;
            file_log d p := logs d !! p; file_json d p := docs d !! p |};
    intros; simpl in *; repeat case_match; simplify_eq/=; try done; intros;
    rewrite ?keep_lookup, ?lookup_insert_eq, ?lookup_insert_ne, ?lookup_delete_ne by done;
    try done; try by simplify_option_eq.
  all: match goal with H : HasPrefix _ _ = _ |- _ => by rewrite H end.
Defined.
End mem.
End MemDisk.

(** The simplest pool: the item put back last, if any. *)
Definition lifo_pool {A : Type} : SyncPool A.
Proof.
  refine {| Pool_Get l := match l with x :: l' => (Some x, l') | [] => (None, []) end |}.
  intros [|x l] o l' H; simplify_eq/=; done.
Defined.

(** ** Lemmas on logs *)

Lemma log_map_app l k v : log_map (l ++ [(k, v)])%list = <[k := v]> (log_map l).
Proof. unfold log_map. by rewrite foldl_app. Qed.

Lemma log_map_dom (l : log) k v : log_map l !! k = Some v -> k ∈ l.*1.
Proof.
  induction l as [|[k' v'] l IH] using rev_ind; [done|].
  rewrite log_map_app, lookup_insert, fmap_app. case_decide; set_solver.
Qed.

Lemma log_map_elem (l : log) k : k ∈ l.*1 -> is_Some (log_map l !! k).
Proof.
  induction l as [|[k' v'] l IH] using rev_ind; [set_solver|].
  rewrite log_map_app, lookup_insert, fmap_app. case_decide; [done|].
  intros [?|?]%elem_of_app; [auto|set_solver].
Qed.

Lemma log_map_in (l : log) k v : log_map l !! k = Some v -> (k, v) ∈ l.
Proof.
  induction l as [|[k' v'] l IH] using rev_ind; [done|].
  rewrite log_map_app, lookup_insert. case_decide as Hk.
  - intros ?. simplify_eq. apply elem_of_app. right. by apply list_elem_of_singleton.
  - intros ?. apply elem_of_app. left. by apply IH.
Qed.
