(* ===== verification/Manifest.v ===== *)
(** * blocks/manifest.go: the manifest of a block store

    The structs [Manifest] and [BlockManifest], their JSON documents as
    encoding/json writes and reads them, and [readManifest] /
    [writeManifest]. *)

From Stdlib Require Import ZArith Lia Ascii String.
From stdpp Require Import base gmap list strings.
From S2P Require Import Prelude GoStrings Disk.
Import GoInt.

Open Scope string_scope.

(** [type Compression string] and its two values (block_store.go). *)
Abbreviation Compression := string (only parsing).
Definition SnappyCompression : Compression := "snappy".
Definition NoCompression : Compression := "none".

Definition manifestVersion : Z := 3.

Record BlockManifest := {
  bm_ID : string;
  bm_Name : string;
  bm_Partition : Z;
  bm_Count : Z;
  bm_MinKey : option string;
  bm_MaxKey : option string;
}.

(** A nil slice is [None]. *)
Record Manifest := {
  mf_Version : Z;
  mf_Blocks : option (list BlockManifest);
  mf_NumPartitions : Z;
  mf_SelectedPartitions : option (list Z);
  mf_Compression : Compression;
  mf_BlockSize : Z;
}.

Definition zero_BlockManifest : BlockManifest :=
  {| bm_ID := ""; bm_Name := ""; bm_Partition := 0; bm_Count := 0;
     bm_MinKey := None; bm_MaxKey := None |}.

Definition zero_Manifest : Manifest :=
  {| mf_Version := 0; mf_Blocks := None; mf_NumPartitions := 0;
     mf_SelectedPartitions := None; mf_Compression := ""; mf_BlockSize := 0 |}.

(** ** json.Marshal *)

Definition marshal_bytes (o : option string) : json :=
  match o with Some s => JBytes s | None => JNull end.

Definition marshal_slice {A} (f : A -> json) (o : option (list A)) : json :=
  match o with Some l => JArr (f <$> l) | None => JNull end.

Definition marshal_BlockManifest (m : BlockManifest) : json :=
  JObj [("id", JStr (bm_ID m)); ("name", JStr (bm_Name m));
        ("partition", JNum (bm_Partition m)); ("count", JNum (bm_Count m));
        ("min_key", marshal_bytes (bm_MinKey m)); ("max_key", marshal_bytes (bm_MaxKey m))].

Definition marshal_Manifest (m : Manifest) : json :=
  JObj [("version", JNum (mf_Version m));
        ("blocks", marshal_slice marshal_BlockManifest (mf_Blocks m));
        ("num_partitions", JNum (mf_NumPartitions m));
        ("selected_partitions", marshal_slice JNum (mf_SelectedPartitions m));
        ("compression", JStr (mf_Compression m));
        ("block_size", JNum (mf_BlockSize m))].

(** ** json.Unmarshal

    A field that is absent or null keeps its value; a field of the wrong type
    is an error; unknown fields are ignored. *)

Definition type_error : error := LibErr 100.

Definition field (name : string) (fields : list (string * json)) : json :=
  default JNull (snd <$> last (filter (λ kv, kv.1 = name) fields)).

Definition get_num (old : Z) (j : json) : res Z :=
  match j with JNum z => Ok z | JNull => Ok old | _ => Err type_error end.

Definition get_str (old : string) (j : json) : res string :=
  match j with JStr s => Ok s | JNull => Ok old | _ => Err type_error end.

Definition get_bytes (old : option string) (j : json) : res (option string) :=
  match j with JBytes s => Ok (Some s) | JNull => Ok old | _ => Err type_error end.

Fixpoint get_list {A} (f : json -> res A) (l : list json) : res (list A) :=
  match l with
  | [] => Ok []
  | j :: l' =>
      match f j, get_list f l' with
      | Ok a, Ok r => Ok (a :: r)
      | Err e, _ => Err e
      | _, Err e => Err e
      end
  end.

Definition get_slice {A} (f : json -> res A) (old : option (list A)) (j : json) : res (option (list A)) :=
  match j with
  | JArr l => match get_list f l with Ok r => Ok (Some r) | Err e => Err e end
  | JNull => Ok old
  | _ => Err type_error
  end.

Definition unmarshal_BlockManifest (j : json) : res BlockManifest :=
  match j with
  | JNull => Ok zero_BlockManifest
  | JObj fs =>
      match get_str "" (field "id" fs), get_str "" (field "name" fs),
            get_num 0 (field "partition" fs), get_num 0 (field "count" fs),
            get_bytes None (field "min_key" fs), get_bytes None (field "max_key" fs) with
      | Ok i, Ok n, Ok p, Ok c, Ok mn, Ok mx =>
          Ok {| bm_ID := i; bm_Name := n; bm_Partition := p; bm_Count := c;
                bm_MinKey := mn; bm_MaxKey := mx |}
      | _, _, _, _, _, _ => Err type_error
      end
  | _ => Err type_error
  end.

Definition unmarshal_Manifest (j : json) : res Manifest :=
  match j with
  | JNull => Ok zero_Manifest
  | JObj fs =>
      match get_num 0 (field "version" fs),
            get_slice unmarshal_BlockManifest None (field "blocks" fs),
            get_num 0 (field "num_partitions" fs),
            get_slice (get_num 0) None (field "selected_partitions" fs),
            get_str "" (field "compression" fs), get_num 0 (field "block_size" fs) with
      | Ok v, Ok bs, Ok n, Ok sp, Ok c, Ok sz =>
          Ok {| mf_Version := v; mf_Blocks := bs; mf_NumPartitions := n;
                mf_SelectedPartitions := sp; mf_Compression := c; mf_BlockSize := sz |}
      | _, _, _, _, _, _ => Err type_error
      end
  | _ => Err type_error
  end.

(** ** readManifest and writeManifest *)

(** The two compatibility defaults at the end of [readManifest]. *)
Definition default_fields (m : Manifest) : Manifest :=
  {| mf_Version := mf_Version m; mf_Blocks := mf_Blocks m;
     mf_NumPartitions := mf_NumPartitions m;
     mf_SelectedPartitions :=
       Some (match mf_SelectedPartitions m with
             | Some l => l
             | None => seqZ 0 (mf_NumPartitions m)
             end);
     mf_Compression := if decide (mf_Compression m = "") then SnappyCompression else mf_Compression m;
     mf_BlockSize := mf_BlockSize m |}.

(** The slice that is made when no selected partitions are recorded has
    [NumPartitions] elements: [make] panics on a negative number. *)
Definition make_panics (m : Manifest) : bool :=
  bool_decide (mf_SelectedPartitions m = None) && (mf_NumPartitions m <? 0)%Z.

Definition readManifest `{Disk} (path : string) (d : fs) : option (res Manifest) :=
  match os_ReadFile path d with
  | Err e => Some (Err e)
  | Ok bytes =>
      match unmarshal_Manifest bytes with
      | Err e => Some (Err e)
      | Ok m =>
          if (mf_Version m =? manifestVersion)%Z then
            if make_panics m then None else Some (Ok (default_fields m))
          else Some (Err ErrWrongVersion)
      end
  end.

Definition writeManifest `{Disk} (path : string) (m : Manifest) (d : fs) : option error * fs :=
  os_WriteFile path (marshal_Manifest m) d.

(** ** Round trip *)

Lemma get_list_marshal {A} (f : A -> json) (g : json -> res A) l :
  (∀ a, g (f a) = Ok a) -> get_list g (f <$> l) = Ok l.
Proof. intros Hfg. induction l as [|a l IH]; cbn; [done|]. by rewrite Hfg, IH. Qed.

Lemma get_slice_marshal {A} (f : A -> json) (g : json -> res A) o :
  (∀ a, g (f a) = Ok a) -> get_slice g None (marshal_slice f o) = Ok o.
Proof. intros Hfg. destruct o as [l|]; cbn; [|done]. by rewrite get_list_marshal. Qed.

Lemma BlockManifest_roundtrip m : unmarshal_BlockManifest (marshal_BlockManifest m) = Ok m.
Proof. by destruct m as [? ? ? ? [] []]. Qed.

Lemma Manifest_roundtrip m : unmarshal_Manifest (marshal_Manifest m) = Ok m.
Proof.
  destruct m as [v bs n sp c sz].
  transitivity (match get_slice unmarshal_BlockManifest None (marshal_slice marshal_BlockManifest bs),
                      get_slice (get_num 0) None (marshal_slice JNum sp) with
                | Ok bs', Ok sp' => Ok (Build_Manifest v bs' n sp' c sz)
                | _, _ => Err type_error
                end); [reflexivity|].
  rewrite (get_slice_marshal marshal_BlockManifest) by apply BlockManifest_roundtrip.
  by rewrite (get_slice_marshal JNum).
Qed.

(** Reading back a manifest that was written yields it with the two defaults
    filled in. *)
Lemma readManifest_written {D : Disk} {L : DiskLaws D} path m (d d' d'' : fs) r :
  writeManifest path m d = (None, d') ->
  file_json d'' path = file_json d' path ->
  readManifest path d'' = Some (Ok r) -> mf_Version m = manifestVersion ∧ r = default_fields m.
Proof.
  intros Hw Hsame Hr. apply os_WriteFile_ok in Hw. unfold readManifest in Hr.
  destruct (os_ReadFile path d'') as [j|] eqn:E; [|done].
  apply os_ReadFile_ok in E. rewrite Hsame, Hw in E. simplify_eq.
  rewrite Manifest_roundtrip in Hr. destruct (Z.eqb_spec (mf_Version m) manifestVersion); [|done].
  destruct (make_panics m); by simplify_eq.
Qed.

(** A manifest that records its selected partitions, as all that are written
    do, is read back without a panic, and only reading the file can fail. *)
Lemma readManifest_error {D : Disk} {L : DiskLaws D} path m (d d' d'' : fs) :
  writeManifest path m d = (None, d') ->
  file_json d'' path = file_json d' path ->
  mf_Version m = manifestVersion -> mf_SelectedPartitions m ≠ None ->
  ∃ r, readManifest path d'' = Some r ∧ ∀ e, r = Err e -> os_ReadFile path d'' = Err e.
Proof.
  intros Hw Hsame Hv Hsel. apply os_WriteFile_ok in Hw. unfold readManifest.
  destruct (os_ReadFile path d'') as [j|e] eqn:E; [|eexists; split; [reflexivity|by intros ? [= ->]]].
  apply os_ReadFile_ok in E. rewrite Hsame, Hw in E. simplify_eq.
  rewrite Manifest_roundtrip, Hv. unfold make_panics. rewrite bool_decide_false by done. eexists. by split.
Qed.
