(* ===== verification/Block.v ===== *)
(** * blocks/block.go, block_writer.go, record.go, iterpool.go

    A block is written once through a [blockWriter] and then read through a
    pool of sparkey iterators.  Go's [nil] slices and records are [None];
    the shared objects ([*sync.Pool], open readers) live in the [world]. *)

From Stdlib Require Import ZArith Lia Ascii String.
From stdpp Require Import base gmap sets list strings.
From S2P Require Import Prelude GoStrings Disk Manifest.
Import GoInt.

Open Scope string_scope.

(** [uuid.New()]: a fresh identifier on every call. *)
Class Uuid := {
  uuid_New : nat -> string;
  uuid_New_inj : Inj (=) (=) uuid_New;
  uuid_New_plain : ∀ n, has_char "/" (uuid_New n) = false;
}.
#[export] Existing Instance uuid_New_inj.

(** [bytes.Compare]. *)
Definition bytes_Compare (a b : string) : comparison := String.compare a b.

Section Block.
Context {D : Disk} {SP : SyncPool HashIter} {U : Uuid}.

(** The heap and the disk: the contents of the iterator pools by pool
    pointer, the readers that are open, the allocation counter (also the
    number of [uuid.New] calls). *)
Record world := World {
  w_fs : fs;
  w_pools : gmap nat (list HashIter);
  w_open : gset nat;
  w_next : nat;
}.

Definition with_fs (w : world) (d : fs) : world := World d (w_pools w) (w_open w) (w_next w).

(** [type iterPool struct]: the reader and a pointer to a [sync.Pool]. *)
Record iterPool := { ip_reader : HashReader; ip_Pool : nat }.

Record Block := {
  b_ID : string;
  b_Name : string;
  b_Partition : Z;
  b_Count : Z;
  b_minKey : option string;
  b_maxKey : option string;
  b_sparkeyReader : HashReader;
  b_readerHandle : nat;
  b_iterPool : iterPool;
}.

Record Record_ := {
  r_ValueLen : Z;
  r_iterPool : iterPool;
  r_iter : HashIter;
}.

Record blockWriter := {
  bw_minKey : option string;
  bw_maxKey : option string;
  bw_count : Z;
  bw_partition : Z;
  bw_path : string;
  bw_id : string;
  bw_sparkeyWriter : LogWriter;
}.

(** ** iterpool.go *)

(** [new(sync.Pool)]: a fresh, empty pool. *)
Definition newIterPool (reader : HashReader) : GoM world iterPool := λ w,
  Some ({| ip_reader := reader; ip_Pool := w_next w |},
        World (w_fs w) (<[w_next w := []]> (w_pools w)) (w_open w) (S (w_next w))).

(** [Get] and [Put] of the [sync.Pool], through the shared pointer. *)
Definition Pool_get (ip : iterPool) : GoM world (option HashIter) := λ w,
  let '(o, l') := Pool_Get (default [] (w_pools w !! ip_Pool ip)) in
  Some (o, World (w_fs w) (<[ip_Pool ip := l']> (w_pools w)) (w_open w) (w_next w)).

Definition Pool_put (ip : iterPool) (it : HashIter) : GoM world unit := λ w,
  Some (tt, World (w_fs w)
              (<[ip_Pool ip := it :: default [] (w_pools w !! ip_Pool ip)]> (w_pools w))
              (w_open w) (w_next w)).

Definition getIter (ip : iterPool) : GoM world (res HashIter) :=
  o ← Pool_get ip;
  match o with
  | None =>
      match Iterator (ip_reader ip) with
      | Err e => mret (Err (Errorf "opening block iter" e))
      | Ok iter => mret (Ok iter)
      end
  | Some iter => mret (Ok iter)
  end.

(** ** record.go *)

Definition Block_get (b : Block) (key : string) : GoM world (res (option Record_)) :=
  r ← getIter (b_iterPool b);
  match r with
  | Err e => mret (Err e)
  | Ok iter =>
      let '(iter, err) := Seek iter key in
      match err with
      | Some e => mret (Err e)
      | None =>
          if decide (State iter ≠ ITERATOR_ACTIVE) then
            Pool_put (b_iterPool b) iter ≫= λ _, mret (Ok None)
          else mret (Ok (Some {| r_ValueLen := Z.of_nat (String.length (IterValue iter));
                                 r_iterPool := b_iterPool b;
                                 r_iter := iter |}))
      end
  end.

(** The bytes [Read] and [WriteTo] stream. *)
Definition Record_value (r : Record_) : string := IterValue (r_iter r).

Definition Record_Close (r : Record_) : GoM world unit := Pool_put (r_iterPool r) (r_iter r).

(** ** block.go *)

(** A reader is opened under a fresh handle. *)
Definition openReader (path : string) : GoM world (res (HashReader * nat)) := λ w,
  match Open path (w_fs w) with
  | Err e => Some (Err e, w)
  | Ok r => Some (Ok (r, w_next w),
                  World (w_fs w) (w_pools w) ({[w_next w]} ∪ w_open w) (S (w_next w)))
  end.

Definition loadBlock (storePath : string) (m : BlockManifest) : GoM world (res Block) :=
  r ← openReader (path_Join [storePath; bm_Name m]);
  match r with
  | Err e => mret (Err (Errorf "opening block" e))
  | Ok (reader, h) =>
      ip ← newIterPool reader;
      mret (Ok {| b_ID := bm_ID m; b_Name := bm_Name m; b_Partition := bm_Partition m;
                  b_Count := bm_Count m; b_minKey := bm_MinKey m; b_maxKey := bm_MaxKey m;
                  b_sparkeyReader := reader; b_readerHandle := h; b_iterPool := ip |})
  end.

(** The range test of [Block.Get]. *)
Definition out_of_range (b : Block) (key : string) : bool :=
  match b_minKey b with
  | Some mn => bool_decide (bytes_Compare key mn = Lt)
  | None => false
  end
  || match b_maxKey b with
     | Some mx => bool_decide (bytes_Compare key mx = Gt)
     | None => false
     end.

Definition Block_Get (b : Block) (key : string) : GoM world (res (option Record_)) :=
  if out_of_range b key then mret (Ok None) else Block_get b key.

Definition Block_Close (b : Block) : GoM world unit := λ w,
  Some (tt, World (w_fs w) (w_pools w) (w_open w ∖ {[b_readerHandle b]}) (w_next w)).

Definition Block_manifest (b : Block) : BlockManifest :=
  {| bm_ID := b_ID b; bm_Name := b_Name b; bm_Partition := b_Partition b;
     bm_Count := b_Count b; bm_MinKey := b_minKey b; bm_MaxKey := b_maxKey b |}.

(** ** block_writer.go *)

Definition block_name (partition : Z) (id : string) : string :=
  "block-" ++ fmt05d partition ++ "-" ++ id ++ ".spl".

Definition newBlock (storePath : string) (partition : Z) (compression : Compression)
    (blockSize : Z) : GoM world (res blockWriter) := λ w,
  let id := uuid_New (w_next w) in
  let path := path_Join [storePath; block_name partition id] in
  let c := if decide (compression = SnappyCompression) then COMPRESSION_SNAPPY
           else COMPRESSION_NONE in
  let '(r, d) := CreateLogWriter path {| opt_Compression := c; opt_BlockSize := blockSize |} (w_fs w) in
  let w' := World d (w_pools w) (w_open w) (S (w_next w)) in
  match r with
  | Err e => Some (Err (Errorf "initializing block" e), w')
  | Ok sw => Some (Ok {| bw_minKey := None; bw_maxKey := None; bw_count := 0;
                         bw_partition := partition; bw_path := path; bw_id := id;
                         bw_sparkeyWriter := sw |}, w')
  end.

Definition bw_add (bw : blockWriter) (key value : string) : blockWriter * option error :=
  let maxKey := match bw_maxKey bw with
                | None => Some key
                | Some mx => if bool_decide (bytes_Compare key mx = Gt) then Some key else Some mx
                end in
  let minKey := match bw_minKey bw with
                | None => Some key
                | Some mn => if bool_decide (bytes_Compare key mn = Lt) then Some key else Some mn
                end in
  let '(sw, err) := Put (bw_sparkeyWriter bw) key value in
  ({| bw_minKey := minKey; bw_maxKey := maxKey; bw_count := int64 (bw_count bw + 1);
      bw_partition := bw_partition bw; bw_path := bw_path bw; bw_id := bw_id bw;
      bw_sparkeyWriter := sw |}, err).

(** Run an operation on the disk. *)
Definition on_disk {A} (f : fs -> A * fs) : GoM world A := λ w,
  let '(a, d) := f (w_fs w) in Some (a, with_fs w d).

Definition bw_save (bw : blockWriter) : GoM world (res Block) :=
  err ← on_disk (WriteHashFile (bw_sparkeyWriter bw) 0);
  match err with
  | Some e => mret (Err e)
  | None =>
      err ← on_disk (LogWriter_Close (bw_sparkeyWriter bw));
      match err with
      | Some e => mret (Err e)
      | None =>
          r ← openReader (bw_path bw);
          match r with
          | Err e => mret (Err (Errorf "opening block" e))
          | Ok (reader, h) =>
              ip ← newIterPool reader;
              mret (Ok {| b_ID := bw_id bw; b_Name := path_Base (bw_path bw);
                          b_Partition := bw_partition bw; b_Count := bw_count bw;
                          b_minKey := bw_minKey bw; b_maxKey := bw_maxKey bw;
                          b_sparkeyReader := reader; b_readerHandle := h;
                          b_iterPool := ip |})
          end
      end
  end.

Definition bw_close (bw : blockWriter) : GoM world unit :=
  on_disk (LogWriter_Close (bw_sparkeyWriter bw)) ≫= λ _, mret tt.

Definition bw_delete (bw : blockWriter) : GoM world unit :=
  on_disk (λ d, (tt, os_Remove (bw_path bw) d)).
End Block.

(** ** Key ranges *)

Lemma bytes_Compare_Lt a b : bytes_Compare a b ≠ Lt <-> String.le b a.
Proof.
  unfold bytes_Compare, String.le, String.leb.
  rewrite (String.compare_antisym b a). by destruct (String.compare a b).
Qed.

Lemma bytes_Compare_Gt a b : bytes_Compare a b ≠ Gt <-> String.le a b.
Proof. unfold bytes_Compare, String.le, String.leb. by destruct (String.compare a b). Qed.

(** Every key of [l] is between the recorded bounds, which are keys of [l] (so
    they are its least and greatest) and absent only for an empty log. *)
Record bounds_ok (mn mx : option string) (l : log) : Prop := {
  bounds_min : match mn with
               | Some m => m ∈ l.*1 ∧ ∀ k, k ∈ l.*1 -> String.le m k
               | None => l = []
               end;
  bounds_max : match mx with
               | Some m => m ∈ l.*1 ∧ ∀ k, k ∈ l.*1 -> String.le k m
               | None => l = []
               end;
}.

Section Block_props.
Context {D : Disk} {L : DiskLaws D} {SP : SyncPool HashIter} {U : Uuid}.

Lemma bounds_ok_add mn mx l k v :
  bounds_ok mn mx l ->
  bounds_ok
    (match mn with
     | None => Some k
     | Some m => if bool_decide (bytes_Compare k m = Lt) then Some k else Some m
     end)
    (match mx with
     | None => Some k
     | Some m => if bool_decide (bytes_Compare k m = Gt) then Some k else Some m
     end)
    (l ++ [(k, v)])%list.
Proof.
  intros [Hmn Hmx]. split.
  - destruct mn as [m|]; [|subst; set_solver].
    destruct Hmn as [Hin Hle]. rewrite fmap_app. case_bool_decide as Hc; (split; [set_solver|]);
      intros k' [Hk'|Hk']%elem_of_app; try (apply list_elem_of_singleton in Hk' as ->); try done.
    + transitivity m; [|by apply Hle]. apply bytes_Compare_Gt. congruence.
    + by apply Hle.
    + by apply bytes_Compare_Lt.
  - destruct mx as [m|]; [|subst; set_solver].
    destruct Hmx as [Hin Hle]. rewrite fmap_app. case_bool_decide as Hc; (split; [set_solver|]);
      intros k' [Hk'|Hk']%elem_of_app; try (apply list_elem_of_singleton in Hk' as ->); try done.
    + transitivity m; [by apply Hle|]. apply bytes_Compare_Lt. congruence.
    + by apply Hle.
    + by apply bytes_Compare_Gt.
Qed.

(** ** The invariant of a block writer *)

Record writer_ok (bw : blockWriter) (l : log) : Prop := {
  wok_log : writer_log (bw_sparkeyWriter bw) = l;
  wok_path : writer_path (bw_sparkeyWriter bw) = bw_path bw;
  wok_bounds : bounds_ok (bw_minKey bw) (bw_maxKey bw) l;
  wok_count : bw_count bw = int64 (Z.of_nat (length l));
}.

Lemma newBlock_ok storePath partition c sz w bw w' :
  newBlock storePath partition c sz w = Some (Ok bw, w') ->
  writer_ok bw [] ∧ bw_partition bw = partition
  ∧ bw_id bw = uuid_New (w_next w)
  ∧ bw_path bw = path_Join [storePath; block_name partition (bw_id bw)].
Proof.
  unfold newBlock. destruct (CreateLogWriter _ _ _) as [[sw|] d] eqn:E; [|done].
  intros ?; simplify_eq/=. apply CreateLogWriter_ok in E as [Hp Hl].
  by repeat split.
Qed.

Lemma bw_add_ok bw l k v bw' :
  writer_ok bw l -> bw_add bw k v = (bw', None) ->
  writer_ok bw' (l ++ [(k, v)])%list.
Proof.
  intros [Hl Hp Hb Hc] Hadd. unfold bw_add in Hadd.
  destruct (Put _ _ _) as [sw e] eqn:E. simplify_eq/=.
  split; cbn.
  - by rewrite (Put_ok _ _ _ _ E).
  - by rewrite (Put_path _ _ _ _ _ E).
  - by apply bounds_ok_add.
  - by rewrite Hc, length_app, Nat2Z.inj_add, int64_add.
Qed.

Lemma bw_add_meta bw k v :
  bw_path (bw_add bw k v).1 = bw_path bw ∧ bw_partition (bw_add bw k v).1 = bw_partition bw
  ∧ bw_id (bw_add bw k v).1 = bw_id bw
  ∧ writer_path (bw_sparkeyWriter (bw_add bw k v).1) = writer_path (bw_sparkeyWriter bw).
Proof.
  unfold bw_add. destruct (Put _ _ _) as [sw e] eqn:E. cbn. apply Put_path in E. done.
Qed.

(** Successive calls of [add], stopping at the first error. *)
Fixpoint add_all (bw : blockWriter) (l : log) : blockWriter * option error :=
  match l with
  | [] => (bw, None)
  | (k, v) :: l' =>
      match bw_add bw k v with
      | (bw', None) => add_all bw' l'
      | (bw', Some e) => (bw', Some e)
      end
  end.

Lemma add_all_ok l bw l0 bw' :
  writer_ok bw l0 -> add_all bw l = (bw', None) ->
  writer_ok bw' (l0 ++ l)%list ∧ bw_path bw' = bw_path bw
  ∧ bw_partition bw' = bw_partition bw ∧ bw_id bw' = bw_id bw.
Proof.
  revert bw l0. induction l as [|[k v] l IH]; intros bw l0 Hok Hadd; cbn in Hadd.
  { simplify_eq. by rewrite app_nil_r. }
  pose proof (bw_add_meta bw k v) as (Hp & Hq & Hi & _).
  destruct (bw_add bw k v) as [bw1 [e|]] eqn:E; [done|].
  apply (IH _ (l0 ++ [(k, v)])%list) in Hadd as (Hok' & Hp' & Hq' & Hi'); [|by eapply bw_add_ok].
  rewrite <- app_assoc in Hok'. cbn in *. naive_solver congruence.
Qed.

(** ** The invariant of a block and its pool *)

(** Every pooled iterator reads the pool's own log, so that reusing one is
    sound. *)
Definition pool_ok (w : world) (ip : iterPool) : Prop :=
  ∀ it, it ∈ default [] (w_pools w !! ip_Pool ip) -> iter_log it = reader_log (ip_reader ip).

(** What a read may change: the contents of one pool. *)
Record read_step (p : nat) (w w' : world) : Prop := {
  rs_fs : w_fs w' = w_fs w;
  rs_open : w_open w' = w_open w;
  rs_next : w_next w' = w_next w;
  rs_pools : ∀ q, q ≠ p -> w_pools w' !! q = w_pools w !! q;
}.

Definition block_log (b : Block) : log := reader_log (b_sparkeyReader b).

Record block_ok (w : world) (b : Block) : Prop := {
  bok_reader : ip_reader (b_iterPool b) = b_sparkeyReader b;
  bok_pool : pool_ok w (b_iterPool b);
  bok_bounds : bounds_ok (b_minKey b) (b_maxKey b) (block_log b);
}.

Lemma read_step_refl p w : read_step p w w.
Proof. done. Qed.

Lemma read_step_trans p w1 w2 w3 : read_step p w1 w2 -> read_step p w2 w3 -> read_step p w1 w3.
Proof.
  intros [?? ? Hp] [??? Hq]. split; try congruence.
  intros q Hne. by rewrite Hq, Hp.
Qed.

Lemma Pool_get_spec ip w o w' :
  pool_ok w ip -> Pool_get ip w = Some (o, w') ->
  read_step (ip_Pool ip) w w' ∧ pool_ok w' ip
  ∧ ∀ it, o = Some it -> iter_log it = reader_log (ip_reader ip).
Proof.
  intros Hok Hget. unfold Pool_get in Hget.
  destruct (Pool_Get _) as [o' l'] eqn:E. simplify_eq/=. apply Pool_Get_sub in E.
  split; [split; try done; intros; cbn; by rewrite lookup_insert_ne|].
  split.
  - intros it. cbn. rewrite lookup_insert_eq. cbn. intros Hit. apply Hok.
    eapply submseteq_Permutation in E as [k Hk]. rewrite Hk. set_solver.
  - intros it ->. apply Hok. eapply submseteq_Permutation in E as [k Hk]. rewrite Hk. set_solver.
Qed.

Lemma Pool_put_spec ip it w u w' :
  pool_ok w ip -> iter_log it = reader_log (ip_reader ip) ->
  Pool_put ip it w = Some (u, w') -> read_step (ip_Pool ip) w w' ∧ pool_ok w' ip.
Proof.
  intros Hok Hit Hput. unfold Pool_put in Hput. simplify_eq/=.
  split; [split; try done; intros; cbn; by rewrite lookup_insert_ne|].
  intros it'. cbn. rewrite lookup_insert_eq. cbn.
  intros [->|?]%elem_of_cons; [done|]. by apply Hok.
Qed.

Lemma getIter_spec ip w r w' :
  pool_ok w ip -> getIter ip w = Some (r, w') ->
  read_step (ip_Pool ip) w w' ∧ pool_ok w' ip
  ∧ match r with
    | Ok it => iter_log it = reader_log (ip_reader ip)
    | Err e => ∃ e', Iterator (ip_reader ip) = Err e' ∧ e = Errorf "opening block iter" e'
    end.
Proof.
  intros Hok Hget. unfold getIter in Hget. rewrite GoM_bind_eq in Hget.
  destruct (Pool_get ip w) as [[o w1]|] eqn:E; [|done].
  apply Pool_get_spec in E as (Hs & Hp & Ho); [|done].
  destruct o as [it|]; [|destruct (Iterator (ip_reader ip)) as [it|e'] eqn:Ei];
    cbv [mret GoM_ret] in Hget; simplify_eq; (split; [done|]; split; [done|]).
  - by apply Ho.
  - by apply Iterator_ok.
  - by exists e'.
Qed.

(** The iterator of a record goes back to the pool of its block. *)
Definition of_block (b : Block) (rec : Record_) : Prop :=
  r_iterPool rec = b_iterPool b ∧ iter_log (r_iter rec) = block_log b.

(** What a lookup in one block may answer. *)
Definition lookup_result (b : Block) (key : string) (r : res (option Record_)) : Prop :=
  match r with
  | Ok (Some rec) =>
      log_map (block_log b) !! key = Some (Record_value rec)
      ∧ r_ValueLen rec = Z.of_nat (String.length (Record_value rec))
      ∧ r_iterPool rec = b_iterPool b
      ∧ iter_log (r_iter rec) = block_log b
  | Ok None => log_map (block_log b) !! key = None
  | Err e => (∃ e', Iterator (b_sparkeyReader b) = Err e' ∧ e = Errorf "opening block iter" e')
             ∨ (∃ it, (Seek it key).2 = Some e)
  end.

Lemma Block_get_spec b key w r w' :
  block_ok w b -> Block_get b key w = Some (r, w') ->
  read_step (ip_Pool (b_iterPool b)) w w' ∧ block_ok w' b ∧ lookup_result b key r.
Proof.
  intros [Hr Hp Hb] Hget. unfold Block_get in Hget. rewrite GoM_bind_eq in Hget.
  destruct (getIter _ w) as [[ri w1]|] eqn:E; [|done].
  apply getIter_spec in E as (Hs & Hp1 & Hit); [|done]. rewrite Hr in Hit.
  destruct ri as [it|e]; cbv [mret GoM_ret] in Hget.
  2:{ simplify_eq. split; [done|]. split; [done|]. by left. }
  destruct (Seek it key) as [it' [e|]] eqn:Es.
  { simplify_eq. split; [done|]. split; [done|]. right. exists it. by rewrite Es. }
  pose proof (Seek_log _ _ _ _ Es) as Hlog. apply Seek_ok in Es. rewrite Hit in Es, Hlog.
  destruct (decide (State it' ≠ ITERATOR_ACTIVE)).
  - rewrite GoM_bind_eq in Hget.
    destruct (Pool_put _ it' w1) as [[u w2]|] eqn:Eput; [|done]. simplify_eq.
    apply Pool_put_spec in Eput as [Hs2 Hp2]; [|done|by rewrite Hr].
    split; [by eapply read_step_trans|]. split; [done|]. cbn. unfold block_log.
    destruct (log_map _ !! key); naive_solver.
  - simplify_eq. split; [done|]. split; [done|]. cbn. unfold Record_value, block_log. cbn.
    destruct (log_map _ !! key); naive_solver.
Qed.

(** The range test only skips keys the block does not have. *)
Lemma out_of_range_sound b key :
  bounds_ok (b_minKey b) (b_maxKey b) (block_log b) ->
  out_of_range b key = true -> log_map (block_log b) !! key = None.
Proof.
  intros [Hmn Hmx] Hout. destruct (log_map _ !! key) as [v|] eqn:E; [|done].
  apply log_map_dom in E. unfold out_of_range in Hout.
  apply orb_true_iff in Hout as [Hout|Hout].
  - destruct (b_minKey b); [|done]. apply bool_decide_eq_true in Hout.
    destruct Hmn as [_ Hmn]. apply Hmn, bytes_Compare_Lt in E. done.
  - destruct (b_maxKey b); [|done]. apply bool_decide_eq_true in Hout.
    destruct Hmx as [_ Hmx]. apply Hmx, bytes_Compare_Gt in E. done.
Qed.

Lemma Block_Get_spec b key w r w' :
  block_ok w b -> Block_Get b key w = Some (r, w') ->
  read_step (ip_Pool (b_iterPool b)) w w' ∧ block_ok w' b ∧ lookup_result b key r.
Proof.
  intros Hok. unfold Block_Get. destruct (out_of_range b key) eqn:E; [|by apply Block_get_spec].
  cbv [mret GoM_ret]. intros ?. simplify_eq. split; [done|]. split; [done|].
  apply out_of_range_sound; [apply Hok|done].
Qed.

Lemma Block_Get_total b key w : ∃ r w', Block_Get b key w = Some (r, w').
Proof.
  unfold Block_Get, Block_get, getIter, Pool_get, Pool_put, mbind, GoM_bind, mret, GoM_ret.
  repeat case_match; simplify_eq; eauto.
Qed.

(** ** Saving and loading *)

Lemma untouched_trans p d1 d2 d3 : untouched p d1 d2 -> untouched p d2 d3 -> untouched p d1 d3.
Proof. intros H1 H2 q Hq. destruct (H1 q Hq), (H2 q Hq). split; congruence. Qed.

(** A fresh pool pointer is appended to the world. *)
Record alloc_step (p : nat) (w w' : world) : Prop := {
  as_pools : w_pools w' = <[p := []]> (w_pools w);
  as_old : (w_next w <= p)%nat;
  as_next : (p < w_next w')%nat;
}.

Lemma open_block_ok path w reader h w1 ip w2 :
  openReader path w = Some (Ok (reader, h), w1) -> newIterPool reader w1 = Some (ip, w2) ->
  w_fs w2 = w_fs w ∧ alloc_step (ip_Pool ip) w w2 ∧ ip_reader ip = reader
  ∧ pool_ok w2 ip ∧ file_log (w_fs w) path = Some (reader_log reader).
Proof.
  unfold openReader, newIterPool. destruct (Open path (w_fs w)) eqn:E; [|done].
  intros ? ?; simplify_eq/=. apply Open_ok in E.
  split; [done|]. split; [split; cbn; lia || done|]. split; [done|]. split; [|done].
  intros it. cbn. rewrite lookup_insert_eq. set_solver.
Qed.

Lemma bw_save_ok bw l w b w' :
  writer_ok bw l -> bw_save bw w = Some (Ok b, w') ->
  block_ok w' b ∧ block_log b = l
  ∧ Block_manifest b = {| bm_ID := bw_id bw; bm_Name := path_Base (bw_path bw);
                          bm_Partition := bw_partition bw; bm_Count := bw_count bw;
                          bm_MinKey := bw_minKey bw; bm_MaxKey := bw_maxKey bw |}
  ∧ file_log (w_fs w') (bw_path bw) = Some l
  ∧ untouched (bw_path bw) (w_fs w) (w_fs w')
  ∧ alloc_step (ip_Pool (b_iterPool b)) w w'.
Proof.
  intros [Hl Hp Hb Hc] Hsave. unfold bw_save in Hsave. rewrite GoM_bind_eq in Hsave.
  unfold on_disk at 1 in Hsave. destruct (WriteHashFile _ _ _) as [[e|] d1] eqn:E1; [done|].
  rewrite GoM_bind_eq in Hsave. unfold on_disk in Hsave. cbn in Hsave.
  destruct (LogWriter_Close _ _) as [[e|] d2] eqn:E2; [done|].
  rewrite GoM_bind_eq in Hsave.
  destruct (openReader _ _) as [[[[reader h]|] w1]|] eqn:E3; [|done..].
  rewrite GoM_bind_eq in Hsave. destruct (newIterPool reader w1) as [[ip w2]|] eqn:E4; [|done].
  cbv [mret GoM_ret] in Hsave. simplify_eq.
  destruct (open_block_ok _ _ _ _ _ _ _ E3 E4) as (Hfs & Hal & Hr & Hpool & Hfile).
  cbn in Hfs, Hfile. pose proof (WriteHashFile_ok _ _ _ _ E1) as Hh.
  pose proof (LogWriter_Close_ok _ _ _ E2) as Hcl. rewrite Hp in Hh, Hcl.
  assert (reader_log reader = writer_log (bw_sparkeyWriter bw)) as Hrl by congruence.
  split; [split; cbn; [done|done|by unfold block_log; cbn; rewrite Hrl]|].
  split; [done|]. split; [done|]. split; [by rewrite Hfs, Hcl|].
  split; [|by destruct Hal; split].
  rewrite Hfs. rewrite <- Hp.
  eapply untouched_trans; [by eapply WriteHashFile_frame|by eapply LogWriter_Close_frame].
Qed.

Lemma loadBlock_ok storePath m w b w' l :
  file_log (w_fs w) (path_Join [storePath; bm_Name m]) = Some l ->
  bounds_ok (bm_MinKey m) (bm_MaxKey m) l ->
  loadBlock storePath m w = Some (Ok b, w') ->
  block_ok w' b ∧ block_log b = l ∧ Block_manifest b = m
  ∧ w_fs w' = w_fs w ∧ alloc_step (ip_Pool (b_iterPool b)) w w'.
Proof.
  intros Hf Hb Hload. unfold loadBlock in Hload. rewrite GoM_bind_eq in Hload.
  destruct (openReader _ _) as [[[[reader h]|] w1]|] eqn:E3; [|done..].
  rewrite GoM_bind_eq in Hload. destruct (newIterPool reader w1) as [[ip w2]|] eqn:E4; [|done].
  cbv [mret GoM_ret] in Hload. simplify_eq.
  destruct (open_block_ok _ _ _ _ _ _ _ E3 E4) as (Hfs & Hal & Hr & Hpool & Hfile).
  assert (reader_log reader = l) as Hrl by congruence.
  split; [split; cbn; [done|done|by unfold block_log; cbn; rewrite Hrl]|].
  split; [done|]. split; [by destruct m|]. by destruct Hal.
Qed.

Lemma block_name_plain partition n : plain_elem (block_name partition (uuid_New n)).
Proof.
  unfold plain_elem, block_name. repeat split; try done.
  cbn. rewrite !has_char_app, fmt05d_no_char by solve_no_char.
  cbn. by rewrite has_char_app, uuid_New_plain.
Qed.

Lemma block_name_inj p q i j :
  (0 <= p < 2 ^ 63)%Z -> (0 <= q < 2 ^ 63)%Z -> block_name p i = block_name q j -> p = q ∧ i = j.
Proof.
  intros Hp Hq H. unfold block_name in H. apply (inj _) in H.
  pose proof (SplitN2_app "-" (fmt05d p) (i ++ ".spl") (fmt05d_no_dash p ltac:(lia))) as H1.
  pose proof (SplitN2_app "-" (fmt05d q) (j ++ ".spl") (fmt05d_no_dash q ltac:(lia))) as H2.
  cbn in H, H1, H2. rewrite H in H1. rewrite H1 in H2. simplify_eq.
  split; [by apply fmt05d_inj|by eapply str_app_inj_r].
Qed.

(** ** The life of an open block

    What the clients of a block do with it between [bw_save] (or [loadBlock])
    and [Close]: lookups, and [Close] of a record that a lookup returned, once
    each; everything else that happens leaves the block's own pool alone.  The
    list holds the records that are open. *)
Inductive use_step (b : Block) : world * list Record_ -> world * list Record_ -> Prop :=
  | use_get w open key r w' :
      Block_Get b key w = Some (r, w') ->
      use_step b (w, open) (w', match r with Ok (Some rec) => rec :: open | _ => open end)
  | use_close w rec l1 l2 w' :
      Record_Close rec w = Some (tt, w') ->
      use_step b (w, l1 ++ rec :: l2)%list (w', l1 ++ l2)%list
  | use_other w open w' :
      w_pools w' !! ip_Pool (b_iterPool b) = w_pools w !! ip_Pool (b_iterPool b) ->
      use_step b (w, open) (w', open).

Definition use_ok (b : Block) (c : world * list Record_) : Prop :=
  block_ok c.1 b ∧ Forall (of_block b) c.2.

Lemma use_ok_step b c c' : use_step b c c' -> use_ok b c -> use_ok b c'.
Proof.
  intros [w open key r w' Hget|w rec l1 l2 w' Hcl|w open w' Hp] [Hb Ho]; cbn in *.
  - apply Block_Get_spec in Hget as (_ & Hb' & Hres); [|done]. split; [done|].
    destruct r as [[rec|]|]; cbn in *; [|done..]. constructor; [|done].
    by destruct Hres as (_ & _ & ? & ?).
  - apply Forall_app in Ho as [Ho1 [[Hip Hit] Ho2]%Forall_cons]. unfold Record_Close in Hcl.
    rewrite Hip in Hcl. destruct Hb as [Hr Hpl Hbd].
    apply Pool_put_spec in Hcl as [_ Hp']; [|done|by rewrite Hr].
    split; [by split|by apply Forall_app].
  - split; [|done]. destruct Hb as [? Hpl ?]. split; [done| |done].
    intros it Hit. apply Hpl. by rewrite <- Hp.
Qed.

Lemma use_ok_steps b c c' : rtc (use_step b) c c' -> use_ok b c -> use_ok b c'.
Proof. induction 1; eauto using use_ok_step. Qed.
End Block_props.

(** C8: a block answers every lookup with the last value written for the key
    and with "absent" for every other key, however it was used before: after
    any sequence of lookups, of closed records, whose iterators the later
    lookups take from the pool, and of steps that leave the block's pool
    alone.  Neither the range test on the recorded minimal and maximal keys
    nor the reuse of pooled iterators ever hides or confuses a record.  The
    only other outcome is an error of sparkey's, passed on. *)
Theorem block_write_read {D : Disk} {L : DiskLaws D} {SP : SyncPool HashIter} {U : Uuid}
    storePath partition c sz (w w1 w2 w3 w4 : world) bw bw' (l : log) b open key :
  newBlock storePath partition c sz w = Some (Ok bw, w1) ->
  add_all bw l = (bw', None) ->
  bw_save bw' w2 = Some (Ok b, w3) ->
  rtc (use_step b) (w3, []) (w4, open) ->
  b_Partition b = partition ∧ b_Count b = int64 (Z.of_nat (length l))
  ∧ ∃ r w5, Block_Get b key w4 = Some (r, w5)
  ∧ match r with
    | Ok rec => Record_value <$> rec = log_map l !! key
                ∧ from_option (λ rec, r_ValueLen rec = Z.of_nat (String.length (Record_value rec))) True rec
    | Err e => (∃ e', Iterator (b_sparkeyReader b) = Err e' ∧ e = Errorf "opening block iter" e')
               ∨ (∃ it, (Seek it key).2 = Some e)
    end.
Proof.
  intros Hnew Hadd Hsave Huse.
  apply newBlock_ok in Hnew as (Hok & Hpart & _ & _).
  eapply add_all_ok in Hadd as (Hok' & _ & Hpart' & _); [|done]. cbn in Hok'.
  pose proof (wok_count _ _ Hok') as Hcount.
  eapply bw_save_ok in Hsave as (Hb & Hlog & Hm & _); [|done].
  apply use_ok_steps in Huse as [Hb4 _]; [|by split].
  destruct (Block_Get_total b key w4) as (r & w5 & Hget).
  apply Block_Get_spec in Hget as Hres; [|done]. destruct Hres as (_ & _ & Hres).
  unfold Block_manifest in Hm. simplify_eq.
  split; [congruence|]. split; [congruence|]. exists r, w5. split; [done|].
  destruct r as [[rec|]|e]; cbn in *; [|done|done]. by destruct Hres as (Hres & ? & _).
Qed.

(** Identifiers for the concrete runs: the decimal counter. *)
Definition counter_uuid : Uuid.
Proof.
  refine {| uuid_New n := itoa_abs (Z.of_nat n) |}.
  - intros m n H. apply (f_equal (fun s => parse_digits (zeros 0 ++ s))) in H.
    rewrite !parse_digits_itoa in H by lia. simplify_eq. lia.
  - intros n. apply itoa_abs_no_char. solve_no_char.
Defined.

Module BlockExample.
#[export] Instance disk : Disk := MemDisk.disk (λ _, false).
#[export] Instance laws : DiskLaws disk := MemDisk.laws (λ _, false).
#[export] Instance pool : SyncPool HashIter := lifo_pool.
#[export] Instance uuid : Uuid := counter_uuid.

Definition w0 : world := World (MemDisk.Mem ∅ ∅) ∅ ∅ 0.

(** The records of the source's own test, one of them written twice. *)
Definition kvs : log := [("foo", "bar"); ("baz", "qux"); ("foo", "quux")].

(** Look a key up, close the record, and look up with the pooled iterator. *)
Definition run : option (list string * nat) :=
  match newBlock "/tmp" 1 SnappyCompression 8192 w0 with
  | Some (Ok bw, w1) =>
      match add_all bw kvs with
      | (bw', None) =>
          match bw_save bw' w1 with
          | Some (Ok b, w3) =>
              match Block_Get b "baz" w3 with
              | Some (Ok (Some r), w4) =>
                  match Record_Close r w4 with
                  | Some (tt, w5) =>
                      match Block_Get b "foo" w5 with
                      | Some (Ok (Some r'), _) =>
                          Some ([Record_value r; Record_value r'],
                                length (default [] (w_pools w5 !! ip_Pool (b_iterPool b))))
                      | _ => None
                      end
                  | None => None
                  end
              | _ => None
              end
          | _ => None
          end
      | _ => None
      end
  | _ => None
  end.

Lemma run_ok : run = Some (["qux"; "quux"], 1%nat).
Proof. vm_compute. reflexivity. Qed.

Lemma block_write_read_witness :
  ∃ (b : Block) (w5 : world), default [] (w_pools w5 !! ip_Pool (b_iterPool b)) ≠ []
  ∧ ∃ r w6, Block_Get b "foo" w5 = Some (r, w6)
  ∧ match r with
    | Ok rec => Record_value <$> rec = log_map kvs !! "foo"
                ∧ from_option (λ rec, r_ValueLen rec = Z.of_nat (String.length (Record_value rec))) True rec
    | Err e => (∃ e', Iterator (b_sparkeyReader b) = Err e' ∧ e = Errorf "opening block iter" e')
               ∨ (∃ it, (Seek it "foo").2 = Some e)
    end.
Proof.
  pose proof run_ok as H. unfold run in H. repeat case_match; simplify_eq.
  do 2 eexists. split; [by intros Hnil; rewrite Hnil in *|].
  eapply (block_write_read "/tmp" 1 SnappyCompression 8192 w0 _ _ _ _ _ _ kvs _ [] "foo");
    [eassumption..|].
  eapply rtc_l; [eapply use_get; eassumption|].
  eapply rtc_once. eapply (use_close _ _ _ [] []). eassumption.
Defined.
End BlockExample.
