(* ===== verification/BlockStore.v ===== *)
(** * blocks/block_store.go: the store of one version

    The store keeps the saved blocks in a list and, by partition, in a map;
    blocks being written are in [newBlocks].  Its operations run on the [world]
    of [Block.v] under the store's lock, so each is one step. *)

From Stdlib Require Import ZArith Lia Ascii String.
From stdpp Require Import base gmap sets list strings fin_maps.
From S2P Require Import Prelude Hashcode GoStrings Disk Manifest Block.
Import GoInt.

Open Scope string_scope.

Section BlockStore.
Context {D : Disk} {SP : SyncPool HashIter} {U : Uuid} {MO : MapOrder Z}.

Record BlockStore := {
  bs_path : string;
  bs_compression : Compression;
  bs_blockSize : Z;
  bs_numPartitions : Z;
  newBlocks : gmap Z blockWriter;
  Blocks : list Block;
  BlockMap : gmap Z (list Block);
}.

Definition New (path : string) (numPartitions : Z) (compression : Compression) (blockSize : Z) : BlockStore :=
  {| bs_path := path; bs_compression := compression; bs_blockSize := blockSize;
     bs_numPartitions := numPartitions; newBlocks := ∅; Blocks := []; BlockMap := ∅ |}.

Definition with_newBlocks (s : BlockStore) (nb : gmap Z blockWriter) : BlockStore :=
  {| bs_path := bs_path s; bs_compression := bs_compression s; bs_blockSize := bs_blockSize s;
     bs_numPartitions := bs_numPartitions s; newBlocks := nb; Blocks := Blocks s;
     BlockMap := BlockMap s |}.

(** [store.Blocks = append(...)] and [store.BlockMap[p] = append(...)]. *)
Definition append_block (s : BlockStore) (p : Z) (b : Block) : BlockStore :=
  {| bs_path := bs_path s; bs_compression := bs_compression s; bs_blockSize := bs_blockSize s;
     bs_numPartitions := bs_numPartitions s; newBlocks := newBlocks s;
     Blocks := (Blocks s ++ [b])%list;
     BlockMap := <[p := (default [] (BlockMap s !! p) ++ [b])%list]> (BlockMap s) |}.

Definition manifest_path (path : string) : string := path_Join [path; ".manifest"].

(** The loop of [NewFromManifest]. *)
Fixpoint load_blocks (path : string) (ms : list BlockManifest) (s : BlockStore)
    : GoM world (res BlockStore) :=
  match ms with
  | [] => mret (Ok s)
  | m :: ms' =>
      r ← loadBlock path m;
      match r with
      | Err e => mret (Err e)
      | Ok block => load_blocks path ms' (append_block s (bm_Partition m) block)
      end
  end.

Definition NewFromManifest (path : string) : GoM world (res (BlockStore * Manifest)) := λ w,
  match readManifest (manifest_path path) (w_fs w) with
  | None => None
  | Some (Err e) => Some (Err (if decide (e = ErrNotExist) then ErrNoManifest else e), w)
  | Some (Ok manifest) =>
      match load_blocks path (default [] (mf_Blocks manifest))
              (New path (mf_NumPartitions manifest) (mf_Compression manifest) (mf_BlockSize manifest)) w with
      | Some (Ok store, w') => Some (Ok (store, manifest), w')
      | Some (Err e, w') => Some (Err e, w')
      | None => None
      end
  end.

(** [KeyPartition] in the monad: the panic of a zero divisor. *)
Definition keyPartition (s : BlockStore) (key : string) : GoM world (Z * Z) := λ w,
  pa ← KeyPartition key (bs_numPartitions s); Some (pa, w).

Definition Add (s : BlockStore) (key value : string) : GoM world (BlockStore * option error) :=
  pa ← keyPartition s key;
  let partition := pa.1 in
  r ← match newBlocks s !! partition with
      | Some block => mret (Ok block)
      | None => newBlock (bs_path s) partition (bs_compression s) (bs_blockSize s)
      end;
  match r with
  | Err e => mret (s, Some e)
  | Ok block =>
      let '(block, err) := bw_add block key value in
      mret (with_newBlocks s (<[partition := block]> (newBlocks s)), err)
  end.

(** The flushing loop of [Save]. *)
Fixpoint save_blocks (l : list (Z * blockWriter)) (s : BlockStore)
    : GoM world (BlockStore * option error) :=
  match l with
  | [] => mret (s, None)
  | (partition, block) :: l' =>
      r ← bw_save block;
      match r with
      | Err e => mret (s, Some e)
      | Ok savedBlock => save_blocks l' (append_block s partition savedBlock)
      end
  end.

(** The manifest [Save] writes: no compression and no block size. *)
Definition store_manifest (s : BlockStore) (selectedPartitions : gset Z) : Manifest :=
  {| mf_Version := manifestVersion; mf_Blocks := Some (Block_manifest <$> Blocks s);
     mf_NumPartitions := bs_numPartitions s;
     mf_SelectedPartitions := Some (range_set selectedPartitions);
     mf_Compression := ""; mf_BlockSize := 0 |}.

Definition Save (s : BlockStore) (selectedPartitions : gset Z) : GoM world (BlockStore * option error) :=
  r ← save_blocks (range (newBlocks s)) s;
  let '(s, err) := r in
  match err with
  | Some e => mret (s, Some e)
  | None =>
      let s := with_newBlocks s ∅ in
      err ← on_disk (writeManifest (manifest_path (bs_path s)) (store_manifest s selectedPartitions));
      mret (s, err)
  end.

Fixpoint revert_blocks (l : list (Z * blockWriter)) : GoM world unit :=
  match l with
  | [] => mret tt
  | (_, block) :: l' =>
      _ ← bw_close block; _ ← bw_delete block; revert_blocks l'
  end.

Definition Revert (s : BlockStore) : GoM world BlockStore :=
  _ ← revert_blocks (range (newBlocks s)); mret (with_newBlocks s ∅).

(** One of the two lookup loops of [Get]: the first block that has the key. *)
Fixpoint get_loop (l : list Block) (key : string) : GoM world (res (option Record_)) :=
  match l with
  | [] => mret (Ok None)
  | block :: l' =>
      r ← Block_Get block key;
      match r with
      | Err e => mret (Err e)
      | Ok (Some rec) => mret (Ok (Some rec))
      | Ok None => get_loop l' key
      end
  end.

Definition Get (s : BlockStore) (key : string) : GoM world (res (option Record_)) :=
  pa ← keyPartition s key;
  let '(partition, alternatePartition) := pa in
  if bool_decide (BlockMap s !! partition = None)
     && bool_decide (BlockMap s !! alternatePartition = None)
  then mret (Err ErrPartitionNotFound)
  else
    r ← get_loop (default [] (BlockMap s !! partition)) key;
    match r with
    | Err e => mret (Err e)
    | Ok (Some rec) => mret (Ok (Some rec))
    | Ok None =>
        if bool_decide (alternatePartition ≠ partition)
        then get_loop (default [] (BlockMap s !! alternatePartition)) key
        else mret (Ok None)
    end.

Fixpoint close_blocks (l : list Block) : GoM world unit :=
  match l with
  | [] => mret tt
  | b :: l' => _ ← Block_Close b; close_blocks l'
  end.

Fixpoint close_writers (l : list (Z * blockWriter)) : GoM world unit :=
  match l with
  | [] => mret tt
  | (_, bw) :: l' => _ ← bw_close bw; close_writers l'
  end.

Definition Close (s : BlockStore) : GoM world unit :=
  _ ← close_blocks (Blocks s); close_writers (range (newBlocks s)).

Definition Delete (s : BlockStore) : GoM world (option error) :=
  on_disk (os_RemoveAll (bs_path s)).
End BlockStore.

(** ** Invariants *)

Section BlockStore_props.
Context {D : Disk} {L : DiskLaws D} {SP : SyncPool HashIter} {U : Uuid} {MO : MapOrder Z}.

(** Whether a [Save] of the store has failed: [Revert] then deletes files of
    blocks that are already in the list of saved blocks, which can still be
    read through their open readers but not opened again. *)
Context {torn : bool}.

(** Every key of the log belongs to partition [p] of [n]. *)
Definition hashed (n : Z) (l : log) (p : Z) : Prop :=
  ∀ k, k ∈ l.*1 -> ∃ a, KeyPartition k n = Some (p, a).

Definition block_path (s : BlockStore) (p : Z) (id : string) : string :=
  path_Join [bs_path s; block_name p id].

Record params_ok (s : BlockStore) : Prop := {
  po_parts : (0 < bs_numPartitions s < 2 ^ 62)%Z;
  po_path : bs_path s ≠ "";
}.

(** A saved block: readable, holding keys of its partition only, and, as long
    as no [Save] has failed, backed by its own file on disk. *)
Record saved_ok (s : BlockStore) (w : world) (b : Block) : Prop := {
  sv_block : block_ok w b;
  sv_hashed : hashed (bs_numPartitions s) (block_log b) (b_Partition b);
  sv_part : (0 <= b_Partition b < bs_numPartitions s)%Z;
  sv_name : b_Name b = block_name (b_Partition b) (b_ID b);
  sv_id : ∃ n, (n < w_next w)%nat ∧ b_ID b = uuid_New n;
  sv_file : torn = false ->
    file_log (w_fs w) (block_path s (b_Partition b) (b_ID b)) = Some (block_log b);
  sv_pool : (ip_Pool (b_iterPool b) < w_next w)%nat;
}.

(** The list and the map of saved blocks agree, and all of them are good. *)
Record blocks_ok (s : BlockStore) (w : world) : Prop := {
  bk_saved : ∀ b, b ∈ Blocks s -> saved_ok s w b;
  bk_map : ∀ p, BlockMap s !! p
                = match filter (λ b, b_Partition b = p) (Blocks s) with
                  | [] => None
                  | l => Some l
                  end;
  bk_pools : NoDup ((λ b, ip_Pool (b_iterPool b)) <$> Blocks s);
}.

(** A block being written has its own file, distinct from that of every saved
    block and of every other new block. *)
Record new_meta (s : BlockStore) (w : world) (p : Z) (bw : blockWriter) : Prop := {
  nm_part : bw_partition bw = p;
  nm_range : (0 <= p < bs_numPartitions s)%Z;
  nm_id : ∃ n, (n < w_next w)%nat ∧ bw_id bw = uuid_New n;
  nm_path : bw_path bw = block_path s p (bw_id bw);
  nm_wpath : writer_path (bw_sparkeyWriter bw) = bw_path bw;
  nm_fresh : ∀ b, b ∈ Blocks s -> b_ID b ≠ bw_id bw;
}.

Record new_ok (s : BlockStore) (w : world) : Prop := {
  nk_meta : map_Forall (new_meta s w) (newBlocks s);
  nk_inj : ∀ p q bw bw', newBlocks s !! p = Some bw -> newBlocks s !! q = Some bw' ->
                         bw_id bw = bw_id bw' -> p = q;
}.

(** The records put into the new block of partition [p] so far. *)
Definition new_log (s : BlockStore) (p : Z) : log :=
  match newBlocks s !! p with
  | Some bw => writer_log (bw_sparkeyWriter bw)
  | None => []
  end.

(** No [Put] has failed: the writers hold exactly their logs. *)
Definition writers_ok (s : BlockStore) : Prop :=
  map_Forall (λ p bw, writer_ok bw (writer_log (bw_sparkeyWriter bw))
                      ∧ hashed (bs_numPartitions s) (writer_log (bw_sparkeyWriter bw)) p)
             (newBlocks s).

(** Worlds in which the saved blocks are as before. *)
Record grows (w w' : world) : Prop := {
  gr_next : (w_next w <= w_next w')%nat;
  gr_pools : ∀ q, (q < w_next w)%nat -> w_pools w' !! q = w_pools w !! q;
}.

Lemma grows_refl w : grows w w.
Proof. by split. Qed.

Lemma grows_trans w1 w2 w3 : grows w1 w2 -> grows w2 w3 -> grows w1 w3.
Proof. intros [H1 P1] [H2 P2]. split; [lia|]. intros q Hq. rewrite P2 by lia. by apply P1. Qed.

Lemma alloc_grows p w w' : alloc_step p w w' -> grows w w'.
Proof.
  intros [Hp Ho Hn]. split; [lia|]. intros q Hq. rewrite Hp.
  by rewrite lookup_insert_ne by lia.
Qed.

Lemma block_path_inj s p q i j m n :
  params_ok s -> (0 <= p < bs_numPartitions s)%Z -> (0 <= q < bs_numPartitions s)%Z ->
  i = uuid_New m -> j = uuid_New n -> block_path s p i = block_path s q j -> i = j.
Proof.
  intros [Hn Hp] Hpr Hqr -> -> H.
  apply path_Join_inj in H; [|done|apply block_name_plain..].
  apply block_name_inj in H as [_ H]; [done|lia..].
Qed.

Lemma saved_ok_mono s w w' b :
  grows w w' ->
  (torn = false -> file_log (w_fs w') (block_path s (b_Partition b) (b_ID b))
                   = file_log (w_fs w) (block_path s (b_Partition b) (b_ID b))) ->
  saved_ok s w b -> saved_ok s w' b.
Proof.
  intros [Hn Hp] Hf [[Hr Hpool Hb] Hh Hpa Hna (m & Hm & Hid) Hfile Hpl].
  split; try done; [|by exists m; split; [lia|]|intros Ht; rewrite Hf; auto|lia].
  split; try done. intros it. rewrite Hp by done. apply Hpool.
Qed.

(** An operation on the file of one new block preserves the saved blocks. *)
Lemma blocks_ok_mono s w w' p id n :
  params_ok s -> blocks_ok s w -> grows w w' ->
  (0 <= p < bs_numPartitions s)%Z -> id = uuid_New n -> (∀ b, b ∈ Blocks s -> b_ID b ≠ id) ->
  untouched (block_path s p id) (w_fs w) (w_fs w') -> blocks_ok s w'.
Proof.
  intros Hpar [Hs Hm Hpl] Hg Hr Hid Hf Hu. split; [|done..].
  intros b Hb. destruct (Hs b Hb) as [? ? ? ? (m & ? & ?) ? ?] eqn:E. clear E.
  apply (saved_ok_mono _ w); [done|intros _|by apply Hs].
  apply Hu. intros Heq. eapply block_path_inj in Heq; [|done..]. by eapply Hf.
Qed.

(** The components of the store the saved blocks depend on. *)
Definition same_blocks (s s' : BlockStore) : Prop :=
  bs_path s' = bs_path s ∧ bs_numPartitions s' = bs_numPartitions s
  ∧ Blocks s' = Blocks s ∧ BlockMap s' = BlockMap s.

Lemma blocks_ok_same s s' w : same_blocks s s' -> blocks_ok s w -> blocks_ok s' w.
Proof.
  intros (Hp & Hn & Hb & Hm) [Hs Hmap Hpl]. split; rewrite ?Hb, ?Hm; [|done..].
  intros b Hin. destruct (Hs b Hin). split; rewrite ?Hn; try done.
  unfold block_path. by rewrite Hp.
Qed.

Lemma params_ok_same s s' : same_blocks s s' -> params_ok s -> params_ok s'.
Proof. intros (Hp & Hn & _) [? ?]. split; congruence. Qed.

Lemma new_meta_same s s' w w' p bw :
  same_blocks s s' -> (w_next w <= w_next w')%nat -> new_meta s w p bw -> new_meta s' w' p bw.
Proof.
  intros (Hp & Hn & Hb & _) Hle [? ? (m & ? & ?) Hpath ? ?].
  split; unfold block_path in *; rewrite ?Hn, ?Hp, ?Hb; try done. exists m. split; [lia|done].
Qed.

Lemma newBlock_step path p c sz w r w' :
  newBlock path p c sz w = Some (r, w') ->
  grows w w' ∧ w_next w' = S (w_next w)
  ∧ untouched (path_Join [path; block_name p (uuid_New (w_next w))]) (w_fs w) (w_fs w').
Proof.
  unfold newBlock. destruct (CreateLogWriter _ _ _) as [o d] eqn:E.
  apply CreateLogWriter_frame in E. destruct o; intros ?; simplify_eq/=;
    (split; [split; [cbn; lia|by intros]|by split]).
Qed.

Lemma fresh_id s w :
  blocks_ok s w -> new_ok s w ->
  (∀ b, b ∈ Blocks s -> b_ID b ≠ uuid_New (w_next w))
  ∧ (∀ p bw, newBlocks s !! p = Some bw -> bw_id bw ≠ uuid_New (w_next w)).
Proof.
  intros [Hs _ _] [Hm _]. split.
  - intros b Hb. destruct (sv_id _ _ _ (Hs b Hb)) as (m & Hlt & ->).
    intros ?%(inj _). lia.
  - intros p bw Hp. destruct (nm_id _ _ _ _ (Hm p bw Hp)) as (m & Hlt & ->).
    intros ?%(inj _). lia.
Qed.

(** A partition that has no new block yet gets one with a fresh file. *)
Lemma newBlock_add s w p bw w1 :
  params_ok s -> blocks_ok s w -> new_ok s w -> (0 <= p < bs_numPartitions s)%Z ->
  newBlocks s !! p = None ->
  newBlock (bs_path s) p (bs_compression s) (bs_blockSize s) w = Some (Ok bw, w1) ->
  blocks_ok s w1 ∧ new_ok (with_newBlocks s (<[p := bw]> (newBlocks s))) w1 ∧ writer_ok bw [].
Proof.
  intros Hpar Hbk Hnk Hr Hnone Hnew.
  pose proof (fresh_id s w Hbk Hnk) as [Hf1 Hf2].
  pose proof (newBlock_step _ _ _ _ _ _ _ Hnew) as (Hg & Hnext & Hu).
  pose proof (newBlock_ok _ _ _ _ _ _ _ Hnew) as (Hok & Hpart & Hid & Hpath).
  split; [by apply (blocks_ok_mono s w w1 p (uuid_New (w_next w)) (w_next w))|]. split; [|done].
  assert (new_meta (with_newBlocks s (<[p := bw]> (newBlocks s))) w1 p bw) as Hmeta.
  { split; try done; [|by apply wok_path in Hok|cbn; rewrite Hid; apply Hf1].
    exists (w_next w). split; [lia|done]. }
  split; cbn.
  - apply map_Forall_insert; [done|]. split; [done|].
    intros q bw' Hq. eapply new_meta_same; [| |by apply Hnk]; [done|lia].
  - intros q q' bq bq'. rewrite !lookup_insert_Some.
    intros [[<- <-]|[? Hq]] [[<- <-]|[? Hq']] Heq; try done.
    + rewrite Hid in Heq. symmetry in Heq. by eapply Hf2 in Heq.
    + rewrite Hid in Heq. by eapply Hf2 in Heq.
    + by eapply (nk_inj _ _ Hnk).
Qed.

(** Writing a record into a new block changes no other block. *)
Lemma bw_add_new_ok s w p bw k v :
  new_ok s w -> newBlocks s !! p = Some bw ->
  new_ok (with_newBlocks s (<[p := (bw_add bw k v).1]> (newBlocks s))) w.
Proof.
  intros Hnk Hp. pose proof (bw_add_meta bw k v) as (Hpa & Hpt & Hid & Hwp).
  pose proof (nk_meta _ _ Hnk p bw Hp) as [H1 H2 H3 H4 H5 H6].
  split; cbn.
  - apply map_Forall_insert_2.
    + split; rewrite ?Hpa, ?Hpt, ?Hid, ?Hwp; done.
    + intros q bq Hq. by eapply new_meta_same; [| |by apply Hnk].
  - intros q q' bq bq'. rewrite !lookup_insert_Some.
    intros [[<- <-]|[? Hq]] [[<- <-]|[? Hq']] Heq; try done; rewrite ?Hid in Heq;
      by eapply (nk_inj _ _ Hnk).
Qed.

Lemma with_newBlocks_twice s nb nb' :
  with_newBlocks (with_newBlocks s nb) nb' = with_newBlocks s nb'.
Proof. done. Qed.

Lemma KeyPartition_range s k p a :
  params_ok s -> KeyPartition k (bs_numPartitions s) = Some (p, a) ->
  (0 <= p < bs_numPartitions s)%Z.
Proof.
  intros [Hn _] HK. rewrite KeyPartition_normal in HK by done. simplify_eq.
  apply hadoop_partition_bound. lia.
Qed.

(** [Add], whatever its outcome, leaves the saved blocks and their files as
    they were. *)
Lemma Add_spec s k v w s' e w' :
  params_ok s -> blocks_ok s w -> new_ok s w ->
  Add s k v w = Some ((s', e), w') ->
  same_blocks s s' ∧ blocks_ok s' w' ∧ new_ok s' w'.
Proof.
  intros Hpar Hbk Hnk Hadd. unfold Add in Hadd. rewrite GoM_bind_eq in Hadd.
  unfold keyPartition in Hadd. destruct (KeyPartition k _) as [[p a]|] eqn:EK; [|done]. cbn in Hadd.
  pose proof (KeyPartition_range _ _ _ _ Hpar EK) as Hr.
  rewrite GoM_bind_eq in Hadd.
  destruct (newBlocks s !! p) as [bw|] eqn:Ep; cbv [mret GoM_ret] in Hadd.
  - destruct (bw_add bw k v) as [bw' e'] eqn:Eadd. simplify_eq.
    replace bw' with (bw_add bw k v).1 by by rewrite Eadd.
    split; [done|]. split; [by apply (blocks_ok_same s)|by apply bw_add_new_ok].
  - destruct (newBlock _ _ _ _ _) as [[[bw|e0] w1]|] eqn:Enew; [| |done].
    + destruct (bw_add bw k v) as [bw' e'] eqn:Eadd. simplify_eq.
      replace bw' with (bw_add bw k v).1 by by rewrite Eadd.
      apply newBlock_add in Enew as (Hb1 & Hn1 & _); [|done..].
      split; [done|]. split; [by apply (blocks_ok_same s)|].
      rewrite <- (insert_insert_eq (newBlocks s) p (bw_add bw k v).1 bw).
      apply (bw_add_new_ok _ _ p bw k v) in Hn1; [done|]. apply lookup_insert_eq.
    + simplify_eq. pose proof (fresh_id s' w Hbk Hnk) as [Hf _].
      apply newBlock_step in Enew as (Hg & Hnext & Hu).
      split; [done|]. split; [by apply (blocks_ok_mono s' w w' p (uuid_New (w_next w)) (w_next w))|].
      split; [|by apply Hnk]. intros q bq Hq.
      eapply new_meta_same; [| |by apply Hnk]; [done|lia].
Qed.

Lemma bw_add_hashed n p bw k v a bw' :
  hashed n (writer_log (bw_sparkeyWriter bw)) p -> KeyPartition k n = Some (p, a) ->
  writer_ok bw (writer_log (bw_sparkeyWriter bw)) -> bw_add bw k v = (bw', None) ->
  writer_log (bw_sparkeyWriter bw') = (writer_log (bw_sparkeyWriter bw) ++ [(k, v)])%list
  ∧ writer_ok bw' (writer_log (bw_sparkeyWriter bw'))
  ∧ hashed n (writer_log (bw_sparkeyWriter bw')) p.
Proof.
  intros Hh HK Hok Hadd. pose proof (bw_add_ok _ _ _ _ _ Hok Hadd) as Hok'.
  rewrite (wok_log _ _ Hok'). split; [done|]. split; [done|].
  intros k'. rewrite fmap_app. intros [?|Hk']%elem_of_app; [by apply Hh|].
  apply list_elem_of_singleton in Hk' as ->. by exists a.
Qed.

(** A successful [Add] appends the record to the log of its partition. *)
Lemma Add_log s k v w s' w' :
  writers_ok s -> Add s k v w = Some ((s', None), w') ->
  ∃ p a, KeyPartition k (bs_numPartitions s) = Some (p, a) ∧ writers_ok s'
  ∧ new_log s' p = (new_log s p ++ [(k, v)])%list
  ∧ ∀ q, q ≠ p -> new_log s' q = new_log s q.
Proof.
  intros Hw Hadd. unfold Add in Hadd. rewrite GoM_bind_eq in Hadd.
  unfold keyPartition in Hadd. destruct (KeyPartition k _) as [[p a]|] eqn:EK; [|done]. cbn in Hadd.
  exists p, a. split; [done|]. rewrite GoM_bind_eq in Hadd.
  assert (∃ bw, writer_log (bw_sparkeyWriter bw) = new_log s p
    ∧ writer_ok bw (writer_log (bw_sparkeyWriter bw))
    ∧ hashed (bs_numPartitions s) (writer_log (bw_sparkeyWriter bw)) p
    ∧ bw_add bw k v = ((bw_add bw k v).1, None)
    ∧ s' = with_newBlocks s (<[p := (bw_add bw k v).1]> (newBlocks s))) as (bw & Hl & Hok & Hh & Hb & ->).
  { unfold new_log. destruct (newBlocks s !! p) as [bw|] eqn:Ep; cbv [mret GoM_ret] in Hadd.
    - exists bw. destruct (Hw p bw Ep). destruct (bw_add bw k v) eqn:Eb. by simplify_eq.
    - destruct (newBlock _ _ _ _ _) as [[[bw|e0] w1]|] eqn:Enew; [|done..].
      apply newBlock_ok in Enew as (Hok & _). pose proof (wok_log _ _ Hok) as Hl.
      exists bw. rewrite Hl. destruct (bw_add bw k v) eqn:Eb. simplify_eq.
      repeat split; try done; try apply Hok. intros ? ?%not_elem_of_nil. done. }
  apply (bw_add_hashed (bs_numPartitions s) p bw k v a) in Hb as (Hl' & Hok' & Hh'); [|done..].
  split; [|split].
  - apply map_Forall_insert_2; [done|]. intros q bq Hq. by apply Hw.
  - unfold new_log. cbn. by rewrite lookup_insert_eq, Hl', Hl.
  - intros q Hq. unfold new_log. cbn. by rewrite lookup_insert_ne.
Qed.

(** Successive calls of [Add], stopping at the first error. *)
Fixpoint adds (s : BlockStore) (l : log) : GoM world (BlockStore * option error) :=
  match l with
  | [] => mret (s, None)
  | (k, v) :: l' =>
      r ← Add s k v;
      match r with
      | (s', None) => adds s' l'
      | (s', Some e) => mret (s', Some e)
      end
  end.

Lemma adds_spec l s w s' e w' :
  params_ok s -> blocks_ok s w -> new_ok s w ->
  adds s l w = Some ((s', e), w') ->
  same_blocks s s' ∧ blocks_ok s' w' ∧ new_ok s' w'.
Proof.
  revert s w. induction l as [|[k v] l IH]; intros s w Hpar Hbk Hnk Hadds; cbn in Hadds.
  { cbv [mret GoM_ret] in Hadds. by simplify_eq. }
  rewrite GoM_bind_eq in Hadds. destruct (Add s k v w) as [[[s1 e1] w1]|] eqn:E; [|done].
  apply Add_spec in E as (Hsame & Hb & Hn); [|done..].
  destruct e1 as [e1|]; cbv [mret GoM_ret] in Hadds; [by simplify_eq|].
  apply IH in Hadds as (Hsame' & ? & ?); [|by eapply params_ok_same|done..].
  split; [|done]. unfold same_blocks in *. naive_solver congruence.
Qed.

Definition in_part (n p : Z) (kv : string * string) : Prop := fst <$> KeyPartition kv.1 n = Some p.

#[global] Instance in_part_dec n p kv : Decision (in_part n p kv).
Proof. unfold in_part. apply _. Defined.

Lemma adds_log l s w s' w' :
  writers_ok s -> adds s l w = Some ((s', None), w') ->
  writers_ok s' ∧ bs_numPartitions s' = bs_numPartitions s
  ∧ ∀ p, new_log s' p = (new_log s p ++ filter (in_part (bs_numPartitions s) p) l)%list.
Proof.
  revert s w. induction l as [|[k v] l IH]; intros s w Hw Hadds; cbn in Hadds.
  { cbv [mret GoM_ret] in Hadds. simplify_eq. split; [done|]. split; [done|].
    intros p. by rewrite filter_nil, app_nil_r. }
  rewrite GoM_bind_eq in Hadds. destruct (Add s k v w) as [[[s1 [e1|]] w1]|] eqn:E; [done| |done].
  assert (bs_numPartitions s1 = bs_numPartitions s) as Hn1.
  { clear -E. unfold Add, keyPartition, mbind, GoM_bind, mret, GoM_ret in E.
    repeat case_match; by simplify_eq. }
  apply Add_log in E as (p & a & HK & Hw1 & Hp & Hq); [|done].
  apply IH in Hadds as (Hw' & Hn' & Hlog); [|done]. split; [done|]. split; [congruence|].
  intros q. rewrite Hlog, Hn1. destruct (decide (q = p)) as [->|Hne].
  - rewrite filter_cons_True by (unfold in_part; cbn; by rewrite HK).
    by rewrite Hp, <- app_assoc.
  - rewrite filter_cons_False by (unfold in_part; cbn; rewrite HK; cbn; congruence).
    by rewrite Hq.
Qed.

Lemma log_map_filter n p l k a :
  KeyPartition k n = Some (p, a) -> log_map (filter (in_part n p) l) !! k = log_map l !! k.
Proof.
  intros HK. induction l as [|[k' v'] l IH] using rev_ind; [done|].
  rewrite filter_app, log_map_app, filter_cons, filter_nil. case_decide as Hin.
  - by rewrite log_map_app, !lookup_insert, IH.
  - rewrite app_nil_r, lookup_insert_ne; [done|]. intros ->. destruct Hin.
    unfold in_part. cbn. by rewrite HK.
Qed.

(** *** Saving *)

Lemma blocks_ok_append s w b :
  blocks_ok s w -> saved_ok s w b ->
  (∀ b', b' ∈ Blocks s -> ip_Pool (b_iterPool b') ≠ ip_Pool (b_iterPool b)) ->
  blocks_ok (append_block s (b_Partition b) b) w.
Proof.
  intros [Hs Hm Hpl] Hb Hne. split; cbn.
  - intros b' [Hin|Hin]%elem_of_app.
    + destruct (Hs b' Hin). by split.
    + apply list_elem_of_singleton in Hin as ->. by destruct Hb.
  - intros q. rewrite lookup_insert, filter_app, filter_cons, filter_nil, Hm.
    case_decide as Hq; [subst q|].
    + by destruct (filter _ (Blocks s)).
    + by rewrite app_nil_r, Hm.
  - rewrite fmap_app. apply NoDup_app. split; [done|]. split; [|apply NoDup_singleton].
    intros q (b' & -> & Hb')%list_elem_of_fmap Hq. apply list_elem_of_singleton in Hq.
    by apply (Hne b').
Qed.

(** The state in which a new block can be flushed. *)
Definition flushable (s : BlockStore) (w : world) (x : Z * blockWriter) : Prop :=
  new_meta s w x.1 x.2
  ∧ writer_ok x.2 (writer_log (bw_sparkeyWriter x.2))
  ∧ hashed (bs_numPartitions s) (writer_log (bw_sparkeyWriter x.2)) x.1.

Lemma save_step s w p bw b w' :
  params_ok s -> blocks_ok s w -> flushable s w (p, bw) ->
  bw_save bw w = Some (Ok b, w') ->
  blocks_ok (append_block s p b) w' ∧ b_Partition b = p ∧ b_ID b = bw_id bw
  ∧ block_log b = writer_log (bw_sparkeyWriter bw) ∧ grows w w'.
Proof.
  intros Hpar Hbk ([Hpt Hr (n & Hn & Hid) Hpath Hwp Hfr] & Hok & Hh) Hsave. cbn in *.
  eapply bw_save_ok in Hsave as (Hb & Hlog & Hm & Hfile & Hu & Hal); [|done].
  pose proof (alloc_grows _ _ _ Hal) as Hg. unfold Block_manifest in Hm.
  injection Hm as Hbid Hbn Hbp _ _ _. subst p.
  assert (b_Name b = block_name (bw_partition bw) (bw_id bw)) as Hname.
  { rewrite Hbn, Hpath. unfold block_path.
    by rewrite path_Base_Join by (apply Hpar || rewrite Hid; apply block_name_plain). }
  split; [|done]. replace (bw_partition bw) with (b_Partition b) by congruence.
  apply blocks_ok_append.
  - rewrite Hpath in Hu. eapply (blocks_ok_mono s w); [done..| | |done]; [done|].
    intros b' Hb'. by apply Hfr.
  - split; rewrite ?Hbp, ?Hbid, ?Hlog; try done.
    + exists n. destruct Hg. split; [lia|done].
    + by rewrite <- Hpath.
    + by apply Hal.
  - intros b' Hb'. pose proof (sv_pool _ _ _ (bk_saved _ _ Hbk b' Hb')).
    pose proof (as_old _ _ _ Hal). lia.
Qed.

Lemma bw_save_grows bw w r w' : bw_save bw w = Some (r, w') -> grows w w'.
Proof.
  unfold bw_save, on_disk, openReader, newIterPool, mbind, GoM_bind, mret, GoM_ret. intros H.
  repeat case_match; simplify_eq; cbn; (split; cbn; [lia|]); intros q Hq; try done;
    by rewrite lookup_insert_ne by lia.
Qed.

(** The blocks that wait to be flushed are not affected by a flush. *)
Lemma flushable_append s w p b w' l :
  grows w w' -> b_ID b ∉ (λ x : Z * blockWriter, bw_id x.2) <$> l ->
  Forall (flushable s w) l -> Forall (flushable (append_block s p b) w') l.
Proof.
  intros Hg Hni Hfl. rewrite Forall_forall in Hfl |- *. intros [q bq] Hin.
  destruct (Hfl _ Hin) as ([? ? (m & ? & ?) ? ? Hfr] & ? & ?). split; [|done].
  split; try done; cbn in *; [exists m; destruct Hg; split; [lia|done]|].
  intros b' [Hb'|Hb']%elem_of_app; [by apply Hfr|].
  apply list_elem_of_singleton in Hb' as ->. intros Heq.
  apply Hni, list_elem_of_fmap. by exists (q, bq).
Qed.

(** A saved block that stands for the new block of an entry of [newBlocks]. *)
Definition flushed_to (x : Z * blockWriter) (b : Block) : Prop :=
  b_Partition b = x.1 ∧ block_log b = writer_log (bw_sparkeyWriter x.2).

(** The flushing loop appends the blocks it reaches: all of them when it
    succeeds; when a flush fails, those before it, and the saved blocks were
    as they should be until the failing call. *)
Lemma save_blocks_spec l s w s' e w' :
  params_ok s -> blocks_ok s w -> Forall (flushable s w) l ->
  NoDup ((λ x, bw_id x.2) <$> l) ->
  save_blocks l s w = Some ((s', e), w') ->
  (∃ w1, blocks_ok s' w1 ∧ grows w1 w' ∧ (e = None -> w1 = w'))
  ∧ bs_path s' = bs_path s ∧ bs_numPartitions s' = bs_numPartitions s
  ∧ ∃ bs l1, Blocks s' = (Blocks s ++ bs)%list ∧ l1 `prefix_of` l ∧ (e = None -> l1 = l)
    ∧ Forall2 flushed_to l1 bs.
Proof.
  revert s w. induction l as [|[p bw] l IH]; intros s w Hpar Hbk Hfl Hnd Hsave; cbn in Hsave.
  { cbv [mret GoM_ret] in Hsave. simplify_eq.
    split; [by exists w'; split; [|split; [apply grows_refl|]]|]. do 2 (split; [done|]).
    exists [], []. by rewrite app_nil_r. }
  rewrite GoM_bind_eq in Hsave. apply Forall_cons in Hfl as [Hx Hfl]. apply NoDup_cons in Hnd as [Hni Hnd].
  destruct (bw_save bw w) as [[[b|e1] w1]|] eqn:E; [| |done].
  - apply (save_step s w p) in E as (Hbk1 & Hpt & Hid & Hlog & Hg); [|done..].
    apply IH in Hsave as (Hw & Hp' & Hn' & bs & l1 & Hbs & Hpre & Hl1 & Hall); [|by destruct Hpar|done| |done].
    + split; [done|]. do 2 (split; [done|]). exists (b :: bs), ((p, bw) :: l1).
      split; [by rewrite Hbs; cbn; rewrite <- app_assoc|]. split; [by apply prefix_cons|].
      split; [intros He; by rewrite Hl1|by constructor].
    + eapply flushable_append; [done|by rewrite Hid|done].
  - cbv [mret GoM_ret] in Hsave. simplify_eq.
    split; [exists w; split; [done|]; split; [by eapply bw_save_grows|done]|]. do 2 (split; [done|]).
    exists [], []. rewrite app_nil_r. split; [done|]. split; [by eexists|done].
Qed.

Lemma range_flushable s w :
  new_ok s w -> writers_ok s ->
  Forall (flushable s w) (range (newBlocks s)) ∧ NoDup ((λ x, bw_id x.2) <$> range (newBlocks s)).
Proof.
  intros [Hm Hinj] Hw. split.
  - rewrite range_perm. apply Forall_forall. intros [p bw] Hin%elem_of_map_to_list.
    split; [by apply Hm|by apply Hw].
  - rewrite range_perm. apply NoDup_fmap_2_strong; [|apply NoDup_map_to_list].
    intros [p bw] [q bq] Hx%elem_of_map_to_list Hy%elem_of_map_to_list Heq. cbn in Heq.
    assert (p = q) as -> by by eapply Hinj. congruence.
Qed.

(** Writing the manifest keeps the saved blocks. *)
Lemma blocks_ok_manifest s w j e d :
  params_ok s -> blocks_ok s w -> os_WriteFile (manifest_path (bs_path s)) j (w_fs w) = (e, d) ->
  blocks_ok s (World d (w_pools w) (w_open w) (w_next w)).
Proof.
  intros Hpar [Hs Hm Hpl] Hw. split; [|done..]. intros b Hb.
  apply (saved_ok_mono _ w); [by split|intros _|by apply Hs].
  apply os_WriteFile_frame in Hw. apply Hw. unfold block_path, manifest_path. intros Heq.
  destruct (sv_id _ _ _ (Hs b Hb)) as (n & _ & Hid). rewrite Hid in Heq.
  apply path_Join_inj in Heq; [done|apply Hpar|apply block_name_plain|done].
Qed.

(** What a [Save] does to the blocks, on every outcome. *)
Lemma Save_spec s sel w s' e w' :
  params_ok s -> blocks_ok s w -> new_ok s w -> writers_ok s ->
  Save s sel w = Some ((s', e), w') ->
  (∃ w1, blocks_ok s' w1 ∧ grows w1 w' ∧ (e = None -> w1 = w'))
  ∧ bs_path s' = bs_path s ∧ bs_numPartitions s' = bs_numPartitions s
  ∧ (∃ bs l1, Blocks s' = (Blocks s ++ bs)%list ∧ l1 `prefix_of` range (newBlocks s)
     ∧ (e = None -> l1 = range (newBlocks s)) ∧ Forall2 flushed_to l1 bs)
  ∧ (e = None -> newBlocks s' = ∅
     ∧ file_json (w_fs w') (manifest_path (bs_path s')) = Some (marshal_Manifest (store_manifest s' sel))).
Proof.
  intros Hpar Hbk Hnk Hw Hsave. unfold Save in Hsave. rewrite GoM_bind_eq in Hsave.
  destruct (save_blocks _ _ _) as [[[s1 e1] w1]|] eqn:E; [|done].
  destruct (range_flushable s w Hnk Hw) as [Hfl Hnd].
  apply save_blocks_spec in E as ((w2 & Hbk2 & Hg & Heq) & Hp1 & Hn1 & Hbs); [|done..].
  destruct e1 as [e1|].
  { cbv [mret GoM_ret] in Hsave. simplify_eq. split; [by exists w2|]. do 2 (split; [done|]). by split. }
  rewrite Heq in Hbk2 by done. clear w2 Hg Heq. rewrite GoM_bind_eq in Hsave. unfold on_disk in Hsave.
  destruct (writeManifest _ _ _) as [e0 d] eqn:Ew. cbv [mret GoM_ret] in Hsave. simplify_eq.
  apply (blocks_ok_same _ (with_newBlocks s1 ∅)) in Hbk2; [|done].
  unfold writeManifest in Ew.
  pose proof Ew as Hbk3. apply (blocks_ok_manifest (with_newBlocks s1 ∅)) in Hbk3;
    [|destruct Hpar; split; cbn; congruence|done].
  split; [by eexists; split; [exact Hbk3|split; [apply grows_refl|]]|]. do 2 (split; [done|]).
  split; [destruct Hbs as (bs & l1 & Hb & Hpre & Hl1 & Hall); exists bs, l1; by rewrite (Hl1 eq_refl) in *|].
  intros ->. split; [done|]. by apply os_WriteFile_ok in Ew.
Qed.

(** A successful [Save] turns every new block into a saved one. *)
Lemma Save_ok s sel w s' w' :
  params_ok s -> blocks_ok s w -> new_ok s w -> writers_ok s ->
  Save s sel w = Some ((s', None), w') ->
  blocks_ok s' w' ∧ newBlocks s' = ∅ ∧ bs_path s' = bs_path s
  ∧ bs_numPartitions s' = bs_numPartitions s
  ∧ (∃ bs, Blocks s' = (Blocks s ++ bs)%list ∧ Forall2 flushed_to (range (newBlocks s)) bs)
  ∧ file_json (w_fs w') (manifest_path (bs_path s')) = Some (marshal_Manifest (store_manifest s' sel)).
Proof.
  intros Hpar Hbk Hnk Hw Hsave.
  apply Save_spec in Hsave as ((w1 & Hbk1 & _ & Heq) & Hp & Hn & (bs & l1 & Hbs & _ & Hl1 & Hall) & Hend);
    [|done..].
  rewrite Heq in Hbk1 by done. rewrite Hl1 in Hall by done. destruct (Hend eq_refl). naive_solver.
Qed.

(** *** Looking up *)

(** An error of sparkey's that a lookup passed on. *)
Definition library_error (key : string) (e : error) : Prop :=
  (∃ r e', Iterator r = Err e' ∧ e = Errorf "opening block iter" e')
  ∨ (∃ it, (Seek it key).2 = Some e).

Definition lacks (key : string) (b : Block) : Prop := log_map (block_log b) !! key = None.

Definition pool_of (b : Block) : nat := ip_Pool (b_iterPool b).

(** Reads change only the contents of the pools of the blocks they visit. *)
Record reads (ps : list nat) (w w' : world) : Prop := {
  rd_fs : w_fs w' = w_fs w;
  rd_next : w_next w' = w_next w;
  rd_pools : ∀ q, q ∉ ps -> w_pools w' !! q = w_pools w !! q;
}.

Lemma block_ok_reads ps w w' b : reads ps w w' -> pool_of b ∉ ps -> block_ok w b -> block_ok w' b.
Proof. intros [_ _ Hp] Hn [? Hpool ?]. split; try done. unfold pool_ok. by rewrite Hp. Qed.

Lemma get_loop_spec l key w r w' :
  (∀ b, b ∈ l -> block_ok w b) -> NoDup (pool_of <$> l) ->
  get_loop l key w = Some (r, w') ->
  reads (pool_of <$> l) w w' ∧ (∀ b, b ∈ l -> block_ok w' b)
  ∧ match r with
    | Ok (Some rec) =>
        ∃ l1 b l2, l = (l1 ++ b :: l2)%list ∧ Forall (lacks key) l1
        ∧ log_map (block_log b) !! key = Some (Record_value rec)
        ∧ r_ValueLen rec = Z.of_nat (String.length (Record_value rec)) ∧ of_block b rec
    | Ok None => Forall (lacks key) l
    | Err e => library_error key e
    end.
Proof.
  revert w. induction l as [|b l IH]; intros w Hok Hnd Hget; cbn in Hget.
  { cbv [mret GoM_ret] in Hget. simplify_eq. split; [by split|].
    split; [by intros ? ?%not_elem_of_nil|by constructor]. }
  rewrite GoM_bind_eq in Hget. cbn in Hnd. apply NoDup_cons in Hnd as [Hni Hnd].
  destruct (Block_Get b key w) as [[rb w1]|] eqn:E; [|done].
  apply Block_Get_spec in E as ([Hfs _ Hnx Hpl] & Hb1 & Hres); [|apply Hok; set_solver].
  assert (reads [pool_of b] w w1) as Hrd by (split; [done..|]; intros q Hq; apply Hpl; set_solver).
  assert (∀ b', b' ∈ l -> block_ok w1 b') as Hok1.
  { intros b' Hb'. eapply block_ok_reads; [done| |apply Hok; set_solver].
    intros Heq%list_elem_of_singleton. apply Hni. rewrite <- Heq. by apply list_elem_of_fmap_2. }
  destruct rb as [[rec|]|e]; cbv [mret GoM_ret] in Hget.
  - simplify_eq. split; [destruct Hrd as [? ? Hp]; split; try done; intros q Hq; apply Hp; set_solver|].
    split; [intros b' [->|?]%elem_of_cons; auto|].
    exists [], b, l. cbn in Hres. destruct Hres as (? & ? & ? & ?). by split_and!.
  - apply IH in Hget as (Hrd' & Hok' & Hres'); [|done..]. split; [|split].
    + destruct Hrd as [? ? Hp], Hrd' as [? ? Hp']. split; try congruence.
      intros q [Hq1 Hq2]%not_elem_of_cons. rewrite Hp' by done. apply Hp. set_solver.
    + intros b' [->|?]%elem_of_cons; [|auto]. eapply block_ok_reads; done.
    + destruct r as [[rec|]|e]; [|by constructor|done].
      destruct Hres' as (l1 & b0 & l2 & -> & ? & ?). exists (b :: l1), b0, l2.
      split; [done|]. split; [by constructor|done].
  - simplify_eq. split; [destruct Hrd as [? ? Hp]; split; try done; intros q Hq; apply Hp; set_solver|].
    split; [intros b' [->|?]%elem_of_cons; auto|].
    cbn in Hres. destruct Hres as [(e' & ? & ?)|?]; [left; eauto|by right].
Qed.

(** The blocks [Get] visits for a partition. *)
Definition part_blocks (s : BlockStore) (p : Z) : list Block := filter (λ b, b_Partition b = p) (Blocks s).

Lemma BlockMap_default s w p : blocks_ok s w -> default [] (BlockMap s !! p) = part_blocks s p.
Proof. intros [_ Hm _]. rewrite Hm. unfold part_blocks. by destruct (filter _ _). Qed.

Lemma BlockMap_None s w p : blocks_ok s w -> BlockMap s !! p = None <-> part_blocks s p = [].
Proof. intros [_ Hm _]. rewrite Hm. unfold part_blocks. by destruct (filter _ _). Qed.

Lemma get_loop_part s w key p r w' :
  blocks_ok s w -> get_loop (part_blocks s p) key w = Some (r, w') ->
  blocks_ok s w'
  ∧ match r with
    | Ok (Some rec) => ∃ b, b ∈ Blocks s ∧ log_map (block_log b) !! key = Some (Record_value rec)
                            ∧ r_ValueLen rec = Z.of_nat (String.length (Record_value rec)) ∧ of_block b rec
    | Ok None => ∀ b, b ∈ Blocks s -> b_Partition b = p -> lacks key b
    | Err e => library_error key e
    end.
Proof.
  intros Hbk Hget. destruct Hbk as [Hs Hm Hpl] eqn:E. clear E.
  assert (∀ b, b ∈ part_blocks s p <-> b_Partition b = p ∧ b ∈ Blocks s) as Hin
    by (intros; unfold part_blocks; by rewrite list_elem_of_filter).
  apply get_loop_spec in Hget as (Hrd & Hok & Hres).
  2:{ intros b Hb. apply Hin in Hb as [_ Hb]. by eapply sv_block, Hs. }
  2:{ by apply NoDup_fmap_filter. }
  split.
  - split; [|done..]. intros b Hb. destruct (Hs b Hb) as [Hbok ? ? ? ? ? ?].
    destruct Hrd as [Hf Hn Hp]. split; rewrite ?Hf, ?Hn; try done.
    destruct (decide (b_Partition b = p)); [by apply Hok, Hin|].
    eapply block_ok_reads; [by split| |done].
    intros (b' & Heq & Hb')%list_elem_of_fmap. apply Hin in Hb' as [Hp' Hb'].
    apply list_elem_of_lookup in Hb as [i Hi], Hb' as [j Hj].
    assert (i = j) as ->.
    { eapply NoDup_lookup; [exact Hpl|rewrite list_lookup_fmap, Hi; done|].
      rewrite list_lookup_fmap, Hj. cbn. f_equal. done. }
    congruence.
  - destruct r as [[rec|]|e]; [| |done].
    + destruct Hres as (l1 & b & l2 & Hl & _ & ? & ?). exists b. split; [|done].
      apply Hin. rewrite Hl. set_solver.
    + rewrite Forall_forall in Hres. intros b Hb Hp. by apply Hres, Hin.
Qed.

(** A block of another partition cannot have the key. *)
Lemma other_partition_lacks s w key p a b :
  blocks_ok s w -> KeyPartition key (bs_numPartitions s) = Some (p, a) ->
  b ∈ Blocks s -> b_Partition b ≠ p -> lacks key b.
Proof.
  intros [Hs _ _] HK Hb Hne. unfold lacks. destruct (log_map _ !! key) as [v|] eqn:E; [|done].
  apply log_map_dom in E. apply (sv_hashed _ _ _ (Hs b Hb)) in E as (a' & HK'). congruence.
Qed.

(** [Get] finds a key exactly when some saved block has it. *)
Lemma Get_spec s w key r w' :
  blocks_ok s w -> Get s key w = Some (r, w') ->
  blocks_ok s w'
  ∧ match r with
    | Ok (Some rec) => ∃ b, b ∈ Blocks s ∧ log_map (block_log b) !! key = Some (Record_value rec)
                            ∧ r_ValueLen rec = Z.of_nat (String.length (Record_value rec)) ∧ of_block b rec
    | Ok None => ∀ b, b ∈ Blocks s -> lacks key b
    | Err e => library_error key e
               ∨ (e = ErrPartitionNotFound ∧ ∃ p a, KeyPartition key (bs_numPartitions s) = Some (p, a)
                  ∧ ∀ b, b ∈ Blocks s -> b_Partition b ≠ p ∧ b_Partition b ≠ a ∧ lacks key b)
    end.
Proof.
  intros Hbk Hget. unfold Get in Hget. rewrite GoM_bind_eq in Hget. unfold keyPartition in Hget.
  destruct (KeyPartition key _) as [[p a]|] eqn:EK; [|done]. cbn in Hget.
  rewrite !(BlockMap_default s w) in Hget by done.
  destruct (bool_decide (BlockMap s !! p = None) && _) eqn:Enone; cbv [mret GoM_ret] in Hget.
  { simplify_eq. split; [done|]. right. split; [done|]. exists p, a. split; [done|].
    apply andb_true_iff in Enone as [Hp Ha].
    apply bool_decide_eq_true in Hp, Ha. apply (BlockMap_None s w') in Hp, Ha; [|done..].
    intros b Hb. assert (b_Partition b ≠ p) as Hne.
    { intros Heq. eapply (filter_nil_not_elem_of (λ b, b_Partition b = p)); [exact Hp|exact Heq|done]. }
    split; [done|]. split; [|by eapply other_partition_lacks].
    intros Heq. eapply (filter_nil_not_elem_of (λ b, b_Partition b = a)); [exact Ha|exact Heq|done]. }
  rewrite GoM_bind_eq in Hget.
  destruct (get_loop (part_blocks s p) key w) as [[r1 w1]|] eqn:E1; [|done].
  apply get_loop_part in E1 as [Hbk1 Hres1]; [|done].
  destruct r1 as [[rec|]|e]; cbv [mret GoM_ret] in Hget; [by simplify_eq| |simplify_eq; split; [done|by left]].
  assert (∀ b, b ∈ Blocks s -> lacks key b) as Hall.
  { intros b Hb. destruct (decide (b_Partition b = p)); [by apply Hres1|by eapply other_partition_lacks]. }
  destruct (bool_decide (a ≠ p)) eqn:Ea; [|by simplify_eq].
  apply get_loop_part in Hget as [Hbk2 Hres2]; [|done]. split; [done|].
  destruct r as [[rec|]|e]; [done|done|by left].
Qed.

Lemma get_loop_frame l key w r w' :
  get_loop l key w = Some (r, w') -> w_fs w' = w_fs w ∧ w_next w' = w_next w.
Proof.
  revert w. induction l as [|b l IH]; intros w Hget; cbn in Hget.
  { cbv [mret GoM_ret] in Hget. by simplify_eq. }
  rewrite GoM_bind_eq in Hget. destruct (Block_Get b key w) as [[rb w1]|] eqn:E; [|done].
  assert (w_fs w1 = w_fs w ∧ w_next w1 = w_next w) as [Hf Hn].
  { unfold Block_Get, Block_get, getIter, Pool_get, Pool_put, mbind, GoM_bind, mret, GoM_ret in E.
    repeat case_match; by simplify_eq. }
  destruct rb as [[rec|]|e]; cbv [mret GoM_ret] in Hget; [by simplify_eq| |by simplify_eq].
  apply IH in Hget as [? ?]. split; congruence.
Qed.

Lemma Get_frame s key w r w' :
  Get s key w = Some (r, w') -> w_fs w' = w_fs w ∧ w_next w' = w_next w.
Proof.
  intros Hget. unfold Get in Hget. rewrite GoM_bind_eq in Hget. unfold keyPartition in Hget.
  destruct (KeyPartition key _) as [[p a]|]; [|done]. cbn in Hget.
  case_match; [cbv [mret GoM_ret] in Hget; by simplify_eq|]. rewrite GoM_bind_eq in Hget.
  destruct (get_loop _ key w) as [[r1 w1]|] eqn:E1; [|done]. apply get_loop_frame in E1 as [? ?].
  destruct r1 as [[rec|]|e]; cbv [mret GoM_ret] in Hget; [by simplify_eq| |by simplify_eq].
  case_match; [|by simplify_eq]. apply get_loop_frame in Hget as [? ?]. split; congruence.
Qed.

Lemma get_loop_total l key w : ∃ r w', get_loop l key w = Some (r, w').
Proof.
  revert w. induction l as [|b l IH]; intros w; cbn; [by eexists _, _|].
  rewrite GoM_bind_eq. destruct (Block_Get_total b key w) as (r & w' & ->).
  destruct r as [[rec|]|e]; [by eexists _, _|apply IH|by eexists _, _].
Qed.

Lemma Get_total s key w : params_ok s -> ∃ r w', Get s key w = Some (r, w').
Proof.
  intros [Hn _]. unfold Get. rewrite GoM_bind_eq. unfold keyPartition.
  rewrite KeyPartition_normal by done. cbn.
  match goal with |- context [bool_decide (_ = None) && ?b] => destruct (bool_decide _ && b) end;
    [by eexists _, _|]. rewrite GoM_bind_eq.
  destruct (get_loop_total (default [] (BlockMap s !! hadoop_partition (hashCode key) (bs_numPartitions s))) key w)
    as (r & w' & ->).
  destruct r as [[rec|]|e]; [by eexists _, _| |by eexists _, _].
  case_match; [apply get_loop_total|by eexists _, _].
Qed.

(** *** Reverting *)

Lemma close_delete_step s w p bw w' :
  params_ok s -> blocks_ok s w -> new_meta s w p bw ->
  (_ ← bw_close bw; bw_delete bw) w = Some (tt, w') ->
  blocks_ok s w' ∧ w_next w' = w_next w.
Proof.
  intros Hpar Hbk [Hpt Hr (n & Hn & Hid) Hpath Hwp Hfr] Hrun.
  unfold bw_close, bw_delete, on_disk in Hrun. rewrite !GoM_bind_eq in Hrun.
  destruct (LogWriter_Close _ _) as [e d] eqn:E. cbn in Hrun. simplify_eq. split; [|done].
  apply (blocks_ok_mono s w _ (bw_partition bw) (bw_id bw) n); try done.
  apply LogWriter_Close_frame in E. rewrite Hwp in E. rewrite <- Hpath. cbn.
  eapply untouched_trans; [exact E|apply os_Remove_frame].
Qed.

Lemma revert_blocks_ok l s w w' :
  params_ok s -> blocks_ok s w -> Forall (λ x, new_meta s w x.1 x.2) l ->
  revert_blocks l w = Some (tt, w') -> blocks_ok s w' ∧ w_next w' = w_next w.
Proof.
  revert w. induction l as [|[p bw] l IH]; intros w Hpar Hbk Hm Hrev; cbn in Hrev.
  { cbv [mret GoM_ret] in Hrev. by simplify_eq. }
  apply Forall_cons in Hm as [Hm Hml].
  assert (∃ w1, (_ ← bw_close bw; bw_delete bw) w = Some (tt, w1) ∧ revert_blocks l w1 = Some (tt, w'))
    as (w1 & H1 & H2).
  { rewrite GoM_bind_eq in Hrev |- *. destruct (bw_close bw w) as [[[] wc]|]; [|done].
    rewrite GoM_bind_eq in Hrev. destruct (bw_delete bw wc) as [[[] wd]|]; [|done].
    by exists wd. }
  apply (close_delete_step s _ p) in H1 as [Hbk1 Hn1]; [|done..].
  apply IH in H2 as [? ?]; [split; [done|congruence]|done|done|].
  eapply Forall_impl; [exact Hml|]. intros x. apply new_meta_same; [done|lia].
Qed.

(** [Revert] drops the new blocks and leaves the saved ones readable. *)
Lemma Revert_ok s w s' w' :
  params_ok s -> blocks_ok s w -> new_ok s w -> Revert s w = Some (s', w') ->
  s' = with_newBlocks s ∅ ∧ blocks_ok s' w' ∧ w_next w' = w_next w.
Proof.
  intros Hpar Hbk [Hm _] Hrev. unfold Revert in Hrev. rewrite GoM_bind_eq in Hrev.
  destruct (revert_blocks _ w) as [[[] w1]|] eqn:E; [|done]. cbv [mret GoM_ret] in Hrev. simplify_eq.
  apply (revert_blocks_ok _ s) in E as [? ?]; [|done|done|].
  - split; [done|]. split; [by apply (blocks_ok_same s)|done].
  - rewrite range_perm. apply Forall_forall. intros [p bw] Hin%elem_of_map_to_list. by apply Hm.
Qed.

Lemma Revert_total s w : ∃ s' w', Revert s w = Some (s', w').
Proof.
  unfold Revert. rewrite GoM_bind_eq.
  assert (∀ l w, ∃ w', revert_blocks l w = Some (tt, w')) as H.
  { induction l as [|[p bw] l IH]; intros v; cbn; [by eexists|].
    unfold bw_close, bw_delete, on_disk. rewrite !GoM_bind_eq.
    destruct (LogWriter_Close _ _) as [e d]. cbn. apply IH. }
  destruct (H (range (newBlocks s)) w) as [w' ->]. by eexists _, _.
Qed.

(** *** Loading *)

(** A manifest entry whose file is on disk with the log [l]. *)
Record loadable (s : BlockStore) (w : world) (m : BlockManifest) (l : log) : Prop := {
  ld_file : file_log (w_fs w) (block_path s (bm_Partition m) (bm_ID m)) = Some l;
  ld_bounds : bounds_ok (bm_MinKey m) (bm_MaxKey m) l;
  ld_hashed : hashed (bs_numPartitions s) l (bm_Partition m);
  ld_part : (0 <= bm_Partition m < bs_numPartitions s)%Z;
  ld_name : bm_Name m = block_name (bm_Partition m) (bm_ID m);
  ld_id : ∃ n, (n < w_next w)%nat ∧ bm_ID m = uuid_New n;
}.

Lemma saved_loadable s w b :
  torn = false -> saved_ok s w b -> loadable s w (Block_manifest b) (block_log b).
Proof. intros Ht [[] ? ? ? ? ? ?]. split; auto. Qed.

Lemma loadable_mono s s' w w' m l :
  bs_path s' = bs_path s -> bs_numPartitions s' = bs_numPartitions s ->
  w_fs w' = w_fs w -> (w_next w <= w_next w')%nat -> loadable s w m l -> loadable s' w' m l.
Proof.
  intros Hp Hn Hf Hle [Hfile ? ? ? ? (n & ? & ?)].
  split; rewrite ?Hn; try done; [|exists n; split; [lia|done]].
  unfold block_path in *. by rewrite Hf, Hp.
Qed.

Lemma blocks_ok_grow s w w' : blocks_ok s w -> grows w w' -> w_fs w' = w_fs w -> blocks_ok s w'.
Proof.
  intros [Hs Hm Hpl] Hg Hf. split; [|done..]. intros b Hb.
  apply (saved_ok_mono _ w); [done|intros _; by rewrite Hf|by apply Hs].
Qed.

Lemma load_blocks_ok ms ls s w s' w' :
  blocks_ok s w -> Forall2 (loadable s w) ms ls ->
  load_blocks (bs_path s) ms s w = Some (Ok s', w') ->
  blocks_ok s' w' ∧ w_fs w' = w_fs w ∧ grows w w'
  ∧ bs_path s' = bs_path s ∧ bs_numPartitions s' = bs_numPartitions s
  ∧ bs_compression s' = bs_compression s ∧ bs_blockSize s' = bs_blockSize s
  ∧ newBlocks s' = newBlocks s
  ∧ ∃ bs, Blocks s' = (Blocks s ++ bs)%list ∧ Block_manifest <$> bs = ms ∧ block_log <$> bs = ls.
Proof.
  intros Hbk Hall. revert s w Hbk Hall. revert ls.
  induction ms as [|m ms IH]; intros ls s w Hbk Hall Hload; cbn in Hload.
  { cbv [mret GoM_ret] in Hload. simplify_eq. inv Hall. do 8 (split; [done|]).
    exists []. by rewrite app_nil_r. }
  apply Forall2_cons_inv_l in Hall as (l & ls' & Hm & Hall & ->). rewrite GoM_bind_eq in Hload.
  destruct (loadBlock _ _ _) as [[[b|e] w1]|] eqn:E; [|done..].
  apply (loadBlock_ok _ _ _ _ _ l) in E as (Hb & Hlog & Hmb & Hfs & Hal);
    [|by rewrite (ld_name _ _ _ _ Hm); apply Hm|apply Hm].
  pose proof (alloc_grows _ _ _ Hal) as Hg. subst m. cbn in Hload.
  assert (saved_ok s w1 b) as Hsv.
  { eapply (loadable_mono s s w w1) in Hm; [|done|done|done|by destruct Hg].
    destruct Hm. split; try done; [by rewrite Hlog| by rewrite Hlog|apply Hal]. }
  destruct (IH ls' (append_block s (b_Partition b) b) w1)
    as (Hbk' & Hfs' & Hg' & Hp & Hn & Hc & Hsz & Hnb & bs & Hbs & Hms & Hls); [| |exact Hload|].
  - apply blocks_ok_append; [by eapply blocks_ok_grow|done|].
    intros b' Hb'. pose proof (sv_pool _ _ _ (bk_saved _ _ Hbk b' Hb')).
    pose proof (as_old _ _ _ Hal). lia.
  - eapply Forall2_impl; [done|]. intros m l'. apply loadable_mono; [done..|]. by destruct Hg.
  - split; [done|]. split; [congruence|]. split; [by eapply grows_trans|].
    do 5 (split; [done|]). exists (b :: bs). rewrite Hbs. cbn. rewrite <- app_assoc.
    split; [done|]. by rewrite Hms, Hls, Hlog.
Qed.

Lemma New_ok path n c sz w : blocks_ok (New path n c sz) w ∧ new_ok (New path n c sz) w ∧ writers_ok (New path n c sz).
Proof.
  split; [split; cbn; [by intros ? ?%not_elem_of_nil|done|constructor]|].
  split; [split; [apply map_Forall_empty|done]|apply map_Forall_empty].
Qed.

(** *** The manifest file is touched by [Save] only *)

Lemma manifest_untouched s p n d d' :
  params_ok s -> untouched (block_path s p (uuid_New n)) d d' ->
  file_json d' (manifest_path (bs_path s)) = file_json d (manifest_path (bs_path s)).
Proof.
  intros Hpar Hu. apply Hu. intros Heq.
  apply path_Join_inj in Heq; [done|apply Hpar|done|apply block_name_plain].
Qed.

Lemma Add_manifest s k v w s' e w' :
  params_ok s -> Add s k v w = Some ((s', e), w') ->
  file_json (w_fs w') (manifest_path (bs_path s)) = file_json (w_fs w) (manifest_path (bs_path s)).
Proof.
  intros Hpar Hadd. unfold Add in Hadd. rewrite GoM_bind_eq in Hadd. unfold keyPartition in Hadd.
  destruct (KeyPartition k _) as [[p a]|]; [|done]. cbn in Hadd. rewrite GoM_bind_eq in Hadd.
  destruct (newBlocks s !! p) as [bw|]; cbv [mret GoM_ret] in Hadd.
  { destruct (bw_add bw k v). by simplify_eq. }
  destruct (newBlock _ _ _ _ _) as [[r w1]|] eqn:E; [|done].
  apply newBlock_step in E as (_ & _ & Hu).
  assert (w1 = w') as -> by (repeat case_match; by simplify_eq).
  by eapply manifest_untouched.
Qed.

Lemma adds_manifest l s w s' e w' :
  params_ok s -> adds s l w = Some ((s', e), w') ->
  file_json (w_fs w') (manifest_path (bs_path s)) = file_json (w_fs w) (manifest_path (bs_path s)).
Proof.
  revert s w. induction l as [|[k v] l IH]; intros s w Hpar H; cbn in H.
  { cbv [mret GoM_ret] in H. by simplify_eq. }
  rewrite GoM_bind_eq in H. destruct (Add s k v w) as [[[s1 e1] w1]|] eqn:E; [|done].
  assert (bs_path s1 = bs_path s ∧ bs_numPartitions s1 = bs_numPartitions s) as [Hp Hn].
  { clear -E. unfold Add, keyPartition, mbind, GoM_bind, mret, GoM_ret in E.
    repeat case_match; by simplify_eq. }
  apply Add_manifest in E; [|done]. destruct e1 as [e1|].
  - cbv [mret GoM_ret] in H. by simplify_eq.
  - apply IH in H; [|destruct Hpar; split; congruence]. rewrite Hp in H. congruence.
Qed.

Lemma revert_blocks_manifest l s w w' :
  params_ok s -> Forall (λ x, new_meta s w x.1 x.2) l -> revert_blocks l w = Some (tt, w') ->
  file_json (w_fs w') (manifest_path (bs_path s)) = file_json (w_fs w) (manifest_path (bs_path s)).
Proof.
  intros Hpar. revert w. induction l as [|[p bw] l IH]; intros w Hm Hrev; cbn in Hrev.
  { cbv [mret GoM_ret] in Hrev. by simplify_eq. }
  apply Forall_cons in Hm as [[? ? (n & ? & Hid) Hpath Hwp ?] Hml]. cbn in *.
  unfold bw_close, bw_delete, on_disk in Hrev. rewrite !GoM_bind_eq in Hrev.
  destruct (LogWriter_Close _ _) as [e d] eqn:E. cbn in Hrev.
  apply IH in Hrev.
  - rewrite Hrev. cbn. apply LogWriter_Close_frame in E. rewrite Hwp, Hpath, Hid in E.
    rewrite <- (manifest_untouched s p n _ _ Hpar E). apply (manifest_untouched s p n); [done|].
    rewrite Hpath, Hid. apply os_Remove_frame.
  - eapply Forall_impl; [exact Hml|]. intros x. by apply new_meta_same.
Qed.

Lemma Revert_manifest s w s' w' :
  params_ok s -> new_ok s w -> Revert s w = Some (s', w') ->
  file_json (w_fs w') (manifest_path (bs_path s)) = file_json (w_fs w) (manifest_path (bs_path s)).
Proof.
  intros Hpar [Hm _] Hrev. unfold Revert in Hrev. rewrite GoM_bind_eq in Hrev.
  destruct (revert_blocks _ w) as [[[] w1]|] eqn:E; [|done]. cbv [mret GoM_ret] in Hrev. simplify_eq.
  eapply revert_blocks_manifest; [done| |exact E].
  rewrite range_perm. apply Forall_forall. intros [p bw] Hin%elem_of_map_to_list. by apply Hm.
Qed.
End BlockStore_props.

(** ** The abstract store

    What a user of the package may rely on: the records added since the last
    [Save] or [Revert], the records saved, whether a restart finds all of
    them, and whether a [Save] has failed. *)

Record abs := Abs { pending : log; saved : log; persisted : bool; failed : bool }.

(** The records of some partitions. *)
Definition in_parts (n : Z) (ps : list Z) (kv : string * string) : Prop := Exists (λ p, in_part n p kv) ps.

#[global] Instance in_parts_dec n ps kv : Decision (in_parts n ps kv).
Proof. unfold in_parts. apply _. Defined.

Section Refinement.
Context {D : Disk} {L : DiskLaws D} {SP : SyncPool HashIter} {U : Uuid} {MO : MapOrder Z}.

(** The partitions whose blocks a call of [Save] appended. *)
Definition appended (s s' : BlockStore) : list Z := b_Partition <$> drop (length (Blocks s)) (Blocks s').

(** One call of the store's operations, with its effect on the abstract
    store.  A failed [Add] or [Save] is followed by [Revert], as in
    [version.build].  A failed [Save] keeps, of the records that were pending,
    those of the blocks it had flushed; the manifest on disk and the files are
    then not relied upon any more.  A restart reads the manifest back and
    loses what was not saved. *)
Inductive store_step : BlockStore * world * abs -> BlockStore * world * abs -> Prop :=
  | st_add s w a k v s' w' :
      Add s k v w = Some ((s', None), w') ->
      store_step (s, w, a) (s', w', Abs (pending a ++ [(k, v)])%list (saved a) (persisted a) (failed a))
  | st_add_fail s w a k v s1 e w1 s' w' :
      Add s k v w = Some ((s1, Some e), w1) -> Revert s1 w1 = Some (s', w') ->
      store_step (s, w, a) (s', w', Abs [] (saved a) (persisted a) (failed a))
  | st_revert s w a s' w' :
      Revert s w = Some (s', w') ->
      store_step (s, w, a) (s', w', Abs [] (saved a) (persisted a) (failed a))
  | st_save s w a sel s' w' :
      Save s sel w = Some ((s', None), w') ->
      store_step (s, w, a) (s', w', Abs [] (saved a ++ pending a)%list (negb (failed a)) (failed a))
  | st_save_fail s w a sel s1 e w1 s' w' :
      Save s sel w = Some ((s1, Some e), w1) -> Revert s1 w1 = Some (s', w') ->
      store_step (s, w, a)
        (s', w', Abs [] (saved a ++ filter (in_parts (bs_numPartitions s) (appended s s1)) (pending a))%list
                     false true)
  | st_get s w a key r w' :
      Get s key w = Some (r, w') -> store_step (s, w, a) (s, w', a)
  | st_reload s w a s' m w' :
      persisted a = true -> NewFromManifest (bs_path s) w = Some (Ok (s', m), w') ->
      store_step (s, w, a) (s', w', Abs [] (saved a) true false).

Record refines (s : BlockStore) (w : world) (a : abs) : Prop := {
  rf_params : params_ok s;
  rf_blocks : blocks_ok (torn := failed a) s w;
  rf_new : new_ok s w;
  rf_writers : writers_ok s;
  rf_pending : ∀ p, new_log s p = filter (in_part (bs_numPartitions s) p) (pending a);
  rf_saved : ∀ kv, kv ∈ saved a <-> ∃ b, b ∈ Blocks s ∧ kv ∈ block_log b;
  rf_manifest : persisted a = true -> failed a = false
    ∧ ∃ m, file_json (w_fs w) (manifest_path (bs_path s)) = Some (marshal_Manifest m)
    ∧ mf_Version m = manifestVersion ∧ mf_Blocks m = Some (Block_manifest <$> Blocks s)
    ∧ mf_NumPartitions m = bs_numPartitions s;
}.

Lemma refines_add s w a k v s' w' :
  refines s w a -> Add s k v w = Some ((s', None), w') ->
  refines s' w' (Abs (pending a ++ [(k, v)])%list (saved a) (persisted a) (failed a)).
Proof.
  intros [Hpar Hbk Hnk Hw Hpe Hsv Hmf] Hadd.
  pose proof (Add_spec _ _ _ _ _ _ _ Hpar Hbk Hnk Hadd) as ((Hp & Hn & Hb & Hm) & Hbk' & Hnk').
  pose proof (Add_manifest _ _ _ _ _ _ _ Hpar Hadd) as Hj.
  apply Add_log in Hadd as (p & a' & HK & Hw' & Hlp & Hlq); [|done].
  split; try done; cbn [pending saved persisted].
  - by apply (params_ok_same s).
  - intros q. rewrite filter_app, filter_cons, filter_nil, Hn, <- Hpe.
    destruct (decide (q = p)) as [->|Hne].
    + rewrite decide_True by (unfold in_part; cbn; by rewrite HK). done.
    + rewrite decide_False by (unfold in_part; cbn; rewrite HK; cbn; congruence).
      by rewrite app_nil_r, Hlq.
  - by rewrite Hb.
  - rewrite Hp, Hb, Hn, Hj. done.
Qed.

(** [Revert] in any state reached by calls of [Add], failed ones included. *)
Lemma refines_revert s w a s1 w1 s' w' :
  refines s w a -> same_blocks s s1 -> blocks_ok (torn := failed a) s1 w1 -> new_ok s1 w1 ->
  file_json (w_fs w1) (manifest_path (bs_path s)) = file_json (w_fs w) (manifest_path (bs_path s)) ->
  Revert s1 w1 = Some (s', w') -> refines s' w' (Abs [] (saved a) (persisted a) (failed a)).
Proof.
  intros [Hpar _ _ _ _ Hsv Hmf] Hsame Hbk Hnk Hj Hrev.
  assert (params_ok s1) as Hpar1 by by apply (params_ok_same s).
  pose proof (Revert_manifest _ _ _ _ Hpar1 Hnk Hrev) as Hj'.
  apply (Revert_ok (torn := failed a)) in Hrev as (-> & Hbk' & _); [|done..].
  destruct Hsame as (Hp & Hn & Hb & Hm).
  split; cbn; try done.
  - by apply (params_ok_same s1).
  - by rewrite Hb.
  - rewrite Hj', Hp, Hb, Hn, Hj. done.
Qed.

(** The records of the blocks that a [Save] appends: those that were pending
    for their partitions. *)
Lemma flushed_log s w a l1 bs kv :
  refines s w a -> l1 `prefix_of` range (newBlocks s) -> Forall2 flushed_to l1 bs ->
  (∃ b, b ∈ bs ∧ kv ∈ block_log b)
  <-> kv ∈ pending a ∧ in_parts (bs_numPartitions s) (b_Partition <$> bs) kv.
Proof.
  intros Hr [l2 Hpre] Hall.
  assert (∀ b, b ∈ bs -> block_log b = filter (in_part (bs_numPartitions s) (b_Partition b)) (pending a)) as Hlog.
  { intros b [i Hi]%list_elem_of_lookup.
    destruct (Forall2_lookup_r _ _ _ _ _ Hall Hi) as ([p bw] & Hx & Hp & Hlog). cbn in Hp, Hlog.
    apply list_elem_of_lookup_2 in Hx.
    assert ((p, bw) ∈ range (newBlocks s)) as Hin by (rewrite Hpre; apply elem_of_app; by left).
    rewrite range_perm in Hin. apply elem_of_map_to_list in Hin.
    pose proof (rf_pending _ _ _ Hr p) as Hlp. unfold new_log in Hlp. rewrite Hin in Hlp.
    by rewrite Hp, Hlog, Hlp. }
  unfold in_parts. rewrite Exists_fmap, Exists_exists. split.
  - intros (b & Hb & Hin). rewrite Hlog in Hin by done. apply list_elem_of_filter in Hin as [? ?].
    split; [done|]. by exists b.
  - intros (Hin & b & Hb & Hp). exists b. split; [done|]. rewrite Hlog by done. by apply list_elem_of_filter.
Qed.

(** Every pending record belongs to some new block. *)
Lemma pending_parts s w a kv :
  refines s w a -> kv ∈ pending a -> in_parts (bs_numPartitions s) (range (newBlocks s)).*1 kv.
Proof.
  intros Hr Hin. assert (∃ p, in_part (bs_numPartitions s) p kv) as [p Hp].
  { unfold in_part. destruct (rf_params _ _ _ Hr) as [Hn _]. rewrite KeyPartition_normal by done. by eexists. }
  apply Exists_exists. exists p. split; [|done].
  assert (kv ∈ new_log s p) as Hl by (rewrite (rf_pending _ _ _ Hr); by apply list_elem_of_filter).
  unfold new_log in Hl. destruct (newBlocks s !! p) as [bw|] eqn:E; [|by apply not_elem_of_nil in Hl].
  apply list_elem_of_fmap. exists (p, bw). split; [done|]. rewrite range_perm. by apply elem_of_map_to_list.
Qed.

Lemma flushed_parts l1 bs : Forall2 flushed_to l1 bs -> b_Partition <$> bs = l1.*1.
Proof. induction 1 as [|x b l1 bs [Hp _] _ IH]; [done|]. cbn. by rewrite Hp, IH. Qed.

Lemma refines_save s w a sel s' w' :
  refines s w a -> Save s sel w = Some ((s', None), w') ->
  refines s' w' (Abs [] (saved a ++ pending a)%list (negb (failed a)) (failed a)).
Proof.
  intros Hr Hsave. destruct Hr as [Hpar Hbk Hnk Hw Hpe Hsv Hmf] eqn:E. clear E.
  apply (Save_ok (torn := failed a)) in Hsave as (Hbk' & Hnb & Hp & Hn & (bs & Hbs & Hall) & Hj); [|done..].
  split; cbn [pending saved persisted failed].
  - destruct Hpar. split; congruence.
  - done.
  - split; rewrite Hnb; [apply map_Forall_empty|done].
  - unfold writers_ok. rewrite Hnb. apply map_Forall_empty.
  - intros p. unfold new_log. by rewrite Hnb.
  - intros kv. rewrite elem_of_app, Hsv, Hbs. setoid_rewrite elem_of_app.
    pose proof (flushed_log s w a _ bs kv Hr (reflexivity _) Hall) as Hfl.
    pose proof (pending_parts s w a kv Hr) as Hpp. rewrite (flushed_parts _ _ Hall) in Hfl. naive_solver.
  - intros Hf%negb_true_iff. split; [done|]. exists (store_manifest s' sel). by rewrite Hj.
Qed.

Lemma blocks_ok_torn t s w w' :
  grows w w' -> blocks_ok (torn := t) s w -> blocks_ok (torn := true) s w'.
Proof.
  intros Hg [Hs Hm Hpl]. split; [|done..]. intros b Hb. apply (saved_ok_mono _ w); [done..|].
  destruct (Hs b Hb). by split.
Qed.

Lemma Revert_grows s w s' w' : Revert s w = Some (s', w') -> s' = with_newBlocks s ∅ ∧ grows w w'.
Proof.
  unfold Revert. rewrite GoM_bind_eq. intros H. destruct (revert_blocks _ w) as [[[] w1]|] eqn:E; [|done].
  cbv [mret GoM_ret] in H. simplify_eq. split; [done|].
  revert E. generalize (range (newBlocks s)). intros l. revert w.
  induction l as [|[p bw] l IH]; intros w E; cbn in E.
  { cbv [mret GoM_ret] in E. simplify_eq. apply grows_refl. }
  unfold bw_close, bw_delete, on_disk in E. rewrite !GoM_bind_eq in E.
  destruct (LogWriter_Close _ _) as [e d]. cbn in E. apply IH in E as [? ?]. by split.
Qed.

Lemma refines_save_fail s w a sel s1 e w1 s' w' :
  refines s w a -> Save s sel w = Some ((s1, Some e), w1) -> Revert s1 w1 = Some (s', w') ->
  refines s' w'
    (Abs [] (saved a ++ filter (in_parts (bs_numPartitions s) (appended s s1)) (pending a))%list false true).
Proof.
  intros Hr Hsave [-> Hg]%Revert_grows. destruct Hr as [Hpar Hbk Hnk Hw Hpe Hsv Hmf] eqn:E. clear E.
  apply (Save_spec (torn := failed a)) in Hsave as ((w0 & Hbk0 & Hg0 & _) & Hp & Hn & (bs & l1 & Hbs & Hpre & _ & Hall) & _);
    [|done..].
  split; cbn [pending saved persisted failed]; try done.
  - destruct Hpar. split; cbn; congruence.
  - eapply (blocks_ok_same s1); [done|]. eapply blocks_ok_torn; [|done]. by eapply grows_trans.
  - intros kv. cbn. pose proof (flushed_log s w a l1 bs kv Hr Hpre Hall) as Hfl.
    unfold appended. rewrite Hbs, drop_app_length. rewrite elem_of_app, list_elem_of_filter, Hsv.
    setoid_rewrite elem_of_app. naive_solver.
Qed.

Lemma refines_get s w a key r w' :
  refines s w a -> Get s key w = Some (r, w') -> refines s w' a.
Proof.
  intros [Hpar Hbk Hnk Hw Hpe Hsv Hmf] Hget.
  assert (w_fs w' = w_fs w ∧ w_next w' = w_next w) as [Hf Hn].
  { by eapply Get_frame. }
  apply (Get_spec (torn := failed a)) in Hget as [Hbk' _]; [|done]. split; try done.
  - destruct Hnk as [Hm Hi]. split; [|done]. intros p bw Hp.
    eapply new_meta_same; [done| |by apply Hm]. lia.
  - by rewrite Hf.
Qed.

Lemma refines_reload s w a s' m w' :
  refines s w a -> persisted a = true -> NewFromManifest (bs_path s) w = Some (Ok (s', m), w') ->
  refines s' w' (Abs [] (saved a) true false)
  ∧ bs_numPartitions s' = bs_numPartitions s
  ∧ Block_manifest <$> Blocks s' = Block_manifest <$> Blocks s
  ∧ block_log <$> Blocks s' = block_log <$> Blocks s.
Proof.
  intros [Hpar Hbk Hnk Hw Hpe Hsv Hmf] Hper Hload.
  destruct (Hmf Hper) as (Hfl & m0 & Hj & Hv & Hmb & Hmn). rewrite Hfl in Hbk.
  unfold NewFromManifest in Hload. destruct (readManifest _ _) as [[m1|]|] eqn:Er; [|done..].
  unfold readManifest in Er. destruct (os_ReadFile _ _) as [j|] eqn:Ej; [|done].
  apply os_ReadFile_ok in Ej. rewrite Hj in Ej. simplify_eq. rewrite Manifest_roundtrip in Er.
  rewrite Hv in Er. cbn in Er. destruct (make_panics m0); [done|]. simplify_eq. cbn in Hload. rewrite Hmb, Hmn in Hload. cbn in Hload.
  destruct (load_blocks _ _ _ _) as [[[s1|] w1]|] eqn:El; [|done..]. simplify_eq.
  match type of El with load_blocks _ _ ?s0 _ = _ => set (s00 := s0) in El end.
  apply (load_blocks_ok (torn := false) _ (block_log <$> Blocks s) s00) in El
    as (Hbk' & Hfs & _ & Hp & Hn & _ & _ & Hnb & bs & Hbs & Hms & Hls).
  - cbn in Hbs. subst bs. split; [|done]. split; cbn [pending saved persisted failed].
    + destruct Hpar. split; rewrite ?Hp, ?Hn; done.
    + done.
    + split; rewrite Hnb; [apply map_Forall_empty|done].
    + unfold writers_ok. rewrite Hnb. apply map_Forall_empty.
    + intros p. unfold new_log. by rewrite Hnb.
    + intros kv. rewrite Hsv.
      assert (∀ bl : list Block, (∃ b, b ∈ bl ∧ kv ∈ block_log b)
                                 <-> ∃ l : log, l ∈ block_log <$> bl ∧ kv ∈ l) as Heq.
      { intros bl. setoid_rewrite list_elem_of_fmap. naive_solver. }
      by rewrite !Heq, Hls.
    + intros _. split; [done|]. exists m0. rewrite Hfs, Hp, Hn. cbn. rewrite Hms. done.
  - apply New_ok.
  - rewrite Forall2_fmap. apply Forall_Forall2_diag, Forall_forall. intros b Hb.
    apply (loadable_mono s _ w); [done..|]. apply (saved_loadable (torn := false)); [done|].
    by apply (bk_saved _ _ Hbk).
Qed.

Lemma refines_step c c' :
  store_step c c' -> refines c.1.1 c.1.2 c.2 -> refines c'.1.1 c'.1.2 c'.2.
Proof.
  intros [s w a k v s' w' H|s w a k v s1 e w1 s' w' H H'|s w a s' w' H|s w a sel s' w' H
         |s w a sel s1 e w1 s' w' H H'|s w a key r w' H|s w a s' m w' Hp H] Hr; cbn in *.
  - by eapply refines_add.
  - destruct Hr as [Hpar Hbk Hnk] eqn:E. clear E.
    pose proof (Add_spec (torn := failed a) _ _ _ _ _ _ _ Hpar Hbk Hnk H) as (? & ? & ?).
    eapply refines_revert; [exact Hr|done|done|done|by eapply Add_manifest|done].
  - destruct Hr as [Hpar Hbk Hnk] eqn:E. clear E. by eapply refines_revert.
  - by eapply refines_save.
  - by eapply refines_save_fail.
  - by eapply refines_get.
  - by eapply refines_reload.
Qed.

(** Every state reached from a new store refines its abstract store. *)
Lemma reachable_refines path n c sz w0 s w a :
  path ≠ "" -> (0 < n < 2 ^ 62)%Z ->
  rtc store_step (New path n c sz, w0, Abs [] [] false false) (s, w, a) -> refines s w a.
Proof.
  intros Hp Hn Hr.
  enough (∀ c1 c2, rtc store_step c1 c2 -> refines c1.1.1 c1.1.2 c1.2 -> refines c2.1.1 c2.1.2 c2.2) as H.
  { apply (H _ _ Hr). cbn. destruct (New_ok (torn := false) path n c sz w0) as (? & ? & ?).
    split; cbn; try done. intros kv. split; [by intros ?%not_elem_of_nil|].
    intros (b & ?%not_elem_of_nil & _). done. }
  clear. intros c1 c2. induction 1; [done|]. intros ?. by eauto using refines_step.
Qed.
End Refinement.

(** ** The theorems *)

Section Theorems.
Context {D : Disk} {L : DiskLaws D} {SP : SyncPool HashIter} {U : Uuid} {MO : MapOrder Z}.

Lemma not_saved s w a key :
  refines s w a -> (∀ b, b ∈ Blocks s -> lacks key b) -> key ∉ (saved a).*1.
Proof.
  intros Hr Hl ([k v] & -> & Hin)%list_elem_of_fmap. apply (rf_saved _ _ _ Hr) in Hin as (b & Hb & Hin).
  apply Hl in Hb. unfold lacks in Hb. cbn in Hb.
  assert (k ∈ (block_log b).*1) as [v' Hv']%log_map_elem by (apply list_elem_of_fmap; by exists (k, v)).
  congruence.
Qed.

(** C3: the block store refines the abstract store [abs]: in every state
    reached from a new store by calls of [Add], [Revert], [Save] and [Get] and
    by restarts, in any order, [Get] returns without a panic; the value it
    finds is one the abstract store holds as saved for that key; it answers
    "absent" or [ErrPartitionNotFound] only for keys the abstract store does
    not hold; any other error is sparkey's.  A successful [Save] moves all
    pending records to the saved ones.  A [Save] that fails is followed by
    [Revert], as in [version.build], and moves the pending records of the
    partitions it had flushed before the failure; from then on restarts are
    left out, since the files of those blocks are gone
    ([Revert_after_failed_Save]). *)
Theorem Get_refines path n c sz (w0 : world) s w a key :
  path ≠ "" -> (0 < n < 2 ^ 62)%Z ->
  rtc store_step (New path n c sz, w0, Abs [] [] false false) (s, w, a) ->
  ∃ r w', Get s key w = Some (r, w')
  ∧ match r with
    | Ok (Some rec) => (key, Record_value rec) ∈ saved a
                       ∧ r_ValueLen rec = Z.of_nat (String.length (Record_value rec))
    | Ok None => key ∉ (saved a).*1
    | Err e => library_error key e ∨ (e = ErrPartitionNotFound ∧ key ∉ (saved a).*1)
    end.
Proof.
  intros Hp Hn Hreach. apply reachable_refines in Hreach as Hr; [|done..].
  destruct (Get_total s key w (rf_params _ _ _ Hr)) as (r & w' & Hget).
  exists r, w'. split; [done|].
  apply (Get_spec (torn := failed a)) in Hget as [_ Hres]; [|apply Hr].
  destruct r as [[rec|]|e].
  - destruct Hres as (b & Hb & Hv & Hlen & _). split; [|done].
    apply (rf_saved _ _ _ Hr). exists b. split; [done|]. by apply log_map_in.
  - by eapply not_saved.
  - destruct Hres as [?|(-> & p & a' & _ & Hall)]; [by left|right]. split; [done|].
    eapply not_saved; [done|]. intros b Hb. by apply Hall.
Qed.

(** A saved store that holds the records [l]: one block, in the order of [l],
    for each partition that has a record. *)
Record holds (n : Z) (l : log) (s : BlockStore) (w : world) : Prop := {
  hd_params : params_ok s;
  hd_blocks : blocks_ok (torn := false) s w;
  hd_num : bs_numPartitions s = n;
  hd_log : ∀ b, b ∈ Blocks s -> block_log b = filter (in_part n (b_Partition b)) l;
  hd_all : ∀ kv p, kv ∈ l -> in_part n p kv -> ∃ b, b ∈ Blocks s ∧ b_Partition b = p;
}.

(** One run of [Add]s and one [Save] give such a store. *)
Lemma built_holds path n c sz (w0 : world) l s1 w1 sel s2 w2 :
  path ≠ "" -> (0 < n < 2 ^ 62)%Z ->
  adds (New path n c sz) l w0 = Some ((s1, None), w1) ->
  Save s1 sel w1 = Some ((s2, None), w2) ->
  holds n l s2 w2.
Proof.
  intros Hp Hn Hadds Hsave. destruct (New_ok (torn := false) path n c sz w0) as (Hbk0 & Hnk0 & Hw0).
  assert (params_ok (New path n c sz)) as Hpar0 by by split.
  pose proof (adds_spec (torn := false) _ _ _ _ _ _ Hpar0 Hbk0 Hnk0 Hadds) as (Hsame & Hbk1 & Hnk1).
  apply adds_log in Hadds as (Hw1 & Hn1 & Hlog1); [|done]. cbn in Hn1.
  assert (∀ p, new_log s1 p = filter (in_part n p) l) as Hl1 by (intros p; by rewrite Hlog1).
  assert (params_ok s1) as Hpar1 by by apply (params_ok_same _ _ Hsame).
  apply (Save_ok (torn := false)) in Hsave as (Hbk2 & _ & Hp2 & Hn2 & (bs & Hbs & Hall) & _); [|done..].
  destruct Hsame as (_ & _ & Hb1 & _). cbn in Hb1. rewrite Hb1 in Hbs. cbn in Hbs.
  split; [destruct Hpar1; split; congruence|done|congruence|rewrite Hbs..].
  - intros b [i Hi]%list_elem_of_lookup.
    destruct (Forall2_lookup_r _ _ _ _ _ Hall Hi) as ([q bw] & Hx & Hq & Hlog). cbn in Hq, Hlog.
    apply list_elem_of_lookup_2 in Hx. rewrite range_perm in Hx. apply elem_of_map_to_list in Hx.
    pose proof (Hl1 q) as Hlq. unfold new_log in Hlq. rewrite Hx in Hlq.
    by rewrite Hq, Hlog, Hlq.
  - intros kv p Hkv Hpart. pose proof (Hl1 p) as Hlp. unfold new_log in Hlp.
    destruct (newBlocks s1 !! p) as [bw|] eqn:E.
    + assert ((p, bw) ∈ range (newBlocks s1)) as [i Hi]%list_elem_of_lookup
        by (rewrite range_perm; by apply elem_of_map_to_list).
      destruct (Forall2_lookup_l _ _ _ _ _ Hall Hi) as (b & Hb & Hq & _).
      exists b. split; [by eapply list_elem_of_lookup_2|done].
    + assert (kv ∈ filter (in_part n p) l) as Hin by by apply list_elem_of_filter.
      cbn in Hlp. rewrite <- Hlp in Hin. by apply not_elem_of_nil in Hin.
Qed.

(** The length a record reports is that of its value. *)
Definition ValueLen_ok (rec : Record_) : Prop := r_ValueLen rec = Z.of_nat (String.length (Record_value rec)).

(** A record whose iterator belongs to the store. *)
Definition borrowed (s : BlockStore) (rec : Record_) : Prop := ∃ b, b ∈ Blocks s ∧ of_block b rec.

(** The store answers exactly like the map from each key to its last value, in
    every state that lookups leave behind.  [ErrPartitionNotFound] is returned
    only when no record was added in either partition the key may be in. *)
Lemma holds_lookup n l s w key :
  holds n l s w ->
  ∃ r w', Get s key w = Some (r, w') ∧ holds n l s w'
  ∧ match r with
    | Ok rec => Record_value <$> rec = log_map l !! key ∧ from_option ValueLen_ok True rec
                ∧ from_option (borrowed s) True rec
    | Err e => library_error key e
               ∨ (e = ErrPartitionNotFound
                  ∧ ∃ p a, KeyPartition key n = Some (p, a)
                    ∧ ∀ kv, kv ∈ l -> ¬ in_part n p kv ∧ ¬ in_part n a kv)
    end.
Proof.
  intros [Hpar Hbk Hn2 Hlog Hex]. assert (0 < n < 2 ^ 62)%Z as Hn by (rewrite <- Hn2; apply Hpar).
  destruct (Get_total s key w Hpar) as (r & w3 & Hget). exists r, w3. split; [done|].
  apply (Get_spec (torn := false)) in Hget as [Hbk3 Hres]; [|done]. split; [by split|]. rewrite Hn2 in Hres.
  assert (∃ p a, KeyPartition key n = Some (p, a)) as (p & a & HK)
    by (rewrite KeyPartition_normal by done; by eexists _, _).
  destruct r as [[rec|]|e].
  - destruct Hres as (b & Hb & Hv & Hlen & Hrec). split; [|split; [exact Hlen|by exists b]]. cbn. rewrite <- Hv, (Hlog b Hb).
    destruct (decide (b_Partition b = p)) as [->|Hne]; [by eapply log_map_filter|].
    eapply other_partition_lacks in Hne; [|done|by rewrite Hn2|done].
    unfold lacks in Hne. congruence.
  - split; [|done]. cbn. destruct (log_map l !! key) as [v|] eqn:E; [|done]. exfalso.
    apply log_map_in in E as Hin.
    destruct (Hex (key, v) p Hin) as (b & Hb & Hpart); [unfold in_part; cbn; by rewrite HK|].
    specialize (Hres b Hb). unfold lacks in Hres. rewrite (Hlog b Hb), Hpart in Hres.
    rewrite (log_map_filter n p l key a HK) in Hres. congruence.
  - destruct Hres as [?|(-> & p' & a' & HK' & Hall)]; [by left|right]. split; [done|].
    exists p', a'. split; [done|]. intros kv Hkv.
    split; intros Hpart; destruct (Hex kv _ Hkv Hpart) as (b & Hb & Hq);
      destruct (Hall b Hb) as (? & ? & _); congruence.
Qed.

(** Closing a record gives its iterator back. *)
Lemma holds_close n l s w rec w' :
  holds n l s w -> borrowed s rec -> Record_Close rec w = Some (tt, w') -> holds n l s w'.
Proof.
  intros [Hpar [Hs Hm Hpl] Hn2 Hlog Hex] (b & Hb & Hip & Hit) Hc. split; try done. split; try done.
  destruct (Hs b Hb) as [[Hr Hp Hbb] _ _ _ _ _ _]. unfold Record_Close in Hc. rewrite Hip in Hc.
  apply Pool_put_spec in Hc as [[Hfs Hop Hnx Hpools] Hp']; [|done|unfold block_log in Hit; by rewrite Hr].
  intros b' Hb'. destruct (Hs b' Hb') as [Hok ? ? ? ? ? ?]. split; rewrite ?Hfs, ?Hnx; try done.
  destruct (decide (pool_of b' = pool_of b)) as [Heq|Hne].
  - apply list_elem_of_lookup in Hb as [i Hi], Hb' as [j Hj].
    assert (i = j) as ->.
    { eapply NoDup_lookup; [exact Hpl|rewrite list_lookup_fmap, Hi; done|]. rewrite list_lookup_fmap, Hj. cbn. by f_equal. }
    simplify_eq. by split.
  - eapply (block_ok_reads [pool_of b]); [|by intros ?%list_elem_of_singleton|done].
    split; [done|done|]. intros q Hq. apply Hpools. intros ->. apply Hq. left.
Qed.

Lemma part_blocks_same s1 s2 p :
  Block_manifest <$> Blocks s2 = Block_manifest <$> Blocks s1 ->
  block_log <$> Blocks s2 = block_log <$> Blocks s1 ->
  block_log <$> part_blocks s2 p = block_log <$> part_blocks s1 p.
Proof.
  unfold part_blocks. generalize (Blocks s1) (Blocks s2). clear. intros l1 l2. revert l1.
  induction l2 as [|b2 l2 IH]; intros [|b1 l1] Hm Hl; try done.
  injection Hm as Hb Hm. injection Hl as Hbl Hl.
  assert (b_Partition b2 = b_Partition b1) as Hp by (destruct b1, b2; unfold Block_manifest in *; naive_solver).
  rewrite !filter_cons, Hp. case_decide; [rewrite !fmap_cons; f_equal; [done|]|]; by apply IH.
Qed.

(** C10: saving and reading back, as long as no earlier [Save] has failed.
    The store that [NewFromManifest] builds
    from the directory has the same blocks, with the same metadata and
    contents, in the same order for every partition, the same number of
    partitions, and reports the partitions that were selected. *)
Theorem Save_reload path n c sz (w0 : world) s w a sel s1 w1 s2 m w2 :
  path ≠ "" -> (0 < n < 2 ^ 62)%Z ->
  rtc store_step (New path n c sz, w0, Abs [] [] false false) (s, w, a) -> failed a = false ->
  Save s sel w = Some ((s1, None), w1) ->
  NewFromManifest (bs_path s1) w1 = Some (Ok (s2, m), w2) ->
  Block_manifest <$> Blocks s2 = Block_manifest <$> Blocks s1
  ∧ (∀ p, block_log <$> default [] (BlockMap s2 !! p) = block_log <$> default [] (BlockMap s1 !! p))
  ∧ bs_numPartitions s2 = bs_numPartitions s1
  ∧ ∃ sp, mf_SelectedPartitions m = Some sp ∧ sp ≡ₚ elements sel.
Proof.
  intros Hp Hn Hreach Hfl Hsave Hload. apply reachable_refines in Hreach as Hr; [|done..].
  pose proof (refines_save _ _ _ _ _ _ Hr Hsave) as Hr1.
  pose proof (refines_reload _ _ _ _ _ _ Hr1 ltac:(cbn; by rewrite Hfl) Hload) as (Hr2 & Hn2 & Hm & Hl).
  split; [done|]. split; [|split; [done|]].
  - intros p. rewrite (BlockMap_default s1 w1), (BlockMap_default s2 w2) by (apply Hr1 || apply Hr2).
    by apply part_blocks_same.
  - exists (range_set sel). split; [|apply range_set_perm].
    apply (Save_ok (torn := failed a)) in Hsave as (_ & _ & _ & _ & _ & Hj); [|apply Hr..].
    unfold NewFromManifest in Hload. destruct (readManifest _ _) as [[m1|]|] eqn:Er; [|done..].
    unfold readManifest in Er. destruct (os_ReadFile _ _) as [j|] eqn:Ej; [|done].
    apply os_ReadFile_ok in Ej. rewrite Hj in Ej. simplify_eq. rewrite Manifest_roundtrip in Er.
    cbn in Er. simplify_eq. repeat case_match; by simplify_eq.
Qed.

Lemma Add_config s k v w s' e w' :
  Add s k v w = Some ((s', e), w') -> s' = with_newBlocks s (newBlocks s').
Proof.
  unfold Add, keyPartition, mbind, GoM_bind, mret, GoM_ret. intros H.
  repeat case_match; simplify_eq; try done; by destruct s'.
Qed.

Lemma adds_config l s w s' e w' :
  adds s l w = Some ((s', e), w') -> s' = with_newBlocks s (newBlocks s').
Proof.
  revert s w. induction l as [|[k v] l IH]; intros s w H; cbn in H.
  { cbv [mret GoM_ret] in H. simplify_eq. by destruct s'. }
  rewrite GoM_bind_eq in H. destruct (Add s k v w) as [[[s1 [e1|]] w1]|] eqn:E; [| |done].
  - cbv [mret GoM_ret] in H. simplify_eq. by eapply Add_config.
  - apply Add_config in E. apply IH in H. rewrite H, E at 1. by rewrite with_newBlocks_twice.
Qed.

(** C35: a build that stops part way, whether cancelled or at a failing [Add],
    and is reverted leaves a store none of whose [Save]s has failed as it was, without new blocks, and
    touches neither the file of a saved block nor the manifest. *)
Theorem Revert_restores path n c sz (w0 : world) s w a l s1 e w1 :
  path ≠ "" -> (0 < n < 2 ^ 62)%Z ->
  rtc store_step (New path n c sz, w0, Abs [] [] false false) (s, w, a) -> failed a = false ->
  adds s l w = Some ((s1, e), w1) ->
  ∃ w2, Revert s1 w1 = Some (with_newBlocks s ∅, w2)
  ∧ (∀ b, b ∈ Blocks s -> file_log (w_fs w2) (path_Join [bs_path s; b_Name b]) = Some (block_log b))
  ∧ file_json (w_fs w2) (manifest_path (bs_path s)) = file_json (w_fs w) (manifest_path (bs_path s)).
Proof.
  intros Hp Hn Hreach Hfl Hadds. apply reachable_refines in Hreach as [Hpar Hbk Hnk _ _ _ _]; [|done..]. rewrite Hfl in Hbk.
  destruct (Revert_total s1 w1) as (s2 & w2 & Hrev). exists w2.
  pose proof (adds_spec (torn := false) _ _ _ _ _ _ Hpar Hbk Hnk Hadds) as (Hsame & Hbk1 & Hnk1).
  pose proof (adds_config _ _ _ _ _ _ Hadds) as Hc.
  assert (params_ok s1) as Hpar1 by by apply (params_ok_same s).
  pose proof (Revert_manifest _ _ _ _ Hpar1 Hnk1 Hrev) as Hj.
  pose proof (Revert_ok _ _ _ _ Hpar1 Hbk1 Hnk1 Hrev) as (-> & Hbk2 & _).
  split; [by rewrite Hrev, Hc at 1|]. split.
  - intros b Hb. destruct Hsame as (Hps & _ & Hbs & _).
    assert (b ∈ Blocks (with_newBlocks s1 ∅)) as [_ _ _ Hname _ Hfile _]%(bk_saved _ _ Hbk2)
      by (cbn; by rewrite Hbs).
    unfold block_path in Hfile. cbn in Hfile. rewrite Hname, <- Hps. by apply Hfile.
  - destruct Hsame as (Hps & _). rewrite <- Hps, Hj, Hps. by eapply adds_manifest.
Qed.

Lemma load_blocks_config path ms s w s' w' :
  load_blocks path ms s w = Some (Ok s', w') ->
  bs_compression s' = bs_compression s ∧ bs_blockSize s' = bs_blockSize s.
Proof.
  revert s w. induction ms as [|m ms IH]; intros s w H; cbn in H.
  { cbv [mret GoM_ret] in H. by simplify_eq. }
  rewrite GoM_bind_eq in H. destruct (loadBlock _ _ _) as [[[b|e] w1]|]; [|done..].
  by apply IH in H.
Qed.

(** The manifest does not record the storage options: whatever
    compression and block size a store was configured with, the store
    reloaded from its directory has snappy compression and block size 0. *)
Theorem reload_forgets_compression s sel (w : world) s1 w1 s2 m w2 :
  Save s sel w = Some ((s1, None), w1) ->
  NewFromManifest (bs_path s1) w1 = Some (Ok (s2, m), w2) ->
  bs_compression s2 = SnappyCompression ∧ bs_blockSize s2 = 0%Z.
Proof.
  intros Hsave Hload. unfold Save in Hsave. rewrite GoM_bind_eq in Hsave.
  destruct (save_blocks _ _ _) as [[[s' [e|]] w']|]; [done| |done].
  rewrite GoM_bind_eq in Hsave. unfold on_disk in Hsave.
  destruct (writeManifest _ _ _) as [e d] eqn:Ew. cbv [mret GoM_ret] in Hsave. simplify_eq.
  unfold NewFromManifest in Hload. destruct (readManifest _ _) as [[m1|]|] eqn:Er; [|done..].
  eapply readManifest_written in Er as [_ Hm1]; [|exact Ew|done]. subst m1. cbn in Hload.
  destruct (load_blocks _ _ _ _) as [[[s3|] w3]|] eqn:El; simplify_eq.
  by apply load_blocks_config in El.
Qed.
End Theorems.

(** ** Witnesses: a store on the in-memory disk *)

Lemma adds_reach {D : Disk} {L : DiskLaws D} {SP : SyncPool HashIter} {U : Uuid} {MO : MapOrder Z}
    l s (w : world) a s' w' :
  adds s l w = Some ((s', None), w') ->
  rtc store_step (s, w, a) (s', w', Abs (pending a ++ l)%list (saved a) (persisted a) (failed a)).
Proof.
  revert s w a. induction l as [|[k v] l IH]; intros s w a H; cbn in H.
  - cbv [mret GoM_ret] in H. simplify_eq. rewrite app_nil_r. by destruct a.
  - rewrite GoM_bind_eq in H. destruct (Add s k v w) as [[[s1 [e1|]] w1]|] eqn:E; [done| |done].
    eapply rtc_l; [by apply st_add|]. apply IH with (a := Abs (pending a ++ [(k, v)])%list (saved a) (persisted a) (failed a)) in H. cbn in H.
    by rewrite <- app_assoc in H.
Qed.

(** A store that was built in one go and is opened again from its directory
    holds the same records. *)
Lemma holds_reload {D : Disk} {L : DiskLaws D} {SP : SyncPool HashIter} {U : Uuid} {MO : MapOrder Z}
    path n c sz (w0 : world) l s1 w1 sel s2 w2 s3 m w3 :
  path ≠ "" -> (0 < n < 2 ^ 62)%Z ->
  adds (New path n c sz) l w0 = Some ((s1, None), w1) ->
  Save s1 sel w1 = Some ((s2, None), w2) ->
  NewFromManifest path w2 = Some (Ok (s3, m), w3) -> holds n l s3 w3.
Proof.
  intros Hp Hn Hadds Hsave Hload. destruct (built_holds _ _ _ _ _ _ _ _ _ _ _ Hp Hn Hadds Hsave) as [_ _ Hn2 Hlog Hall].
  pose proof (adds_config _ _ _ _ _ _ Hadds) as Hc. apply (adds_reach _ _ _ (Abs [] [] false false)) in Hadds as Hreach.
  apply reachable_refines in Hreach as Hr; [|done..]. pose proof (refines_save _ _ _ _ _ _ Hr Hsave) as Hr2.
  apply (Save_ok (torn := false)) in Hsave as (_ & _ & Hp2 & _); [|apply Hr..].
  assert (bs_path s2 = path) as Hpath by (rewrite Hp2, Hc; done). rewrite <- Hpath in Hload.
  destruct (refines_reload _ _ _ _ _ _ Hr2 eq_refl Hload) as (Hr3 & Hn3 & Hm3 & Hl3).
  assert (∀ b b', Block_manifest b = Block_manifest b' -> b_Partition b = b_Partition b') as Hpart
    by (intros [] [] H; unfold Block_manifest in H; cbn in *; congruence).
  split; [apply Hr3|apply Hr3|congruence|..].
  - intros b [i Hi]%list_elem_of_lookup.
    assert ((Block_manifest <$> Blocks s2) !! i = Some (Block_manifest b)) as Hm' by by rewrite <- Hm3, list_lookup_fmap, Hi.
    assert ((block_log <$> Blocks s2) !! i = Some (block_log b)) as Hl' by by rewrite <- Hl3, list_lookup_fmap, Hi.
    rewrite list_lookup_fmap in Hm'. rewrite list_lookup_fmap in Hl'.
    destruct (Blocks s2 !! i) as [b2|] eqn:E2; [|done]. cbn in Hm', Hl'.
    apply (inj Some) in Hl', Hm'. apply Hpart in Hm'. rewrite <- Hl', <- Hm'. by apply Hlog, (list_elem_of_lookup_2 _ i).
  - intros kv p Hkv Hin. destruct (Hall kv p Hkv Hin) as (b & [i Hi]%list_elem_of_lookup & Hb).
    assert ((Block_manifest <$> Blocks s3) !! i = Some (Block_manifest b)) as Hm' by by rewrite Hm3, list_lookup_fmap, Hi.
    rewrite list_lookup_fmap in Hm'. destruct (Blocks s3 !! i) as [b3|] eqn:E3; [|done]. cbn in Hm'.
    apply (inj Some), Hpart in Hm'. exists b3. split; [by eapply list_elem_of_lookup_2|congruence].
Qed.

Module BlockStoreExample.
Import BlockExample.

#[export] Instance order : MapOrder Z := list_order.

Definition s0 : BlockStore := New "/data" 2 NoCompression 4096.
Definition kvs : log := [("Alice", "Practice"); ("Bob", "Hope"); ("Alice", "Cooper")].

(** Build and save, look a key up, restart, and revert a second build. *)
Definition run : option (string * nat * list Z) :=
  match adds s0 kvs w0 with
  | Some ((s1, None), w1) =>
      match Save s1 {[ 0%Z; 1%Z ]} w1 with
      | Some ((s2, None), w2) =>
          match Get s2 "Alice" w2, NewFromManifest (bs_path s2) w2, adds s2 [("Eve", "x")] w2 with
          | Some (Ok (Some r), _), Some (Ok (s3, m), w3), Some ((s4, None), w4) =>
              match Revert s4 w4 with
              | Some (s5, w5) =>
                  Some (Record_value r, length (Blocks s5), default [] (mf_SelectedPartitions m))
              | None => None
              end
          | _, _, _ => None
          end
      | _ => None
      end
  | _ => None
  end.

Lemma store_run_ok : run = Some ("Cooper", 2%nat, [1; 0]%Z).
Proof. vm_compute. reflexivity. Qed.

Lemma store_run_spec :
  ∃ s1 w1 s2 w2 s3 m w3 s4 w4,
    adds s0 kvs w0 = Some ((s1, None), w1) ∧ Save s1 {[ 0%Z; 1%Z ]} w1 = Some ((s2, None), w2)
    ∧ NewFromManifest (bs_path s2) w2 = Some (Ok (s3, m), w3)
    ∧ adds s2 [("Eve", "x")] w2 = Some ((s4, None), w4).
Proof.
  pose proof store_run_ok as H. unfold run in H. repeat case_match; simplify_eq.
  do 9 eexists. split_and!; eassumption || reflexivity.
Qed.

Lemma Get_refines_witness :
  ∃ s w a, rtc store_step (New "/data" 2 NoCompression 4096, w0, Abs [] [] false false) (s, w, a)
  ∧ saved a = kvs
  ∧ ∃ r w', Get s "Bob" w = Some (r, w')
  ∧ match r with
    | Ok (Some rec) => ("Bob", Record_value rec) ∈ saved a
                       ∧ r_ValueLen rec = Z.of_nat (String.length (Record_value rec))
    | Ok None => "Bob" ∉ (saved a).*1
    | Err e => library_error "Bob" e ∨ (e = ErrPartitionNotFound ∧ "Bob" ∉ (saved a).*1)
    end.
Proof.
  destruct store_run_spec as (s1 & w1 & s2 & w2 & s3 & m & w3 & s4 & w4 & Hadd & Hsave & Hload & Hadd2).
  assert (∃ s w, rtc store_step (s0, w0, Abs [] [] false false) (s, w, Abs [] kvs true false)) as (s & w & Hr).
  { do 2 eexists. eapply rtc_r; [eapply adds_reach; eassumption|]. eapply (st_save _ _ (Abs kvs [] false false)); eassumption. }
  exists s, w, (Abs [] kvs true false). split; [exact Hr|]. split; [done|].
  apply (Get_refines "/data" 2 NoCompression 4096 w0 s w (Abs [] kvs true false) "Bob"); [done|lia|exact Hr].
Defined.

Lemma Save_reload_witness :
  ∃ s1 w1 s2 m w2, NewFromManifest (bs_path s1) w1 = Some (Ok (s2, m), w2)
  ∧ Block_manifest <$> Blocks s2 = Block_manifest <$> Blocks s1
  ∧ (∀ p, block_log <$> default [] (BlockMap s2 !! p) = block_log <$> default [] (BlockMap s1 !! p))
  ∧ bs_numPartitions s2 = bs_numPartitions s1
  ∧ ∃ sp, mf_SelectedPartitions m = Some sp ∧ sp ≡ₚ elements ({[ 0; 1 ]}%Z : gset Z).
Proof.
  destruct store_run_spec as (s1 & w1 & s2 & w2 & s3 & m & w3 & s4 & w4 & Hadd & Hsave & Hload & Hadd2).
  do 5 eexists. split; [eassumption|].
  eapply (Save_reload "/data" 2 NoCompression 4096 w0); [done|lia| | |eassumption|eassumption].
  2: by instantiate (1 := Abs _ _ _ false).
  eapply adds_reach; eassumption.
Defined.

Lemma Revert_restores_witness :
  ∃ s w s1 w1, adds s [("Eve", "x")] w = Some ((s1, None), w1)
  ∧ ∃ w2, Revert s1 w1 = Some (with_newBlocks s ∅, w2)
  ∧ (∀ b, b ∈ Blocks s -> file_log (w_fs w2) (path_Join [bs_path s; b_Name b]) = Some (block_log b))
  ∧ file_json (w_fs w2) (manifest_path (bs_path s)) = file_json (w_fs w) (manifest_path (bs_path s)).
Proof.
  destruct store_run_spec as (s1 & w1 & s2 & w2 & s3 & m & w3 & s4 & w4 & Hadd & Hsave & Hload & Hadd2).
  do 4 eexists. split; [eassumption|].
  eapply (Revert_restores "/data" 2 NoCompression 4096 w0); [done|lia| | |eassumption].
  2: by instantiate (1 := Abs _ _ _ false).
  eapply rtc_r; [eapply adds_reach; eassumption|]. eapply (st_save _ _ (Abs kvs [] false false)); eassumption.
Defined.

Lemma reload_forgets_compression_witness :
  ∃ s1 s2, bs_compression s1 = NoCompression
  ∧ bs_compression s2 = SnappyCompression ∧ bs_blockSize s2 = 0%Z.
Proof.
  destruct store_run_spec as (s1 & w1 & s2 & w2 & s3 & m & w3 & s4 & w4 & Hadd & Hsave & Hload & Hadd2).
  exists s1, s3. split; [apply adds_config in Hadd; by rewrite Hadd|].
  eapply reload_forgets_compression; eassumption.
Defined.
End BlockStoreExample.

(** The disk fails once, when the second of two blocks is flushed. *)
Module FailedSaveExample.
#[local] Instance bad_disk : Disk := MemDisk.disk (λ p, bool_decide (p = "/data/block-00000-0.spl")).
#[local] Instance bad_laws : DiskLaws bad_disk := MemDisk.laws _.
#[local] Instance bad_pool : SyncPool HashIter := lifo_pool.
#[local] Existing Instances counter_uuid list_order.

Definition w0 : world := World (MemDisk.Mem ∅ ∅) ∅ ∅ 0.
Definition s0 : BlockStore := New "/data" 2 SnappyCompression 4096.
Definition kvs : log := [("Alice", "Practice"); ("Bob", "Hope")].
Definition parts : gset Z := {[ 0%Z; 1%Z ]}.

Definition run : option (list string * option log * error) :=
  match adds s0 kvs w0 with
  | Some ((s1, None), w1) =>
      match Save s1 parts w1 with
      | Some ((s2, Some e), w2) =>
          match Revert s2 w2 with
          | Some (s3, w3) =>
              match adds s3 kvs w3 with
              | Some ((s4, None), w4) =>
                  match Save s4 parts w4 with
                  | Some ((s5, None), w5) =>
                      match NewFromManifest (bs_path s5) w5 with
                      | Some (Err e, _) =>
                          Some (b_Name <$> Blocks s3, file_log (w_fs w3) "/data/block-00001-1.spl", e)
                      | _ => None
                      end
                  | _ => None
                  end
              | _ => None
              end
          | _ => None
          end
      | _ => None
      end
  | _ => None
  end.

Lemma failed_save_run_ok :
  run = Some (["block-00001-1.spl"], None, Errorf "opening block" ErrNotExist).
Proof. vm_compute. reflexivity. Qed.

(** A [Save] that fails part way, followed by [Revert], does not bring
    the store back to the state of the last manifest (here: the empty store):
    the block that had been flushed stays listed although [Revert] deleted its
    file, and when the build is then repeated successfully the manifest it
    writes names the deleted file, so that the version cannot be loaded. *)
Theorem Revert_after_failed_Save :
  ∃ s1 w1 s2 e w2 s3 w3 s4 w4 s5 w5 w6,
    adds s0 kvs w0 = Some ((s1, None), w1)
    ∧ Save s1 parts w1 = Some ((s2, Some e), w2)
    ∧ Revert s2 w2 = Some (s3, w3)
    ∧ b_Name <$> Blocks s3 = ["block-00001-1.spl"]
    ∧ file_log (w_fs w3) "/data/block-00001-1.spl" = None
    ∧ adds s3 kvs w3 = Some ((s4, None), w4)
    ∧ Save s4 parts w4 = Some ((s5, None), w5)
    ∧ NewFromManifest (bs_path s5) w5 = Some (Err (Errorf "opening block" ErrNotExist), w6).
Proof.
  pose proof failed_save_run_ok as H. unfold run in H. repeat case_match; try discriminate H.
  injection H as Hn Hf He. subst. do 12 eexists. split_and!; eassumption || reflexivity.
Qed.
End FailedSaveExample.
