(* ===== verification/Writable.v ===== *)
(** * Hadoop writables: how keys and values are unwrapped

    The records of a sequence file are serialized Java objects.  [build.go]
    unwraps the two classes it knows with the vendored package [sequencefile]
    ([writable.go], [vint.go]); a corrupt record makes these functions panic,
    which [unwrapKeyValue] turns into an error. *)

From Stdlib Require Import ZArith Lia Ascii String.
From stdpp Require Import base list strings.
From S2P Require Import Prelude Hashcode GoStrings.

Open Scope string_scope.

Definition BytesWritableClassName : string := "org.apache.hadoop.io.BytesWritable".
Definition TextClassName : string := "org.apache.hadoop.io.Text".

(** [b[n:]]: [None] is the panic of a bad bound. *)
Fixpoint slice_from (n : nat) (b : string) : option string :=
  match n, b with
  | O, _ => Some b
  | S n', String _ b' => slice_from n' b'
  | S _, EmptyString => None
  end.

(** [io.ReadFull] of [n] bytes: what was read, and the rest. *)
Fixpoint read_full (n : nat) (b : string) : option (string * string) :=
  match n, b with
  | O, _ => Some ("", b)
  | S n', String c b' => '(x, rest) ← read_full n' b'; Some (String c x, rest)
  | S _, EmptyString => None
  end.

(** [int8] of a byte. *)
Definition int8 (z : Z) : Z := GoInt.wrap 8 z.

(** The loop of [ReadVInt]: big endian, in a [uint64]. *)
Fixpoint be_uint64 (res : Z) (b : string) : Z :=
  match b with
  | EmptyString => res
  | String c b' => be_uint64 (Z.lor (Z.shiftl res 8 mod 2 ^ 64) (byte_val c)) b'
  end.

(** [ReadVInt]: the number and the unread bytes, [None] when bytes run out. *)
Definition ReadVInt (b : string) : option (Z * string) :=
  match b with
  | EmptyString => None
  | String c rest =>
      let l := int8 (byte_val c) in
      if (-112 <=? l)%Z then Some (l, rest)
      else
        let negative := negb (-120 <=? l)%Z in
        let remaining := if (-120 <=? l)%Z then (-112 - l)%Z else (-120 - l)%Z in
        '(buf, rest) ← read_full (Z.to_nat remaining) rest;
        let res := be_uint64 0 buf in
        let res := if negative then (2 ^ 64 - 1 - res)%Z else res in
        Some (GoInt.int64 res, rest)
  end.

Definition BytesWritable (b : string) : option string := slice_from 4 b.

(** Panics on a bad length. *)
Definition Text (b : string) : option string :=
  '(n, rest) ← ReadVInt b;
  if bool_decide (n ≠ Z.of_nat (String.length rest)) then None else Some rest.

(** One half of [unwrapKeyValue]. *)
Definition unwrap (className b : string) : option string :=
  if bool_decide (className = BytesWritableClassName) then BytesWritable b
  else if bool_decide (className = TextClassName) then Text b
  else Some b.

(** [unwrapKeyValue] with its [recover]. *)
Definition unwrapKeyValue (keyClass valueClass : string) (kv : string * string) : res (string * string) :=
  match unwrap keyClass kv.1, unwrap valueClass kv.2 with
  | Some key, Some value => Ok (key, value)
  | _, _ => Err (NewError "sequencefile: record deserialization failed")
  end.

(** ** The encoding that is read back

    Hadoop's [WritableUtils.writeVLong] for a length, and the two classes. *)

Definition byte (z : Z) : ascii := ascii_of_N (Z.to_N (z mod 256)).

(** The [n] low bytes of [z], big endian. *)
Fixpoint be_bytes (n : nat) (z : Z) : string :=
  match n with
  | O => ""
  | S n' => String (byte (Z.shiftr z (8 * Z.of_nat n'))) (be_bytes n' z)
  end.

(** How many bytes a positive number takes. *)
Definition byte_size (z : Z) : nat := Z.to_nat (Z.log2 z / 8 + 1).

Definition write_vint (z : Z) : string :=
  if (z <=? 127)%Z then String (byte z) ""
  else String (byte (-112 - Z.of_nat (byte_size z))) (be_bytes (byte_size z) z).

Definition write_text (s : string) : string := write_vint (Z.of_nat (String.length s)) ++ s.

Definition write_bytes (s : string) : string := be_bytes 4 (Z.of_nat (String.length s)) ++ s.

Example text_1 : Text (write_text "Practice") = Some "Practice". Proof. reflexivity. Qed.
Example vint_1 : write_vint 1000 = String (ascii_of_nat 142) (String (ascii_of_nat 3) (String (ascii_of_nat 232) "")).
Proof. reflexivity. Qed.
Example vint_2 : ReadVInt (write_vint 1000 ++ "x") = Some (1000%Z, "x"). Proof. reflexivity. Qed.

(** ** Reading back *)

Open Scope Z_scope.

Lemma byte_val_byte z : byte_val (byte z) = z mod 256.
Proof.
  unfold byte_val, byte. pose proof (Z.mod_pos_bound z 256). rewrite N_ascii_embedding by lia. lia.
Qed.

Lemma lor_shift_add a b : 0 <= b < 256 -> Z.lor (Z.shiftl a 8) b = a * 256 + b.
Proof.
  intros Hb. assert (Z.land (Z.shiftl a 8) b = 0) as Hl.
  { apply Z.bits_inj'. intros i Hi. rewrite Z.land_spec, Z.bits_0, Z.shiftl_spec by done.
    destruct (Z.ltb_spec i 8).
    - rewrite (Z.testbit_neg_r a) by lia. done.
    - rewrite andb_comm, Z.bits_above_log2; [done|lia|].
      destruct (decide (b = 0)) as [->|]; [cbn; lia|]. apply Z.log2_lt_pow2; [lia|].
      eapply Z.lt_le_trans; [apply Hb|]. change 256 with (2 ^ 8). apply Z.pow_le_mono_r; lia. }
  rewrite <- Z.lxor_lor, <- Z.add_nocarry_lxor by done. rewrite Z.shiftl_mul_pow2 by lia. lia.
Qed.

Lemma read_full_app b s : read_full (String.length b) (b ++ s) = Some (b, s).
Proof. induction b as [|c b IH]; cbn; [done|]. by rewrite IH. Qed.

Lemma be_bytes_length n z : String.length (be_bytes n z) = n.
Proof. induction n as [|n IH]; cbn; [done|]. by rewrite IH. Qed.

Lemma be_uint64_bytes n acc z :
  0 <= acc -> (8 * Z.of_nat n <= 64) -> acc < 2 ^ (64 - 8 * Z.of_nat n) ->
  be_uint64 acc (be_bytes n z) = acc * 2 ^ (8 * Z.of_nat n) + z mod 2 ^ (8 * Z.of_nat n).
Proof.
  revert acc. induction n as [|n IH]; intros acc Hacc Hn Hlt.
  { cbn. rewrite Z.mod_1_r. lia. }
  cbn [be_bytes be_uint64]. set (k := 8 * Z.of_nat n) in *.
  replace (8 * Z.of_nat (S n)) with (k + 8) in * by lia.
  rewrite byte_val_byte. pose proof (Z.mod_pos_bound (Z.shiftr z k) 256 ltac:(lia)) as Hb.
  assert (acc * 256 < 2 ^ (64 - k)) as Hacc'.
  { replace (64 - k) with ((64 - (k + 8)) + 8) by lia. rewrite Z.pow_add_r by lia. change (2 ^ 8) with 256. lia. }
  assert (2 ^ (64 - k) <= 2 ^ 64) by (apply Z.pow_le_mono_r; lia).
  rewrite Z.mod_small by (rewrite Z.shiftl_mul_pow2 by lia; change (2 ^ 8) with 256; lia).
  rewrite lor_shift_add by done. rewrite IH; [|lia|lia|].
  - rewrite Z.pow_add_r by lia. rewrite (Z.rem_mul_r z (2 ^ k) (2 ^ 8)) by lia.
    rewrite Z.shiftr_div_pow2 by lia. change (2 ^ 8) with 256. lia.
  - assert (acc + 1 <= 2 ^ (64 - (k + 8))) by lia.
    replace (64 - k) with ((64 - (k + 8)) + 8) by lia. rewrite Z.pow_add_r by lia. change (2 ^ 8) with 256. nia.
Qed.

Lemma byte_size_spec z : 0 < z < 2 ^ 63 -> (1 <= byte_size z <= 8)%nat ∧ z < 2 ^ (8 * Z.of_nat (byte_size z)).
Proof.
  intros Hz. unfold byte_size. pose proof (Z.log2_nonneg z) as H0.
  assert (Z.log2 z < 63) as H1 by (apply Z.log2_lt_pow2; lia).
  pose proof (Z.div_mod (Z.log2 z) 8 ltac:(lia)). pose proof (Z.mod_pos_bound (Z.log2 z) 8 ltac:(lia)).
  split; [lia|]. apply Z.log2_lt_pow2; lia.
Qed.

Lemma ReadVInt_write z s : 0 <= z < 2 ^ 63 -> ReadVInt (write_vint z ++ s) = Some (z, s).
Proof.
  intros Hz. unfold write_vint, ReadVInt. destruct (Z.leb_spec z 127) as [Hs|Hs]; cbn [String.append].
  - rewrite byte_val_byte, Z.mod_small by lia. unfold int8. rewrite GoInt.wrap_id by lia.
    destruct (Z.leb_spec (-112) z); [done|lia].
  - destruct (byte_size_spec z) as [Hk Hlt]; [lia|]. set (k := byte_size z) in *.
    rewrite byte_val_byte.
    assert (int8 ((-112 - Z.of_nat k) mod 256) = -112 - Z.of_nat k) as ->.
    { unfold int8. rewrite (GoInt.wrap_congr 8 _ (-112 - Z.of_nat k)) by (lia || by rewrite Zmod_mod).
      apply GoInt.wrap_id; lia. }
    destruct (Z.leb_spec (-112) (-112 - Z.of_nat k)); [lia|].
    destruct (Z.leb_spec (-120) (-112 - Z.of_nat k)); [|lia]. cbn [negb].
    replace (Z.to_nat (-112 - (-112 - Z.of_nat k))) with (String.length (be_bytes k z)) by (rewrite be_bytes_length; lia).
    rewrite read_full_app. cbn [mbind option_bind].
    rewrite be_uint64_bytes by (lia || (apply Z.pow_pos_nonneg; lia)).
    rewrite Z.mod_small by lia. rewrite Z.mul_0_l, Z.add_0_l, GoInt.int64_id by lia. done.
Qed.

Lemma slice_from_app b s : slice_from (String.length b) (b ++ s) = Some s.
Proof. induction b as [|c b IH]; cbn; [done|exact IH]. Qed.

(** C38: a record is loaded as it was written: for either class, unwrapping
    what Hadoop serialized gives the original key and value, and other classes
    are left alone. *)
Theorem unwrapKeyValue_roundtrip key value :
  (Z.of_nat (String.length key) < 2 ^ 63) -> (Z.of_nat (String.length value) < 2 ^ 63) ->
  unwrapKeyValue TextClassName TextClassName (write_text key, write_text value) = Ok (key, value)
  ∧ unwrapKeyValue BytesWritableClassName BytesWritableClassName (write_bytes key, write_bytes value) = Ok (key, value)
  ∧ unwrapKeyValue TextClassName BytesWritableClassName (write_text key, write_bytes value) = Ok (key, value)
  ∧ unwrapKeyValue BytesWritableClassName TextClassName (write_bytes key, write_text value) = Ok (key, value)
  ∧ ∀ kc vc, kc ∉ [TextClassName; BytesWritableClassName] -> vc ∉ [TextClassName; BytesWritableClassName] ->
      unwrapKeyValue kc vc (key, value) = Ok (key, value).
Proof.
  assert (∀ s, Z.of_nat (String.length s) < 2 ^ 63 -> unwrap TextClassName (write_text s) = Some s) as Ht.
  { intros s Hs. unfold unwrap. rewrite bool_decide_false, bool_decide_true by done. unfold Text, write_text. rewrite ReadVInt_write by lia. cbn.
    by rewrite bool_decide_false by (intros H; by apply H). }
  assert (∀ s, unwrap BytesWritableClassName (write_bytes s) = Some s) as Hb.
  { intros s. unfold unwrap. rewrite bool_decide_true by done. unfold BytesWritable, write_bytes. apply (slice_from_app (be_bytes 4 _)). }
  intros Hk Hv. unfold unwrapKeyValue. cbn [fst snd]. rewrite !Ht, !Hb by done. split_and!; try done.
  intros kc vc [Hk1 [Hk2 _]%not_elem_of_cons]%not_elem_of_cons [Hv1 [Hv2 _]%not_elem_of_cons]%not_elem_of_cons.
  unfold unwrap. by rewrite !bool_decide_false by done.
Qed.

Lemma unwrapKeyValue_roundtrip_witness :
  unwrapKeyValue TextClassName TextClassName (write_text "Alice", write_text "Practice") = Ok ("Alice", "Practice").
Proof.
  apply (unwrapKeyValue_roundtrip "Alice" "Practice"); cbn; lia.
Defined.
