(* ===== verification/Build.v ===== *)
(** * version.go and build.go: loading the data of a version

    A version reads its files from the backend, keeps the records of the
    partitions it needs and saves them in its block store.  What the backend
    and the sequence file reader deliver for a file is a parameter
    ([opened_file]); messages and throttling are not modelled, and the locks that
    serialize builds are in [BuildLocks.v]. *)

From Stdlib Require Import ZArith Lia Ascii String.
From stdpp Require Import base gmap sets list strings fin_maps.
From S2P Require Import Prelude Hashcode GoStrings Disk Manifest Block BlockStore Consistent Coord Peers Partitions Writable.
Import GoInt.

Open Scope string_scope.

(** What a sequence file reader yields: its records in order, and the error
    that ended the scan, if any. *)
Record Reader := {
  rd_keyClass : string;
  rd_valueClass : string;
  rd_records : list (string * string);
  rd_err : option error;
}.

(** [backend.Open] and [ReadHeader]. *)
Inductive opened_file :=
  | OpenFailed (e : error)
  | HeaderFailed (e : error)
  | Opened (r : Reader).

Inductive versionState := versionAvailable | versionRemoving | versionBuilding | versionError.

#[global] Instance versionState_eq_dec : EqDecision versionState.
Proof. solve_decision. Defined.

(** ** Guessing that a file holds one partition *)

Record assumption := {
  canAssumePartition : bool;
  assumedPartition : Z;
  assumedFor : Z;
}.

Definition no_assumption : assumption :=
  {| canAssumePartition := true; assumedPartition := -1; assumedFor := 0 |}.

(** The first half of the loop body of [addFileKeys]: the updated guess, and
    the partition the record counts for. *)
Definition assume (a : assumption) (partition alternatePartition : Z) : assumption * Z :=
  if canAssumePartition a then
    if bool_decide (assumedPartition a = -1)%Z
    then ({| canAssumePartition := true; assumedPartition := partition; assumedFor := assumedFor a |}, partition)
    else if bool_decide (partition ≠ assumedPartition a)
    then if bool_decide (alternatePartition = assumedPartition a)
         then (a, alternatePartition)
         else ({| canAssumePartition := false; assumedPartition := assumedPartition a;
                  assumedFor := assumedFor a |}, partition)
    else ({| canAssumePartition := true; assumedPartition := assumedPartition a;
             assumedFor := assumedFor a + 1 |}, partition)
  else (a, partition).

Section Build.
Context {D : Disk} {SP : SyncPool HashIter} {U : Uuid}.
Context {MZ : MapOrder Z} {MS : MapOrder string} {MP : MapOrder peer} {C : Coord}.

(** ** Files *)

(** The loop of [addFileKeys] over the records that are left. *)
Fixpoint addFileKeys (numPartitions : Z) (partitions : gset Z) (r : Reader) (records : list (string * string))
    (a : assumption) (s : BlockStore) : GoM world (BlockStore * option error) :=
  match records with
  | [] => mret (s, rd_err r)
  | kv :: records' =>
      match unwrapKeyValue (rd_keyClass r) (rd_valueClass r) kv with
      | Err e => mret (s, Some e)
      | Ok (key, value) => λ w,
          pa ← KeyPartition key numPartitions;
          let '(a, partition) := assume a pa.1 pa.2 in
          if bool_decide (partition ∈ partitions)
          then
            (res ← Add s key value;
             match res with
             | (s', Some e) => mret (s', Some e)
             | (s', None) => addFileKeys numPartitions partitions r records' a s'
             end) w
          else if canAssumePartition a && (5000 <? assumedFor a)%Z
          then Some ((s, Some errWrongPartition), w)
          else addFileKeys numPartitions partitions r records' a s w
      end
  end.

Definition addFile (numPartitions : Z) (file : opened_file) (partitions : gset Z) (s : BlockStore)
    : GoM world (BlockStore * option error) :=
  match file with
  | OpenFailed e => mret (s, Some (Errorf "reading" e))
  | HeaderFailed e => mret (s, Some (Errorf "reading header from" e))
  | Opened r =>
      res ← addFileKeys numPartitions partitions r (rd_records r) no_assumption s;
      let '(s, err) := res in
      match err with
      | Some e => if bool_decide (e = errWrongPartition) then mret (s, None) else mret (s, Some (Errorf "reading" e))
      | None => mret (s, None)
      end
  end.

(** The loop of [addFiles]; the flag with each file tells whether the build is
    found cancelled before it. *)
Fixpoint addFiles_loop (numPartitions : Z) (files : list (bool * opened_file)) (partitions : gset Z) (s : BlockStore)
    : GoM world (BlockStore * option error) :=
  match files with
  | [] => mret (s, None)
  | (canceled, file) :: files' =>
      if (canceled : bool) then mret (s, Some errCanceled)
      else
        res ← addFile numPartitions file partitions s;
        match res with
        | (s, Some e) => mret (s, Some e)
        | (s, None) => addFiles_loop numPartitions files' partitions s
        end
  end.

Definition addFiles (numPartitions : Z) (files : list (bool * opened_file)) (partitions selected : gset Z)
    (s : BlockStore) : GoM world (BlockStore * option error) :=
  match files with
  | [] => mret (s, None)
  | _ =>
      res ← addFiles_loop numPartitions files partitions s;
      match res with
      | (s, Some e) => mret (s, Some e)
      | (s, None) => Save s selected
      end
  end.

(** ** Versions *)

Record version := {
  vs_path : string;
  vs_name : string;
  vs_numPartitions : Z;
  vs_blockStore : BlockStore;
  vs_partitions : partitions;
  vs_state : versionState;
  vs_ready : bool;       (** the channel is closed *)
  vs_built : bool;
}.

(** [setState]: an error is final. *)
Definition setState (vs : version) (st : versionState) : version :=
  {| vs_path := vs_path vs; vs_name := vs_name vs; vs_numPartitions := vs_numPartitions vs;
     vs_blockStore := vs_blockStore vs; vs_partitions := vs_partitions vs;
     vs_state := if decide (vs_state vs = versionError) then vs_state vs else st;
     vs_ready := vs_ready vs; vs_built := vs_built vs |}.

Definition set_built (vs : version) : version :=
  {| vs_path := vs_path vs; vs_name := vs_name vs; vs_numPartitions := vs_numPartitions vs;
     vs_blockStore := vs_blockStore vs; vs_partitions := vs_partitions vs; vs_state := vs_state vs;
     vs_ready := vs_ready vs; vs_built := true |}.

Definition set_store (vs : version) (s : BlockStore) : version :=
  {| vs_path := vs_path vs; vs_name := vs_name vs; vs_numPartitions := vs_numPartitions vs;
     vs_blockStore := s; vs_partitions := vs_partitions vs; vs_state := vs_state vs;
     vs_ready := vs_ready vs; vs_built := vs_built vs |}.

Definition set_partitions (vs : version) (p : partitions) : version :=
  {| vs_path := vs_path vs; vs_name := vs_name vs; vs_numPartitions := vs_numPartitions vs;
     vs_blockStore := vs_blockStore vs; vs_partitions := p; vs_state := vs_state vs;
     vs_ready := vs_ready vs; vs_built := vs_built vs |}.

(** A call on the block store, and one on the watcher, in the joint state. *)
Definition on_world {A} (f : GoM world A) : GoM (world * zkw) A := λ wz,
  '(a, w) ← f wz.1; Some (a, (w, wz.2)).
Definition on_zk {A} (f : zkw -> option (A * zkw)) : GoM (world * zkw) A := λ wz,
  '(a, z) ← f wz.2; Some (a, (wz.1, z)).

(** [build]; [mkdir] is the result of [os.MkdirAll] (the directory existing is
    not an error), [files] the files of the version. *)
Definition build (mkdir : option error) (files : list (bool * opened_file)) (vs : version)
    : GoM (world * zkw) version :=
  if vs_built vs then mret vs
  else
    let need := needed (vs_partitions vs) in
    if bool_decide (need = ∅) then mret (set_built vs)
    else
      match mkdir with
      | Some _ => mret (setState vs versionError)
      | None =>
          res ← on_world (addFiles (vs_numPartitions vs) files need (pt_selected (vs_partitions vs)) (vs_blockStore vs));
          let '(s, err) := res in
          let vs := set_store vs s in
          match err with
          | Some e =>
              let vs := if bool_decide (e ≠ errCanceled) then setState vs versionError else vs in
              s ← on_world (Revert (vs_blockStore vs));
              mret (set_store vs s)
          | None =>
              p ← on_zk (updateLocalPartitions (vs_partitions vs) need);
              mret (set_built (set_partitions vs p))
          end
      end.

(** [initBlockStore]: what is on disk, if it can be loaded. *)
Definition initBlockStore (compression : Compression) (blockSize : Z) (vs : version)
    : GoM (world * zkw) version :=
  r ← on_world (NewFromManifest (vs_path vs));
  match r with
  | Err _ => mret (set_store vs (New (vs_path vs) (vs_numPartitions vs) compression blockSize))
  | Ok (blockStore, manifest) =>
      let have : gset Z := list_to_set (default [] (mf_SelectedPartitions manifest)) in
      p ← on_zk (updateLocalPartitions (vs_partitions vs) have);
      mret (set_store (set_partitions vs p) blockStore)
  end.

(** [newVersion]; [files] is the result of [backend.ListFiles], [first] the
    first listing of the partitions' watch. *)
Definition newVersion (files : res (list string)) (ps : option peers) (db path name : string)
    (compression : Compression) (blockSize replication : Z) (first : list string)
    : GoM (world * zkw) (res version) :=
  match files with
  | Err e => mret (Err e)
  | Ok files =>
      let n := Z.of_nat (length files) in
      p ← on_zk (watchPartitions ps db name n replication first);
      let vs := {| vs_path := path; vs_name := name; vs_numPartitions := n;
                   vs_blockStore := New "" 0 "" 0; vs_partitions := p; vs_state := versionBuilding;
                   vs_ready := false; vs_built := false |} in
      vs ← initBlockStore compression blockSize vs;
      mret (Ok {| vs_path := vs_path vs; vs_name := vs_name vs; vs_numPartitions := vs_numPartitions vs;
                  vs_blockStore := vs_blockStore vs; vs_partitions := vs_partitions vs; vs_state := vs_state vs;
                  vs_ready := pt_ready (vs_partitions vs); vs_built := vs_built vs |})
  end.
End Build.

(** ** What a file contributes *)

(** Specification, not code: the records of a file that are kept, in order,
    until the loop stops. *)
Fixpoint select (n : Z) (parts : gset Z) (kc vc : string) (records : list (string * string)) (a : assumption) : log :=
  match records with
  | [] => []
  | kv :: records' =>
      match unwrapKeyValue kc vc kv with
      | Err _ => []
      | Ok (key, value) =>
          match KeyPartition key n with
          | None => []
          | Some (p, alt) =>
              let '(a, q) := assume a p alt in
              if bool_decide (q ∈ parts) then (key, value) :: select n parts kc vc records' a
              else if canAssumePartition a && (5000 <? assumedFor a)%Z then []
              else select n parts kc vc records' a
          end
      end
  end.

Definition file_log (n : Z) (parts : gset Z) (file : opened_file) : log :=
  match file with
  | Opened r => select n parts (rd_keyClass r) (rd_valueClass r) (rd_records r) no_assumption
  | _ => []
  end.

(** [select] and [file_log] restate the loop of [addFileKeys] without the
    store; [addFile_adds] shows that a file that loads adds its [file_log]. *)

Section Build_props.
Context {D : Disk} {L : DiskLaws D} {SP : SyncPool HashIter} {U : Uuid} {MZ : MapOrder Z}.

Lemma adds_app l1 l2 s w s1 w1 :
  adds s l1 w = Some ((s1, None), w1) -> adds s (l1 ++ l2) w = adds s1 l2 w1.
Proof.
  revert s w. induction l1 as [|[k v] l1 IH]; intros s w H; cbn in *.
  { cbv [mret GoM_ret] in H. by simplify_eq. }
  rewrite GoM_bind_eq in H |- *. destruct (Add s k v w) as [[[s2 [e|]] w2]|]; [done| |done]. by apply IH.
Qed.

(** The store never fails with the sentinel that skips a file. *)
Lemma Add_error s k v w s' e w' : Add s k v w = Some ((s', Some e), w') -> e ≠ errWrongPartition.
Proof.
  unfold Add, keyPartition, mbind, GoM_bind, mret, GoM_ret, bw_add, newBlock. intros H ->.
  repeat case_match; simplify_eq/=; repeat case_match; simplify_eq/=;
    match goal with HP : Put _ _ _ = (_, Some _) |- _ => by apply Put_err in HP as [? _] end.
Qed.

(** A file that is read to its end, or skipped, has added its selection. *)
Lemma addFileKeys_adds n parts r records a s w s' err w' :
  addFileKeys n parts r records a s w = Some ((s', err), w') ->
  err = None ∨ err = Some errWrongPartition ->
  adds s (select n parts (rd_keyClass r) (rd_valueClass r) records a) w = Some ((s', None), w').
Proof.
  intros H Herr. revert a s w H. induction records as [|kv records IH]; intros a s w H; cbn in *.
  { cbv [mret GoM_ret] in H |- *. by simplify_eq. }
  destruct (unwrapKeyValue _ _ kv) as [[key value]|e] eqn:Eu.
  2: { cbv [mret GoM_ret] in H. simplify_eq. destruct Herr as [|Herr]; [done|]. simplify_eq.
       unfold unwrapKeyValue in Eu. repeat case_match; done. }
  destruct (KeyPartition key n) as [[p alt]|]; [|done]. cbn in H.
  destruct (assume a p alt) as [a' q]. case_bool_decide.
  - rewrite GoM_bind_eq in H. cbn. rewrite GoM_bind_eq.
    destruct (Add s key value w) as [[[s1 [e|]] w1]|] eqn:Ea; [| |done]; [|by apply IH].
    cbv [mret GoM_ret] in H. simplify_eq. destruct Herr as [|Herr]; [done|]. simplify_eq.
    by apply Add_error in Ea.
  - case_match; [cbv [mret GoM_ret]; by simplify_eq|by apply IH].
Qed.

Lemma addFile_adds n file parts s w s' w' :
  addFile n file parts s w = Some ((s', None), w') -> adds s (file_log n parts file) w = Some ((s', None), w').
Proof.
  intros H. destruct file as [e|e|r]; [done..|]. cbn in H. rewrite GoM_bind_eq in H.
  destruct (addFileKeys _ _ _ _ _ _ _) as [[[s1 err] w1]|] eqn:E; [|done].
  assert ((s1, w1) = (s', w') ∧ (err = None ∨ err = Some errWrongPartition)) as [? Herr].
  { cbv [mret GoM_ret] in H. destruct err as [e|]; [case_bool_decide; [|done]|]; simplify_eq; auto. }
  simplify_eq. by eapply addFileKeys_adds.
Qed.

Lemma addFiles_loop_adds n files parts s w s' w' :
  addFiles_loop n files parts s w = Some ((s', None), w') ->
  adds s (files.*2 ≫= file_log n parts) w = Some ((s', None), w').
Proof.
  revert s w. induction files as [|[canceled file] files IH]; intros s w H; cbn in *.
  { cbv [mret GoM_ret] in H |- *. done. }
  destruct canceled; [done|]. rewrite GoM_bind_eq in H.
  destruct (addFile n file parts s w) as [[[s1 [e|]] w1]|] eqn:E; [done| |done].
  apply addFile_adds in E. erewrite adds_app by exact E. by apply IH.
Qed.
End Build_props.

(** ** Cancelling

    Only a poll of the cancel channel makes a build end as cancelled. *)
Section Cancel.
Context {D : Disk} {L : DiskLaws D} {SP : SyncPool HashIter} {U : Uuid} {MZ : MapOrder Z}.

Lemma addFiles_loop_canceled n files parts s (w : world) s' w' :
  addFiles_loop n files parts s w = Some ((s', Some errCanceled), w') -> ∃ f, (true, f) ∈ files.
Proof.
  revert s w. induction files as [|[[] file] files IH]; intros s w H; cbn in H; [done|by exists file; left|].
  rewrite GoM_bind_eq in H. destruct (addFile n file parts s w) as [[[s1 [e|]] w1]|] eqn:E; [| |done].
  - cbv [mret GoM_ret] in H. simplify_eq. exfalso. destruct file as [e|e|r]; cbn in E; [done..|].
    rewrite GoM_bind_eq in E. cbv [mret GoM_ret] in E. repeat case_match; simplify_eq.
  - apply IH in H as [f Hf]. exists f. by right.
Qed.

(** Saving does not fail with the sentinel either. *)
Lemma save_blocks_foreign l s (w : world) s' e w' :
  save_blocks l s w = Some ((s', Some e), w') -> e ≠ errCanceled.
Proof.
  revert s w. induction l as [|[p bw] l IH]; intros s w H; cbn in H; [done|].
  rewrite GoM_bind_eq in H. destruct (bw_save bw w) as [[[b|e1] w1]|] eqn:E; [by eapply IH| |done].
  cbv [mret GoM_ret] in H. simplify_eq. unfold bw_save, openReader, newIterPool, on_disk, mbind, GoM_bind, mret, GoM_ret in E.
  repeat case_match; simplify_eq/=; try done;
    match goal with
    | HP : WriteHashFile _ _ _ = (Some _, _) |- _ => by apply WriteHashFile_err in HP as [_ ?]
    | HP : LogWriter_Close _ _ = (Some _, _) |- _ => by apply LogWriter_Close_err in HP as [_ ?]
    end.
Qed.

Lemma addFiles_canceled n files parts sel s (w : world) s' w' :
  addFiles n files parts sel s w = Some ((s', Some errCanceled), w') -> ∃ f, (true, f) ∈ files.
Proof.
  unfold addFiles. destruct files as [|f files]; [done|]. rewrite GoM_bind_eq.
  destruct (addFiles_loop _ _ _ _ _) as [[[s1 [e|]] w1]|] eqn:E; [| |done].
  - cbv [mret GoM_ret]. intros ?. simplify_eq. by eapply addFiles_loop_canceled.
  - unfold Save. rewrite GoM_bind_eq. destruct (save_blocks _ _ _) as [[[s2 [e|]] w2]|] eqn:Es; [| |done].
    + cbv [mret GoM_ret]. intros ?. simplify_eq. by apply save_blocks_foreign in Es.
    + rewrite GoM_bind_eq. unfold on_disk. destruct (writeManifest _ _ _) as [e d] eqn:Ew.
      cbv [mret GoM_ret]. intros ?. simplify_eq. by apply os_WriteFile_err in Ew as [_ ?].
Qed.
End Cancel.

(** ** Skipping a file *)

(** Record [kv] of a file may belong to partition [q]. *)
Definition may_be (n q : Z) (kv : string * string) : Prop :=
  ∃ p alt, KeyPartition kv.1 n = Some (p, alt) ∧ (p = q ∨ alt = q).

(** Record [kv] is of a wanted partition, beyond doubt. *)
Definition wanted (n : Z) (parts : gset Z) (kv : string * string) : Prop :=
  ∃ p, KeyPartition kv.1 n = Some (p, p) ∧ p ∈ parts.

#[global] Instance wanted_dec n parts kv : Decision (wanted n parts kv).
Proof.
  unfold wanted. destruct (KeyPartition kv.1 n) as [[p alt]|].
  - destruct (decide (p = alt ∧ p ∈ parts)) as [[<- ?]|Hn]; [left; by exists p|].
    right. intros (p' & ? & ?). simplify_eq. by apply Hn.
  - right. by intros (p' & ? & _).
Defined.

(** The first records of a file, 5002 or more, may all be of one partition
    that is not wanted. *)
Definition skippable (n : Z) (parts : gset Z) (recs : log) : Prop :=
  ∃ q m, (q ∉ parts) ∧ (5001 < Z.of_nat m)%Z ∧ (m <= length recs)%nat ∧ Forall (may_be n q) (take m recs).

(** What the guess says of the records [seen] so far. *)
Definition guess_ok (n : Z) (seen : log) (a : assumption) : Prop :=
  canAssumePartition a = true ->
  (assumedPartition a = -1 ∧ seen = [] ∧ assumedFor a = 0)%Z
  ∨ (Forall (may_be n (assumedPartition a)) seen ∧ (assumedFor a + 1 <= Z.of_nat (length seen))%Z
     ∧ (0 <= assumedPartition a)%Z).

Lemma assume_ok n seen a key value p alt a' q :
  guess_ok n seen a -> KeyPartition key n = Some (p, alt) -> (0 <= p)%Z -> assume a p alt = (a', q) ->
  guess_ok n (seen ++ [(key, value)])%list a' ∧ (q = p ∨ q = alt)
  ∧ (canAssumePartition a' = true -> q = assumedPartition a').
Proof.
  intros Hg HK Hp Ha. unfold assume in Ha. destruct (canAssumePartition a) eqn:Ec; [|simplify_eq; rewrite Ec; split_and!; [by intros ?; congruence|by left|done]].
  unfold guess_ok in Hg |- *. rewrite Ec in Hg. specialize (Hg eq_refl).
  assert (∀ q', (p = q' ∨ alt = q') -> may_be n q' (key, value)) as Hm by (intros q' ?; by exists p, alt).
  rewrite length_app, Forall_app, Forall_singleton. cbn [length].
  repeat case_bool_decide; simplify_eq/=; split_and!; try (by left); try (by right); try done; intros _; right.
  - destruct Hg as [(_ & -> & ->)|(HF & Hl & Hpos)]; [|lia]. split_and!; [constructor|apply Hm; by left|cbn; lia|done].
  - destruct Hg as [(? & _)|(HF & Hl & Hpos)]; [done|]. split_and!; [done|apply Hm; by right|lia|done].
  - destruct Hg as [(? & _)|(HF & Hl & Hpos)]; [done|]. split_and!; [done|apply Hm; by left|lia|done].
Qed.

Lemma KeyPartition_total key n :
  (0 < n < 2 ^ 62)%Z -> ∃ p alt, KeyPartition key n = Some (p, alt) ∧ (0 <= p)%Z.
Proof.
  intros Hn. rewrite KeyPartition_normal by done. eexists _, _. split; [done|].
  apply hadoop_partition_bound. lia.
Qed.

(** A record that is passed over is not wanted beyond doubt. *)
Lemma passed_over n parts key value p alt q :
  KeyPartition key n = Some (p, alt) -> q = p ∨ q = alt -> q ∉ parts -> ¬ wanted n parts (key, value).
Proof. intros HK Hq Hin (p' & HK' & Hp'). cbn in HK'. simplify_eq. by destruct Hq as [->| ->]. Qed.

(** Where the loop gives a file up, the guess has held for long enough. *)
Lemma abandon n parts seen key value recs a q :
  guess_ok n (seen ++ [(key, value)])%list a -> (canAssumePartition a = true -> q = assumedPartition a) ->
  q ∉ parts -> canAssumePartition a && (5000 <? assumedFor a)%Z = true ->
  skippable n parts (seen ++ (key, value) :: recs)%list.
Proof.
  intros Hg Hcan Hin [Ecan Efor%Z.ltb_lt]%andb_true_iff.
  exists q, (length (seen ++ [(key, value)])%list). specialize (Hcan Ecan). subst q.
  destruct (Hg Ecan) as [(_ & Hnil & _)|(HF & Hl & _)]; [by destruct seen|].
  change ((key, value) :: recs) with ([(key, value)] ++ recs)%list. rewrite (assoc_L (++)%list).
  split_and!; [done|lia|rewrite (length_app _ recs); lia|by rewrite take_app_length].
Qed.

(** The selection of a file whose records all unwrap, continued after [seen]. *)
Lemma select_spec n parts kc vc records recs seen a :
  (0 < n < 2 ^ 62)%Z -> guess_ok n seen a ->
  Forall2 (λ kv r, unwrapKeyValue kc vc kv = Ok r) records recs ->
  (∀ kv, kv ∈ select n parts kc vc records a -> kv ∈ recs ∧ ∃ q, q ∈ parts ∧ may_be n q kv)
  ∧ ((∀ kv, kv ∈ recs -> wanted n parts kv -> kv ∈ select n parts kc vc records a)
     ∨ skippable n parts (seen ++ recs)%list).
Proof.
  intros Hn Hg Hall. revert seen a Hg. induction Hall as [|kv [key value] records recs Hu Hall IH]; intros seen a Hg.
  { split; [by intros kv ?%not_elem_of_nil|]. left. by intros kv ?%not_elem_of_nil. }
  cbn [select]. rewrite Hu. destruct (KeyPartition_total key n Hn) as (p & alt & HK & Hp). rewrite HK.
  destruct (assume a p alt) as [a' q] eqn:Ea.
  destruct (assume_ok n seen a key value p alt a' q Hg HK Hp Ea) as (Hg' & Hq & Hcan).
  assert (may_be n q (key, value)) as Hm by (exists p, alt; naive_solver).
  specialize (IH (seen ++ [(key, value)])%list a' Hg'). rewrite <- (assoc_L (++)%list) in IH. cbn in IH.
  destruct IH as [IHs IHc]. case_bool_decide as Hin.
  - split.
    + intros x [->|Hx]%elem_of_cons; [split; [left|by exists q]|]. destruct (IHs x Hx). split; [by right|done].
    + destruct IHc as [IHc|?]; [left|by right]. intros x [->|Hx]%elem_of_cons Hw; [left|right; by apply IHc].
  - destruct (canAssumePartition a' && _) eqn:Eskip.
    + split; [by intros x ?%not_elem_of_nil|]. right. by eapply abandon.
    + split; [intros x Hx; destruct (IHs x Hx); split; [by right|done]|].
      destruct IHc as [IHc|?]; [left|by right]. intros x [->|Hx]%elem_of_cons Hw; [|by apply IHc].
      by eapply passed_over in Hw.
Qed.

(** What is kept of a file whose records unwrap are records of the file that
    may belong to a wanted partition, and every record whose partition is
    wanted beyond doubt, unless the file is skipped. *)
Lemma select_complete n parts r recs :
  (0 < n < 2 ^ 62)%Z ->
  Forall2 (λ kv x, unwrapKeyValue (rd_keyClass r) (rd_valueClass r) kv = Ok x) (rd_records r) recs ->
  (∀ kv, kv ∈ file_log n parts (Opened r) -> kv ∈ recs ∧ ∃ q, q ∈ parts ∧ may_be n q kv)
  ∧ ((∀ kv, kv ∈ recs -> wanted n parts kv -> kv ∈ file_log n parts (Opened r)) ∨ skippable n parts recs).
Proof.
  intros Hn Hall. apply (select_spec n parts _ _ _ recs [] no_assumption); [done| |done].
  intros _. left. done.
Qed.

(** ** The theorems *)

Section Theorems.
Context {D : Disk} {L : DiskLaws D} {SP : SyncPool HashIter} {U : Uuid} {MZ : MapOrder Z}.

(** [Add] does not panic when the number of partitions is sane. *)
Lemma Add_total s k v w : (0 < bs_numPartitions s < 2 ^ 62)%Z -> ∃ s' e w', Add s k v w = Some ((s', e), w')
  ∧ bs_numPartitions s' = bs_numPartitions s.
Proof.
  intros Hn. unfold Add, keyPartition, newBlock, mbind, GoM_bind, mret, GoM_ret.
  destruct (KeyPartition_total k _ Hn) as (p & alt & -> & _). cbn.
  repeat case_match; simplify_eq/=; by do 3 eexists.
Qed.

Lemma addFileKeys_total n parts r records a s w :
  (0 < n < 2 ^ 62)%Z -> bs_numPartitions s = n -> ∃ s' e w', addFileKeys n parts r records a s w = Some ((s', e), w').
Proof.
  intros Hn. revert a s w. induction records as [|kv records IH]; intros a s w Hs; cbn; [by do 3 eexists|].
  destruct (unwrapKeyValue _ _ kv) as [[key value]|e]; [|by do 3 eexists].
  destruct (KeyPartition_total key n Hn) as (p & alt & -> & _). cbn. destruct (assume a p alt) as [a' q].
  case_bool_decide; [|case_match; [by do 3 eexists|by apply IH]].
  rewrite GoM_bind_eq. destruct (Add_total s key value w) as (s1 & e & w1 & -> & Hs1); [by rewrite Hs|].
  destruct e as [e|]; [by do 3 eexists|]. apply IH. congruence.
Qed.

(** The loop of [addFileKeys], continued after the records [seen]: which
    records it adds, in which order, and how it ends. *)
Lemma addFileKeys_spec n parts r records recs seen a s w s' err w' :
  (0 < n < 2 ^ 62)%Z -> guess_ok n seen a ->
  Forall2 (λ kv x, unwrapKeyValue (rd_keyClass r) (rd_valueClass r) kv = Ok x) records recs ->
  addFileKeys n parts r records a s w = Some ((s', err), w') ->
  ∃ kept : log, kept `sublist_of` recs ∧ Forall (λ kv, ∃ q, q ∈ parts ∧ may_be n q kv) kept
  ∧ ((∃ e, err = Some e ∧ e ≠ errWrongPartition ∧ adds s kept w = Some ((s', Some e), w'))
     ∨ (adds s kept w = Some ((s', None), w')
        ∧ ((err = rd_err r ∧ filter (wanted n parts) recs `sublist_of` kept)
           ∨ (err = Some errWrongPartition ∧ skippable n parts (seen ++ recs)%list)))).
Proof.
  intros Hn Hg Hall. revert seen a Hg s w. induction Hall as [|kv [key value] records recs Hu Hall IH]; intros seen a Hg s w H.
  { cbn in H. cbv [mret GoM_ret] in H. simplify_eq. exists []. split; [done|]. split; [done|]. right. split; [done|by left]. }
  cbn [addFileKeys] in H. rewrite Hu in H. destruct (KeyPartition_total key n Hn) as (p & alt & HK & Hp).
  rewrite HK in H. cbn in H. destruct (assume a p alt) as [a' q] eqn:Ea.
  destruct (assume_ok n seen a key value p alt a' q Hg HK Hp Ea) as (Hg' & Hq & Hcan).
  assert (may_be n q (key, value)) as Hm by (exists p, alt; naive_solver).
  specialize (IH (seen ++ [(key, value)])%list a' Hg'). rewrite <- (assoc_L (++)%list) in IH. cbn in IH.
  case_bool_decide as Hin.
  - rewrite GoM_bind_eq in H. destruct (Add s key value w) as [[[s1 [e|]] w1]|] eqn:Ea1; [| |done].
    + cbv [mret GoM_ret] in H. simplify_eq. exists [(key, value)]. cbn [adds]. rewrite GoM_bind_eq, Ea1.
      split; [apply sublist_skip, sublist_nil_l|]. split; [repeat constructor; by exists q|].
      left. exists e. split; [done|]. split; [by eapply Add_error|done].
    + apply IH in H as (kept & Hsub & HF & Hend). exists ((key, value) :: kept). cbn [adds]. rewrite GoM_bind_eq, Ea1.
      split; [by apply sublist_skip|]. split; [constructor; [by exists q|done]|].
      destruct Hend as [?|(Hadds & Hend)]; [by left|right]. split; [done|].
      destruct Hend as [[He Hw]|?]; [left|by right]. split; [done|]. rewrite filter_cons.
      case_decide; [by apply sublist_skip|by apply sublist_cons].
  - destruct (canAssumePartition a' && _) eqn:Eskip.
    + simplify_eq. exists []. split; [apply sublist_nil_l|]. split; [done|]. right. split; [done|].
      right. split; [done|]. by eapply abandon.
    + apply IH in H as (kept & Hsub & HF & Hend). exists kept. split; [by apply sublist_cons|]. split; [done|].
      rewrite filter_cons_False by by eapply passed_over. done.
Qed.

(** C9: loading one file loses no record of a wanted partition.  Take a file
    whose records unwrap, opened by a build with as many partitions as its
    store.  [addFile] does not panic; it adds to the store, in the order of
    the file, records of the file that may belong to a wanted partition.  It
    returns without an error either after the whole file, which the reader
    read without an error, when every record whose partition is wanted beyond
    doubt was added as often as it occurs; or when it skips the file, and then
    the first 5002 records or more may all belong to one partition that is not
    wanted.  It fails with the error of the [Add] that failed, or, having
    added all that was wanted, with the reader's. *)
Theorem addFile_complete n parts r recs s w :
  (0 < n < 2 ^ 62)%Z -> bs_numPartitions s = n -> rd_err r ≠ Some errWrongPartition ->
  Forall2 (λ kv x, unwrapKeyValue (rd_keyClass r) (rd_valueClass r) kv = Ok x) (rd_records r) recs ->
  ∃ s' err w', addFile n (Opened r) parts s w = Some ((s', err), w')
  ∧ ∃ kept : log, kept `sublist_of` recs ∧ Forall (λ kv, ∃ q, q ∈ parts ∧ may_be n q kv) kept
  ∧ match err with
    | None => adds s kept w = Some ((s', None), w')
              ∧ ((rd_err r = None ∧ filter (wanted n parts) recs `sublist_of` kept) ∨ skippable n parts recs)
    | Some e => ∃ e', e = Errorf "reading" e'
                ∧ (adds s kept w = Some ((s', Some e'), w')
                   ∨ (rd_err r = Some e' ∧ adds s kept w = Some ((s', None), w')
                      ∧ filter (wanted n parts) recs `sublist_of` kept))
    end.
Proof.
  intros Hn Hs Hr Hall.
  destruct (addFileKeys_total n parts r (rd_records r) no_assumption s w Hn Hs) as (s' & err & w' & H).
  cbn [addFile]. rewrite GoM_bind_eq, H.
  apply (addFileKeys_spec _ _ _ _ recs []) in H as (kept & Hsub & HF & Hend); [|done| |done].
  2: { intros _. left. done. }
  destruct Hend as [(e & -> & Hne & Hadds)|(Hadds & [[-> Hw]|[-> Hsk]])].
  - rewrite bool_decide_eq_false_2 by done. do 3 eexists. split; [reflexivity|]. exists kept. naive_solver.
  - destruct (rd_err r) as [e|] eqn:Er.
    + rewrite bool_decide_eq_false_2 by congruence. do 3 eexists. split; [reflexivity|]. exists kept. naive_solver.
    + do 3 eexists. split; [reflexivity|]. exists kept. naive_solver.
  - rewrite bool_decide_eq_true_2 by done. do 3 eexists. split; [reflexivity|]. exists kept. naive_solver.
Qed.

Lemma addFiles_adds path n c sz (w0 : world) files parts selected s2 w2 :
  path ≠ "" -> (0 < n < 2 ^ 62)%Z -> files ≠ [] ->
  addFiles n files parts selected (New path n c sz) w0 = Some ((s2, None), w2) ->
  ∃ s1 w1, adds (New path n c sz) (files.*2 ≫= file_log n parts) w0 = Some ((s1, None), w1)
  ∧ Save s1 selected w1 = Some ((s2, None), w2).
Proof.
  intros Hp Hn Hne H. unfold addFiles in H. destruct files as [|f files]; [done|].
  rewrite GoM_bind_eq in H.
  destruct (addFiles_loop _ _ _ _ _) as [[[s1 [e|]] w1]|] eqn:E; [done| |done].
  apply addFiles_loop_adds in E. by exists s1, w1.
Qed.

(** A version serves what it loaded.  When [addFiles] returns without an
    error, every lookup in the saved store returns without a panic and agrees
    with the map from each key to its last value among the records kept from
    the files, in the order of the files; [ErrPartitionNotFound] is returned
    only if nothing was kept for either partition of the key. *)
Theorem addFiles_lookup path n c sz (w0 : world) files parts selected s2 w2 key :
  path ≠ "" -> (0 < n < 2 ^ 62)%Z -> files ≠ [] ->
  addFiles n files parts selected (New path n c sz) w0 = Some ((s2, None), w2) ->
  let kept := files.*2 ≫= file_log n parts in
  ∃ r w3, Get s2 key w2 = Some (r, w3)
  ∧ match r with
    | Ok rec => Record_value <$> rec = log_map kept !! key ∧ from_option ValueLen_ok True rec
    | Err e => library_error key e
               ∨ (e = ErrPartitionNotFound
                  ∧ ∃ p a, KeyPartition key n = Some (p, a)
                    ∧ ∀ kv, kv ∈ kept -> ¬ in_part n p kv ∧ ¬ in_part n a kv)
    end.
Proof.
  intros Hp Hn Hne H kept. destruct (addFiles_adds _ _ _ _ _ _ _ _ _ _ Hp Hn Hne H) as (s1 & w1 & Hadds & Hsave).
  destruct (holds_lookup n kept s2 w2 key) as (r & w3 & Hget & _ & Hres); [by eapply built_holds|].
  exists r, w3. split; [done|]. destruct r; [|done]. split; apply Hres.
Qed.

Lemma Revert_empties s (w : world) s' w' : Revert s w = Some (s', w') -> s' = with_newBlocks s ∅.
Proof.
  unfold Revert. rewrite GoM_bind_eq. destruct (revert_blocks _ w) as [[[] w1]|]; [|done].
  cbv [mret GoM_ret]. intros ?. by simplify_eq.
Qed.

Context {MS : MapOrder string} {MP : MapOrder peer} {C : Coord} {CL : CoordLaws C}.

(** C34: how a build ends.  A build that has succeeded once is not repeated.
    Otherwise either every selected partition is local afterwards, nothing is
    needed any more and the version is built; or it is not built, its
    partitions are untouched, the store has no unsaved block, and the state is
    ERROR unless the build was cancelled.  A version in state ERROR stays in
    it, even when a retry succeeds. *)
Theorem build_outcome mkdir files vs w z vs' w' z' :
  node_ok (vs_partitions vs) z -> (∀ i, i ∈ pt_selected (vs_partitions vs) -> in_int i) ->
  newBlocks (vs_blockStore vs) = ∅ ->
  build mkdir files vs (w, z) = Some (vs', (w', z')) ->
  ((vs_built vs = true ∧ vs' = vs)
   ∨ (vs_built vs' = true ∧ needed (vs_partitions vs') = ∅ ∧ vs_state vs' = vs_state vs
      ∧ ∀ i, i ∈ pt_selected (vs_partitions vs) -> have (vs_partitions vs') i = true)
   ∨ (vs_built vs' = false ∧ vs_partitions vs' = vs_partitions vs ∧ newBlocks (vs_blockStore vs') = ∅
      ∧ (vs_state vs' = versionError ∨ (vs_state vs' = vs_state vs ∧ ∃ f, (true, f) ∈ files))))
  ∧ (vs_state vs = versionError -> vs_state vs' = versionError).
Proof.
  intros Hn Hsel Hnb H. unfold build in H. destruct (vs_built vs) eqn:Eb.
  { cbv [mret GoM_ret] in H. simplify_eq. split; [by left|done]. }
  case_bool_decide as Hneed.
  { cbv [mret GoM_ret] in H. simplify_eq/=. split; [right; left|done]. split_and!; [done..|].
    intros i Hi. unfold have. apply bool_decide_eq_true. destruct (decide (i ∈ pt_local (vs_partitions vs))); [done|].
    assert (i ∈ needed (vs_partitions vs)) as Hin by by apply elem_of_filter. set_solver. }
  destruct mkdir as [e|].
  { cbv [mret GoM_ret] in H. simplify_eq. split; [right; right|by intros Hs; cbn; rewrite Hs].
    cbn. split_and!; [done..|]. left. by case_decide. }
  rewrite GoM_bind_eq in H. unfold on_world at 1 in H. cbn [fst snd] in H.
  destruct (addFiles _ _ _ _ _ w) as [[[s err] w1]|] eqn:Ea; [|done]. cbn in H. destruct err as [e|].
  - rewrite GoM_bind_eq in H. unfold on_world in H. cbn [fst snd] in H.
    match type of H with context [Revert ?st w1] => destruct (Revert st w1) as [[s2 w2]|] eqn:Er; [|done] end.
    apply Revert_empties in Er. cbv [mret GoM_ret] in H. cbn in H. simplify_eq/=.
    split; [right; right|intros Hs; case_bool_decide; cbn; by rewrite Hs].
    split_and!; [by case_bool_decide|by case_bool_decide|done|].
    case_bool_decide as Hc; [left; cbn; by case_decide|right]. split; [done|].
    subst e. by eapply addFiles_canceled.
  - rewrite GoM_bind_eq in H. unfold on_zk in H. cbn [fst snd] in H.
    destruct (updateLocal_ok (vs_partitions vs) z (needed (vs_partitions vs)) Hn) as (p & z2 & Hu & _ & Hev & Hl & _).
    { intros i [_ Hi]%elem_of_filter. auto. }
    cbn in H. rewrite Hu in H. cbn in H. cbv [mret GoM_ret] in H. simplify_eq/=. split; [right; left|done].
    destruct Hev as (_ & _ & _ & Hs & _).
    assert (∀ i, i ∈ pt_selected (vs_partitions vs) -> i ∈ pt_local p) as Hall.
    { intros i Hi. rewrite Hl. apply elem_of_union. destruct (decide (i ∈ pt_local (vs_partitions vs))); [by left|right].
      by apply elem_of_filter. }
    split_and!; [done| |done|by intros i Hi; apply bool_decide_eq_true, Hall].
    apply set_eq. intros i. unfold needed. rewrite elem_of_filter, Hs. set_solver.
Qed.
End Theorems.

(** ** Witnesses: a version of two files, on a node without peers *)

Module BuildExample.
Import BlockExample BlockStoreExample.
#[local] Existing Instances RingExample.order_string PartitionsExample.order_peer SetCoord.coord SetCoord.laws.

Definition records : log := [("Alice", "Practice"); ("Bob", "Hope"); ("Alice", "Cooper")].

Definition reader : Reader :=
  {| rd_keyClass := TextClassName; rd_valueClass := BytesWritableClassName;
     rd_records := (λ kv, (write_text kv.1, write_bytes kv.2)) <$> records; rd_err := None |}.

Definition files : list (bool * opened_file) := [(false, Opened reader); (false, Opened reader)].
Definition parts : gset Z := {[ 0; 1 ]}%Z.

Lemma addFile_complete_witness :
  ∃ s' err w', addFile 2 (Opened reader) parts (New "/data" 2 SnappyCompression 4096) w0 = Some ((s', err), w')
  ∧ ∃ kept : log, kept `sublist_of` records ∧ Forall (λ kv, ∃ q, q ∈ parts ∧ may_be 2 q kv) kept
  ∧ match err with
    | None => adds (New "/data" 2 SnappyCompression 4096) kept w0 = Some ((s', None), w')
              ∧ ((rd_err reader = None ∧ filter (wanted 2 parts) records `sublist_of` kept) ∨ skippable 2 parts records)
    | Some e => ∃ e', e = Errorf "reading" e'
                ∧ (adds (New "/data" 2 SnappyCompression 4096) kept w0 = Some ((s', Some e'), w')
                   ∨ (rd_err reader = Some e' ∧ adds (New "/data" 2 SnappyCompression 4096) kept w0 = Some ((s', None), w')
                      ∧ filter (wanted 2 parts) records `sublist_of` kept))
    end.
Proof.
  apply (addFile_complete 2 parts reader records); [lia|done|done|].
  repeat (constructor; [reflexivity|]). constructor.
Defined.

(** The store is opened anew and filled, and a key is looked up. *)
Definition load : option string :=
  match addFiles 2 files parts parts (New "/data" 2 SnappyCompression 4096) w0 with
  | Some ((s2, None), w2) =>
      match Get s2 "Alice" w2 with Some (Ok (Some r), _) => Some (Record_value r) | _ => None end
  | _ => None
  end.

Lemma load_ok : load = Some "Cooper".
Proof. vm_compute. reflexivity. Qed.

Lemma load_spec : ∃ s2 w2, addFiles 2 files parts parts (New "/data" 2 SnappyCompression 4096) w0 = Some ((s2, None), w2).
Proof.
  pose proof load_ok as H. unfold load in H.
  destruct (addFiles _ _ _ _ _ _) as [[[s2 [e|]] w2]|]; [done| |done]. by eexists _, _.
Qed.

Lemma addFiles_lookup_witness :
  ∃ s2 w2, addFiles 2 files parts parts (New "/data" 2 SnappyCompression 4096) w0 = Some ((s2, None), w2)
  ∧ ∃ r w3, Get s2 "Bob" w2 = Some (r, w3)
  ∧ match r with
    | Ok rec => Record_value <$> rec = log_map (files.*2 ≫= file_log 2 parts) !! "Bob" ∧ from_option ValueLen_ok True rec
    | Err e => library_error "Bob" e
               ∨ (e = ErrPartitionNotFound
                  ∧ ∃ p a, KeyPartition "Bob" 2 = Some (p, a)
                    ∧ ∀ kv, kv ∈ files.*2 ≫= file_log 2 parts -> ¬ in_part 2 p kv ∧ ¬ in_part 2 a kv)
    end.
Proof.
  destruct load_spec as (s2 & w2 & H). exists s2, w2. split; [exact H|].
  apply (addFiles_lookup "/data" 2 SnappyCompression 4096 w0 files parts parts s2 w2 "Bob"); [done|lia|done|exact H].
Defined.

Definition vs0 : version :=
  {| vs_path := "/data"; vs_name := "v1"; vs_numPartitions := 2;
     vs_blockStore := New "/data" 2 SnappyCompression 4096;
     vs_partitions := default PartitionsExample.zero
       (fst <$> watchPartitions None "db" "v1" 2 2 [] PartitionsExample.z0);
     vs_state := versionBuilding; vs_ready := false; vs_built := false |}.

Definition built : option (bool * bool * nat) :=
  match build None files vs0 (w0, PartitionsExample.z0) with
  | Some (vs, _) => Some (vs_built vs, pt_ready (vs_partitions vs), length (Blocks (vs_blockStore vs)))
  | None => None
  end.

Lemma built_ok : built = Some (true, true, 2%nat).
Proof. vm_compute. reflexivity. Qed.

Lemma vs0_ok : node_ok (vs_partitions vs0) PartitionsExample.z0.
Proof.
  assert (watchPartitions None "db" "v1" 2 2 ((λ x, partition_entry x.2 x.1) <$> []) PartitionsExample.z0
          = Some (vs_partitions vs0, PartitionsExample.z0)) as H by (vm_compute; reflexivity).
  by apply watchPartitions_ok in H as [? _].
Qed.

Lemma build_outcome_witness :
  ∃ vs' w' z', build None files vs0 (w0, PartitionsExample.z0) = Some (vs', (w', z'))
  ∧ ((vs_built vs0 = true ∧ vs' = vs0)
     ∨ (vs_built vs' = true ∧ needed (vs_partitions vs') = ∅ ∧ vs_state vs' = vs_state vs0
        ∧ ∀ i, i ∈ pt_selected (vs_partitions vs0) -> have (vs_partitions vs') i = true)
     ∨ (vs_built vs' = false ∧ vs_partitions vs' = vs_partitions vs0 ∧ newBlocks (vs_blockStore vs') = ∅
        ∧ (vs_state vs' = versionError ∨ (vs_state vs' = vs_state vs0 ∧ ∃ f, (true, f) ∈ files))))
  ∧ (vs_state vs0 = versionError -> vs_state vs' = versionError).
Proof.
  pose proof built_ok as H. unfold built in H.
  destruct (build None files vs0 (w0, PartitionsExample.z0)) as [[vs' [w' z']]|] eqn:E; [|done].
  exists vs', w', z'. split; [exact eq_refl|].
  apply (build_outcome None files vs0 w0 PartitionsExample.z0 vs' w' z'); [exact vs0_ok| |done|exact E].
  intros i Hi. assert (pt_selected (vs_partitions vs0) = {[ 1; 0 ]}%Z) as Hs by (vm_compute; reflexivity).
  rewrite Hs in Hi. apply (PartitionsExample.small_set [1; 0]%Z i); [set_solver +Hi|repeat constructor; lia].
Defined.
End BuildExample.
