(* ===== verification/VersionMux.v ===== *)
(** * version_mux.go: which version answers, and when one may be closed

    The mux maps names to prepared versions and holds the current one.  Each
    version handed to a request is counted in a [sync.WaitGroup] that the map
    entry points to; [remove] deletes the entry and waits for the count to drop
    to zero.  The wait groups and the timers are shared objects, so the state
    holds them in maps by address; the methods run under the lock and are one
    step each, except [remove], which gives the lock up between its phases and
    is a small machine.  [None] is a panic. *)

From Stdlib Require Import ZArith Lia String.
From stdpp Require Import base gmap sets list strings fin_maps relations.
From S2P Require Import Prelude.

Open Scope string_scope.
Set Default Proof Using "Type".

(** A pointer to a [version]: its address and the field that is read here. *)
Record vref := VRef { v_id : nat; v_name : string }.

#[global] Instance vref_eq_dec : EqDecision vref.
Proof. solve_decision. Defined.

Record versionReferenceCount := RC {
  rc_version : vref;
  rc_count : nat;                (** the address of the wait group *)
  rc_closeTimer : option nat;    (** the address of the timer *)
  rc_removing : bool;
}.

(** A timer: when it fires, and whether its channel holds a tick. *)
Record timer := { t_deadline : Z; t_fired : bool }.

Record versionMux := Mux {
  versions : gmap string versionReferenceCount;
  currentVersion : option versionReferenceCount;
  versionRemoveTimeout : Z;
  wgs : gmap nat Z;
  timers : gmap nat timer;
  clock : Z;
  next : nat;
}.

Definition defaultVersionRemoveTimeout : Z := 600000000000.

Definition newVersionMux (override : Z) : versionMux :=
  {| versions := ∅; currentVersion := None;
     versionRemoveTimeout := if (override =? 0)%Z then defaultVersionRemoveTimeout else override;
     wgs := ∅; timers := ∅; clock := 0; next := 0 |}.

Definition set_versions (m : versionMux) (v : gmap string versionReferenceCount) : versionMux :=
  Mux v (currentVersion m) (versionRemoveTimeout m) (wgs m) (timers m) (clock m) (next m).
Definition set_current (m : versionMux) (c : option versionReferenceCount) : versionMux :=
  Mux (versions m) c (versionRemoveTimeout m) (wgs m) (timers m) (clock m) (next m).
Definition set_wgs (m : versionMux) (w : gmap nat Z) : versionMux :=
  Mux (versions m) (currentVersion m) (versionRemoveTimeout m) w (timers m) (clock m) (next m).
Definition set_timers (m : versionMux) (t : gmap nat timer) : versionMux :=
  Mux (versions m) (currentVersion m) (versionRemoveTimeout m) (wgs m) t (clock m) (next m).

(** [WaitGroup.Add]: a negative counter panics. *)
Definition wg_Add (id : nat) (delta : Z) (m : versionMux) : option versionMux :=
  let c := (default 0 (wgs m !! id) + delta)%Z in
  if (c <? 0)%Z then None else Some (set_wgs m (<[id := c]> (wgs m))).

(** [Timer.Reset]: a tick that is already in the channel stays there. *)
Definition timer_Reset (id : nat) (d : Z) (m : versionMux) : versionMux :=
  match timers m !! id with
  | Some t => set_timers m (<[id := {| t_deadline := clock m + d; t_fired := t_fired t |}]> (timers m))
  | None => m
  end.

(** What [getCurrent] and [getVersion] do with the entry they find. *)
Definition acquire (vs : versionReferenceCount) : GoM versionMux (option vref) := λ m,
  m ← wg_Add (rc_count vs) 1 m;
  let m := match rc_closeTimer vs with
           | Some t => timer_Reset t (versionRemoveTimeout m) m
           | None => m
           end in
  Some (Some (rc_version vs), m).

Definition getCurrent : GoM versionMux (option vref) := λ m,
  match currentVersion m with
  | Some vs => acquire vs m
  | None => Some (None, m)
  end.

Definition getVersion (name : string) : GoM versionMux (option vref) := λ m,
  match versions m !! name with
  | Some vs => acquire vs m
  | None => Some (None, m)
  end.

Definition mux_getAll {MS : MapOrder string} (m : versionMux) : list vref :=
  (λ x, rc_version x.2) <$> range (versions m).

Definition release (v : option vref) : GoM versionMux unit := λ m,
  match v with
  | None => Some (tt, m)
  | Some v =>
      match versions m !! v_name v with
      | Some vs => m' ← wg_Add (rc_count vs) (-1) m; Some (tt, m')
      | None => Some (tt, m)
      end
  end.

(** Panics if a version of that name is prepared already. *)
Definition prepare (v : vref) : GoM versionMux unit := λ m,
  match versions m !! v_name v with
  | Some _ => None
  | None =>
      let wg := next m in
      Some (tt, {| versions := <[v_name v := RC v wg None false]> (versions m);
                   currentVersion := currentVersion m; versionRemoveTimeout := versionRemoveTimeout m;
                   wgs := <[wg := 0%Z]> (wgs m); timers := timers m; clock := clock m; next := S wg |})
  end.

Definition mustGet (v : vref) (m : versionMux) : option versionReferenceCount :=
  vs ← versions m !! v_name v;
  if bool_decide (rc_version vs = v) then Some vs else None.

Definition upgrade (v : vref) : GoM versionMux unit := λ m,
  vs ← mustGet v m; Some (tt, set_current m (Some vs)).

(** The phases of [remove]; [vs] is the local copy of the entry. *)
Inductive remover :=
  | RBegin (v : vref) (shouldWait : bool)
  | RArm (v : vref) (vs : versionReferenceCount)
  | RTimer (v : vref) (vs : versionReferenceCount) (t : nat)
  | RDelete (v : vref) (vs : versionReferenceCount)
  | RWait (v : vref) (vs : versionReferenceCount)
  | RReturned (v : option vref).

(** One phase of [remove]; [None] when it blocks, or has returned. *)
Definition remove_step (r : remover) (m : versionMux) : option (remover * versionMux) :=
  match r with
  | RBegin v shouldWait =>
      match versions m !! v_name v with
      | None => Some (RReturned None, m)
      | Some vs =>
          if rc_removing vs then Some (RReturned None, m)
          else
            let vs := RC (rc_version vs) (rc_count vs) (rc_closeTimer vs) true in
            Some (if shouldWait then RArm v vs else RDelete v vs, m)
      end
  | RArm v vs =>
      let t := next m in
      let vs := RC (rc_version vs) (rc_count vs) (Some t) (rc_removing vs) in
      Some (RTimer v vs t,
            {| versions := <[v_name v := vs]> (versions m);
               currentVersion := currentVersion m; versionRemoveTimeout := versionRemoveTimeout m;
               wgs := wgs m;
               timers := <[t := {| t_deadline := clock m + versionRemoveTimeout m; t_fired := false |}]> (timers m);
               clock := clock m; next := S t |})
  | RTimer v vs t =>
      match timers m !! t with
      | Some tm => if t_fired tm then Some (RDelete v vs, m) else None
      | None => None
      end
  | RDelete v vs => Some (RWait v vs, set_versions m (delete (v_name v) (versions m)))
  | RWait v vs => if (default 0 (wgs m !! rc_count vs) =? 0)%Z then Some (RReturned (Some v), m) else None
  | RReturned _ => None
  end.

(** The clock advances: the timers that are due fire. *)
Definition tick (d : Z) (m : versionMux) : versionMux :=
  let now := (clock m + d)%Z in
  {| versions := versions m; currentVersion := currentVersion m;
     versionRemoveTimeout := versionRemoveTimeout m; wgs := wgs m;
     timers := (λ t, {| t_deadline := t_deadline t; t_fired := t_fired t || (t_deadline t <=? now)%Z |}) <$> timers m;
     clock := now; next := next m |}.

(** ** A mux in use

    Requests that hold a version, at most one call of [remove] at a time
    ([db.cleanupLock]), and the names that were prepared so far. *)
Record sys := Sys {
  s_mux : versionMux;
  s_inflight : list vref;
  s_remover : option remover;
  s_known : gmap string vref;
}.

(** The version a call of [remove] is about, until it returns. *)
Definition target (r : option remover) : option vref :=
  match r with
  | Some (RBegin v _) | Some (RArm v _) | Some (RTimer v _ _) | Some (RDelete v _) | Some (RWait v _) => Some v
  | Some (RReturned _) | None => None
  end.

(** The mux does not check how it is used, so the rules carry the contract it
    needs, which its only user has to keep:
    - [sy_prepare]: a name is prepared once, even after its version was removed;
    - [sy_remove]: only one call of [remove] is in progress, and it is about a
      version that was prepared and is not the current one;
    - [sy_upgrade]: a version being removed does not become current.
    [Refresh.fine_refines_mux] shows that db.go keeps it as long as the lists of
    the backend are complete and the database is not closed;
    [RefreshExample.stale_list_panics] is a run outside of it. *)
Inductive sys_step : sys -> sys -> Prop :=
  | sy_current m l r k v m' :
      getCurrent m = Some (Some v, m') -> sys_step (Sys m l r k) (Sys m' (v :: l) r k)
  | sy_version name m l r k v m' :
      getVersion name m = Some (Some v, m') -> sys_step (Sys m l r k) (Sys m' (v :: l) r k)
  | sy_finish m l1 v l2 r k m' :
      release (Some v) m = Some (tt, m') -> sys_step (Sys m (l1 ++ v :: l2)%list r k) (Sys m' (l1 ++ l2)%list r k)
  | sy_prepare v m l r k m' :
      k !! v_name v = None -> prepare v m = Some (tt, m') ->
      sys_step (Sys m l r k) (Sys m' l r (<[v_name v := v]> k))
  | sy_upgrade v m l r k m' :
      target r ≠ Some v -> upgrade v m = Some (tt, m') -> sys_step (Sys m l r k) (Sys m' l r k)
  | sy_remove v w m l r k :
      target r = None -> k !! v_name v = Some v ->
      (∀ c, currentVersion m = Some c -> rc_version c ≠ v) ->
      sys_step (Sys m l r k) (Sys m l (Some (RBegin v w)) k)
  | sy_remover m l r k r' m' :
      remove_step r m = Some (r', m') -> sys_step (Sys m l (Some r) k) (Sys m' l (Some r') k)
  | sy_tick d m l r k :
      (0 <= d)%Z -> sys_step (Sys m l r k) (Sys (tick d m) l r k).

Definition sys_init (override : Z) : sys := Sys (newVersionMux override) [] None ∅.

(** How many requests hold [v]. *)
Definition held (v : vref) (l : list vref) : Z := Z.of_nat (length (filter (λ u, u = v) l)).

(** An entry of the map: known, and its wait group counts its requests. *)
Record entry_ok (m : versionMux) (l : list vref) (k : gmap string vref) (n : string)
    (vs : versionReferenceCount) : Prop := {
  en_known : k !! n = Some (rc_version vs);
  en_wg : (rc_count vs < next m)%nat;
  en_count : wgs m !! rc_count vs = Some (held (rc_version vs) l);
}.

Definition remover_ok (m : versionMux) (l : list vref) (k : gmap string vref) (r : option remover) : Prop :=
  match r with
  | Some (RBegin v _) => k !! v_name v = Some v
  | Some (RArm v vs) | Some (RTimer v vs _) | Some (RDelete v vs) =>
      k !! v_name v = Some v ∧ rc_version vs = v
      ∧ ∃ vs', versions m !! v_name v = Some vs' ∧ rc_count vs' = rc_count vs
  | Some (RWait v vs) =>
      k !! v_name v = Some v ∧ versions m !! v_name v = None ∧ (rc_count vs < next m)%nat
      ∧ (∀ n vs', versions m !! n = Some vs' -> rc_count vs' ≠ rc_count vs)
      ∧ ∃ c, wgs m !! rc_count vs = Some c ∧ (held v l <= c)%Z
  | Some (RReturned _) | None => True
  end.

Record sys_ok (s : sys) : Prop := {
  so_entry : map_Forall (entry_ok (s_mux s) (s_inflight s) (s_known s)) (versions (s_mux s));
  so_inj : ∀ n n' vs vs', versions (s_mux s) !! n = Some vs -> versions (s_mux s) !! n' = Some vs' ->
                          rc_count vs = rc_count vs' -> n = n';
  so_current : ∀ c, currentVersion (s_mux s) = Some c ->
    target (s_remover s) ≠ Some (rc_version c)
    ∧ ∃ vs, versions (s_mux s) !! v_name (rc_version c) = Some vs
            ∧ rc_version vs = rc_version c ∧ rc_count vs = rc_count c;
  so_names : ∀ n v, s_known s !! n = Some v -> v_name v = n;
  so_inflight : ∀ v, v ∈ s_inflight s -> s_known s !! v_name v = Some v;
  so_remover : remover_ok (s_mux s) (s_inflight s) (s_known s) (s_remover s);
}.

(** ** Counting *)

Lemma held_mid v l1 u l2 :
  held v (l1 ++ u :: l2) = (held v (l1 ++ l2) + if decide (u = v) then 1 else 0)%Z.
Proof. unfold held. rewrite !filter_app, filter_cons. case_decide; rewrite !length_app; cbn; lia. Qed.

Lemma held_cons v u l : held v (u :: l) = (held v l + if decide (u = v) then 1 else 0)%Z.
Proof. exact (held_mid v [] u l). Qed.

Lemma held_pos v l : v ∈ l <-> (0 < held v l)%Z.
Proof.
  unfold held. split.
  - intros Hv. assert (v ∈ filter (λ u, u = v) l) as Hin by by apply list_elem_of_filter.
    destruct (filter _ l); [by apply not_elem_of_nil in Hin|cbn; lia].
  - intros Hl. destruct (filter (λ u, u = v) l) as [|u l'] eqn:E; [cbn in Hl; lia|].
    assert (u ∈ filter (λ u, u = v) l) as [-> Hu]%list_elem_of_filter by (rewrite E; left). done.
Qed.

Lemma held_nonneg v l : (0 <= held v l)%Z.
Proof. unfold held. lia. Qed.

(** Entries depend on the wait groups only. *)
Lemma entries_wgs m m' l k (X : gmap string versionReferenceCount) :
  next m' = next m -> wgs m' = wgs m -> map_Forall (entry_ok m l k) X -> map_Forall (entry_ok m' l k) X.
Proof. intros Hn Hw H n vs Hl. destruct (H n vs Hl). split; by rewrite ?Hn, ?Hw. Qed.

(** Two entries with the same version have the same name. *)
Lemma entry_name m l r k n vs :
  sys_ok (Sys m l r k) -> versions m !! n = Some vs ->
  v_name (rc_version vs) = n ∧ k !! n = Some (rc_version vs) ∧ (rc_count vs < next m)%nat
  ∧ wgs m !! rc_count vs = Some (held (rc_version vs) l).
Proof.
  intros Hok Hn. destruct (so_entry _ Hok n vs Hn) as [Hk Hw Hc]. cbn in *.
  split_and!; [by apply (so_names _ Hok)|done..].
Qed.

(** The wait group of one entry changes along with the requests that hold its
    version: a request starts ([l'] has one more) or ends. *)
Lemma count_change_ok m l l' r k n vs0 c m' :
  sys_ok (Sys m l r k) -> versions m !! n = Some vs0 ->
  versions m' = versions m -> currentVersion m' = currentVersion m -> next m' = next m ->
  wgs m' = <[rc_count vs0 := c]> (wgs m) -> c = held (rc_version vs0) l' ->
  (∀ u, u ≠ rc_version vs0 -> held u l' = held u l) ->
  (∀ u, u ∈ l' -> k !! v_name u = Some u) ->
  sys_ok (Sys m' l' r k).
Proof.
  intros Hok Hn Hv Hcur Hnx Hw Hc Hother Hin.
  destruct (entry_name _ _ _ _ _ _ Hok Hn) as (Hname & Hk & _ & _).
  assert (∀ n' vs, versions m !! n' = Some vs -> rc_version vs = rc_version vs0 -> n' = n) as Hsame.
  { intros n' vs Hn' Heq. destruct (entry_name _ _ _ _ _ _ Hok Hn') as (Hname' & _). congruence. }
  split; cbn; rewrite ?Hv, ?Hcur; [|apply (so_inj _ Hok)|apply (so_current _ Hok)|apply (so_names _ Hok)|done|].
  - intros n' vs Hn'. destruct (so_entry _ Hok n' vs Hn') as [Hk' Hw' Hc']. cbn in *.
    split; [done|by rewrite Hnx|]. rewrite Hw. destruct (decide (n' = n)) as [->|Hne].
    + simplify_eq. by rewrite lookup_insert_eq.
    + rewrite lookup_insert_ne by (intros Heq; by eapply Hne, (so_inj _ Hok); eauto).
      rewrite Hother; [done|]. intros Heq. eauto.
  - pose proof (so_remover _ Hok) as Hr. unfold remover_ok in *. cbn in *. rewrite Hv, Hnx, Hw.
    destruct r as [[]|]; try done. destruct Hr as (Hkv & Hnone & Hlt & Hdiff & c' & Hc' & Hle).
    split_and!; [done..|]. exists c'. rewrite lookup_insert_ne by (by eapply Hdiff). split; [done|].
    rewrite Hother; [done|]. intros ->. rewrite Hname in Hnone. congruence.
Qed.

Lemma acquire_ok m l r k n vs0 vs o m' :
  sys_ok (Sys m l r k) -> versions m !! n = Some vs0 ->
  rc_version vs = rc_version vs0 -> rc_count vs = rc_count vs0 ->
  acquire vs m = Some (o, m') -> o = Some (rc_version vs) ∧ sys_ok (Sys m' (rc_version vs :: l) r k).
Proof.
  intros Hok Hn Hver Hcnt Hacq.
  destruct (entry_name _ _ _ _ _ _ Hok Hn) as (Hname & Hk & _ & Hwg).
  unfold acquire, wg_Add in Hacq. rewrite Hcnt, Hwg in Hacq. cbn in Hacq.
  destruct (Z.ltb_spec (held (rc_version vs0) l + 1) 0); [pose proof (held_nonneg (rc_version vs0) l); lia|].
  cbn in Hacq.
  assert (∃ m1, m1 = set_wgs m (<[rc_count vs0 := (held (rc_version vs0) l + 1)%Z]> (wgs m))
    ∧ versions m' = versions m1 ∧ currentVersion m' = currentVersion m1 ∧ next m' = next m1 ∧ wgs m' = wgs m1
    ∧ o = Some (rc_version vs)) as (m1 & -> & Hv & Hc & Hnx & Hw & ->).
  { eexists. split; [done|]. unfold timer_Reset in Hacq. by repeat case_match; simplify_eq/=. }
  split; [done|]. cbn in *. rewrite Hver. eapply count_change_ok; [done..| | |].
  - by rewrite held_cons, decide_True.
  - intros u Hu. by rewrite held_cons, decide_False, Z.add_0_r by done.
  - intros u [->|Hu]%elem_of_cons; [by rewrite Hname|by apply (so_inflight _ Hok)].
Qed.

Lemma acquire_total m l r k n vs0 vs :
  sys_ok (Sys m l r k) -> versions m !! n = Some vs0 ->
  rc_version vs = rc_version vs0 -> rc_count vs = rc_count vs0 ->
  ∃ m', acquire vs m = Some (Some (rc_version vs), m') ∧ versions m' = versions m ∧ currentVersion m' = currentVersion m.
Proof.
  intros Hok Hn Hver Hcnt. destruct (entry_name _ _ _ _ _ _ Hok Hn) as (_ & _ & _ & Hwg).
  unfold acquire, wg_Add. rewrite Hcnt, Hwg. cbn.
  destruct (Z.ltb_spec (held (rc_version vs0) l + 1) 0); [pose proof (held_nonneg (rc_version vs0) l); lia|].
  cbn. eexists. split; [done|]. unfold timer_Reset. by repeat case_match.
Qed.

Lemma release_frame v m m' :
  release (Some v) m = Some (tt, m') -> versions m' = versions m ∧ currentVersion m' = currentVersion m.
Proof. unfold release, wg_Add. intros H. repeat case_match; simplify_eq/=; by repeat case_match; simplify_eq/=. Qed.

Lemma release_ok m l1 v l2 r k :
  sys_ok (Sys m (l1 ++ v :: l2) r k) ->
  ∃ m', release (Some v) m = Some (tt, m') ∧ sys_ok (Sys m' (l1 ++ l2) r k).
Proof.
  intros Hok. assert (k !! v_name v = Some v) as Hkv by (apply (so_inflight _ Hok); cbn; set_solver).
  assert (∀ u, u ∈ (l1 ++ l2)%list -> k !! v_name u = Some u) as Hin.
  { intros u Hu. apply (so_inflight _ Hok). cbn. set_solver. }
  assert (∀ u, u ≠ v -> held u (l1 ++ l2) = held u (l1 ++ v :: l2)) as Hother.
  { intros u Hu. by rewrite held_mid, decide_False, Z.add_0_r by done. }
  unfold release. destruct (versions m !! v_name v) as [vs|] eqn:Ev.
  - destruct (entry_name _ _ _ _ _ _ Hok Ev) as (Hname & Hk & _ & Hwg).
    assert (rc_version vs = v) as Hrv by congruence.
    rewrite Hrv, held_mid, decide_True in Hwg by done.
    unfold wg_Add. rewrite Hwg. cbn. destruct (Z.ltb_spec (held v (l1 ++ l2) + 1 + -1) 0);
      [pose proof (held_nonneg v (l1 ++ l2)); lia|].
    eexists. split; [done|]. eapply count_change_ok; [exact Hok|exact Ev|done..| | |done]; cbn; rewrite Hrv; [lia|done].
  - exists m. split; [done|]. destruct Hok as [He Hi Hc Hnm _ Hr]. cbn in *. split; cbn; try done.
    + intros n vs Hn. destruct (He n vs Hn) as [Hk Hw Hcnt]. split; [done..|]. rewrite Hother; [done|].
      intros Heq. apply Hnm in Hk. congruence.
    + unfold remover_ok in *. destruct r as [[]|]; try done. destruct Hr as (? & ? & ? & ? & c & ? & ?).
      split_and!; [done..|]. exists c. split; [done|]. rewrite held_mid in *. case_decide; lia.
Qed.

(** ** Getting a version and giving it back *)

Lemma entry_release m l rm k n vs0 vs :
  sys_ok (Sys m l rm k) -> versions m !! n = Some vs0 ->
  rc_version vs = rc_version vs0 -> rc_count vs = rc_count vs0 ->
  ∃ m1 m', acquire vs m = Some (Some (rc_version vs), m1) ∧ release (Some (rc_version vs)) m1 = Some (tt, m')
  ∧ versions m' = versions m ∧ currentVersion m' = currentVersion m ∧ sys_ok (Sys m' l rm k).
Proof.
  intros Hok Hn Hv Hc. destruct (acquire_total _ _ _ _ _ _ vs Hok Hn Hv Hc) as (m1 & Ha & Hvm & Hcm).
  destruct (acquire_ok _ _ _ _ _ _ _ _ _ Hok Hn Hv Hc Ha) as [_ Hok1].
  destruct (release_ok m1 [] (rc_version vs) l rm k Hok1) as (m' & Hr & Hok').
  exists m1, m'. split_and!; [done|done|..|done]; apply release_frame in Hr as [Hv' Hc']; congruence.
Qed.

Lemma getCurrent_release m l rm k :
  sys_ok (Sys m l rm k) ->
  ∃ m1 m', getCurrent m = Some (rc_version <$> currentVersion m, m1)
  ∧ release (rc_version <$> currentVersion m) m1 = Some (tt, m')
  ∧ versions m' = versions m ∧ currentVersion m' = currentVersion m ∧ sys_ok (Sys m' l rm k).
Proof.
  intros Hok. unfold getCurrent. destruct (currentVersion m) as [c|] eqn:Ec; cbn [fmap option_fmap option_map].
  - destruct (so_current _ Hok c Ec) as (_ & vs0 & Hvs0 & Hv & Hcnt). rewrite <- Ec.
    eapply entry_release; [exact Hok|exact Hvs0|done|done].
  - exists m, m. by split_and!.
Qed.

Lemma getVersion_release name m l rm k :
  sys_ok (Sys m l rm k) ->
  ∃ m1 m', getVersion name m = Some (rc_version <$> versions m !! name, m1)
  ∧ release (rc_version <$> versions m !! name) m1 = Some (tt, m')
  ∧ versions m' = versions m ∧ currentVersion m' = currentVersion m ∧ sys_ok (Sys m' l rm k).
Proof.
  intros Hok. unfold getVersion. destruct (versions m !! name) as [vs|] eqn:Ev; cbn [fmap option_fmap option_map].
  - eapply entry_release; [exact Hok|exact Ev|done|done].
  - exists m, m. by split_and!.
Qed.

(** ** The steps preserve the invariant *)

Lemma prepare_ok v m l r k m' :
  sys_ok (Sys m l r k) -> k !! v_name v = None -> prepare v m = Some (tt, m') ->
  sys_ok (Sys m' l r (<[v_name v := v]> k)).
Proof.
  intros Hok Hnew Hp. unfold prepare in Hp. destruct (versions m !! v_name v) eqn:Ev; [done|]. simplify_eq.
  assert (∀ n vs, versions m !! n = Some vs -> rc_count vs ≠ next m) as Hfresh.
  { intros n vs Hn. destruct (entry_name _ _ _ _ _ _ Hok Hn) as (_ & _ & ? & _). lia. }
  destruct Hok as [He Hi Hc Hnm Hin Hr]. cbn in *. split; cbn.
  - apply map_Forall_insert_2.
    + split; cbn; [by rewrite lookup_insert_eq|lia|]. rewrite lookup_insert_eq. f_equal.
      destruct (decide (v ∈ l)) as [Hv%Hin|Hv]; [congruence|]. rewrite held_pos in Hv.
      pose proof (held_nonneg v l). lia.
    + intros n vs Hn. destruct (He n vs Hn) as [? ? ?]. split; cbn; [|lia|].
      * rewrite lookup_insert_ne; [done|congruence].
      * rewrite lookup_insert_ne; [done|]. intros Heq. by eapply Hfresh.
  - intros n n' vs vs'. rewrite !lookup_insert. repeat case_decide; intros H1 H2 H3; simplify_eq/=; try done.
    + by eapply Hfresh in H2.
    + by eapply Hfresh in H1.
    + eauto.
  - intros c Hcur. destruct (Hc c Hcur) as (? & vs & Hvs & ? & ?). split; [done|]. exists vs.
    rewrite lookup_insert_ne by congruence. done.
  - intros n u. rewrite lookup_insert. case_decide; [intros; by simplify_eq|apply Hnm].
  - intros u Hu. apply Hin in Hu. rewrite lookup_insert_ne; [done|congruence].
  - unfold remover_ok in *. cbn. destruct r as [[]|]; try done.
    + rewrite lookup_insert_ne by congruence. done.
    + destruct Hr as (? & ? & vs' & ? & ?). rewrite !lookup_insert_ne by congruence. eauto.
    + destruct Hr as (? & ? & vs' & ? & ?). rewrite !lookup_insert_ne by congruence. eauto.
    + destruct Hr as (? & ? & vs' & ? & ?). rewrite !lookup_insert_ne by congruence. eauto.
    + destruct Hr as (? & ? & ? & Hd & c & ? & ?). rewrite !(lookup_insert_ne _ (v_name v)) by congruence.
      split_and!; [done|done|lia| |exists c; rewrite lookup_insert_ne by lia; done].
      intros n vs'. rewrite lookup_insert. case_decide; [intros; simplify_eq; cbn; lia|eauto].
Qed.

Lemma upgrade_ok v m l r k m' :
  sys_ok (Sys m l r k) -> target r ≠ Some v -> upgrade v m = Some (tt, m') -> sys_ok (Sys m' l r k).
Proof.
  intros Hok Ht Hu. unfold upgrade, mustGet in Hu. destruct (versions m !! v_name v) as [vs|] eqn:Ev; [|done].
  cbn in Hu. case_bool_decide as Heq; [|done]. cbn in Hu. injection Hu as <-. subst v.
  destruct Hok as [He Hi Hc Hnm Hin Hr]. cbn in *. split; cbn; try done; [by apply (entries_wgs m)|].
  intros c Hcur. injection Hcur as <-. split; [done|]. by exists vs.
Qed.

Lemma delete_ok v vs m l k :
  sys_ok (Sys m l (Some (RDelete v vs)) k) ->
  sys_ok (Sys (set_versions m (delete (v_name v) (versions m))) l (Some (RWait v vs)) k).
Proof.
  intros Hok. pose proof (so_remover _ Hok) as (Hkv & Hver & vs' & Hvs' & Hcnt). cbn in *.
  destruct (entry_name _ _ _ _ _ _ Hok Hvs') as (_ & Hk & Hlt & Hwg).
  assert (rc_version vs' = v) as Hv by congruence.
  destruct Hok as [He Hi Hc Hnm Hin Hr]. cbn in *. split; cbn; try done.
  - apply map_Forall_delete. by apply (entries_wgs m).
  - intros n n' a b [_ ?]%lookup_delete_Some [_ ?]%lookup_delete_Some. eauto.
  - intros c Hcur. destruct (Hc c Hcur) as (Hne & a & Ha & Hav & Hac). split; [done|]. exists a.
    rewrite lookup_delete_ne; [done|]. intros Heq. apply Hne.
    destruct (He _ _ Ha) as [Hka _ _]. rewrite <- Heq, Hkv in Hka. congruence.
  - rewrite lookup_delete_eq. split_and!; [done|done|congruence| |].
    + intros n a [Hne Ha]%lookup_delete_Some Heq. apply Hne. eapply Hi; eauto. congruence.
    + rewrite <- Hcnt, Hwg, Hv. exists (held v l). split; [done|lia].
Qed.

Lemma arm_ok v vs m l k r' m' :
  sys_ok (Sys m l (Some (RArm v vs)) k) -> remove_step (RArm v vs) m = Some (r', m') ->
  sys_ok (Sys m' l (Some r') k).
Proof.
  intros Hok Hs. cbn in Hs. simplify_eq.
  pose proof (so_remover _ Hok) as (Hkv & Hver & vs' & Hvs' & Hcnt). cbn in *.
  destruct (entry_name _ _ _ _ _ _ Hok Hvs') as (_ & Hk & Hlt & Hwg).
  assert (rc_version vs' = rc_version vs) as Hv by congruence.
  destruct Hok as [He Hi Hc Hnm Hin Hr]. cbn in *. split; cbn; try done.
  - apply map_Forall_insert_2.
    + split; cbn; [congruence|lia|]. rewrite <- Hcnt, <- Hv. done.
    + intros n a Ha. destruct (He n a Ha). split; cbn; [done|lia|done].
  - intros n n' a b. rewrite !lookup_insert. repeat case_decide; intros; simplify_eq/=; eauto using eq_sym.
    + eapply Hi; [exact Hvs'|done|congruence].
    + eapply Hi; [done|exact Hvs'|congruence].
  - intros c Hcur. destruct (Hc c Hcur) as (Hne & a & Ha & Hav & Hac). split; [done|].
    rewrite lookup_insert. case_decide as Heq; [|by exists a]. rewrite <- Heq, Hvs' in Ha. simplify_eq.
    eexists. split; [done|]. cbn. split; congruence.
  - split_and!; [done|done|]. rewrite lookup_insert_eq. by eexists.
Qed.

Lemma remove_step_ok r m l k r' m' :
  sys_ok (Sys m l (Some r) k) -> remove_step r m = Some (r', m') -> sys_ok (Sys m' l (Some r') k).
Proof.
  intros Hok Hs. destruct r as [v w|v vs|v vs t|v vs|v vs|o].
  - cbn in Hs. assert (∀ r1, (target (Some r1) = None ∨ target (Some r1) = Some v) ->
      remover_ok m l k (Some r1) -> sys_ok (Sys m l (Some r1) k)) as Hset.
    { intros r1 Ht Hr1. destruct Hok as [He Hi Hc Hnm Hin Hr]. cbn in *. split; cbn; try done.
      intros c Hcur. destruct (Hc c Hcur) as [Hne Hex]. split; [|done]. destruct Ht as [->| ->]; [done|done]. }
    pose proof (so_remover _ Hok) as Hkv. cbn in Hkv.
    destruct (versions m !! v_name v) as [vs|] eqn:Ev; [|simplify_eq; apply Hset; [by left|done]].
    destruct (entry_name _ _ _ _ _ _ Hok Ev) as (_ & Hk & _).
    destruct (rc_removing vs); simplify_eq; [apply Hset; [by left|done]|].
    apply Hset; destruct w; cbn; auto; (split_and!; [done|congruence|by exists vs]).
  - by eapply arm_ok.
  - cbn in Hs. repeat case_match; simplify_eq. destruct Hok as [He Hi Hc Hnm Hin Hr]. by split.
  - cbn in Hs. simplify_eq. by apply delete_ok.
  - cbn in Hs. case_match; simplify_eq. destruct Hok as [He Hi Hc Hnm Hin Hr]. cbn in *. split; cbn; try done.
    intros c Hcur. by destruct (Hc c Hcur).
  - done.
Qed.

Lemma sys_step_ok s s' : sys_step s s' -> sys_ok s -> sys_ok s'.
Proof.
  intros [m l r k v m' H|name m l r k v m' H|m l1 v l2 r k m' H|v m l r k m' Hk H|v m l r k m' Ht H
         |v w m l r k Ht Hk Hcur|m l r k r' m' H|d m l r k Hd] Hok.
  - unfold getCurrent in H. destruct (currentVersion m) as [c|] eqn:Ec; [|done].
    destruct (so_current _ Hok c Ec) as (_ & vs & Hvs & Hv & Hc).
    eapply acquire_ok in H as [? ?]; [|done|exact Hvs|done|done]. by simplify_eq.
  - unfold getVersion in H. destruct (versions m !! name) as [vs|] eqn:Ev; [|done].
    eapply acquire_ok in H as [? ?]; [|done|exact Ev|done|done]. by simplify_eq.
  - destruct (release_ok _ _ _ _ _ _ Hok) as (m1 & Hr & ?). rewrite H in Hr. by simplify_eq.
  - by eapply prepare_ok.
  - by eapply upgrade_ok.
  - destruct Hok as [He Hi Hc Hnm Hin Hr]. cbn in *. split; cbn; try done.
    intros c Hc'. destruct (Hc c Hc') as [_ Hex]. split; [|done]. intros Heq. simplify_eq. by eapply Hcur.
  - by eapply remove_step_ok.
  - destruct Hok as [He Hi Hc Hnm Hin Hr]. cbn in *. split; cbn; try done.
    by apply (entries_wgs m).
Qed.

Lemma sys_steps_ok s s' : rtc sys_step s s' -> sys_ok s -> sys_ok s'.
Proof. induction 1; eauto using sys_step_ok. Qed.

Lemma sys_init_ok d : sys_ok (sys_init d).
Proof. split; cbn; try done. intros v ?%not_elem_of_nil. done. Qed.

Lemma reachable_ok d s : rtc sys_step (sys_init d) s -> sys_ok s.
Proof. intros Hr. eapply sys_steps_ok; [exact Hr|apply sys_init_ok]. Qed.

(** ** Removed versions *)

(** [v] is out of the mux and no request holds it. *)
Record gone (v : vref) (s : sys) : Prop := {
  go_known : s_known s !! v_name v = Some v;
  go_entry : versions (s_mux s) !! v_name v = None;
  go_free : v ∉ s_inflight s;
}.

(** An acquired version is in the map. *)
Lemma acquired_entry m l r k m' v :
  sys_ok (Sys m l r k) ->
  getCurrent m = Some (Some v, m') ∨ (∃ name, getVersion name m = Some (Some v, m')) ->
  is_Some (versions m !! v_name v) ∧ versions m' = versions m.
Proof.
  intros Hok Hacq.
  assert (∃ n vs0 vs, versions m !! n = Some vs0 ∧ rc_version vs = rc_version vs0 ∧ acquire vs m = Some (Some v, m'))
    as (n & vs0 & vs & Hn & Hv & Ha).
  { destruct Hacq as [H|[name H]].
    - unfold getCurrent in H. destruct (currentVersion m) as [c|] eqn:Ec; [|done].
      destruct (so_current _ Hok c Ec) as (_ & vs & ? & ? & ?). eexists _, _, c. done.
    - unfold getVersion in H. destruct (versions m !! name) as [vs|] eqn:Ev; [|done]. by exists name, vs, vs. }
  destruct (entry_name _ _ _ _ _ _ Hok Hn) as (Hname & _).
  unfold acquire, wg_Add, timer_Reset in Ha. repeat case_match; simplify_eq/=; repeat case_match; simplify_eq/=;
    (split; [rewrite Hv; by eexists|done]).
Qed.

Lemma gone_step v s s' : sys_ok s -> sys_step s s' -> gone v s -> gone v s'.
Proof.
  intros Hok Hstep [Hk He Hf]. destruct Hstep as [m l r k u m' H|name m l r k u m' H|m l1 u l2 r k m' H
    |u m l r k m' Hku H|u m l r k m' Ht H|u w m l r k Ht Hku Hcur|m l r k r' m' H|d m l r k Hd]; cbn in *.
  - destruct (acquired_entry _ _ _ _ _ _ Hok (or_introl H)) as [[? ?] Hv]. split; cbn; [done|congruence|].
    apply not_elem_of_cons. split; [|done]. congruence.
  - destruct (acquired_entry _ _ _ _ _ _ Hok (or_intror (ex_intro _ name H))) as [[? ?] Hv].
    split; cbn; [done|congruence|]. apply not_elem_of_cons. split; [|done]. congruence.
  - assert (versions m' = versions m) as Hv
      by (unfold release, wg_Add in H; repeat case_match; simplify_eq/=; repeat case_match; by simplify_eq/=).
    split; cbn; [done|congruence|set_solver].
  - unfold prepare in H. destruct (versions m !! v_name u) eqn:Eu; [done|]. simplify_eq.
    split; cbn; [|rewrite lookup_insert_ne by congruence; done|done]. rewrite lookup_insert_ne by congruence. done.
  - unfold upgrade in H. destruct (mustGet u m); [|done]. cbn in H. simplify_eq. by split.
  - by split.
  - assert (versions m' !! v_name v = None) as Hv; [|by split].
    destruct r; cbn in H; repeat case_match; simplify_eq/=; try done.
    + rewrite lookup_insert_ne; [done|]. pose proof (so_remover _ Hok) as (_ & _ & vs' & ? & _). cbn in *. congruence.
    + by apply lookup_delete_None; right.
  - by split.
Qed.

(** C5: [remove] is safe for a caller that keeps the mux's contract: each name
    is prepared once, one call of [remove] is in progress at a time, it is about
    a prepared version that is not the current one, and a version being removed
    does not become current.  The mux does not enforce this; db.go keeps it as
    long as the backend's lists are complete and the database is not closed
    ([fine_refines_mux]), and outside of it [release] can panic
    ([stale_list_panics]).  Within the contract, however requests, upgrades,
    removals and the clock interleave, [release] never drives a count below
    zero, and when [remove] returns a version no request holds it, none can get
    it any more (it is neither current nor in the map), and this stays so;
    closing it is then safe. *)
Theorem remove_safe d s v m' :
  rtc sys_step (sys_init d) s ->
  (∀ u, u ∈ s_inflight s -> is_Some (release (Some u) (s_mux s)))
  ∧ (∀ r, s_remover s = Some r -> remove_step r (s_mux s) = Some (RReturned (Some v), m') ->
     ∀ s2, rtc sys_step (Sys m' (s_inflight s) (Some (RReturned (Some v))) (s_known s)) s2 ->
     (v ∉ s_inflight s2) ∧ versions (s_mux s2) !! v_name v = None
     ∧ ∀ c, currentVersion (s_mux s2) = Some c -> rc_version c ≠ v).
Proof.
  intros Hr. pose proof (reachable_ok _ _ Hr) as Hok. destruct s as [m l r k].
  cbn [s_mux s_inflight s_remover s_known]. split.
  - intros u (l1 & l2 & ->)%list_elem_of_split. destruct (release_ok _ _ _ _ _ _ Hok) as (m1 & -> & _). by eexists.
  - intros r' -> Hstep s2 Hr2.
    pose proof (remove_step_ok _ _ _ _ _ _ Hok Hstep) as Hok1.
    destruct r' as [v' w|v' vs|v' vs t|v' vs|v' vs|o]; cbn in Hstep; repeat case_match; simplify_eq/=.
    pose proof (so_remover _ Hok) as (Hkv & Hnone & _ & _ & c & Hc & Hle). cbn in *.
    assert (gone v (Sys m' l (Some (RReturned (Some v))) k)) as Hg.
    { split; cbn; [done|done|]. rewrite held_pos. rewrite Hc in *. cbn in *. lia. }
    assert (sys_ok s2 ∧ gone v s2) as [Hok2 [_ He2 Hf2]].
    { clear - Hr2 Hok1 Hg. induction Hr2; [done|]. apply IHHr2; eauto using sys_step_ok, gone_step. }
    split_and!; [done|done|]. intros c' Hc' Heq. destruct (so_current _ Hok2 c' Hc') as (_ & vs' & Hvs' & _). congruence.
Qed.

(** ** Removals that never return *)

Lemma wg_Add_wgs id d m m' : wg_Add id d m = Some m' -> ∃ c, wgs m' = <[id := c]> (wgs m).
Proof. unfold wg_Add. case_match; [done|]. intros ?. simplify_eq. by eexists. Qed.

Lemma acquire_wgs vs m o m' : acquire vs m = Some (o, m') -> ∃ c, wgs m' = <[rc_count vs := c]> (wgs m).
Proof.
  unfold acquire. destruct (wg_Add _ _ m) as [m1|] eqn:E; [|done]. apply wg_Add_wgs in E as [c Hc]. cbn.
  unfold timer_Reset. repeat case_match; intros ?; simplify_eq/=; by exists c.
Qed.

(** Once the entry is deleted, nothing changes the count [remove] waits for. *)
Lemma stuck_step v vs c s s' :
  sys_ok s -> sys_step s s' -> s_remover s = Some (RWait v vs) -> (0 < c)%Z ->
  wgs (s_mux s) !! rc_count vs = Some c ->
  s_remover s' = Some (RWait v vs) ∧ wgs (s_mux s') !! rc_count vs = Some c.
Proof.
  intros Hok Hstep Hr Hc Hw. pose proof (so_remover _ Hok) as Hrem. rewrite Hr in Hrem.
  destruct Hrem as (_ & _ & Hlt & Hdiff & _).
  destruct Hstep as [m l r k u m' H|name m l r k u m' H|m l1 u l2 r k m' H
    |u m l r k m' Hku H|u m l r k m' Ht H|u w m l r k Ht Hku Hcur|m l r k r' m' H|d m l r k Hd]; cbn in *; subst.
  - split; [done|]. unfold getCurrent in H. destruct (currentVersion m) as [cur|] eqn:Ec; [|done].
    destruct (so_current _ Hok cur Ec) as (_ & vs' & Hvs' & _ & Hcnt). apply Hdiff in Hvs'.
    apply acquire_wgs in H as [c' ->]. rewrite lookup_insert_ne; [done|congruence].
  - split; [done|]. unfold getVersion in H. destruct (versions m !! name) as [vs'|] eqn:Ev; [|done].
    apply Hdiff in Ev. apply acquire_wgs in H as [c' ->]. by rewrite lookup_insert_ne.
  - split; [done|]. unfold release in H. destruct (versions m !! v_name u) as [vs'|] eqn:Ev; [|by simplify_eq].
    apply Hdiff in Ev. destruct (wg_Add _ _ m) as [m1|] eqn:E; [|done]. apply wg_Add_wgs in E as [c' Hc'].
    cbn in H. simplify_eq. rewrite Hc', lookup_insert_ne; done.
  - split; [done|]. unfold prepare in H. destruct (versions m !! v_name u); simplify_eq/=.
    rewrite lookup_insert_ne; [done|lia].
  - split; [done|]. unfold upgrade in H. destruct (mustGet u m); [|done]. cbn in H. by simplify_eq.
  - done.
  - simplify_eq. cbn in H. rewrite Hw in H. cbn in H. destruct (Z.eqb_spec c 0); [lia|done].
  - done.
Qed.

(** C37: within the contract of [sys_step], [remove] returns iff nobody was
    using the version when it left the map.  If a request holds the version at that moment, [remove] waits for
    ever, even after the request has finished: [release] looks the version up
    in the map, does not find it and does not decrement the count.  With no
    request in flight the wait is over at once. *)
Theorem remove_returns_iff d s s1 v vs :
  rtc sys_step (sys_init d) s -> s_remover s = Some (RDelete v vs) ->
  sys_step s s1 -> s_remover s1 = Some (RWait v vs) ->
  ((v ∉ s_inflight s) -> remove_step (RWait v vs) (s_mux s1) = Some (RReturned (Some v), s_mux s1))
  ∧ (v ∈ s_inflight s ->
     ∀ s2, rtc sys_step s1 s2 ->
     s_remover s2 = Some (RWait v vs) ∧ remove_step (RWait v vs) (s_mux s2) = None).
Proof.
  intros Hr Hrem Hstep Hrem1. pose proof (reachable_ok _ _ Hr) as Hok.
  pose proof (sys_step_ok _ _ Hstep Hok) as Hok1.
  pose proof (so_remover _ Hok) as Hro. rewrite Hrem in Hro. destruct Hro as (Hkv & Hver & vs' & Hvs' & Hcnt).
  destruct (so_entry _ Hok _ _ Hvs') as [Hk _ Hw]. assert (rc_version vs' = v) as Hv by congruence.
  rewrite Hv, Hcnt in Hw.
  assert (wgs (s_mux s1) !! rc_count vs = Some (held v (s_inflight s))) as Hw1.
  { destruct Hstep; cbn in *; simplify_eq/=; try done. }
  split.
  - intros Hnot. rewrite held_pos in Hnot. pose proof (held_nonneg v (s_inflight s)).
    assert (held v (s_inflight s) = 0)%Z as H0 by lia. cbn. rewrite Hw1, H0. done.
  - intros Hin%held_pos s2 Hr2.
    assert (s_remover s2 = Some (RWait v vs) ∧ wgs (s_mux s2) !! rc_count vs = Some (held v (s_inflight s))) as [H1 H2].
    { clear - Hr2 Hok1 Hrem1 Hw1 Hin. induction Hr2 as [|x y z Hxy Hyz IH]; [done|].
      destruct (stuck_step _ _ _ _ _ Hok1 Hxy Hrem1 Hin Hw1). eauto using sys_step_ok. }
    split; [done|]. cbn. rewrite H2. cbn. destruct (Z.eqb_spec (held v (s_inflight s)) 0); [lia|done].
Qed.

(** ** Witnesses: an upgrade while a request is being served *)

Module MuxExample.
Definition v1 : vref := VRef 1 "20170101".
Definition v2 : vref := VRef 2 "20170102".

(** One step of the mux, evaluated. *)
Ltac mux_step tac := eapply rtc_l; [tac; vm_compute; reflexivity|].

(** Version 1 serves a request while version 2 replaces it; the node has no
    peers, so the removal does not wait for the timer. *)
Lemma upgrade_run :
  ∃ s s1 vs, rtc sys_step (sys_init 0) s ∧ s_remover s = Some (RDelete v1 vs) ∧ v1 ∈ s_inflight s
  ∧ sys_step s s1 ∧ s_remover s1 = Some (RWait v1 vs).
Proof.
  eexists _, _, _. split.
  { unfold sys_init.
    mux_step ltac:(eapply (sy_prepare v1)). mux_step ltac:(eapply (sy_upgrade v1); [done|]).
    mux_step ltac:(eapply sy_current). mux_step ltac:(eapply (sy_prepare v2)).
    mux_step ltac:(eapply (sy_upgrade v2); [done|]).
    eapply rtc_l; [eapply (sy_remove v1 false); [done|reflexivity|]|].
    { intros c Hc. vm_compute in Hc. injection Hc as <-. done. }
    mux_step ltac:(eapply sy_remover). apply rtc_refl. }
  split; [reflexivity|]. split; [by left|]. split; [eapply sy_remover; reflexivity|reflexivity].
Qed.

Lemma remove_returns_iff_witness :
  ∃ s s1 vs, v1 ∈ s_inflight s
  ∧ ((v1 ∉ s_inflight s) -> remove_step (RWait v1 vs) (s_mux s1) = Some (RReturned (Some v1), s_mux s1))
  ∧ (v1 ∈ s_inflight s ->
     ∀ s2, rtc sys_step s1 s2 ->
     s_remover s2 = Some (RWait v1 vs) ∧ remove_step (RWait v1 vs) (s_mux s2) = None).
Proof.
  destruct upgrade_run as (s & s1 & vs & Hr & Hrem & Hin & Hstep & Hrem1).
  exists s, s1, vs. split; [exact Hin|].
  exact (remove_returns_iff 0 s s1 v1 vs Hr Hrem Hstep Hrem1).
Defined.

(** With a request that finishes first, and with peers: the timer is armed and
    fires, and the version is handed back. *)
Lemma removal_run :
  ∃ s r m', rtc sys_step (sys_init 0) s ∧ s_remover s = Some r
  ∧ remove_step r (s_mux s) = Some (RReturned (Some v1), m').
Proof.
  eexists _, _, _. split.
  { unfold sys_init.
    mux_step ltac:(eapply (sy_prepare v1)). mux_step ltac:(eapply (sy_upgrade v1); [done|]).
    mux_step ltac:(eapply sy_current). mux_step ltac:(eapply (sy_prepare v2)).
    mux_step ltac:(eapply (sy_upgrade v2); [done|]).
    eapply rtc_l; [eapply (sy_remove v1 true); [done|reflexivity|]|].
    { intros c Hc. vm_compute in Hc. injection Hc as <-. done. }
    mux_step ltac:(eapply sy_remover). mux_step ltac:(eapply sy_remover).
    mux_step ltac:(eapply (sy_finish _ [])).
    eapply rtc_l; [apply (sy_tick 600000000000); lia|].
    mux_step ltac:(eapply sy_remover). mux_step ltac:(eapply sy_remover). apply rtc_refl. }
  split; [reflexivity|]. vm_compute. reflexivity.
Qed.

Lemma remove_safe_witness :
  ∃ s r m', s_remover s = Some r ∧ remove_step r (s_mux s) = Some (RReturned (Some v1), m')
  ∧ (∀ u, u ∈ s_inflight s -> is_Some (release (Some u) (s_mux s)))
  ∧ (∀ r, s_remover s = Some r -> remove_step r (s_mux s) = Some (RReturned (Some v1), m') ->
     ∀ s2, rtc sys_step (Sys m' (s_inflight s) (Some (RReturned (Some v1))) (s_known s)) s2 ->
     (v1 ∉ s_inflight s2) ∧ versions (s_mux s2) !! v_name v1 = None
     ∧ ∀ c, currentVersion (s_mux s2) = Some c -> rc_version c ≠ v1).
Proof.
  destruct removal_run as (s & r & m' & Hr & Hrem & Hstep).
  exists s, r, m'. split; [exact Hrem|]. split; [exact Hstep|].
  exact (remove_safe 0 s v1 m' Hr).
Defined.
End MuxExample.
