(* ===== verification/Backend.v ===== *)
(** * backend/: where the data sets come from

    A backend lists the databases, the versions of a database and the files of
    a version.  [Backend] is the Go interface of the same name and
    [BackendLaws] is what its comments promise and [db.go] relies on.  The
    local and the HDFS backend filter one directory listing; the S3 backend
    pages through the keys of a bucket.  The calls they make on the operating
    system, the HDFS client and the S3 service are parameters. *)

From Stdlib Require Import ZArith Lia Ascii String.
From stdpp Require Import base gmap sets list strings sorting.
From S2P Require Import Prelude GoStrings.

Open Scope string_scope.
Set Default Proof Using "Type".

Class Backend := {
  ListDBs : res (list string);
  ListVersions (db after : string) (checkForSuccess : bool) : res (list string);
  ListFiles (db version : string) : res (list string);
  Open (db version file : string) : res string;    (** the bytes that can be read *)
  DisplayPath (parts : list string) : string;
}.

(** A [ListVersions] for one database: a sorted list of the versions after the
    given one. *)
Definition lists_after (ListVersions : string -> res (list string)) : Prop :=
  ∀ after names, ListVersions after = Ok names ->
  StronglySorted str_lt names ∧ Forall (str_lt after) names.

Definition data_file (name : string) : bool := negb (HasPrefix name "_") && negb (HasPrefix name ".").

Class BackendLaws (B : Backend) := {
  ListVersions_ok : ∀ db check, lists_after (λ after, ListVersions db after check);
  ListFiles_ok : ∀ db version names, ListFiles db version = Ok names ->
    StronglySorted str_lt names ∧ Forall (λ n, data_file n = true) names;
}.

(** An entry of a directory: its name, and whether it is a directory. *)
Record FileInfo := { fi_Name : string; fi_IsDir : bool }.

(** ** The local file system and HDFS *)

Section Directories.
(** [ReadDir] and [Stat] of [os] and [ioutil], or of the HDFS client. *)
Variable ReadDir : string -> res (list FileInfo).
Variable Stat : string -> option error.
Variable OpenFile : string -> res string.
(** How a path is shown. *)
Variable display : string -> string.
Variable root : string.

Definition dir_ListDBs : res (list string) :=
  match ReadDir root with
  | Err e => Err e
  | Ok files => Ok (fi_Name <$> filter (λ f, fi_IsDir f = true) files)
  end.

Definition checkForSuccessFile (path : string) : bool :=
  match Stat (path_Join [path; "_SUCCESS"]) with None => true | Some _ => false end.

Definition dir_ListVersions (db after : string) (checkForSuccess : bool) : res (list string) :=
  match ReadDir (path_Join [root; db]) with
  | Err e => Err e
  | Ok files =>
      Ok (omap (λ f,
        if fi_IsDir f then
          let name := fi_Name f in
          let fullPath := path_Join [root; db; name] in
          if String.ltb after name && (negb checkForSuccess || checkForSuccessFile fullPath)
          then Some name else None
        else None) files)
  end.

Definition dir_ListFiles (db version : string) : res (list string) :=
  match ReadDir (path_Join [root; db; version]) with
  | Err e => Err e
  | Ok infos =>
      Ok (omap (λ info,
        let name := fi_Name info in
        if negb (fi_IsDir info) && negb (HasPrefix name "_") && negb (HasPrefix name ".")
        then Some (path_Base name) else None) infos)
  end.

Definition dir_Open (db version file : string) : res string := OpenFile (path_Join [root; db; version; file]).

Definition dir_DisplayPath (parts : list string) : string := display (path_Join (root :: parts)).

Definition dir_backend : Backend :=
  {| ListDBs := dir_ListDBs; ListVersions := dir_ListVersions; ListFiles := dir_ListFiles; Open := dir_Open;
     DisplayPath := dir_DisplayPath |}.
End Directories.

Definition hdfs_displayURL (namenode path : string) : string := "hdfs://" ++ namenode ++ "/" ++ TrimPrefix path "/".

(** [NewLocalBackend] keeps the path it is given, [NewHdfsBackend] cleans it. *)
Definition LocalBackend (ReadDir : string -> res (list FileInfo)) (Stat : string -> option error)
    (OpenFile : string -> res string) (path : string) : Backend :=
  dir_backend ReadDir Stat OpenFile id path.
Definition HdfsBackend (ReadDir : string -> res (list FileInfo)) (Stat : string -> option error)
    (OpenFile : string -> res string) (namenode hdfsPath : string) : Backend :=
  dir_backend ReadDir Stat OpenFile (hdfs_displayURL namenode) (path_Clean hdfsPath).

(** ** S3 *)

Record ListObjectsInput := {
  li_Delimiter : string;
  li_Marker : string;
  li_MaxKeys : Z;
  li_Prefix : string;
}.

Record ListObjectsOutput := {
  lo_CommonPrefixes : option (list string);   (** [None] is [nil] *)
  lo_Contents : list string;                  (** the keys *)
  lo_IsTruncated : bool;
}.

Section S3.
Variable ListObjects : ListObjectsInput -> res ListObjectsOutput.
(** [ListObjectsPages] calls back with the keys of each page. *)
Variable ListObjectsPages : ListObjectsInput -> res (list (list string)).
(** The body of the object with a key. *)
Variable GetObject : string -> res string.
(** [CommonPrefix.String()], a rendering of the structure for humans. *)
Variable CommonPrefix_String : string -> string.
Context {MS : MapOrder string}.

Definition s3error (e : error) : error := Errorf "unexpected S3 error on bucket" e.

(** The loop over the common prefixes of one page: the directories among them. *)
Fixpoint page_dirs (after : string) (prefixes : list string) (acc : list string) : res (list string) :=
  match prefixes with
  | [] => Ok acc
  | p :: prefixes' =>
      let prefix := TrimSuffix p "/" in
      match ListObjects {| li_Delimiter := ""; li_Marker := after; li_MaxKeys := 3; li_Prefix := prefix |} with
      | Err e => Err e
      | Ok resp =>
          let isDir := existsb (λ key, negb (blank (path_Base key))) (lo_Contents resp) in
          page_dirs after prefixes' (if isDir then acc ++ [path_Base prefix] else acc)%list
      end
  end.

(** The loop of [listDirs] over the pages; [None] when the fuel runs out. *)
Fixpoint listDirs_loop (fuel : nat) (dir after : string) (acc : list string) : option (res (list string)) :=
  match fuel with
  | O => None
  | S fuel =>
      match ListObjects {| li_Delimiter := "/"; li_Marker := after; li_MaxKeys := 1000; li_Prefix := dir ++ "/" |} with
      | Err e => Some (Err (s3error e))
      | Ok resp =>
          match lo_CommonPrefixes resp with
          | None => Some (Ok acc)
          | Some prefixes =>
              match page_dirs after prefixes acc with
              | Err e => Some (Err e)
              | Ok acc =>
                  match lo_IsTruncated resp, last prefixes with
                  | true, Some p => listDirs_loop fuel dir (CommonPrefix_String p) acc
                  | _, _ => Some (Ok acc)
                  end
              end
          end
      end
  end.

(** [sort.Strings]. *)
Definition sort_Strings (l : list string) : list string := merge_sort String.le l.

Definition listDirs (fuel : nat) (dir after : string) : option (res (list string)) :=
  r ← listDirs_loop fuel dir after [];
  Some (match r with Ok l => Ok (sort_Strings l) | Err e => Err e end).

Definition s3_ListDBs (fuel : nat) (path : string) : option (res (list string)) := listDirs fuel path "".

Definition s3_exists (key : string) : bool := match GetObject key with Ok _ => true | Err _ => false end.

Definition s3_ListVersions (fuel : nat) (path db after : string) (checkForSuccess : bool) : option (res (list string)) :=
  r ← listDirs fuel (path_Join [path; db]) after;
  Some (match r with
        | Err e => Err e
        | Ok versions =>
            Ok (if checkForSuccess
                then filter (λ v, s3_exists (path_Join [path; db; v; "_SUCCESS"]) = true) versions
                else versions)
        end).

(** The names are collected in a set: S3 may list a key twice. *)
Definition s3_ListFiles (path db version : string) : res (list string) :=
  match ListObjectsPages {| li_Delimiter := ""; li_Marker := ""; li_MaxKeys := 1000;
                            li_Prefix := path_Join [path; db; version] |} with
  | Err e => Err (s3error e)
  | Ok pages =>
      let names := filter (λ n, negb (blank n) && data_file n = true) (path_Base <$> concat pages) in
      Ok (sort_Strings (range_set (list_to_set names)))
  end.

Definition s3_Open (path db version file : string) : res string :=
  match GetObject (path_Join [path; db; version; file]) with
  | Ok body => Ok body
  | Err e => Err (Errorf "error opening S3 path" e)
  end.

Definition s3_displayURL (bucket : string) (parts : list string) : string :=
  "s3://" ++ bucket ++ "/" ++ TrimPrefix (path_Join parts) "/".

Definition s3_DisplayPath (bucket path : string) (parts : list string) : string := s3_displayURL bucket (path :: parts).
End S3.

(** [NewS3Backend]: the path is cleaned and loses its leading slash. *)
Definition NewS3Backend_path (s3path : string) : string := TrimPrefix (path_Clean s3path) "/".

(** ** The directory backends keep the promises of the interface *)

Lemma path_Base_plain e : plain_elem e -> path_Base e = e.
Proof.
  intros (He & _ & _ & Hs). unfold path_Base. rewrite decide_False by done.
  rewrite split_no_sep by done. by rewrite filter_cons_True.
Qed.

(** Entries of a sorted list that are kept under their own names. *)
Lemma sorted_omap {A B} (R : relation B) (g : A -> B) (f : A -> option B) l :
  StronglySorted R (g <$> l) -> (∀ x y, x ∈ l -> f x = Some y -> y = g x) -> StronglySorted R (omap f l).
Proof.
  induction l as [|x l IH]; intros Hl Hf; [constructor|]. rewrite fmap_cons in Hl.
  apply StronglySorted_inv in Hl as [Hl Hx].
  assert (StronglySorted R (omap f l)) as Hrest by (apply IH; [done|]; intros; apply Hf; [by right|done]).
  cbn. destruct (f x) as [y|] eqn:E; [|done]. constructor; [done|].
  apply Forall_forall. intros z (x' & Hx' & Hz)%list_elem_of_omap.
  apply Hf in E as ->; [|by left]. apply Hf in Hz as ->; [|by right].
  rewrite Forall_forall in Hx. apply Hx. by apply list_elem_of_fmap_2.
Qed.

Section Directories_props.
Context (ReadDir : string -> res (list FileInfo)) (Stat : string -> option error) (OpenFile : string -> res string).

(** [ioutil.ReadDir] and the HDFS client sort by name; the names of a
    directory are distinct path elements. *)
Hypothesis ReadDir_sorted : ∀ path files, ReadDir path = Ok files ->
  StronglySorted str_lt (fi_Name <$> files) ∧ Forall (λ f, plain_elem (fi_Name f)) files.

#[local] Abbreviation B display root := (dir_backend ReadDir Stat OpenFile display root).

Lemma dir_ListVersions_elem display root db after check files names n :
  ReadDir (path_Join [root; db]) = Ok files -> ListVersions (Backend := B display root) db after check = Ok names ->
  n ∈ names <-> (∃ f, f ∈ files ∧ fi_IsDir f = true ∧ fi_Name f = n) ∧ str_lt after n
  ∧ (check = true -> Stat (path_Join [path_Join [root; db; n]; "_SUCCESS"]) = None).
Proof.
  clear ReadDir_sorted. intros Hd H. cbn in H. unfold dir_ListVersions in H. rewrite Hd in H. injection H as <-.
  rewrite list_elem_of_omap. unfold checkForSuccessFile, str_lt. split.
  - intros (f & Hf & Hx). destruct (fi_IsDir f) eqn:E; [|done].
    destruct (String.ltb after (fi_Name f)) eqn:El; [|done]. destruct check; cbn in Hx; [|by simplify_eq; naive_solver].
    destruct (Stat _) eqn:Es; [done|]. simplify_eq. naive_solver.
  - intros ((f & Hf & Hdir & <-) & Hlt & Hc). exists f. split; [done|]. rewrite Hdir, Hlt.
    destruct check; [|done]. cbn. by rewrite Hc.
Qed.

#[local] Instance dir_laws display root : BackendLaws (B display root).
Proof using ReadDir_sorted.
  split.
  - intros db check after names H. cbn in H. unfold dir_ListVersions in H.
    destruct (ReadDir (path_Join [root; db])) as [files|] eqn:E; [|done]. injection H as <-.
    destruct (ReadDir_sorted _ _ E) as [Hs _]. split.
    + eapply (sorted_omap _ fi_Name); [exact Hs|]. intros f y _ H. by repeat case_match; simplify_eq.
    + apply Forall_forall. intros y (f & _ & H)%list_elem_of_omap.
      destruct (fi_IsDir f); [|done]. destruct (String.ltb after (fi_Name f)) eqn:El; [|done].
      cbn in H. case_match; [|done]. by simplify_eq.
  - intros db version names H. cbn in H. unfold dir_ListFiles in H.
    destruct (ReadDir _) as [files|] eqn:E; [|done]. injection H as <-.
    destruct (ReadDir_sorted _ _ E) as [Hs Hp]. rewrite Forall_forall in Hp. split.
    + eapply (sorted_omap _ fi_Name); [exact Hs|]. intros f y Hf H. case_match; [|done]. simplify_eq.
      apply path_Base_plain. by apply Hp.
    + apply Forall_forall. intros y (f & Hf & H)%list_elem_of_omap.
      destruct (negb (fi_IsDir f) && _ && _) eqn:Ec; [|done]. simplify_eq. rewrite path_Base_plain by by apply Hp.
      apply andb_prop in Ec as [[_ H1]%andb_prop H2]. unfold data_file. by rewrite H1, H2.
Qed.

(** C39: the local and the HDFS backend do what [Backend] promises of
    [ListVersions]: for every database the result is sorted, and it holds
    exactly the directories of the database with greater names than [after],
    restricted to those with a _SUCCESS file when that is asked for. *)
Theorem directory_listing namenode root (hdfs : bool) db after check names :
  ListVersions (Backend := if hdfs then HdfsBackend ReadDir Stat OpenFile namenode root
                           else LocalBackend ReadDir Stat OpenFile root) db after check = Ok names ->
  StronglySorted str_lt names
  ∧ ∃ files path, path = (if hdfs then path_Clean root else root)
    ∧ ReadDir (path_Join [path; db]) = Ok files
    ∧ ∀ n, n ∈ names <-> (∃ f, f ∈ files ∧ fi_IsDir f = true ∧ fi_Name f = n) ∧ str_lt after n
      ∧ (check = true -> Stat (path_Join [path_Join [path; db; n]; "_SUCCESS"]) = None).
Proof using ReadDir_sorted.
  set (path := if hdfs then path_Clean root else root). intros H.
  set (display := if hdfs then hdfs_displayURL namenode else id).
  assert (ListVersions (Backend := B display path) db after check = Ok names) as H' by (unfold path, display; by destruct hdfs).
  split; [by eapply (ListVersions_ok (B := B display path))|].
  destruct (ReadDir (path_Join [path; db])) as [files|] eqn:E; [|cbn in H'; unfold dir_ListVersions in H'; by rewrite E in H'].
  exists files, path. split_and!; [done..|]. intros n. by eapply dir_ListVersions_elem.
Qed.
End Directories_props.

(** ** The S3 backend and its marker *)

Lemma HasPrefix_inv s pre : HasPrefix s pre = true -> ∃ x, s = pre ++ x.
Proof.
  unfold HasPrefix. revert s. induction pre as [|c pre IH]; intros s H; [by exists s|].
  destruct s as [|c' s]; [done|]. cbn in H. destruct (ascii_dec c c') as [->|]; [|done].
  destruct (IH s H) as [x ->]. by exists x.
Qed.

Lemma ascii_compare_refl c : Ascii.compare c c = Eq.
Proof. unfold Ascii.compare. apply N.compare_refl. Qed.

Lemma str_lt_cons c s t : str_lt (String c s) (String c t) <-> str_lt s t.
Proof. unfold str_lt, String.ltb. cbn. by rewrite ascii_compare_refl. Qed.

Lemma str_lt_app s t x : str_lt s t -> str_lt s (t ++ x).
Proof.
  revert s. induction t as [|c t IH]; intros [|c' s]; cbn; try done.
  unfold str_lt, String.ltb. cbn. destruct (Ascii.compare c' c); [|done|done]. apply IH.
Qed.

(** Everything under a directory comes before a string that starts with a
    later byte. *)
Lemma str_lt_first s x c t : s ≠ "" -> str_lt s (String c "") -> str_lt (s ++ x) (String c t).
Proof.
  destruct s as [|c' s]; [done|]. intros _. unfold str_lt, String.ltb. cbn.
  destruct (Ascii.compare c' c); [by destruct s|done|done].
Qed.

Lemma substring_app_le n s x :
  (String.length s <= n)%nat -> ∃ y, String.substring 0 n (s ++ x) = s ++ y.
Proof.
  revert n. induction s as [|c s IH]; intros n Hn; cbn in *; [by eexists|].
  destruct n as [|n]; [lia|]. destruct (IH n) as [y Hy]; [lia|]. exists y. cbn. by rewrite Hy.
Qed.

Lemma TrimSuffix_under dir x : ∃ y, TrimSuffix ((dir ++ "/") ++ x) "/" = dir ++ y.
Proof.
  unfold TrimSuffix. case_match.
  - rewrite str_app_assoc. apply substring_app_le. rewrite !str_length_app. cbn. lia.
  - exists ("/" ++ x). by rewrite str_app_assoc.
Qed.

Section S3_props.
Context (ListObjects : ListObjectsInput -> res ListObjectsOutput) (GetObject : string -> res string)
  (CommonPrefix_String : string -> string).

(** S3 lists the keys that begin with the prefix, from the first one after the
    marker on: two markers before all of them give the same answer, what is
    listed begins with the prefix and comes after the marker, and no prefix at
    all is [nil]. *)
Hypothesis ListObjects_from_start : ∀ d n p m m', str_lt m p -> str_lt m' p ->
  ListObjects {| li_Delimiter := d; li_Marker := m; li_MaxKeys := n; li_Prefix := p |}
  = ListObjects {| li_Delimiter := d; li_Marker := m'; li_MaxKeys := n; li_Prefix := p |}.
Hypothesis ListObjects_prefixes : ∀ i o ps, ListObjects i = Ok o -> lo_CommonPrefixes o = Some ps ->
  ps ≠ [] ∧ ∀ p, p ∈ ps -> HasPrefix p (li_Prefix i) = true ∧ str_lt (li_Marker i) p.

#[local] Abbreviation versions_of := (s3_ListVersions ListObjects GetObject CommonPrefix_String).

Lemma page_dirs_marker dir m m' ps acc :
  (∀ p, p ∈ ps -> HasPrefix p (dir ++ "/") = true) -> str_lt m dir -> str_lt m' dir ->
  page_dirs ListObjects m ps acc = page_dirs ListObjects m' ps acc.
Proof using ListObjects_from_start.
  intros Hps Hm Hm'. revert acc. induction ps as [|p ps IH]; intros acc; [done|]. cbn.
  destruct (HasPrefix_inv p (dir ++ "/")) as [x ->]; [apply Hps; by left|].
  destruct (TrimSuffix_under dir x) as [y ->].
  rewrite (ListObjects_from_start _ _ _ m m') by by apply str_lt_app.
  case_match; [|done]. apply IH. intros q Hq. apply Hps. by right.
Qed.

(** The S3 backend ignores [after] unless the version's bare name happens to
    sort after the directory of the database in the bucket: the name is sent as
    a marker, and a marker is compared with whole keys.  The interface promises
    that only greater versions are listed. *)
Theorem s3_after_ignored fuel path db after check :
  str_lt after (path_Join [path; db]) ->
  versions_of fuel path db after check = versions_of fuel path db "" check.
Proof using ListObjects_from_start ListObjects_prefixes.
  intros Hlt. set (dir := path_Join [path; db]) in *. unfold s3_ListVersions, listDirs. fold dir.
  assert (str_lt "" dir) as H0 by (destruct dir; [by destruct after|done]).
  assert (listDirs_loop ListObjects CommonPrefix_String fuel dir after []
    = listDirs_loop ListObjects CommonPrefix_String fuel dir "" []) as ->; [|done].
  destruct fuel as [|fuel]; [done|]. cbn.
  rewrite (ListObjects_from_start _ _ _ after "") by by apply str_lt_app.
  destruct (ListObjects _) as [resp|] eqn:E; [|done]. destruct (lo_CommonPrefixes resp) as [ps|] eqn:Ep; [|done].
  destruct (ListObjects_prefixes _ _ _ E Ep) as [_ Hps].
  by rewrite (page_dirs_marker dir after "") by (done || intros; by apply Hps).
Qed.

(** A listing never gets past its first page: the marker of the second
    request is a rendering of the last prefix that starts with a brace, which
    sorts after every key of an ordinary bucket.  With more directories than
    fit one page, the newest versions are never seen. *)
Theorem s3_first_page_only fuel path db after resp ps acc :
  (∀ p, HasPrefix (CommonPrefix_String p) "{" = true) ->
  path_Join [path; db] ≠ "" -> str_lt (path_Join [path; db]) "{" ->
  ListObjects {| li_Delimiter := "/"; li_Marker := after; li_MaxKeys := 1000;
                 li_Prefix := path_Join [path; db] ++ "/" |} = Ok resp ->
  lo_CommonPrefixes resp = Some ps -> page_dirs ListObjects after ps [] = Ok acc ->
  versions_of (S (S fuel)) path db after false = Some (Ok (sort_Strings acc))
  ∨ ∃ e, versions_of (S (S fuel)) path db after false = Some (Err (s3error e)).
Proof using ListObjects_prefixes.
  intros Hbrace Hne Hdir. set (dir := path_Join [path; db]) in *. intros E1 Ep Ed.
  unfold s3_ListVersions, listDirs. fold dir. cbn [listDirs_loop]. rewrite E1, Ep, Ed.
  destruct (lo_IsTruncated resp); [|by left]. destruct (last ps) as [p|]; [|by left].
  match goal with |- context [ListObjects ?i] => destruct (ListObjects i) as [resp2|e] eqn:E2 end;
    [|right; by exists e].
  destruct (lo_CommonPrefixes resp2) as [ps2|] eqn:Ep2; [|by left].
  exfalso. destruct (ListObjects_prefixes _ _ _ E2 Ep2) as [Hps2 Hall].
  destruct ps2 as [|q ps2]; [done|]. destruct (Hall q) as [Hq Hmark]; [by left|]. cbn in Hq, Hmark.
  apply HasPrefix_inv in Hq as [x ->]. destruct (HasPrefix_inv _ _ (Hbrace p)) as [y Hy]. rewrite Hy in Hmark.
  eapply str_lt_irrefl, str_lt_trans; [exact Hmark|]. rewrite str_app_assoc.
  cbn [String.append]. by apply str_lt_first.
Qed.
End S3_props.

(** ** The files of a version on S3 *)

#[local] Instance str_le_total : Total String.le.
Proof.
  intros s t. destruct (String.ltb s t) eqn:E; [left; by apply str_lt_le|right; by apply str_ltb_false].
Qed.

#[local] Instance str_le_trans : Transitive String.le.
Proof.
  intros s t u Hst Htu. destruct (decide (s = t)) as [->|Hne]; [done|].
  apply str_lt_le. assert (str_lt s t) as H by by apply str_lt_iff. destruct (decide (t = u)) as [<-|Hne']; [done|].
  eapply str_lt_trans; [exact H|by apply str_lt_iff].
Qed.

(** Sorting distinct names. *)
Lemma sort_Strings_strict l : NoDup l -> StronglySorted str_lt (sort_Strings l).
Proof.
  intros Hnd. assert (NoDup (sort_Strings l)) as Hnd' by (unfold sort_Strings; by rewrite merge_sort_Permutation).
  assert (StronglySorted String.le (sort_Strings l)) as Hs by apply (StronglySorted_merge_sort String.le).
  induction Hs as [|x l' Hs IH Hx]; [constructor|]. apply NoDup_cons in Hnd' as [Hxl Hnd']. constructor; [by apply IH|].
  rewrite Forall_forall in Hx |- *. intros y Hy. apply str_lt_iff. split; [by apply Hx|]. by intros ->.
Qed.

(** A file in a directory. *)
Lemma path_Join_file dir d f :
  dir ≠ "" -> plain_elem d -> plain_elem f -> path_Join [dir ++ "/" ++ d; f] = path_Join [dir; d] ++ "/" ++ f.
Proof.
  intros Hdir Hd Hf. rewrite !path_Join_snoc; [|done..|intros [H _]%str_app_eq_nil; done|done].
  rewrite is_rooted_app by done. cbn [String.append]. rewrite split_app, (split_no_sep _ d) by apply Hd.
  unfold clean_elems. rewrite foldl_app. cbn [foldl]. rewrite clean_step_plain, reverse_cons by done.
  set (es := reverse _). unfold dir_part at 1. rewrite decide_False by (by destruct es).
  rewrite concat_snoc. unfold dir_part. by destruct (is_rooted dir), (decide (es = [])); rewrite !str_app_assoc.
Qed.

Lemma path_Join_group dir d f : dir ≠ "" -> path_Join [dir; d; f] = path_Join [dir ++ "/" ++ d; f].
Proof.
  intros Hdir. unfold path_Join. rewrite !decide_False; [|intros [H _]%str_app_eq_nil; done|done].
  f_equal. cbn [String.concat]. by rewrite !str_app_assoc.
Qed.

Lemma path_Join_group2 dir d e f : dir ≠ "" -> path_Join [dir; d; e; f] = path_Join [(dir ++ "/" ++ d) ++ "/" ++ e; f].
Proof.
  intros Hdir. unfold path_Join. rewrite !decide_False; [|intros [[H _]%str_app_eq_nil _]%str_app_eq_nil; done|done].
  f_equal. cbn [String.concat]. by rewrite !str_app_assoc.
Qed.

Section S3_files.
Context (ListObjectsPages : ListObjectsInput -> res (list (list string))) {MS : MapOrder string}.

(** The pages together hold the keys of the bucket that begin with the prefix. *)
Context (bucket : list string).
Hypothesis ListObjectsPages_ok : ∀ i pages, ListObjectsPages i = Ok pages -> li_Marker i = "" ->
  ∀ k, k ∈ concat pages <-> k ∈ bucket ∧ HasPrefix k (li_Prefix i) = true.

Lemma s3_ListFiles_elem path db version names :
  s3_ListFiles ListObjectsPages path db version = Ok names ->
  StronglySorted str_lt names
  ∧ ∀ n, n ∈ names <-> ∃ k, k ∈ bucket ∧ HasPrefix k (path_Join [path; db; version]) = true
      ∧ path_Base k = n ∧ blank n = false ∧ data_file n = true.
Proof using ListObjectsPages_ok.
  unfold s3_ListFiles. destruct (ListObjectsPages _) as [pages|] eqn:E; [|done]. intros [= <-].
  pose proof (ListObjectsPages_ok _ _ E eq_refl) as Hk. cbn [li_Prefix] in Hk. split.
  - apply sort_Strings_strict. rewrite range_set_perm. apply NoDup_elements.
  - intros n. unfold sort_Strings. rewrite merge_sort_Permutation, range_set_perm, elem_of_elements, elem_of_list_to_set.
    rewrite list_elem_of_filter, list_elem_of_fmap, andb_true_iff, negb_true_iff. setoid_rewrite Hk. naive_solver.
Qed.

(** The listing of a version on S3 is sorted and without duplicates, but it
    is that of a string prefix: it also holds the data files of every version
    whose name begins with the name of this one, and [numPartitions], the
    number of files, counts them. *)
Theorem s3_files_of_other_versions path db version names more file :
  s3_ListFiles ListObjectsPages path db version = Ok names ->
  plain_elem version -> plain_elem (version ++ more) -> plain_elem file -> blank file = false -> data_file file = true ->
  path ≠ "" -> plain_elem db -> path_Join [path; db; version ++ more; file] ∈ bucket ->
  StronglySorted str_lt names ∧ file ∈ names.
Proof using ListObjectsPages_ok.
  intros Hl Hv Hvm Hf Hb Hd Hp Hdb Hin. destruct (s3_ListFiles_elem _ _ _ _ Hl) as [Hs Hn]. split; [done|].
  apply Hn. eexists. split; [exact Hin|].
  assert (path ++ "/" ++ db ≠ "") as Hdir by (intros [H _]%str_app_eq_nil; done).
  split_and!; [| |done|done].
  - rewrite path_Join_group2, path_Join_file, path_Join_group by done. rewrite !path_Join_snoc by done.
    set (pre := dir_part _ _). replace ((pre ++ version ++ more) ++ "/" ++ file) with ((pre ++ version) ++ more ++ "/" ++ file)
      by by rewrite !str_app_assoc. apply HasPrefix_app.
  - rewrite path_Join_group2 by done. apply path_Base_Join; [|done]. intros [H _]%str_app_eq_nil. done.
Qed.
End S3_files.

(** ** Witnesses *)

Module BackendExample.
Definition listing : list FileInfo :=
  [{| fi_Name := "20170101"; fi_IsDir := true |}; {| fi_Name := "20170102"; fi_IsDir := true |};
   {| fi_Name := "README"; fi_IsDir := false |}].
Definition ReadDir (path : string) : res (list FileInfo) := Ok (if decide (path = "/data/db") then listing else []).
Definition Stat (path : string) : option error :=
  if decide (path = "/data/db/20170102/_SUCCESS") then None else Some ErrNotExist.

Definition OpenFile (path : string) : res string := Err ErrNotExist.

Lemma ReadDir_sorted path files :
  ReadDir path = Ok files -> StronglySorted str_lt (fi_Name <$> files) ∧ Forall (λ f, plain_elem (fi_Name f)) files.
Proof.
  unfold ReadDir. intros [= <-]. case_decide; [|repeat constructor].
  by repeat constructor.
Qed.

Lemma directory_listing_witness :
  ListVersions (Backend := HdfsBackend ReadDir Stat OpenFile "namenode" "/data/") "db" "2016" true = Ok ["20170102"]
  ∧ StronglySorted str_lt ["20170102"]
  ∧ ∃ files path, path = path_Clean "/data/"
    ∧ ReadDir (path_Join [path; "db"]) = Ok files
    ∧ ∀ n, n ∈ ["20170102"] <-> (∃ f, f ∈ files ∧ fi_IsDir f = true ∧ fi_Name f = n) ∧ str_lt "2016" n
      ∧ (true = true -> Stat (path_Join [path_Join [path; "db"; n]; "_SUCCESS"]) = None).
Proof.
  split; [vm_compute; reflexivity|].
  apply (directory_listing ReadDir Stat OpenFile ReadDir_sorted "namenode" "/data/" true "db" "2016" true ["20170102"]).
  vm_compute. reflexivity.
Defined.

(** A bucket, and a service with pages of two prefixes. *)
Definition keys : list string :=
  ["data/db/20170101/part-0"; "data/db/20170102/part-0"; "data/db/20170103/part-0"].

(** The key up to the first slash after [p]. *)
Definition common_prefix (p key : string) : option string :=
  let rest := String.substring (String.length p) (String.length key - String.length p) key in
  let i := Index rest "/" in
  if (i <? 0)%Z then None else Some (p ++ String.substring 0 (Z.to_nat i + 1) rest).

Definition ListObjects (i : ListObjectsInput) : res ListObjectsOutput :=
  let hits := filter (λ k, HasPrefix k (li_Prefix i) = true ∧ str_lt (li_Marker i) k) keys in
  let prefixes := filter (str_lt (li_Marker i)) (remove_dups (omap (common_prefix (li_Prefix i)) hits)) in
  Ok (if decide (li_Delimiter i = "/")
      then {| lo_CommonPrefixes := match take 2 prefixes with [] => None | ps => Some ps end;
              lo_Contents := filter (λ k, common_prefix (li_Prefix i) k = None) hits;
              lo_IsTruncated := (2 <? length prefixes)%nat |}
      else {| lo_CommonPrefixes := None; lo_Contents := hits; lo_IsTruncated := false |}).

Lemma ListObjects_prefixes i o ps :
  ListObjects i = Ok o -> lo_CommonPrefixes o = Some ps ->
  ps ≠ [] ∧ ∀ p, p ∈ ps -> HasPrefix p (li_Prefix i) = true ∧ str_lt (li_Marker i) p.
Proof.
  unfold ListObjects. intros [= <-]. case_decide; [|done]. cbn [lo_CommonPrefixes].
  set (prefixes := filter (str_lt (li_Marker i)) _). intros Hps.
  assert (ps = take 2 prefixes ∧ ps ≠ []) as [-> Hne] by (destruct (take 2 prefixes); naive_solver).
  split; [done|]. intros p Hp. assert (p ∈ prefixes) as Hin by (eapply elem_of_take in Hp as (j & Hj & _); by eapply list_elem_of_lookup_2).
  apply list_elem_of_filter in Hin as [Hm Hin]. split; [|done].
  apply elem_of_remove_dups, list_elem_of_omap in Hin as (k & _ & Hc). unfold common_prefix in Hc.
  case_match; [done|]. simplify_eq. apply HasPrefix_app.
Qed.

Lemma ListObjects_from_start d n p m m' :
  str_lt m p -> str_lt m' p ->
  ListObjects {| li_Delimiter := d; li_Marker := m; li_MaxKeys := n; li_Prefix := p |}
  = ListObjects {| li_Delimiter := d; li_Marker := m'; li_MaxKeys := n; li_Prefix := p |}.
Proof.
  intros Hm Hm'. unfold ListObjects. cbn [li_Prefix li_Marker li_Delimiter].
  assert (∀ l : list string, filter (λ k, HasPrefix k p = true ∧ str_lt m k) l
    = filter (λ k, HasPrefix k p = true ∧ str_lt m' k) l) as ->.
  { intros l. apply list_filter_iff. intros k. split; intros [Hk _]; (split; [done|]);
      apply HasPrefix_inv in Hk as [x ->]; by apply str_lt_app. }
  set (hits := filter _ keys).
  assert (∀ l, filter (str_lt m) (remove_dups (omap (common_prefix p) l))
    = filter (str_lt m') (remove_dups (omap (common_prefix p) l))) as Hpre.
  { intros l. assert (∀ q, q ∈ remove_dups (omap (common_prefix p) l) -> ∃ x, q = p ++ x) as Hq.
    { intros q (k & _ & Hc)%elem_of_remove_dups%list_elem_of_omap. unfold common_prefix in Hc.
      case_match; [done|]. simplify_eq. by eexists. }
    revert Hq. generalize (remove_dups (omap (common_prefix p) l)). intros l' Hq.
    induction l' as [|q l' IH]; [done|]. destruct (Hq q) as [x ->]; [by left|].
    rewrite !(filter_cons_True _ (p ++ x)) by by apply str_lt_app. rewrite IH; [done|].
    intros q Hq'. apply Hq. by right. }
  by rewrite Hpre.
Qed.

(** Version 2017 has one file; the listing shows a file of 20170101. *)
Definition bucket : list string := ["data/db/2017/part-00000"; "data/db/20170101/part-00001"].
Definition ListObjectsPages (i : ListObjectsInput) : res (list (list string)) :=
  Ok [filter (λ k, HasPrefix k (li_Prefix i) = true) bucket].

Lemma ListObjectsPages_ok i pages :
  ListObjectsPages i = Ok pages -> li_Marker i = "" -> ∀ k, k ∈ concat pages <-> k ∈ bucket ∧ HasPrefix k (li_Prefix i) = true.
Proof. intros [= <-] _ k. cbn [concat]. rewrite app_nil_r, list_elem_of_filter. tauto. Qed.

#[local] Instance order : MapOrder string := list_order.

Lemma s3_files_of_other_versions_witness :
  s3_ListFiles ListObjectsPages "data" "db" "2017" = Ok ["part-00000"; "part-00001"]
  ∧ "part-00001" ∈ ["part-00000"; "part-00001"].
Proof.
  assert (s3_ListFiles ListObjectsPages "data" "db" "2017" = Ok ["part-00000"; "part-00001"]) as E by (vm_compute; reflexivity).
  split; [exact E|].
  refine (proj2 (s3_files_of_other_versions ListObjectsPages bucket ListObjectsPages_ok "data" "db" "2017" _ "0101" "part-00001"
                   E _ _ _ _ _ _ _ _));
    [by apply (bool_decide_unpack _)|by apply (bool_decide_unpack _)|by apply (bool_decide_unpack _)|reflexivity|reflexivity
    |discriminate|by apply (bool_decide_unpack _)|].
  apply list_elem_of_further. left.
Defined.

Definition pretty (p : string) : string := "{  Prefix: " ++ p ++ "}".

Lemma s3_after_ignored_witness :
  str_lt "20170102" (path_Join ["data"; "db"])
  ∧ s3_ListVersions ListObjects (λ _, Ok "") pretty 2 "data" "db" "20170102" true
    = s3_ListVersions ListObjects (λ _, Ok "") pretty 2 "data" "db" "" true
  ∧ s3_ListVersions ListObjects (λ _, Ok "") pretty 2 "data" "db" "" true = Some (Ok ["20170101"; "20170102"]).
Proof.
  split; [vm_compute; reflexivity|]. split; [|vm_compute; reflexivity].
  apply (s3_after_ignored ListObjects (λ _, Ok "") pretty ListObjects_from_start ListObjects_prefixes).
  vm_compute. reflexivity.
Defined.

Lemma s3_first_page_only_witness :
  s3_ListVersions ListObjects (λ _, Ok "") pretty 2 "data" "db" "" false = Some (Ok ["20170101"; "20170102"])
  ∨ ∃ e, s3_ListVersions ListObjects (λ _, Ok "") pretty 2 "data" "db" "" false = Some (Err (s3error e)).
Proof.
  apply (s3_first_page_only ListObjects (λ _, Ok "") pretty ListObjects_prefixes 0 "data" "db" ""
    {| lo_CommonPrefixes := Some ["data/db/20170101/"; "data/db/20170102/"]; lo_Contents := []; lo_IsTruncated := true |}
    ["data/db/20170101/"; "data/db/20170102/"] ["20170101"; "20170102"]).
  - intros p. exact (HasPrefix_app "{" ("  Prefix: " ++ p ++ "}")).
  - discriminate.
  - vm_compute. reflexivity.
  - vm_compute. reflexivity.
  - reflexivity.
  - vm_compute. reflexivity.
Defined.
End BackendExample.
