(* ===== verification/Db.v ===== *)
(** * db.go: the versions of one database

    A database lists the versions of its data set, opens the newest, and moves
    from one to the next when it is ready.  Its state is the mux of
    [VersionMux.v] and the state of each version; what runs in a goroutine of
    its own, and the calls on other components, are appended to a list of work
    in the order in which they are started.  [None] is a panic.

    The second half puts the operations together: [db_step] interleaves the
    requests, the waits for versions to be ready, refreshes and removals.  A
    refresh is one step here; [Refresh.v] has its phases interleaved with the
    rest. *)

From Stdlib Require Import ZArith Lia String.
From stdpp Require Import base gmap sets list strings fin_maps sorting relations.
From S2P Require Import Prelude GoStrings Backend Build VersionMux.

Open Scope string_scope.
Set Default Proof Using "Type".

Inductive work :=
  | WBuild (v : vref)                        (** [go version.build()] *)
  | WAdvertise (v : vref)                    (** [version.partitions.advertisePartitions()] *)
  | WAwait (v : vref)                        (** waiting for [version.ready], then [upgrade] *)
  | WRemove (v : vref) (shouldWait : bool)   (** [go db.removeVersion(v, shouldWait)] *)
  | WClose (v : vref)                        (** the goroutine of [version.close()] *)
  | WDelete (v : vref)                       (** [version.delete()] *)
  | WCleanup.                                (** [go db.cleanupStore()] *)

Record db_state := DB {
  db_mux : versionMux;
  db_states : gmap nat versionState;   (** the field [state] of each version, by address *)
  db_work : list work;
  db_closed : list vref;               (** the versions whose [cancel] is closed *)
}.

Definition newDB (override : Z) : db_state := DB (newVersionMux override) ∅ [] [].

Definition with_work (d : db_state) (w : list work) : db_state := DB (db_mux d) (db_states d) w (db_closed d).
Definition with_mux (d : db_state) (m : versionMux) : db_state := DB m (db_states d) (db_work d) (db_closed d).
Definition with_closed (d : db_state) (c : list vref) : db_state := DB (db_mux d) (db_states d) (db_work d) c.

Definition on_mux {A} (f : GoM versionMux A) : GoM db_state A := λ d,
  '(a, m) ← f (db_mux d); Some (a, with_mux d m).

Definition spawn (xs : list work) : GoM db_state unit := λ d, Some (tt, with_work d (db_work d ++ xs)%list).

(** [version.setState] on the shared version; it starts out building. *)
Definition set_state (v : vref) (st : versionState) : GoM db_state unit := λ d,
  let old := default versionBuilding (db_states d !! v_id v) in
  Some (tt, DB (db_mux d) (<[v_id v := if decide (old = versionError) then old else st]> (db_states d))
               (db_work d) (db_closed d)).

(** ** Upgrading *)

(** The loop over [db.mux.getAll()]: the removals that are started. *)
Definition removals (current : option vref) (v : vref) (all : list vref) : list work :=
  omap (λ old, if bool_decide (Some old = current) then Some (WRemove old true)
               else if String.ltb (v_name old) (v_name v) then Some (WRemove old false) else None) all.

Section Db.
Context {MS : MapOrder string}.

Definition db_getAll : GoM db_state (list vref) := λ d, Some (mux_getAll (db_mux d), d).

Definition db_upgrade (v : vref) : GoM db_state unit :=
  current ← on_mux getCurrent;
  _ ← on_mux (release current);
  if from_option (λ c, String.ltb (v_name v) (v_name c)) false current then spawn [WRemove v false]
  else if bool_decide (Some v = current) then mret tt
  else
    _ ← on_mux (upgrade v);
    _ ← set_state v versionAvailable;
    all ← db_getAll;
    spawn (removals current v all).

(** [switchVersion]; [ready] tells whether [version.ready] is closed when it is
    polled. *)
Definition switchVersion (v : vref) (ready : bool) : GoM db_state bool :=
  _ ← set_state v versionAvailable;
  _ ← on_mux (prepare v);
  _ ← spawn [WBuild v];
  _ ← spawn [WAdvertise v];
  if ready
  then _ ← db_upgrade v; mret true
  else _ ← spawn [WAwait v]; mret false.

(** ** Refreshing *)

(** [db.refresh]; [ListVersions] is the backend's, for this database;
    [newVersion] gives the version, and whether it is ready. *)
Definition db_refresh (ListVersions : string -> res (list string)) (newVersion : string -> res (vref * bool))
    : GoM db_state (option error) :=
  currentVersion ← on_mux getCurrent;
  _ ← on_mux (release currentVersion);
  let after := from_option v_name "" currentVersion in
  match ListVersions after with
  | Err e => mret (Some e)
  | Ok versions =>
      match last versions with
      | None => mret (if bool_decide (after = "") then Some errNoVersions else None)
      | Some latest =>
          existingVersion ← on_mux (getVersion latest);
          _ ← on_mux (release existingVersion);
          match existingVersion with
          | Some v => _ ← spawn [WBuild v]; mret None
          | None =>
              match newVersion latest with
              | Err e => mret (Some e)
              | Ok (v, ready) => _ ← switchVersion v ready; mret None
              end
          end
      end
  end.

(** ** Starting *)

(** The last three versions. *)
Definition newest3 (names : list string) : list string :=
  if (3 <? length names)%nat then drop (length names - 3) names else names.

(** The loop of [backfillVersions], on the names newest first. *)
Fixpoint backfill_loop (newVersion : string -> res (vref * bool)) (names : list string) : GoM db_state unit :=
  match names with
  | [] => mret tt
  | name :: names' =>
      match newVersion name with
      | Err _ => backfill_loop newVersion names'
      | Ok (v, ready) =>
          b ← switchVersion v ready;
          if b : bool then mret tt else backfill_loop newVersion names'
      end
  end.

Definition backfillVersions (ListVersions : string -> res (list string)) (newVersion : string -> res (vref * bool))
    : GoM db_state (option error) :=
  match ListVersions "" with
  | Err e => mret (Some e)
  | Ok [] => mret None
  | Ok versions =>
      _ ← backfill_loop newVersion (reverse (newest3 versions));
      _ ← spawn [WCleanup];
      mret None
  end.

(** The loop of [cleanupStore] over the entries of the local directory (name,
    and whether it is a directory): the directories that are removed. *)
Fixpoint cleanup_loop (dirs : list (string * bool)) : GoM db_state (list string) :=
  match dirs with
  | [] => mret []
  | (v, isDir) :: dirs' =>
      if (isDir : bool)
      then
        version ← on_mux (getVersion v);
        _ ← on_mux (release version);
        rest ← cleanup_loop dirs';
        mret (match version with Some _ => rest | None => v :: rest end)
      else cleanup_loop dirs'
  end.

(** [cleanupStore]; a directory that cannot be listed is left alone. *)
Definition cleanupStore (ReadDir : res (list (string * bool))) : GoM db_state (list string) :=
  match ReadDir with
  | Err _ => mret []
  | Ok dirs => cleanup_loop dirs
  end.

(** [localPath]: where a version is kept, and what [cleanupStore] removes. *)
Definition db_localPath (LocalStore name version : string) : string := path_Join [LocalStore; "data"; name; version].

(** ** Closing *)

(** [version.close]: closing [cancel] a second time panics; the partitions and
    the store are closed in a goroutine, once the build has ended. *)
Definition version_close (v : vref) : GoM db_state unit := λ d,
  if bool_decide (v ∈ db_closed d) then None else spawn [WClose v] (with_closed d (v :: db_closed d)).

Fixpoint close_all (vs : list vref) : GoM db_state unit :=
  match vs with
  | [] => mret tt
  | v :: vs' => _ ← version_close v; close_all vs'
  end.

(** [db.close]: the versions stay in the mux. *)
Definition db_close : GoM db_state unit := all ← db_getAll; close_all all.

Definition db_delete : GoM db_state unit := all ← db_getAll; spawn (WDelete <$> all).

(** The start of [removeVersion], up to its call of [mux.remove]; without
    peers the call does not wait. *)
Definition removeVersion (peers : bool) (v : vref) (shouldWait : bool) : GoM db_state remover :=
  _ ← set_state v versionRemoving; mret (RBegin v (shouldWait && peers)).

(** The end of [removeVersion]: [r] is where [mux.remove] is; once it has
    returned a version, that version is closed and its files deleted. *)
Definition removed (r : remover) : GoM db_state unit :=
  match r with
  | RReturned (Some v) => _ ← version_close v; spawn [WDelete v]
  | _ => mret tt
  end.
End Db.

(** ** A database in use *)

Record dsys := DSys {
  d_db : db_state;
  d_inflight : list vref;        (** one entry per request that holds a version *)
  d_remover : option remover;    (** the call of [mux.remove] under [cleanupLock] *)
  d_known : gmap string vref;    (** the versions opened so far *)
}.

Definition mux_of (s : dsys) : sys := Sys (db_mux (d_db s)) (d_inflight s) (d_remover s) (d_known s).

Definition now_known (k : gmap string vref) (m : versionMux) : gmap string vref := k ∪ (rc_version <$> versions m).

(** [newVersion] opens the version it is asked for. *)
Definition opens (newVersion : string -> res (vref * bool)) : Prop :=
  ∀ name v ready, newVersion name = Ok (v, ready) -> v_name v = name.

(** What goes on around refreshes and upgrades: requests, the clock, the
    states that builds set, and the phases of [mux.remove]. *)
Inductive env_step : dsys -> dsys -> Prop :=
  | ds_current d l r k v d' :
      on_mux getCurrent d = Some (Some v, d') -> env_step (DSys d l r k) (DSys d' (v :: l) r k)
  | ds_version name d l r k v d' :
      on_mux (getVersion name) d = Some (Some v, d') -> env_step (DSys d l r k) (DSys d' (v :: l) r k)
  | ds_finish d l1 v l2 r k d' :
      on_mux (release (Some v)) d = Some (tt, d') ->
      env_step (DSys d (l1 ++ v :: l2)%list r k) (DSys d' (l1 ++ l2)%list r k)
  | ds_tick t d l r k :
      (0 <= t)%Z -> env_step (DSys d l r k) (DSys (with_mux d (tick t (db_mux d))) l r k)
  | ds_build v st d l r k d' :       (** a build calls [setState] *)
      set_state v st d = Some (tt, d') -> env_step (DSys d l r k) (DSys d' l r k)
  | ds_remover d l r k r' m' d' :
      remove_step r (db_mux d) = Some (r', m') -> removed r' (with_mux d m') = Some (tt, d') ->
      env_step (DSys d l (Some r) k) (DSys d' l (Some r') k).

Inductive db_step {MS : MapOrder string} (peers : bool) : dsys -> dsys -> Prop :=
  | ds_env s s' : env_step s s' -> db_step peers s s'
  | ds_ready v w1 w2 d l r k d' :    (** a version that was waited for is ready *)
      db_work d = (w1 ++ WAwait v :: w2)%list -> db_upgrade v (with_work d (w1 ++ w2)) = Some (tt, d') ->
      db_step peers (DSys d l r k) (DSys d' l r k)
  | ds_refresh LV NV e d l r k d' :
      lists_after LV -> opens NV -> db_refresh LV NV d = Some (e, d') ->
      db_step peers (DSys d l r k) (DSys d' l r (now_known k (db_mux d')))
  | ds_backfill LV NV e d l r d' :   (** at startup *)
      lists_after LV -> opens NV -> backfillVersions LV NV d = Some (e, d') ->
      db_step peers (DSys d l r ∅) (DSys d' l r (now_known ∅ (db_mux d')))
  | ds_remove v w w1 w2 d l r k r' d' :
      db_work d = (w1 ++ WRemove v w :: w2)%list -> target r = None ->
      removeVersion peers v w (with_work d (w1 ++ w2)) = Some (r', d') ->
      db_step peers (DSys d l r k) (DSys d' l (Some r') k).

Definition db_init (override : Z) : dsys := DSys (newDB override) [] None ∅.

(** The current version is a later one than [name]. *)
Definition older (m : versionMux) (name : string) : Prop :=
  ∃ c, currentVersion m = Some c ∧ str_lt name (v_name (rc_version c)).

Definition work_ok (m : versionMux) (k : gmap string vref) (x : work) : Prop :=
  match x with
  | WAwait v => k !! v_name v = Some v
  | WRemove v _ => k !! v_name v = Some v ∧ older m (v_name v)
  | _ => True
  end.

(** What has been opened is in the mux or has been superseded, and only what
    has been superseded is removed, once. *)
Record db_ok (s : dsys) : Prop := {
  do_sys : sys_ok (mux_of s);
  do_known : ∀ n v, d_known s !! n = Some v -> is_Some (versions (db_mux (d_db s)) !! n) ∨ older (db_mux (d_db s)) n;
  do_work : Forall (work_ok (db_mux (d_db s)) (d_known s)) (db_work (d_db s));
  do_target : ∀ v, target (d_remover s) = Some v -> older (db_mux (d_db s)) (v_name v);
  do_closed : ∀ v, v ∈ db_closed (d_db s) ->
    d_known s !! v_name v = Some v ∧ versions (db_mux (d_db s)) !! v_name v = None
    ∧ ∀ vs, d_remover s ≠ Some (RWait v vs);
}.

(** The current version is [name] or a later one. *)
Definition at_least (m : versionMux) (name : string) : Prop :=
  ∃ c, currentVersion m = Some c ∧ String.le name (v_name (rc_version c)).

(** [s'] is reached in the mux's own transition system, its current version is
    not an earlier one, and it is in order. *)
Definition db_sim (s s' : dsys) : Prop :=
  (rtc sys_step (mux_of s) (mux_of s') ∧ ∀ n, at_least (db_mux (d_db s)) n -> at_least (db_mux (d_db s')) n) ∧ db_ok s'.

Lemma db_sim_refl s : db_ok s -> db_sim s s.
Proof. intros Hok. split; [|done]. by split; [apply rtc_refl|]. Qed.

Lemma db_sim_trans s1 s2 s3 : db_sim s1 s2 -> db_sim s2 s3 -> db_sim s1 s3.
Proof. intros [[H1 H1'] _] [[H2 H2'] H3]. split; [|done]. split; [by etransitivity|auto]. Qed.

Lemma db_sim_intro s s' :
  rtc sys_step (mux_of s) (mux_of s') ->
  currentVersion (db_mux (d_db s')) = currentVersion (db_mux (d_db s)) -> db_ok s' -> db_sim s s'.
Proof. intros Hr Hc Hok. split; [|done]. split; [done|]. intros n (c & ? & ?). exists c. by rewrite Hc. Qed.

Lemma older_frame m m' n : currentVersion m' = currentVersion m -> older m n -> older m' n.
Proof. intros Hc (c & ? & ?). exists c. by rewrite Hc. Qed.

Lemma work_ok_mono m m' k k' x :
  k ⊆ k' -> (∀ n, older m n -> older m' n) -> work_ok m k x -> work_ok m' k' x.
Proof.
  intros Hk Ho. destruct x; cbn; try done.
  - intros H. by eapply lookup_weaken.
  - intros [H1 H2]. split; [by eapply lookup_weaken|auto].
Qed.

(** Neither the entries nor the current version change. *)
Lemma db_ok_frame d d' l l' r k :
  db_ok (DSys d l r k) -> versions (db_mux d') = versions (db_mux d) ->
  currentVersion (db_mux d') = currentVersion (db_mux d) -> db_closed d' = db_closed d ->
  sys_ok (mux_of (DSys d' l' r k)) -> Forall (work_ok (db_mux d) k) (db_work d') ->
  db_ok (DSys d' l' r k).
Proof.
  intros [_ Hk _ Ht Hcl] Hv Hc Hcd Hs Hw. cbn in *.
  assert (∀ n, older (db_mux d) n -> older (db_mux d') n) as Ho by (intros n; by apply older_frame).
  split; cbn; rewrite ?Hv, ?Hcd; [done| | |auto|done].
  - intros n v Hn. destruct (Hk n v Hn); auto.
  - eapply Forall_impl; [exact Hw|]. intros x. by apply work_ok_mono.
Qed.

(** Work and states are not part of the mux. *)
Lemma db_ok_work d l r k st w :
  db_ok (DSys d l r k) -> Forall (work_ok (db_mux d) k) w -> db_ok (DSys (DB (db_mux d) st w (db_closed d)) l r k).
Proof. intros Hok Hw. eapply db_ok_frame; [exact Hok|done..|apply Hok|done]. Qed.

(** One piece of work is taken up. *)
Lemma take_work d l r k w1 x w2 :
  db_ok (DSys d l r k) -> db_work d = (w1 ++ x :: w2)%list ->
  db_ok (DSys (with_work d (w1 ++ w2)) l r k) ∧ work_ok (db_mux d) k x.
Proof.
  intros Hok Hw. pose proof (do_work _ Hok) as Hall. cbn in Hall. rewrite Hw in Hall.
  apply Forall_app in Hall as [Hw1 [Hx Hw2]%Forall_cons]. split; [|done].
  apply db_ok_work; [done|by apply Forall_app].
Qed.

(** ** Every operation stays within the mux's contract *)

Lemma on_mux_bind {A B} (f : GoM versionMux A) (g : A -> GoM db_state B) d a m :
  f (db_mux d) = Some (a, m) -> (on_mux f ≫= g) d = g a (with_mux d m).
Proof. intros H. rewrite GoM_bind_eq. unfold on_mux. by rewrite H. Qed.

Lemma spawn_bind {B} xs (g : unit -> GoM db_state B) d :
  (spawn xs ≫= g) d = g tt (with_work d (db_work d ++ xs)%list).
Proof. reflexivity. Qed.

Section Db_props.
Context {MS : MapOrder string}.

Lemma read_current d l r k :
  db_ok (DSys d l r k) ->
  ∃ m1 m', getCurrent (db_mux d) = Some (rc_version <$> currentVersion (db_mux d), m1)
  ∧ release (rc_version <$> currentVersion (db_mux d)) m1 = Some (tt, m')
  ∧ versions m' = versions (db_mux d) ∧ currentVersion m' = currentVersion (db_mux d)
  ∧ db_sim (DSys d l r k) (DSys (with_mux d m') l r k).
Proof.
  intros Hok. destruct (getCurrent_release _ _ _ _ (do_sys _ Hok)) as (m1 & m' & Hg & Hr & Hv & Hc & Hs).
  exists m1, m'. split_and!; [done..|].
  apply db_sim_intro; [|done|eapply db_ok_frame; [exact Hok|done..|apply Hok]].
  cbn in *. destruct (currentVersion (db_mux d)) as [c|] eqn:E; cbn in Hg, Hr.
  - eapply rtc_l; [by eapply sy_current|]. eapply rtc_l; [by eapply (sy_finish m1 [])|]. apply rtc_refl.
  - unfold getCurrent in Hg. rewrite E in Hg. simplify_eq. cbn. apply rtc_refl.
Qed.

Lemma read_version name d l r k :
  db_ok (DSys d l r k) ->
  ∃ m1 m', getVersion name (db_mux d) = Some (rc_version <$> versions (db_mux d) !! name, m1)
  ∧ release (rc_version <$> versions (db_mux d) !! name) m1 = Some (tt, m')
  ∧ versions m' = versions (db_mux d) ∧ currentVersion m' = currentVersion (db_mux d)
  ∧ db_sim (DSys d l r k) (DSys (with_mux d m') l r k).
Proof.
  intros Hok. destruct (getVersion_release name _ _ _ _ (do_sys _ Hok)) as (m1 & m' & Hg & Hr & Hv & Hc & Hs).
  exists m1, m'. split_and!; [done..|].
  apply db_sim_intro; [|done|eapply db_ok_frame; [exact Hok|done..|apply Hok]].
  cbn in *. destruct (versions (db_mux d) !! name) as [c|] eqn:E; cbn in Hg, Hr.
  - eapply rtc_l; [by eapply sy_version|]. eapply rtc_l; [by eapply (sy_finish m1 [])|]. apply rtc_refl.
  - unfold getVersion in Hg. rewrite E in Hg. simplify_eq. cbn. apply rtc_refl.
Qed.

Lemma elem_of_getAll m u :
  u ∈ mux_getAll m <-> ∃ n vs, versions m !! n = Some vs ∧ rc_version vs = u.
Proof.
  unfold mux_getAll. rewrite list_elem_of_fmap. split.
  - intros ([n vs] & -> & Hx). rewrite range_perm in Hx. apply elem_of_map_to_list in Hx. eauto.
  - intros (n & vs & Hn & <-). exists (n, vs). split; [done|]. rewrite range_perm. by apply elem_of_map_to_list.
Qed.

(** What [upgrade] does, in every case. *)
Inductive upgraded (v : vref) (d d' : db_state) : Prop :=
  | up_old c :
      currentVersion (db_mux d) = Some c -> str_lt (v_name v) (v_name (rc_version c)) ->
      currentVersion (db_mux d') = Some c -> db_work d' = (db_work d ++ [WRemove v false])%list -> upgraded v d d'
  | up_same c :
      currentVersion (db_mux d) = Some c -> rc_version c = v ->
      currentVersion (db_mux d') = Some c -> db_work d' = db_work d -> upgraded v d d'
  | up_new c' :
      (∀ c, currentVersion (db_mux d) = Some c -> str_lt (v_name (rc_version c)) (v_name v)) ->
      currentVersion (db_mux d') = Some c' -> rc_version c' = v ->
      db_work d' = (db_work d ++ removals (rc_version <$> currentVersion (db_mux d)) v (mux_getAll (db_mux d)))%list ->
      upgraded v d d'.

(** The version of an entry and the name it has. *)
Lemma known_entry d l r k n vs :
  db_ok (DSys d l r k) -> versions (db_mux d) !! n = Some vs ->
  v_name (rc_version vs) = n ∧ k !! n = Some (rc_version vs).
Proof. intros Hok Hn. destruct (entry_name _ _ _ _ _ _ (do_sys _ Hok) Hn) as (? & ? & _). done. Qed.

Lemma known_current d l r k c :
  db_ok (DSys d l r k) -> currentVersion (db_mux d) = Some c ->
  k !! v_name (rc_version c) = Some (rc_version c).
Proof.
  intros Hok Hc. destruct (so_current _ (do_sys _ Hok) c Hc) as (_ & vs & Hvs & Hv & _).
  destruct (known_entry _ _ _ _ _ _ Hok Hvs) as [_ ?]. congruence.
Qed.

(** What is removed precedes the version that replaces it. *)
Lemma removals_ok d l r k cur v m' :
  db_ok (DSys d l r k) -> (∀ c, cur = Some c -> str_lt (v_name c) (v_name v)) ->
  (∀ n, str_lt n (v_name v) -> older m' n) ->
  Forall (work_ok m' k) (removals cur v (mux_getAll (db_mux d))).
Proof.
  intros Hok Hcur Ho. apply Forall_forall. intros x (u & Hu & Hx)%list_elem_of_omap.
  apply elem_of_getAll in Hu as (n & vs & Hn & <-). destruct (known_entry _ _ _ _ _ _ Hok Hn) as [Hname Hku].
  case_bool_decide as Hcu; [|destruct (String.ltb _ (v_name v)) eqn:Elt; [|done]]; injection Hx as <-;
    (split; [congruence|]); auto.
Qed.

(** A version that is neither older than the current one nor the current one is
    newer: no two versions have the same name. *)
Lemma upgrade_newer v d l r k :
  db_ok (DSys d l r k) -> k !! v_name v = Some v ->
  let cur := rc_version <$> currentVersion (db_mux d) in
  from_option (λ c, String.ltb (v_name v) (v_name c)) false cur = false -> Some v ≠ cur ->
  ∀ c, cur = Some c -> str_lt (v_name c) (v_name v).
Proof.
  intros Hok Hkv cur Hold Hne c Hc. rewrite Hc in Hold. cbn in Hold. apply str_le_ne; [done|]. intros Heq.
  apply Hne. rewrite Hc. f_equal. subst cur. destruct (currentVersion (db_mux d)) as [cv|] eqn:E; [|done].
  injection Hc as <-. pose proof (known_current _ _ _ _ _ Hok E). congruence.
Qed.

(** [mux.upgrade] finds the version it is given, and what precedes the new
    version may be removed. *)
Lemma mux_upgrade_sim v d l r k :
  db_ok (DSys d l r k) -> k !! v_name v = Some v ->
  (∀ c, rc_version <$> currentVersion (db_mux d) = Some c -> str_lt (v_name c) (v_name v)) ->
  ∃ vs, upgrade v (db_mux d) = Some (tt, set_current (db_mux d) (Some vs)) ∧ rc_version vs = v
  ∧ ∀ st w, Forall (work_ok (set_current (db_mux d) (Some vs)) k) w ->
    db_sim (DSys d l r k) (DSys (DB (set_current (db_mux d) (Some vs)) st (db_work d ++ w) (db_closed d)) l r k).
Proof.
  intros Hok Hkv Hnew.
  assert (∀ c, currentVersion (db_mux d) = Some c -> str_lt (v_name (rc_version c)) (v_name v)) as Hnew'
    by (intros c Hc; apply Hnew; by rewrite Hc).
  assert (¬ older (db_mux d) (v_name v)) as Hnot.
  { intros (c & Hcc & Hlt). apply (str_lt_irrefl (v_name v)). eapply str_lt_trans; [exact Hlt|auto]. }
  destruct (do_known _ Hok _ _ Hkv) as [[vs Hvs]|?]; [|done]. cbn in Hvs.
  destruct (known_entry _ _ _ _ _ _ Hok Hvs) as [_ Hkvs]. assert (rc_version vs = v) as Hrc by congruence.
  assert (upgrade v (db_mux d) = Some (tt, set_current (db_mux d) (Some vs))) as Hup.
  { unfold upgrade, mustGet. rewrite Hvs. cbn. by rewrite bool_decide_true by done. }
  assert (target r ≠ Some v) as Ht by (intros Ht; by apply (do_target _ Hok) in Ht).
  exists vs. split_and!; [done..|]. intros st w Hw.
  assert (∀ n, older (db_mux d) n -> older (set_current (db_mux d) (Some vs)) n) as Ho.
  { intros n (c & Hcc & Hlt). exists vs. split; [done|]. rewrite Hrc. eapply str_lt_trans; [exact Hlt|auto]. }
  split; [split|split; cbn].
  - eapply rtc_l; [by eapply (sy_upgrade v)|]. apply rtc_refl.
  - intros n (c & Hcc & Hle). exists vs. split; [done|]. rewrite Hrc. apply str_lt_le.
    eapply str_le_lt_trans; [exact Hle|auto].
  - by eapply upgrade_ok; [apply Hok| |].
  - intros n u Hn. destruct (do_known _ Hok _ _ Hn); auto.
  - apply Forall_app. split; [|done]. eapply Forall_impl; [apply (do_work _ Hok)|]. intros x. by apply work_ok_mono.
  - intros u Hu. apply Ho. by apply (do_target _ Hok).
  - apply (do_closed _ Hok).
Qed.

Lemma db_upgrade_ok v d l r k :
  db_ok (DSys d l r k) -> k !! v_name v = Some v ->
  ∃ d', db_upgrade v d = Some (tt, d') ∧ db_sim (DSys d l r k) (DSys d' l r k)
  ∧ versions (db_mux d') = versions (db_mux d) ∧ db_closed d' = db_closed d ∧ upgraded v d d'.
Proof.
  intros Hok Hkv. destruct (read_current _ _ _ _ Hok) as (m1 & m' & Hg & Hr & Hv & Hc & Hsim).
  pose proof (proj2 Hsim) as Hok'. set (cur := currentVersion (db_mux d)) in *.
  unfold db_upgrade. erewrite on_mux_bind by exact Hg. erewrite on_mux_bind by exact Hr. cbn.
  destruct (from_option (λ c, String.ltb (v_name v) (v_name c)) false (rc_version <$> cur)) eqn:Eold.
  { destruct cur as [c|] eqn:Ec; [|done]. cbn in Eold. eexists. split; [reflexivity|]. cbn.
    split_and!; [|done|done|by eapply up_old]. eapply db_sim_trans; [exact Hsim|]. apply db_sim_intro; [apply rtc_refl|done|].
    eapply (db_ok_work (with_mux d m')); [exact Hok'|]. apply Forall_app. split; [apply Hok'|].
    repeat constructor; [done|]. by exists c. }
  case_bool_decide as Esame.
  { destruct cur as [c|] eqn:Ec; [|done]. cbn in Esame. simplify_eq. eexists. split; [reflexivity|].
    split_and!; [done|done|done|by eapply up_same]. }
  pose proof (upgrade_newer _ _ _ _ _ Hok Hkv Eold Esame) as Hnew.
  destruct (mux_upgrade_sim v _ _ _ _ Hok' Hkv) as (vs & Hup & Hrc & Hs).
  { cbn. by rewrite Hc. }
  cbn in Hup. erewrite on_mux_bind by exact Hup. rewrite GoM_bind_eq. unfold set_state. rewrite GoM_bind_eq.
  unfold db_getAll, spawn. cbn.
  assert (mux_getAll (set_current m' (Some vs)) = mux_getAll (db_mux d)) as ->
    by (unfold mux_getAll; cbn; by rewrite Hv).
  eexists. split; [reflexivity|]. split_and!; [|done|done|].
  - eapply db_sim_trans; [exact Hsim|]. apply Hs. eapply removals_ok; [exact Hok|exact Hnew|].
    intros n Hn. exists vs. by rewrite Hrc.
  - eapply (up_new _ _ _ vs); try done. intros c Ec. apply Hnew. by rewrite Ec.
Qed.

Lemma now_known_insert d l r k v vs m' :
  db_ok (DSys d l r k) -> rc_version vs = v -> versions m' = <[v_name v := vs]> (versions (db_mux d)) ->
  k !! v_name v = None -> now_known k m' = <[v_name v := v]> k.
Proof.
  intros Hok Hvs Hm Hnew. unfold now_known. rewrite Hm, fmap_insert, Hvs. apply map_eq. intros n.
  rewrite lookup_union, lookup_insert. case_decide as Hn.
  - subst n. by rewrite Hnew, lookup_insert_eq.
  - rewrite lookup_insert_ne by done. rewrite lookup_fmap.
    destruct (versions (db_mux d) !! n) as [vs'|] eqn:E; cbn.
    + destruct (known_entry _ _ _ _ _ _ Hok E) as [_ ->]. done.
    + by destruct (k !! n).
Qed.

Lemma now_known_same d l r k m' :
  db_ok (DSys d l r k) -> versions m' = versions (db_mux d) -> now_known k m' = k.
Proof.
  intros Hok Hm. unfold now_known. rewrite Hm. apply map_eq. intros n. rewrite lookup_union, lookup_fmap.
  destruct (versions (db_mux d) !! n) as [vs|] eqn:E; cbn.
  - destruct (known_entry _ _ _ _ _ _ Hok E) as [_ ->]. done.
  - by destruct (k !! n).
Qed.

(** A version of a new name enters the mux. *)
Lemma prepare_sim v d l r k :
  db_ok (DSys d l r k) -> k !! v_name v = None ->
  ∃ m1 vs, prepare v (db_mux d) = Some (tt, m1) ∧ rc_version vs = v
  ∧ versions m1 = <[v_name v := vs]> (versions (db_mux d)) ∧ currentVersion m1 = currentVersion (db_mux d)
  ∧ ∀ st w, Forall (work_ok m1 (<[v_name v := v]> k)) w ->
    db_sim (DSys d l r k) (DSys (DB m1 st (db_work d ++ w) (db_closed d)) l r (<[v_name v := v]> k)).
Proof.
  intros Hok Hnew.
  destruct (versions (db_mux d) !! v_name v) as [e|] eqn:Ev.
  { destruct (known_entry _ _ _ _ _ _ Hok Ev) as [_ ?]. congruence. }
  assert (∃ m1, prepare v (db_mux d) = Some (tt, m1)) as [m1 Hp] by (unfold prepare; rewrite Ev; eauto).
  pose proof Hp as Hp'. unfold prepare in Hp'. rewrite Ev in Hp'. injection Hp' as Hm1.
  exists m1, (RC v (next (db_mux d)) None false).
  split_and!; [done|done|by subst m1..|]. intros st w Hw. apply db_sim_intro.
  { eapply rtc_l; [by eapply (sy_prepare v)|]. apply rtc_refl. }
  { by subst m1. }
  assert (∀ n, older (db_mux d) n -> older m1 n) as Ho by (intros n; apply older_frame; by subst m1).
  assert (k ⊆ <[v_name v := v]> k) as Hsub by by apply insert_subseteq.
  assert (versions m1 = <[v_name v := RC v (next (db_mux d)) None false]> (versions (db_mux d))) as Hvm by by subst m1.
  split; cbn.
  - eapply prepare_ok; [apply Hok|done|done].
  - intros n u. rewrite Hvm, lookup_insert. case_decide.
    + subst n. intros _. left. rewrite lookup_insert_eq. by eexists.
    + intros Hn. rewrite lookup_insert_ne by done. destruct (do_known _ Hok _ _ Hn); auto.
  - apply Forall_app. split; [|done]. eapply Forall_impl; [apply (do_work _ Hok)|]. intros x. by apply work_ok_mono.
  - intros u Hu. apply Ho. by apply (do_target _ Hok).
  - intros u Hu. destruct (do_closed _ Hok u Hu) as (Hku & Hnu & Hr). cbn in *.
    assert (v_name v ≠ v_name u) by congruence. rewrite Hvm, !lookup_insert_ne by done. done.
Qed.

Lemma switchVersion_ok v ready d l r k :
  db_ok (DSys d l r k) -> k !! v_name v = None ->
  ∃ d' vs, switchVersion v ready d = Some (ready, d') ∧ db_sim (DSys d l r k) (DSys d' l r (<[v_name v := v]> k))
  ∧ rc_version vs = v ∧ versions (db_mux d') = <[v_name v := vs]> (versions (db_mux d))
  ∧ (if ready then currentVersion (db_mux d) = None -> ∃ c, currentVersion (db_mux d') = Some c ∧ rc_version c = v
     else currentVersion (db_mux d') = currentVersion (db_mux d)).
Proof.
  intros Hok Hnew. destruct (prepare_sim _ _ _ _ _ Hok Hnew) as (m1 & vs & Hp & Hvs & Hvm & Hcm & Hsim).
  assert (<[v_name v := v]> k !! v_name v = Some v) as Hkv by by rewrite lookup_insert_eq.
  unfold switchVersion. rewrite GoM_bind_eq. unfold set_state at 1.
  erewrite on_mux_bind by exact Hp. rewrite !spawn_bind. destruct ready.
  - rewrite GoM_bind_eq. match goal with |- context [db_upgrade v ?d1] => set (d1' := d1) end.
    assert (db_sim (DSys d l r k) (DSys d1' l r (<[v_name v := v]> k))) as Hs1.
    { unfold d1', with_work. cbn. rewrite <- (assoc_L (++)%list). apply Hsim. by repeat constructor. }
    destruct (db_upgrade_ok v d1' l r _ (proj2 Hs1) Hkv) as (d' & Hu & Hs2 & Hv2 & _ & Hup).
    rewrite Hu. exists d', vs. split_and!; [done|by eapply db_sim_trans|done|by rewrite Hv2|].
    intros Hnone. rewrite <- Hcm in Hnone. destruct Hup as [c Hc _ _ _|c Hc _ _ _|c' _ Hc' Hv' _].
    + cbn in Hc. congruence.
    + cbn in Hc. congruence.
    + by exists c'.
  - eexists _, vs. split; [reflexivity|]. split; [|done]. unfold with_work. cbn.
    rewrite <- !(assoc_L (++)%list). apply Hsim. by repeat constructor.
Qed.

Lemma db_refresh_ok LV NV d l r k :
  db_ok (DSys d l r k) -> lists_after LV -> opens NV ->
  ∃ e d', db_refresh LV NV d = Some (e, d')
  ∧ db_sim (DSys d l r k) (DSys d' l r (now_known k (db_mux d'))).
Proof.
  intros Hok HLV HNV. destruct (read_current _ _ _ _ Hok) as (m1 & m' & Hg & Hr & Hv & Hc & Hsim).
  pose proof (proj2 Hsim) as Hok'.
  assert (∀ d2, db_sim (DSys d l r k) (DSys d2 l r k) -> versions (db_mux d2) = versions (db_mux d) ->
    db_sim (DSys d l r k) (DSys d2 l r (now_known k (db_mux d2)))) as Hidle.
  { intros d2 H2 Hv2. by rewrite (now_known_same _ _ _ _ _ Hok Hv2). }
  unfold db_refresh. erewrite on_mux_bind by exact Hg. erewrite on_mux_bind by exact Hr.
  set (after := from_option v_name "" (rc_version <$> currentVersion (db_mux d))).
  destruct (LV after) as [names|e] eqn:ELV; [|eexists _, _; split; [reflexivity|]; by apply Hidle].
  destruct (HLV _ _ ELV) as [_ Hafter].
  destruct (last names) as [latest|] eqn:Elast; [|eexists _, _; split; [reflexivity|]; by apply Hidle].
  destruct (read_version latest _ _ _ _ Hok') as (m2 & m3 & Hg2 & Hr2 & Hv2 & Hc2 & Hsim2). cbn in *.
  erewrite on_mux_bind by exact Hg2. erewrite on_mux_bind by exact Hr2.
  assert (db_sim (DSys d l r k) (DSys (with_mux d m3) l r k)) as Hsim3 by by eapply db_sim_trans.
  pose proof (proj2 Hsim3) as Hok3.
  destruct (versions m' !! latest) as [ve|] eqn:Ever; cbn -[switchVersion].
  { eexists _, _. split; [reflexivity|]. apply Hidle; [|cbn; congruence]. eapply db_sim_trans; [exact Hsim3|].
    apply db_sim_intro; [apply rtc_refl|done|]. apply (db_ok_work (with_mux d m3)); [done|]. apply Forall_app.
    split; [apply Hok3|by repeat constructor]. }
  destruct (NV latest) as [[v ready]|e] eqn:ENV.
  2: { eexists _, _. split; [reflexivity|]. apply Hidle; [done|cbn; congruence]. }
  pose proof (HNV _ _ _ ENV) as Hname.
  assert (k !! v_name v = None) as Hfresh.
  { rewrite Hname. destruct (k !! latest) as [u|] eqn:Ek; [|done].
    destruct (do_known _ Hok' _ _ Ek) as [[? ?]|(c & Hcc & Hlt)]; cbn in *; [congruence|].
    rewrite Forall_forall in Hafter. rewrite last_lookup in Elast. apply list_elem_of_lookup_2, Hafter in Elast.
    unfold after in Elast. rewrite Hc in Hcc. rewrite Hcc in Elast. cbn in Elast.
    exfalso. apply (str_lt_irrefl latest). by eapply str_lt_trans. }
  destruct (switchVersion_ok v ready _ _ _ _ Hok3 Hfresh) as (d' & vs & Hsw & Hsim4 & Hvs & Hvd & _).
  rewrite GoM_bind_eq. match goal with |- context [switchVersion v ready ?x] => change x with (with_mux d m3) end.
  rewrite Hsw. eexists _, _. split; [reflexivity|].
  cbn in Hvd. rewrite Hv2, Hv in Hvd.
  rewrite (now_known_insert _ _ _ _ _ _ _ Hok Hvs Hvd Hfresh). by eapply db_sim_trans.
Qed.

Lemma now_known_absorb k m v vs :
  versions m !! v_name v = Some vs -> rc_version vs = v -> k !! v_name v = None ->
  now_known (<[v_name v := v]> k) m = now_known k m.
Proof.
  intros Hn Hvs Hk. unfold now_known. apply map_eq. intros n. rewrite !lookup_union, lookup_insert, lookup_fmap.
  case_decide; [|done]. subst n. rewrite Hk, Hn. cbn. by rewrite Hvs.
Qed.

(** The versions of a list that a backfill opens: those that can be opened,
    down to the newest one that is ready. *)
Definition tried (NV : string -> res (vref * bool)) (names : list string) (n : string) : Prop :=
  n ∈ names ∧ (∃ v b, NV n = Ok (v, b)) ∧ ∀ n' v, n' ∈ names -> str_lt n n' -> NV n' ≠ Ok (v, true).

Lemma tried_skip NV n names n' :
  (∀ x, x ∈ names -> str_lt x n) -> (∀ v, NV n ≠ Ok (v, true)) ->
  tried NV (n :: names) n' <-> (n' = n ∧ ∃ v b, NV n = Ok (v, b)) ∨ tried NV names n'.
Proof.
  intros Hn Hnot. split.
  - intros (Hin & Hu & Hnone). apply elem_of_cons in Hin as [->|Hin]; [by left|right].
    split_and!; [done..|]. intros n2 u ? ?. apply Hnone; [by right|done].
  - intros [[-> Hu]|(Hin & Hu & Hnone)]; (split_and!; [by constructor|done|]);
      intros n2 u [->|Hn2]%elem_of_cons Hlt; try done; [|by eapply Hnone].
    exfalso. eapply str_lt_irrefl, str_lt_trans; [exact Hlt|by apply Hn].
Qed.

Lemma tried_stop NV n names v n' :
  (∀ x, x ∈ names -> str_lt x n) -> NV n = Ok (v, true) -> tried NV (n :: names) n' <-> n' = n.
Proof.
  intros Hn Hv. split.
  - intros (Hin & _ & Hnone). apply elem_of_cons in Hin as [->|Hin]; [done|].
    exfalso. apply (Hnone n v); [by left|by apply Hn|done].
  - intros ->. split_and!; [by left|eauto|]. intros n2 u [->|Hn2]%elem_of_cons Hlt.
    + by apply str_lt_irrefl in Hlt.
    + exfalso. eapply str_lt_irrefl, str_lt_trans; [exact Hlt|by apply Hn].
Qed.

(** The loop of [backfillVersions] on fresh names, newest first. *)
Lemma backfill_loop_ok NV names d l r k :
  db_ok (DSys d l r k) -> opens NV -> StronglySorted (flip str_lt) names ->
  (∀ n, n ∈ names -> k !! n = None) -> currentVersion (db_mux d) = None ->
  ∃ d', backfill_loop NV names d = Some (tt, d')
  ∧ db_sim (DSys d l r k) (DSys d' l r (now_known k (db_mux d')))
  ∧ versions (db_mux d) ⊆ versions (db_mux d')
  ∧ (∀ n, is_Some (versions (db_mux d') !! n) <-> is_Some (versions (db_mux d) !! n) ∨ tried NV names n)
  ∧ match currentVersion (db_mux d') with
    | Some c => NV (v_name (rc_version c)) = Ok (rc_version c, true) ∧ v_name (rc_version c) ∈ names
    | None => ∀ n v, n ∈ names -> NV n ≠ Ok (v, true)
    end.
Proof.
  intros Hok HNV Hsort. revert d k Hok. induction Hsort as [|n names Hsort IH Hn]; intros d k Hok Hfresh Hcur.
  { exists d. cbn. rewrite Hcur, (now_known_same _ _ _ _ _ Hok eq_refl).
    split_and!; [done|by apply db_sim_refl|done| |by intros ? ? ?%not_elem_of_nil].
    intros n. split; [by left|]. intros [?|[?%not_elem_of_nil _]]; done. }
  rewrite Forall_forall in Hn. cbn [backfill_loop]. destruct (NV n) as [[v ready]|e] eqn:ENV.
  2: { destruct (IH d k Hok) as (d' & Hl & Hs & Hsub & Hver & Hc); [set_solver|done|].
       exists d'. split_and!; [done..| |].
       - intros n'. rewrite Hver, tried_skip by (congruence || done). naive_solver congruence.
       - case_match; [split; [apply Hc|right; apply Hc]|]. intros n2 u [->|?]%elem_of_cons; [congruence|eauto]. }
  pose proof (HNV _ _ _ ENV) as Hname. subst n.
  assert (k !! v_name v = None) as Hkv by (apply Hfresh; by left).
  destruct (switchVersion_ok v ready _ _ _ _ Hok Hkv) as (d1 & vs & Hsw & Hs1 & Hvs & Hvd & Hc1).
  assert (versions (db_mux d) ⊆ versions (db_mux d1)) as Hsub1.
  { rewrite Hvd. apply insert_subseteq. destruct (versions (db_mux d) !! v_name v) eqn:E; [|done].
    destruct (known_entry _ _ _ _ _ _ Hok E) as [_ ?]. congruence. }
  assert (∀ n', is_Some (versions (db_mux d1) !! n') <-> n' = v_name v ∨ is_Some (versions (db_mux d) !! n')) as Hd1.
  { intros n'. rewrite Hvd, lookup_insert_is_Some. destruct (decide (v_name v = n')); naive_solver. }
  rewrite GoM_bind_eq, Hsw. destruct ready.
  - exists d1. destruct (Hc1 Hcur) as (c & Hc & Hcv). rewrite Hc, Hcv.
    split_and!; [done| |done| |done|by left].
    + by rewrite (now_known_insert _ _ _ _ _ _ _ Hok Hvs Hvd Hkv).
    + intros n'. rewrite Hd1, tried_stop by done. naive_solver.
  - destruct (IH d1 (<[v_name v := v]> k) (proj2 Hs1)) as (d' & Hl & Hs & Hsub & Hver & Hc).
    { intros n' Hn'. rewrite lookup_insert_ne; [apply Hfresh; by right|].
      intros <-. by apply (str_lt_irrefl (v_name v)), Hn. }
    { by rewrite Hc1. }
    assert (versions (db_mux d') !! v_name v = Some vs) as Hvd'.
    { eapply lookup_weaken; [|exact Hsub]. by rewrite Hvd, lookup_insert_eq. }
    exists d'. split_and!; [done| |by etransitivity| |].
    + rewrite <- (now_known_absorb _ _ _ _ Hvd' Hvs Hkv). by eapply db_sim_trans.
    + intros n'. rewrite Hver, Hd1, tried_skip by (congruence || done). naive_solver.
    + case_match; [split; [apply Hc|right; apply Hc]|]. intros n2 u [->|?]%elem_of_cons; [congruence|eauto].
Qed.

Lemma sorted_reverse {A} (R : relation A) l : StronglySorted R l -> StronglySorted (flip R) (reverse l).
Proof.
  induction 1 as [|x l Hl IH Hx]; [constructor|]. rewrite reverse_cons. apply StronglySorted_app_2; [|done|].
  - intros y z Hy Hz%list_elem_of_singleton. subst z. rewrite elem_of_reverse in Hy.
    rewrite Forall_forall in Hx. by apply Hx.
  - by repeat constructor.
Qed.

Lemma newest3_sorted (R : relation string) l : StronglySorted R l -> StronglySorted R (newest3 l).
Proof.
  intros Hl. unfold newest3. case_match; [|done].
  rewrite <- (take_drop (length l - 3) l) in Hl. by apply StronglySorted_app_1_r in Hl.
Qed.

Lemma backfillVersions_ok LV NV d l r :
  db_ok (DSys d l r ∅) -> lists_after LV -> opens NV ->
  ∃ e d', backfillVersions LV NV d = Some (e, d') ∧ db_sim (DSys d l r ∅) (DSys d' l r (now_known ∅ (db_mux d'))).
Proof.
  intros Hok HLV HNV. unfold backfillVersions.
  assert (∀ e, ∃ e' d', (mret e : GoM db_state (option error)) d = Some (e', d')
    ∧ db_sim (DSys d l r ∅) (DSys d' l r (now_known ∅ (db_mux d')))) as Hidle.
  { intros e. exists e, d. split; [done|]. rewrite (now_known_same _ _ _ _ _ Hok eq_refl). by apply db_sim_refl. }
  assert (currentVersion (db_mux d) = None) as Hcur.
  { destruct (currentVersion (db_mux d)) as [c|] eqn:E; [|done].
    pose proof (known_current _ _ _ _ _ Hok E) as H. by rewrite lookup_empty in H. }
  destruct (LV "") as [[|n0 names0]|e] eqn:ELV; [apply Hidle| |apply Hidle].
  destruct (HLV _ _ ELV) as [Hsort _].
  destruct (backfill_loop_ok NV (reverse (newest3 (n0 :: names0))) d l r ∅ Hok HNV) as (d' & Hl & Hs & _).
  { by apply sorted_reverse, newest3_sorted. }
  { intros n _. apply lookup_empty. }
  { done. }
  rewrite GoM_bind_eq, Hl, spawn_bind. eexists _, _. split; [reflexivity|].
  eapply db_sim_trans; [exact Hs|]. apply db_sim_intro; [apply rtc_refl|done|]. apply db_ok_work; [apply Hs|].
  apply Forall_app. split; [apply (do_work _ (proj2 Hs))|by repeat constructor].
Qed.

(** [removeVersion] is started for a superseded version. *)
Lemma removeVersion_ok peers v w w1 w2 d l r k :
  db_ok (DSys d l r k) -> db_work d = (w1 ++ WRemove v w :: w2)%list -> target r = None ->
  ∃ r' d', removeVersion peers v w (with_work d (w1 ++ w2)) = Some (r', d')
  ∧ db_sim (DSys d l r k) (DSys d' l (Some r') k).
Proof.
  intros Hok Hw Ht. destruct (take_work _ _ _ _ _ _ _ Hok Hw) as [Hok1 [Hkv Hold]].
  eexists _, _. split; [reflexivity|].
  assert (sys_step (mux_of (DSys d l r k)) (Sys (db_mux d) l (Some (RBegin v (w && peers))) k)) as Hstep.
  { eapply sy_remove; [done|done|]. intros c Hc Heq. destruct Hold as (c' & Hc' & Hlt).
    assert (c' = c) by congruence. subst. by eapply str_lt_irrefl. }
  apply db_sim_intro; [by apply rtc_once|done|]. split; cbn.
  - eapply sys_step_ok; [exact Hstep|apply Hok].
  - apply (do_known _ Hok).
  - apply (do_work _ Hok1).
  - intros u Hu. injection Hu as <-. done.
  - intros u Hu. destruct (do_closed _ Hok u Hu) as (? & ? & _). by split_and!.
Qed.

(** What a phase of [mux.remove] leaves alone. *)
Lemma remove_step_frame r m r' m' n :
  remove_step r m = Some (r', m') ->
  currentVersion m' = currentVersion m
  ∧ (is_Some (versions m !! n) -> is_Some (versions m' !! n) ∨ ∃ v vs, r = RDelete v vs ∧ n = v_name v)
  ∧ (versions m !! n = None -> versions m' !! n = None ∨ ∃ v vs, r = RArm v vs ∧ n = v_name v)
  ∧ (target (Some r') = None ∨ target (Some r') = target (Some r)).
Proof.
  intros Hs. destruct r as [v w|v vs|v vs t|v vs|v vs|o]; cbn in Hs; repeat case_match; simplify_eq/=.
  all: split_and!; try done; auto.
  - intros Hn. left. rewrite lookup_insert. case_decide; [eauto|done].
  - intros Hn. rewrite lookup_insert. case_decide; [subst; eauto|auto].
  - intros Hn. rewrite lookup_delete. case_decide; [subst; eauto|auto].
  - intros Hn. left. rewrite lookup_delete. by case_decide.
Qed.

Lemma remover_sim d l r k r' m' :
  db_ok (DSys d l (Some r) k) -> remove_step r (db_mux d) = Some (r', m') ->
  ∃ d', removed r' (with_mux d m') = Some (tt, d') ∧ db_sim (DSys d l (Some r) k) (DSys d' l (Some r') k).
Proof.
  intros Hok Hs. assert (sys_step (mux_of (DSys d l (Some r) k)) (Sys m' l (Some r') k)) as Hstep by by eapply sy_remover.
  pose proof (sys_step_ok _ _ Hstep (do_sys _ Hok)) as Hsys.
  assert (∀ n, older (db_mux d) n -> older m' n) as Ho.
  { intros n. apply older_frame. by destruct (remove_step_frame _ _ _ _ n Hs). }
  assert (∀ v, v ∈ db_closed d -> k !! v_name v = Some v ∧ versions m' !! v_name v = None
    ∧ ∀ vs, Some r' ≠ Some (RWait v vs)) as Hcl.
  { intros v Hv. destruct (do_closed _ Hok v Hv) as (Hk & Hn & Hr). cbn in *.
    destruct (remove_step_frame _ _ _ _ (v_name v) Hs) as (_ & _ & Hnone & _).
    pose proof (so_remover _ (do_sys _ Hok)) as Hro. cbn in Hro.
    split_and!; [done| |].
    - destruct (Hnone Hn) as [?|(u & vs & -> & Heq)]; [done|]. destruct Hro as (_ & _ & vs' & Hvs' & _). congruence.
    - intros vs [= ->]. destruct r as [u w|u ?|u ? t|u ?|u ?|o]; cbn in Hs; repeat case_match; simplify_eq/=.
      destruct Hro as (_ & _ & vs' & Hvs' & _). congruence. }
  assert (∀ st w c, Forall (work_ok (db_mux d) k) w ->
    (∀ v, v ∈ c -> k !! v_name v = Some v ∧ versions m' !! v_name v = None ∧ ∀ vs, Some r' ≠ Some (RWait v vs)) ->
    db_sim (DSys d l (Some r) k) (DSys (DB m' st w c) l (Some r') k)) as Hsim.
  { intros st w c Hw Hc. destruct (remove_step_frame _ _ _ _ "" Hs) as (Hcc & _ & _ & Ht).
    apply db_sim_intro; [by apply rtc_once|done|]. split; cbn; [done| | | |done].
    - intros n v Hn. destruct (remove_step_frame _ _ _ _ n Hs) as (_ & Hsome & _).
      destruct (do_known _ Hok n v Hn) as [[?|(u & vs & -> & ->)]%Hsome|?]; [by left| |auto].
      right. apply Ho. by apply (do_target _ Hok).
    - eapply Forall_impl; [exact Hw|]. intros x. by apply work_ok_mono.
    - intros v Hv. destruct Ht as [Ht|Ht]; cbn in *; [congruence|].
      apply Ho, (do_target _ Hok). cbn. congruence. }
  assert (r' = RReturned (Some (from_option id (VRef 0 "") (target (Some r)))) ∧ (∃ v vs, r = RWait v vs)
    ∨ ∀ x, removed r' x = Some (tt, x)) as [[Hr' (v & vs & ->)]|Hid].
  { destruct r as [u w|u ?|u ? t|u ?|u ?|o]; cbn in Hs; repeat case_match; simplify_eq/=; eauto 6. }
  - cbn in Hr'. subst r'. cbn in Hs. case_match; simplify_eq. cbn [removed]. rewrite GoM_bind_eq. unfold version_close.
    rewrite bool_decide_false by (intros (_ & _ & Hr)%(do_closed _ Hok); by eapply Hr).
    eexists. split; [reflexivity|]. apply Hsim.
    + apply Forall_app. split; [|by repeat constructor].
      apply Forall_app. split; [apply (do_work _ Hok)|by repeat constructor].
    + intros u [->|Hu]%elem_of_cons; [|by apply Hcl].
      pose proof (so_remover _ (do_sys _ Hok)) as (Hkv & Hnone & _). by split_and!.
  - rewrite Hid. eexists. split; [reflexivity|]. apply Hsim; [apply (do_work _ Hok)|done].
Qed.

(** A request, or the clock: one step of the mux that keeps its current
    version. *)
Lemma mux_step_sim d l r k m' l' :
  db_ok (DSys d l r k) -> sys_step (Sys (db_mux d) l r k) (Sys m' l' r k) ->
  versions m' = versions (db_mux d) -> currentVersion m' = currentVersion (db_mux d) ->
  db_sim (DSys d l r k) (DSys (with_mux d m') l' r k).
Proof.
  intros Hok Hs Hv Hc. apply db_sim_intro; [by apply rtc_once|done|].
  eapply db_ok_frame; [exact Hok|done..| |apply (do_work _ Hok)]. eapply sys_step_ok; [exact Hs|apply Hok].
Qed.

Lemma acquire_frame vs m o m' :
  acquire vs m = Some (o, m') -> versions m' = versions m ∧ currentVersion m' = currentVersion m.
Proof.
  unfold acquire. destruct (wg_Add (rc_count vs) 1 m) as [m1|] eqn:E; cbn; [|done]. intros H.
  unfold wg_Add in E. destruct (Z.ltb _ 0); [done|]. simplify_eq. unfold timer_Reset. by repeat case_match.
Qed.

(** Getting a version for a while leaves entries and current version alone. *)
Lemma get_frame (f : GoM versionMux (option vref)) d o d' :
  f = getCurrent ∨ (∃ name, f = getVersion name) -> on_mux f d = Some (o, d') ->
  ∃ m', f (db_mux d) = Some (o, m') ∧ d' = with_mux d m'
  ∧ versions m' = versions (db_mux d) ∧ currentVersion m' = currentVersion (db_mux d).
Proof.
  intros Hf H. unfold on_mux in H. destruct (f (db_mux d)) as [[o1 m1]|] eqn:E; [|done]. cbn in H. simplify_eq.
  exists m1. split_and!; [done..| |].
  all: destruct Hf as [->|[name ->]]; unfold getCurrent, getVersion in E;
    [destruct (currentVersion (db_mux d)) eqn:Ec|destruct (versions (db_mux d) !! name)];
    try (by apply acquire_frame in E as [? ?]; congruence); by simplify_eq.
Qed.

Lemma env_step_sim s s' : env_step s s' -> db_ok s -> db_sim s s'.
Proof.
  intros [d l r k v d' H|name d l r k v d' H|d l1 v l2 r k d' H|t d l r k Ht|v st d l r k d' H
    |d l r k r' m' d' Hs H] Hok.
  - destruct (get_frame _ _ _ _ (or_introl eq_refl) H) as (m1 & E & -> & ? & ?).
    apply mux_step_sim; [done|by eapply sy_current|done|done].
  - destruct (get_frame _ _ _ _ (or_intror (ex_intro _ name eq_refl)) H) as (m1 & E & -> & ? & ?).
    apply mux_step_sim; [done|by eapply sy_version|done|done].
  - unfold on_mux in H. destruct (release (Some v) (db_mux d)) as [[[] m1]|] eqn:E; [|done]. cbn in H. simplify_eq.
    apply mux_step_sim; [done|by eapply sy_finish| |]; by apply release_frame in E as [? ?].
  - apply mux_step_sim; [done|by apply sy_tick|done|done].
  - unfold set_state in H. simplify_eq. apply db_sim_intro; [apply rtc_refl|done|].
    apply db_ok_work; [done|apply (do_work _ Hok)].
  - destruct (remover_sim _ _ _ _ _ _ Hok Hs) as (d2 & Hr & Hsim). rewrite H in Hr. by simplify_eq.
Qed.

Lemma db_step_sim peers s s' : db_step peers s s' -> db_ok s -> db_sim s s'.
Proof.
  intros [s1 s2 H|v w1 w2 d l r k d' Hw H|LV NV e d l r k d' HLV HNV H|LV NV e d l r d' HLV HNV H
    |v w w1 w2 d l r k r' d' Hw Ht H] Hok.
  - by apply env_step_sim.
  - destruct (take_work _ _ _ _ _ _ _ Hok Hw) as [Hok1 Hkv].
    destruct (db_upgrade_ok v _ _ _ _ Hok1 Hkv) as (d2 & Hu & Hs & _). rewrite H in Hu. simplify_eq.
    eapply db_sim_trans; [|exact Hs]. by apply db_sim_intro; [apply rtc_refl|..].
  - destruct (db_refresh_ok _ _ _ _ _ _ Hok HLV HNV) as (e2 & d2 & Hr & Hs). rewrite H in Hr. by simplify_eq.
  - destruct (backfillVersions_ok _ _ _ _ _ Hok HLV HNV) as (e2 & d2 & Hr & Hs). rewrite H in Hr. by simplify_eq.
  - destruct (removeVersion_ok peers _ _ _ _ _ _ _ _ Hok Hw Ht) as (r2 & d2 & Hr & Hs). rewrite H in Hr. by simplify_eq.
Qed.

Lemma db_init_ok t : db_ok (db_init t).
Proof.
  split; cbn; [apply sys_init_ok| |done|done|by intros v ?%not_elem_of_nil].
  intros n v Hn. by rewrite lookup_empty in Hn.
Qed.

Lemma db_reachable peers t s : rtc (db_step peers) (db_init t) s -> db_sim (db_init t) s.
Proof.
  intros Hr. pose proof (db_sim_refl _ (db_init_ok t)) as H0. revert H0. generalize (db_init t) at 1 3.
  induction Hr as [|x y z Hxy Hyz IH]; intros s0 H0; [done|].
  apply IH. eapply db_sim_trans; [exact H0|]. eapply db_step_sim; [exact Hxy|apply H0].
Qed.

(** Every run of a database is a run of its mux within the mux's contract:
    a name is prepared once, a version being removed never becomes current and
    the current version is never removed, so what holds of the mux under that
    contract (a version is closed only after its last request) holds of the
    database. *)
Theorem db_refines_mux peers t s :
  rtc (db_step peers) (db_init t) s -> rtc sys_step (sys_init t) (mux_of s).
Proof. intros [[Hr _] _]%db_reachable. exact Hr. Qed.

(** No operation of a database panics: preparing a version finds no other
    of its name, upgrading finds the version it waited for, a removed version
    is closed only once, and a finished request can always give its version
    back. *)
Theorem db_never_panics peers t s :
  rtc (db_step peers) (db_init t) s ->
  (∀ v w1 w2, db_work (d_db s) = (w1 ++ WAwait v :: w2)%list ->
     is_Some (db_upgrade v (with_work (d_db s) (w1 ++ w2))))
  ∧ (∀ LV NV, lists_after LV -> opens NV -> is_Some (db_refresh LV NV (d_db s)))
  ∧ (∀ r r' m', d_remover s = Some r -> remove_step r (db_mux (d_db s)) = Some (r', m') ->
     is_Some (removed r' (with_mux (d_db s) m')))
  ∧ (∀ v, v ∈ d_inflight s -> is_Some (release (Some v) (db_mux (d_db s)))).
Proof.
  intros [_ Hok]%db_reachable. destruct s as [d l r k]. cbn. split_and!.
  - intros v w1 w2 Hw. destruct (take_work _ _ _ _ _ _ _ Hok Hw) as [Hok1 Hkv].
    destruct (db_upgrade_ok v _ _ _ _ Hok1 Hkv) as (d2 & Hu & _). by rewrite Hu.
  - intros LV NV HLV HNV. destruct (db_refresh_ok _ _ _ _ _ _ Hok HLV HNV) as (e2 & d2 & Hr & _). by rewrite Hr.
  - intros r0 r' m' -> Hs. destruct (remover_sim _ _ _ _ _ _ Hok Hs) as (d2 & Hr & _). by rewrite Hr.
  - intros v (l1 & l2 & ->)%list_elem_of_split. destruct (release_ok _ _ _ _ _ _ (do_sys _ Hok)) as (m1 & H & _).
    cbn in H. by rewrite H.
Qed.

(** A database only rolls forward: whatever happens, once there is a
    current version there always is one, and its name never decreases. *)
Theorem db_rolls_forward peers t s s' c :
  rtc (db_step peers) (db_init t) s -> rtc (db_step peers) s s' -> currentVersion (db_mux (d_db s)) = Some c ->
  ∃ c', currentVersion (db_mux (d_db s')) = Some c' ∧ String.le (v_name (rc_version c)) (v_name (rc_version c')).
Proof.
  intros [_ Hok]%db_reachable Hs Hc.
  assert (at_least (db_mux (d_db s)) (v_name (rc_version c))) as Hat by by exists c.
  clear Hc. induction Hs as [|x y z Hxy Hyz IH]; [done|].
  destruct (db_step_sim _ _ _ Hxy Hok) as [[_ Hm] Hok']. auto.
Qed.

(** What [upgrade] does to a version that was waited for.  An outdated
    version is only scheduled for removal; the current version is left alone;
    a newer version becomes current, and exactly the previous current version
    (which waits until it is unused) and the other versions of the mux with
    smaller names are scheduled for removal, never the new one. *)
Theorem db_upgrade_outcome peers t s v w1 w2 :
  rtc (db_step peers) (db_init t) s -> db_work (d_db s) = (w1 ++ WAwait v :: w2)%list ->
  let d := with_work (d_db s) (w1 ++ w2)%list in
  ∃ d', db_upgrade v d = Some (tt, d') ∧ versions (db_mux d') = versions (db_mux d) ∧ upgraded v d d'
  ∧ ∀ u w, WRemove u w ∈ removals (rc_version <$> currentVersion (db_mux d)) v (mux_getAll (db_mux d)) <->
    (∃ vs, versions (db_mux d) !! v_name u = Some vs ∧ rc_version vs = u)
    ∧ (if w then rc_version <$> currentVersion (db_mux d) = Some u
       else rc_version <$> currentVersion (db_mux d) ≠ Some u ∧ str_lt (v_name u) (v_name v)).
Proof.
  intros [_ Hok]%db_reachable Hw. destruct s as [d0 l r k]. cbn in *.
  destruct (take_work _ _ _ _ _ _ _ Hok Hw) as [Hok1 Hkv].
  destruct (db_upgrade_ok v _ _ _ _ Hok1 Hkv) as (d' & Hu & _ & Hv & _ & Hup).
  exists d'. split_and!; [done..|]. intros u w. unfold removals. rewrite list_elem_of_omap. split.
  - intros (u' & (n & vs & Hn & <-)%elem_of_getAll & Hx). destruct (known_entry _ _ _ _ _ _ Hok Hn) as [Hname _].
    case_bool_decide as Hb; [|destruct (String.ltb _ (v_name v)) eqn:Elt; [|done]]; simplify_eq; eauto.
  - intros [(vs & Hn & Hvs) Hcond]. exists u. split; [apply elem_of_getAll; eauto|].
    destruct w; [by rewrite bool_decide_true|]. destruct Hcond as [Hne Hlt].
    rewrite bool_decide_false by congruence. by rewrite Hlt.
Qed.

(** A node starts with the newest data it can serve: of the last three
    versions it opens those that can be opened, down to the newest that is
    ready at once, which becomes current; if none is ready, all of them are
    opened and there is no current version yet. *)
Theorem backfill_outcome LV NV names t :
  lists_after LV -> opens NV -> LV "" = Ok names -> names ≠ [] ->
  ∃ d', backfillVersions LV NV (newDB t) = Some (None, d')
  ∧ (∃ rest, names = (rest ++ newest3 names)%list ∧ length (newest3 names) = Nat.min 3 (length names))
  ∧ (∀ n, is_Some (versions (db_mux d') !! n) <-> tried NV (newest3 names) n)
  ∧ match currentVersion (db_mux d') with
    | Some c => NV (v_name (rc_version c)) = Ok (rc_version c, true) ∧ v_name (rc_version c) ∈ newest3 names
                ∧ tried NV (newest3 names) (v_name (rc_version c))
    | None => ∀ n v, n ∈ newest3 names -> NV n ≠ Ok (v, true)
    end.
Proof.
  intros HLV HNV HL Hne. destruct (HLV _ _ HL) as [Hsort _].
  destruct (backfill_loop_ok NV (reverse (newest3 names)) (newDB t) [] None ∅ (db_init_ok t) HNV)
    as (d' & Hl & Hs & _ & Hver & Hcur).
  { by apply sorted_reverse, newest3_sorted. }
  { intros n _. apply lookup_empty. }
  { done. }
  assert (∀ n, tried NV (reverse (newest3 names)) n <-> tried NV (newest3 names) n) as Htr.
  { intros n. unfold tried. rewrite elem_of_reverse. by setoid_rewrite elem_of_reverse. }
  assert (∀ n, is_Some (versions (db_mux d') !! n) <-> tried NV (newest3 names) n) as Hver'.
  { intros n. rewrite Hver, Htr. cbn. rewrite lookup_empty. split; [|by right]. intros [[? ?]|?]; done. }
  exists (with_work d' (db_work d' ++ [WCleanup])%list). split_and!.
  - unfold backfillVersions. rewrite HL. destruct names as [|n0 names]; [done|].
    rewrite GoM_bind_eq, Hl, spawn_bind. reflexivity.
  - unfold newest3. destruct (Nat.ltb_spec 3 (length names)).
    + exists (take (length names - 3) names). rewrite take_drop, length_drop. split; [done|lia].
    + exists []. split; [done|lia].
  - cbn. exact Hver'.
  - cbn. destruct (currentVersion (db_mux d')) as [c|] eqn:Ec.
    + destruct Hcur as [H1 H2]. rewrite elem_of_reverse in H2. split_and!; [done..|]. apply Hver'.
      destruct (so_current _ (do_sys _ (proj2 Hs)) c Ec) as (_ & vs & Hvs & _). cbn in Hvs. by rewrite Hvs.
    + intros n v Hn. apply Hcur. by rewrite elem_of_reverse.
Qed.

Lemma cleanup_loop_ok dirs d l r k :
  db_ok (DSys d l r k) ->
  ∃ gone d', cleanup_loop dirs d = Some (gone, d') ∧ db_sim (DSys d l r k) (DSys d' l r k)
  ∧ versions (db_mux d') = versions (db_mux d)
  ∧ ∀ v, v ∈ gone <-> (v, true) ∈ dirs ∧ versions (db_mux d) !! v = None.
Proof.
  revert d. induction dirs as [|[v isDir] dirs IH]; intros d Hok; cbn.
  { exists [], d. split_and!; [done|by apply db_sim_refl|done|set_solver]. }
  destruct isDir.
  2: { destruct (IH d Hok) as (gone & d' & Hl & Hs & Hv & Hg). exists gone, d'. split_and!; [done..|].
       intros u. rewrite Hg, elem_of_cons. naive_solver. }
  destruct (read_version v _ _ _ _ Hok) as (m1 & m' & Hg & Hr & Hv & Hc & Hsim).
  erewrite on_mux_bind by exact Hg. erewrite on_mux_bind by exact Hr. cbn.
  destruct (IH _ (proj2 Hsim)) as (gone & d' & Hl & Hs & Hv' & Hgone). cbn in Hv', Hgone. rewrite Hv in Hgone.
  rewrite GoM_bind_eq. unfold with_mux in *. cbn in *. rewrite Hl. eexists _, d'. split_and!.
  - reflexivity.
  - by eapply db_sim_trans.
  - congruence.
  - intros u. destruct (versions (db_mux d) !! v) as [e|] eqn:Ev; cbn.
    + rewrite Hgone, elem_of_cons. split; [naive_solver|]. intros [[?|?] ?]; [simplify_eq|done].
    + rewrite !elem_of_cons, Hgone. naive_solver.
Qed.

(** Two versions never share a directory. *)
Lemma localPath_inj LocalStore name v v' :
  LocalStore ≠ "" -> plain_elem v -> plain_elem v' ->
  db_localPath LocalStore name v = db_localPath LocalStore name v' -> v = v'.
Proof.
  intros Hs Hv Hv'. unfold db_localPath. rewrite !path_Join_group2 by done. apply path_Join_inj; [|done..].
  by intros [[? _]%str_app_eq_nil _]%str_app_eq_nil.
Qed.

(** [cleanupStore] removes exactly the local directories of versions that
    are not in the mux, and changes nothing else; if the directory cannot be
    listed it removes nothing. *)
Theorem cleanupStore_exact peers t s ReadDir :
  rtc (db_step peers) (db_init t) s ->
  ∃ gone d', cleanupStore ReadDir (d_db s) = Some (gone, d')
  ∧ versions (db_mux d') = versions (db_mux (d_db s))
  ∧ ∀ v, v ∈ gone <-> ∃ dirs, ReadDir = Ok dirs ∧ (v, true) ∈ dirs ∧ versions (db_mux (d_db s)) !! v = None.
Proof.
  intros [_ Hok]%db_reachable. destruct s as [d l r k]. destruct ReadDir as [dirs|e]; cbn.
  - destruct (cleanup_loop_ok dirs _ _ _ _ Hok) as (gone & d' & Hl & _ & Hv & Hg). exists gone, d'.
    split_and!; [done..|]. intros v. rewrite Hg. naive_solver.
  - exists [], d. split_and!; [done..|]. intros v. split; [by intros ?%not_elem_of_nil|by intros (? & ? & _)].
Qed.

(** ** Closing a database while a version is being removed *)

Lemma getAll_NoDup d l r k : db_ok (DSys d l r k) -> NoDup (mux_getAll (db_mux d)).
Proof.
  intros Hok. apply (NoDup_fmap_1 v_name). unfold mux_getAll. rewrite range_perm, <- list_fmap_compose.
  rewrite (list_fmap_ext _ fst); [apply NoDup_fst_map_to_list|].
  intros i [n vs] Hi%list_elem_of_lookup_2%elem_of_map_to_list. cbn. by destruct (known_entry _ _ _ _ _ _ Hok Hi).
Qed.

Lemma close_all_ok vs d :
  NoDup vs -> (∀ v, v ∈ vs -> v ∉ db_closed d) ->
  ∃ d', close_all vs d = Some (tt, d') ∧ ∀ v, v ∈ db_closed d' <-> v ∈ vs ∨ v ∈ db_closed d.
Proof.
  revert d. induction vs as [|v vs IH]; intros d Hnd Hc; cbn.
  { exists d. split; [done|]. set_solver. }
  apply NoDup_cons in Hnd as [Hv Hnd]. rewrite GoM_bind_eq. unfold version_close.
  rewrite bool_decide_false by (apply Hc; by left). cbn.
  edestruct IH as (d' & H1 & H2); [exact Hnd| |rewrite H1; exists d'; split; [done|]].
  - cbn. set_solver.
  - intros u. rewrite H2. cbn. set_solver.
Qed.

(** An operation that closes nothing. *)
Definition keeps_closed {A} (f : GoM db_state A) : Prop := ∀ d a d', f d = Some (a, d') -> db_closed d' = db_closed d.

Lemma keeps_ret {A} (a : A) : keeps_closed (mret a : GoM db_state A).
Proof. intros d x d' H. by injection H as <- <-. Qed.

Lemma keeps_bind {A B} (f : GoM db_state A) (g : A -> GoM db_state B) :
  keeps_closed f -> (∀ a, keeps_closed (g a)) -> keeps_closed (f ≫= g).
Proof.
  intros Hf Hg d b d' H. rewrite GoM_bind_eq in H. destruct (f d) as [[a d1]|] eqn:E; [|done].
  etransitivity; [by eapply Hg|by eapply Hf].
Qed.

Lemma keeps_on_mux {A} (f : GoM versionMux A) : keeps_closed (on_mux f).
Proof.
  intros d a d' H. unfold on_mux in H. destruct (f (db_mux d)) as [[x m]|]; [|done]. cbn in H. by simplify_eq.
Qed.

Lemma keeps_spawn xs : keeps_closed (spawn xs).
Proof. intros d a d' H. unfold spawn in H. by simplify_eq. Qed.

Lemma keeps_set_state v st : keeps_closed (set_state v st).
Proof. intros d a d' H. unfold set_state in H. by simplify_eq. Qed.

Lemma keeps_getAll : keeps_closed db_getAll.
Proof. intros d a d' H. unfold db_getAll in H. by simplify_eq. Qed.

#[local] Hint Resolve keeps_ret keeps_bind keeps_on_mux keeps_spawn keeps_set_state keeps_getAll : sequins.

Ltac keeps := repeat (case_match || (intros; apply keeps_bind) || intros); auto with sequins.

Lemma keeps_upgrade v : keeps_closed (db_upgrade v).
Proof. unfold db_upgrade. keeps. Qed.
#[local] Hint Resolve keeps_upgrade : sequins.

Lemma keeps_switch v ready : keeps_closed (switchVersion v ready).
Proof. unfold switchVersion. keeps. Qed.
#[local] Hint Resolve keeps_switch : sequins.

Lemma keeps_refresh LV NV : keeps_closed (db_refresh LV NV).
Proof. unfold db_refresh. keeps. Qed.

Lemma keeps_backfill_loop NV names : keeps_closed (backfill_loop NV names).
Proof. induction names; cbn; keeps. Qed.
#[local] Hint Resolve keeps_backfill_loop : sequins.

Lemma keeps_backfill LV NV : keeps_closed (backfillVersions LV NV).
Proof. unfold backfillVersions. keeps. Qed.

(** A closed version stays closed. *)
Lemma closed_env s s' v : env_step s s' -> v ∈ db_closed (d_db s) -> v ∈ db_closed (d_db s').
Proof.
  intros [d l r k u d' H|name d l r k u d' H|d l1 u l2 r k d' H|t d l r k Ht|u st d l r k d' H
    |d l r k r' m' d' Hs H]; cbn; try done.
  - by rewrite (keeps_on_mux _ _ _ _ H).
  - by rewrite (keeps_on_mux _ _ _ _ H).
  - by rewrite (keeps_on_mux _ _ _ _ H).
  - by rewrite (keeps_set_state _ _ _ _ _ H).
  - destruct r' as [| | | | |[u|]]; cbn [removed] in H; try by (injection H as <-).
    rewrite GoM_bind_eq in H. unfold version_close in H. case_bool_decide; [done|]. cbn in H. unfold spawn in H.
    simplify_eq. cbn. by right.
Qed.

Lemma closed_step peers s s' v : db_step peers s s' -> v ∈ db_closed (d_db s) -> v ∈ db_closed (d_db s').
Proof.
  intros [s1 s2 H|u w1 w2 d l r k d' Hw H|LV NV e d l r k d' HLV HNV H|LV NV e d l r d' HLV HNV H
    |u w w1 w2 d l r k r' d' Hw Ht H]; cbn; try done.
  - by apply closed_env.
  - by rewrite (keeps_upgrade _ _ _ _ H).
  - by rewrite (keeps_refresh _ _ _ _ _ H).
  - by rewrite (keeps_backfill _ _ _ _ _ H).
  - unfold removeVersion, set_state in H. rewrite GoM_bind_eq in H. by injection H as _ <-.
Qed.

(** Closing a database (which [refreshAll] does when the database has
    disappeared from the backend) closes every version of its mux and leaves it
    there.  When the removal of one of them completes, whatever happened in
    between, it closes the version a second time and panics. *)
Theorem close_dooms_removals peers t s v :
  rtc (db_step peers) (db_init t) s -> v ∈ mux_getAll (db_mux (d_db s)) ->
  ∃ d1, db_close (d_db s) = Some (tt, d1)
  ∧ ∀ s2 m2, rtc (db_step peers) (DSys d1 (d_inflight s) (d_remover s) (d_known s)) s2 ->
    removed (RReturned (Some v)) (with_mux (d_db s2) m2) = None.
Proof.
  intros [_ Hok]%db_reachable Hv. destruct s as [d l r k]. cbn in *.
  destruct (close_all_ok (mux_getAll (db_mux d)) d) as (d1 & Hc & Hin).
  { by eapply getAll_NoDup. }
  { intros u (n & e & Hn & <-)%elem_of_getAll (_ & Hnone & _)%(do_closed _ Hok). cbn in Hnone.
    destruct (known_entry _ _ _ _ _ _ Hok Hn). congruence. }
  exists d1. split; [exact Hc|]. intros s2 m2 Hs2.
  assert (v ∈ db_closed (d_db s2)) as Hv2.
  { revert Hs2. set (s1 := DSys _ _ _ _). assert (v ∈ db_closed (d_db s1)) as H1 by (apply Hin; by left).
    clearbody s1. intros Hs2. induction Hs2; eauto using closed_step. }
  cbn [removed]. rewrite GoM_bind_eq. unfold version_close. by rewrite bool_decide_true.
Qed.
End Db_props.

(** ** Witnesses: a node that starts with one version and gets a second *)

Module DbExample.
#[local] Instance order : MapOrder string := list_order.

Definition v1 : vref := VRef 1 "20170101".
Definition v2 : vref := VRef 2 "20170102".

(** The versions of the data set, listed as the backends do. *)
Definition listed (all : list string) (after : string) : res (list string) := Ok (filter (str_lt after) all).

Lemma listed_ok all : StronglySorted str_lt all -> lists_after (listed all).
Proof.
  intros Hall after names [= <-]. split.
  - induction Hall as [|x l Hl IH Hx]; [constructor|]. rewrite filter_cons. case_decide; [|done].
    constructor; [done|]. rewrite Forall_forall in *. intros y [_ Hy]%list_elem_of_filter. by apply Hx.
  - apply Forall_forall. by intros y [? _]%list_elem_of_filter.
Qed.

Definition one : string -> res (list string) := listed ["20170101"].
Definition two : string -> res (list string) := listed ["20170101"; "20170102"].

(** The first version is on disk, the second has to be loaded. *)
Definition open (name : string) : res (vref * bool) :=
  if decide (name = "20170101") then Ok (v1, true)
  else if decide (name = "20170102") then Ok (v2, false) else Err ErrNotExist.

Lemma one_ok : lists_after one.
Proof. apply listed_ok. by repeat constructor. Qed.
Lemma two_ok : lists_after two.
Proof. apply listed_ok. by repeat constructor. Qed.
Lemma open_ok : opens open.
Proof. intros name v ready H. unfold open in H. by repeat case_decide; simplify_eq. Qed.

Ltac db_run tac := eapply rtc_l; [tac; vm_compute; reflexivity|].

(** Version 1 is current, version 2 is being loaded. *)
Lemma loading_run :
  ∃ s c, rtc (db_step true) (db_init 0) s ∧ db_work (d_db s) =
    ([WBuild v1; WAdvertise v1; WCleanup; WBuild v2; WAdvertise v2] ++ WAwait v2 :: [])%list
  ∧ currentVersion (db_mux (d_db s)) = Some c ∧ rc_version c = v1.
Proof.
  eexists _, _. split.
  { unfold db_init. db_run ltac:(eapply (ds_backfill true one open); [apply one_ok|apply open_ok|]).
    db_run ltac:(eapply (ds_refresh true two open); [apply two_ok|apply open_ok|]). apply rtc_refl. }
  split; [vm_compute; reflexivity|]. split; vm_compute; reflexivity.
Qed.

(** Version 2 is current, the removal of version 1 waits for its timer. *)
Lemma removing_run :
  ∃ s vs tm, rtc (db_step true) (db_init 0) s ∧ d_remover s = Some (RTimer v1 vs tm).
Proof.
  eexists _, _, _. split.
  { unfold db_init. db_run ltac:(eapply (ds_backfill true one open); [apply one_ok|apply open_ok|]).
    db_run ltac:(eapply (ds_refresh true two open); [apply two_ok|apply open_ok|]).
    db_run ltac:(eapply (ds_ready true v2 [WBuild v1; WAdvertise v1; WCleanup; WBuild v2; WAdvertise v2] []); [vm_compute; reflexivity|]).
    db_run ltac:(eapply (ds_remove true v1 true [WBuild v1; WAdvertise v1; WCleanup; WBuild v2; WAdvertise v2] []); [vm_compute; reflexivity|reflexivity|]).
    do 2 (eapply rtc_l; [eapply ds_env, ds_remover; vm_compute; reflexivity|]).
    apply rtc_refl. }
  vm_compute. reflexivity.
Qed.

Lemma db_refines_mux_witness :
  ∃ s vs tm, d_remover s = Some (RTimer v1 vs tm) ∧ rtc sys_step (sys_init 0) (mux_of s).
Proof.
  destruct removing_run as (s & vs & tm & Hr & Hrem). exists s, vs, tm. split; [exact Hrem|].
  exact (db_refines_mux true 0 s Hr).
Defined.

Lemma db_never_panics_witness :
  ∃ s, db_work (d_db s) = ([WBuild v1; WAdvertise v1; WCleanup; WBuild v2; WAdvertise v2] ++ WAwait v2 :: [])%list
  ∧ is_Some (db_upgrade v2 (with_work (d_db s) ([WBuild v1; WAdvertise v1; WCleanup; WBuild v2; WAdvertise v2] ++ []))).
Proof.
  destruct loading_run as (s & c & Hr & Hw & _). exists s. split; [exact Hw|].
  destruct (db_never_panics true 0 s Hr) as (Hup & _). exact (Hup _ _ _ Hw).
Defined.

Lemma db_rolls_forward_witness :
  ∃ s c, currentVersion (db_mux (d_db s)) = Some c ∧ rc_version c = v1
  ∧ ∀ s', rtc (db_step true) s s' ->
    ∃ c', currentVersion (db_mux (d_db s')) = Some c' ∧ String.le "20170101" (v_name (rc_version c')).
Proof.
  destruct loading_run as (s & c & Hr & _ & Hc & Hv). exists s, c. split; [exact Hc|]. split; [exact Hv|].
  intros s' Hs'. destruct (db_rolls_forward true 0 s s' c Hr Hs' Hc) as (c' & Hc' & Hle).
  exists c'. rewrite Hv in Hle. split; [exact Hc'|exact Hle].
Defined.

Lemma db_upgrade_outcome_witness :
  ∃ s c d', currentVersion (db_mux (d_db s)) = Some c ∧ rc_version c = v1
  ∧ upgraded v2 (with_work (d_db s) ([WBuild v1; WAdvertise v1; WCleanup; WBuild v2; WAdvertise v2] ++ [])%list) d'.
Proof.
  destruct loading_run as (s & c & Hr & Hw & Hc & Hv).
  destruct (db_upgrade_outcome true 0 s v2 _ _ Hr Hw) as (d' & _ & _ & Hup & _).
  exists s, c, d'. split; [exact Hc|]. split; [exact Hv|exact Hup].
Defined.

Lemma backfill_outcome_witness :
  ∃ d', backfillVersions two open (newDB 0) = Some (None, d')
  ∧ ∀ n, is_Some (versions (db_mux d') !! n) <-> tried open ["20170101"; "20170102"] n.
Proof.
  destruct (backfill_outcome two open ["20170101"; "20170102"] 0 two_ok open_ok) as (d' & H & _ & Hv & _);
    [vm_compute; reflexivity|discriminate|]. exists d'. split; [exact H|exact Hv].
Defined.

Lemma cleanupStore_exact_witness :
  ∃ s gone d', cleanupStore (Ok [("20161231", true); ("20170101", true); ("lock", false)]) (d_db s) = Some (gone, d')
  ∧ versions (db_mux d') = versions (db_mux (d_db s))
  ∧ ∀ v, v ∈ gone <-> ∃ dirs, Ok [("20161231", true); ("20170101", true); ("lock", false)] = Ok dirs
    ∧ (v, true) ∈ dirs ∧ versions (db_mux (d_db s)) !! v = None.
Proof.
  destruct loading_run as (s & c & Hr & _). exists s.
  exact (cleanupStore_exact true 0 s (Ok [("20161231", true); ("20170101", true); ("lock", false)]) Hr).
Defined.

Lemma close_dooms_removals_witness :
  ∃ s c d1, currentVersion (db_mux (d_db s)) = Some c ∧ db_close (d_db s) = Some (tt, d1)
  ∧ ∀ s2 m2, rtc (db_step true) (DSys d1 (d_inflight s) (d_remover s) (d_known s)) s2 ->
    removed (RReturned (Some v1)) (with_mux (d_db s2) m2) = None.
Proof.
  destruct loading_run as (s & c & Hr & _ & Hc & Hv). exists s, c.
  destruct (close_dooms_removals true 0 s v1 Hr) as (d1 & H1 & H2).
  { apply elem_of_getAll. destruct (db_reachable _ _ _ Hr) as [_ Hok].
    destruct (so_current _ (do_sys _ Hok) c Hc) as (_ & vs & Hvs & Hvv & _). exists (v_name (rc_version c)), vs.
    split; [exact Hvs|]. by rewrite Hvv. }
  exists d1. split_and!; [exact Hc|exact H1|exact H2].
Defined.

(** The removal in progress is about to end in a panic. *)
Definition removal_panics (s : dsys) : bool :=
  match d_remover s with
  | Some r =>
      match remove_step r (db_mux (d_db s)) with
      | Some (r', m') => match removed r' (with_mux (d_db s) m') with None => true | Some _ => false end
      | None => false
      end
  | None => false
  end.

Lemma removal_panics_elim s :
  removal_panics s = true ->
  ∃ r r' m', d_remover s = Some r ∧ remove_step r (db_mux (d_db s)) = Some (r', m')
  ∧ removed r' (with_mux (d_db s) m') = None.
Proof. unfold removal_panics. repeat case_match; try done. eauto 6. Qed.

(** A database that is deleted while a version of it is being loaded takes the
    node down: closing the version that is loaded closes its [cancel], and with
    it its [ready]; what waited for [ready] upgrades to it, and starts the
    removal of the version that was current, which has been closed already. *)
Theorem delete_while_loading_panics :
  ∃ s d1 s2, rtc (db_step false) (db_init 0) s ∧ WAwait v2 ∈ db_work (d_db s)
  ∧ db_close (d_db s) = Some (tt, d1) ∧ v2 ∈ db_closed d1
  ∧ rtc (db_step false) (DSys d1 [] None (d_known s)) s2
  ∧ ∃ r r' m2, d_remover s2 = Some r ∧ remove_step r (db_mux (d_db s2)) = Some (r', m2)
    ∧ removed r' (with_mux (d_db s2) m2) = None.
Proof.
  eexists _, _, _. split.
  { unfold db_init. db_run ltac:(eapply (ds_backfill false one open); [apply one_ok|apply open_ok|]).
    db_run ltac:(eapply (ds_refresh false two open); [apply two_ok|apply open_ok|]). apply rtc_refl. }
  split; [vm_compute; do 5 right; left|]. split; [vm_compute; reflexivity|]. split; [vm_compute; left|]. split.
  { db_run ltac:(eapply (ds_ready false v2 [WBuild v1; WAdvertise v1; WCleanup; WBuild v2; WAdvertise v2] [WClose v1; WClose v2]); [vm_compute; reflexivity|]).
    db_run ltac:(eapply (ds_remove false v1 true [WBuild v1; WAdvertise v1; WCleanup; WBuild v2; WAdvertise v2; WClose v1; WClose v2] []); [vm_compute; reflexivity|reflexivity|]).
    do 2 (eapply rtc_l; [eapply ds_env, ds_remover; vm_compute; reflexivity|]).
    apply rtc_refl. }
  apply removal_panics_elim. vm_compute. reflexivity.
Qed.
End DbExample.
