(* ===== verification/Refresh.v ===== *)
(** * db.go: refreshes, upgrades and cleanups as they interleave

    [Db.v] has [refresh], [backfillVersions], [upgrade] and [cleanupStore] as
    functions; in the program each holds a lock of its own ([refreshLock],
    [upgradeLock], [cleanupLock]) while requests and the other operations go
    on.  Here each is a machine whose phases end where the code calls another
    component or gives up the mux's lock; [fine_step] interleaves them with the
    requests and removals of [Db.v], and with [close] and [delete] when they are
    allowed.  [refresh_atomic] shows that the phases of a refresh that is not
    interrupted are [db_refresh].

    The local directories of the versions are part of the state: a build
    creates one, the removal of a version and [cleanupStore] delete them. *)

From Stdlib Require Import ZArith Lia String.
From stdpp Require Import base gmap sets list strings fin_maps sorting relations.
From S2P Require Import Prelude GoStrings Backend Build VersionMux Db.

Open Scope string_scope.
Set Default Proof Using "Type".

(** ** The holder of [refreshLock]

    [refresh], [backfillVersions] and [close] take it.  [rest] is [None] in
    [refresh], and in [backfillVersions] the names that are still to be tried. *)
Inductive refresher :=
  | FIdle
  | FHolds (current : option vref)                       (** [getCurrent] has returned *)
  | FList (after : string)                               (** about to list the versions *)
  | FLatest (latest : string)                            (** the newest version of the list *)
  | FFound (latest : string) (existing : option vref)    (** [getVersion] has returned *)
  | FOpen (latest : string)                              (** about to call [newVersion] *)
  | FBackfill (names : list string)                      (** the loop of [backfillVersions] *)
  | FClose (all : list vref)                             (** the loop of [db.close] *)
  | FSwitch (rest : option (list string)) (v : vref)     (** [switchVersion] is called *)
  | FPrepared (rest : option (list string)) (v : vref)   (** the version is in the mux *)
  | FPoll (rest : option (list string)) (v : vref)       (** about to poll [version.ready] *)
  | FUpgrade (rest : option (list string)) (v : vref)    (** waiting for [upgradeLock] *)
  | FUpgrading (rest : option (list string)) (v : vref). (** inside [upgrade] *)

(** What the other components answer. *)
Inductive answer :=
  | ANone
  | AList (versions : res (list string))
  | AOpen (version : res vref)
  | AReady (ready : bool).

(** After [switchVersion] has returned false. *)
Definition not_ready (rest : option (list string)) : refresher :=
  match rest with None => FIdle | Some names => FBackfill names end.

(** After [switchVersion] has returned true: a backfill stops. *)
Definition was_ready (rest : option (list string)) : refresher :=
  match rest with None => FIdle | Some _ => FBackfill [] end.

(** The phases that an answer belongs to. *)
Definition asks (rf : refresher) (a : answer) : bool :=
  match rf, a with
  | FList _, AList _ | FOpen _, AOpen _ | FBackfill (_ :: _), AOpen _ | FPoll _ _, AReady _ => true
  | (FIdle | FHolds _ | FLatest _ | FFound _ _ | FBackfill [] | FClose _ | FSwitch _ _ | FPrepared _ _), ANone => true
  | _, _ => false
  end.

(** One phase; [None] is a panic.  The versions listed after the current one
    are [AList]; an error ends the refresh. *)
Definition refresh_phase (rf : refresher) (a : answer) : GoM db_state refresher :=
  match rf, a with
  | FIdle, _ => c ← on_mux getCurrent; mret (FHolds c)
  | FHolds c, _ => _ ← on_mux (release c); mret (FList (from_option v_name "" c))
  | FList _, AList (Ok versions) => mret (match last versions with None => FIdle | Some latest => FLatest latest end)
  | FLatest latest, _ => e ← on_mux (getVersion latest); mret (FFound latest e)
  | FFound latest e, _ =>
      _ ← on_mux (release e);
      match e with
      | Some v => _ ← spawn [WBuild v]; mret FIdle
      | None => mret (FOpen latest)
      end
  | FOpen _, AOpen (Ok v) => mret (FSwitch None v)
  | FBackfill [], _ => _ ← spawn [WCleanup]; mret FIdle
  | FBackfill (_ :: names), AOpen (Ok v) => mret (FSwitch (Some names) v)
  | FBackfill (_ :: names), _ => mret (FBackfill names)
  | FClose [], _ => mret FIdle
  | FClose (v :: all), _ => _ ← version_close v; mret (FClose all)
  | FSwitch rest v, _ => _ ← set_state v versionAvailable; _ ← on_mux (prepare v); mret (FPrepared rest v)
  | FPrepared rest v, _ => _ ← spawn [WBuild v]; _ ← spawn [WAdvertise v]; mret (FPoll rest v)
  | FPoll rest v, AReady true => mret (FUpgrade rest v)
  | FPoll rest v, _ => _ ← spawn [WAwait v]; mret (not_ready rest)
  | _, _ => mret FIdle
  end.

(** ** The holder of [upgradeLock] *)

Inductive uphase :=
  | UStart
  | UHolds (current : option vref)
  | UDecide (current : option vref)
  | USwitched (current : option vref).   (** [mux.upgrade] has returned *)

Section Refresh.
Context {MS : MapOrder string}.

(** One phase of [db.upgrade]; [None] in the result: it has returned. *)
Definition upgrade_phase (v : vref) (u : uphase) : GoM db_state (option uphase) :=
  match u with
  | UStart => c ← on_mux getCurrent; mret (Some (UHolds c))
  | UHolds c => _ ← on_mux (release c); mret (Some (UDecide c))
  | UDecide c =>
      if from_option (λ c, String.ltb (v_name v) (v_name c)) false c then _ ← spawn [WRemove v false]; mret None
      else if bool_decide (Some v = c) then mret None
      else _ ← on_mux (upgrade v); mret (Some (USwitched c))
  | USwitched c =>
      _ ← set_state v versionAvailable;
      all ← db_getAll;
      _ ← spawn (removals c v all);
      mret None
  end.
End Refresh.

(** ** The holder of [cleanupLock], when it is [cleanupStore] *)

Inductive cleaner :=
  | CIdle
  | CLoop (dirs : list (string * bool))
  | CHolds (name : string) (version : option vref) (dirs : list (string * bool))
  | CRemove (name : string) (dirs : list (string * bool)).   (** about to call [RemoveAll] *)

(** One phase; the second component is the directory that is removed. *)
Definition clean_phase (c : cleaner) : GoM db_state (cleaner * option string) :=
  match c with
  | CIdle | CLoop [] => mret (CIdle, None)
  | CLoop ((name, isDir) :: dirs) =>
      if (isDir : bool) then v ← on_mux (getVersion name); mret (CHolds name v dirs, None)
      else mret (CLoop dirs, None)
  | CHolds name v dirs =>
      _ ← on_mux (release v); mret (match v with Some _ => CLoop dirs | None => CRemove name dirs end, None)
  | CRemove name dirs => mret (CLoop dirs, Some name)
  end.

(** ** The database *)

Record fsys := FSys {
  f_sys : dsys;
  f_refresh : refresher;
  f_upgrade : option (bool * vref * uphase);   (** the flag: called by the refresher *)
  f_clean : cleaner;
  f_dirs : gset string;
}.

(** The versions that the operations in progress have taken from the mux. *)
Definition refresh_holds (rf : refresher) : list vref :=
  match rf with FHolds c => option_list c | FFound _ e => option_list e | _ => [] end.
Definition upgrade_holds (up : option (bool * vref * uphase)) : list vref :=
  match up with Some (_, _, UHolds c) => option_list c | _ => [] end.
Definition clean_holds (c : cleaner) : list vref :=
  match c with CHolds _ v _ => option_list v | _ => [] end.
Definition holds (rf : refresher) (up : option (bool * vref * uphase)) (c : cleaner) : list vref :=
  (refresh_holds rf ++ upgrade_holds up ++ clean_holds c)%list.

Fixpoint drop1 (v : vref) (l : list vref) : list vref :=
  match l with
  | [] => []
  | u :: l' => if decide (u = v) then l' else u :: drop1 v l'
  end.

(** What is held after a phase that held [old] and now holds [new]. *)
Definition swap (old new l : list vref) : list vref := (new ++ foldr drop1 l old)%list.

(** What is assumed of an answer.  [newVersion] opens the version it is asked
    for.  If [lawful], a list of versions is sorted and after the one asked for,
    and no version that was opened before is missing from it; otherwise a list
    is anything. *)
Definition answer_ok (lawful : bool) (k : gmap string vref) (rf : refresher) (a : answer) : Prop :=
  asks rf a = true ∧
  match rf, a with
  | FList after, AList (Ok names) =>
      lawful = true ->
      StronglySorted str_lt names ∧ Forall (str_lt after) names ∧ ∀ n, is_Some (k !! n) -> str_lt after n -> n ∈ names
  | FOpen n, AOpen (Ok v) | FBackfill (n :: _), AOpen (Ok v) => v_name v = n
  | _, _ => True
  end.

(** When [upgrade] returns to the refresher. *)
Definition returned (byRefresh : bool) (rf : refresher) : refresher :=
  match rf with
  | FUpgrading rest v => if byRefresh then was_ready rest else rf
  | _ => rf
  end.

Section Fine.
Context {MS : MapOrder string}.

(** The steps of a database.  If [lawful], the backend's lists are as in
    [answer_ok], the backfill comes first and the database is not closed or
    deleted; otherwise its lists are anything, and [close] and [delete] are
    steps like the others. *)
Inductive fine_step (lawful peers : bool) : fsys -> fsys -> Prop :=
  | fs_refresh a d l r k rf up cl dirs rf' d' :
      answer_ok lawful k rf a -> refresh_phase rf a d = Some (rf', d') ->
      fine_step lawful peers (FSys (DSys d l r k) rf up cl dirs)
        (FSys (DSys d' (swap (refresh_holds rf) (refresh_holds rf') l) r (now_known k (db_mux d'))) rf' up cl dirs)
  | fs_backfill names s up cl dirs :     (** at startup *)
      (lawful = true -> d_known s = ∅ ∧ StronglySorted str_lt names) -> names ≠ [] ->
      fine_step lawful peers (FSys s FIdle up cl dirs) (FSys s (FBackfill (reverse (newest3 names))) up cl dirs)
  | fs_close s up cl dirs :              (** [close] has locked and called [getAll] *)
      lawful = false ->
      fine_step lawful peers (FSys s FIdle up cl dirs) (FSys s (FClose (mux_getAll (db_mux (d_db s)))) up cl dirs)
  | fs_dbdelete d l r k rf up cl dirs d' :
      lawful = false -> db_delete d = Some (tt, d') ->
      fine_step lawful peers (FSys (DSys d l r k) rf up cl dirs) (FSys (DSys d' l r k) rf up cl dirs)
  | fs_lock rest v s cl dirs :
      fine_step lawful peers (FSys s (FUpgrade rest v) None cl dirs)
        (FSys s (FUpgrading rest v) (Some (true, v, UStart)) cl dirs)
  | fs_await v w1 w2 d l r k rf cl dirs :   (** a version that was waited for is ready *)
      db_work d = (w1 ++ WAwait v :: w2)%list ->
      fine_step lawful peers (FSys (DSys d l r k) rf None cl dirs)
        (FSys (DSys (with_work d (w1 ++ w2)) l r k) rf (Some (false, v, UStart)) cl dirs)
  | fs_upgrade b v u o d l r k rf cl dirs d' :
      upgrade_phase v u d = Some (o, d') ->
      let up' := (λ u', (b, v, u')) <$> o in
      fine_step lawful peers (FSys (DSys d l r k) rf (Some (b, v, u)) cl dirs)
        (FSys (DSys d' (swap (upgrade_holds (Some (b, v, u))) (upgrade_holds up') l) r k)
              (match o with Some _ => rf | None => returned b rf end) up' cl dirs)
  | fs_env s s' rf up cl dirs :
      env_step s s' -> holds rf up cl ⊆+ d_inflight s' ->
      fine_step lawful peers (FSys s rf up cl dirs) (FSys s' rf up cl dirs)
  | fs_remove v w w1 w2 d l r k r' d' rf up dirs :
      db_work d = (w1 ++ WRemove v w :: w2)%list -> target r = None ->
      removeVersion peers v w (with_work d (w1 ++ w2)) = Some (r', d') ->
      fine_step lawful peers (FSys (DSys d l r k) rf up CIdle dirs) (FSys (DSys d' l (Some r') k) rf up CIdle dirs)
  | fs_cleanup w1 w2 d l r k rf up dirs listed :    (** [cleanupStore] lists the directory *)
      db_work d = (w1 ++ WCleanup :: w2)%list -> target r = None ->
      (∀ n, (n, true) ∈ listed <-> n ∈ dirs) ∨ listed = [] ->   (** no entries on an error *)
      fine_step lawful peers (FSys (DSys d l r k) rf up CIdle dirs)
        (FSys (DSys (with_work d (w1 ++ w2)) l r k) rf up (CLoop listed) dirs)
  | fs_clean c o d l r k rf up cl dirs d' :
      clean_phase cl d = Some ((c, o), d') ->
      fine_step lawful peers (FSys (DSys d l r k) rf up cl dirs)
        (FSys (DSys d' (swap (clean_holds cl) (clean_holds c) l) r k) rf up c (dirs ∖ list_to_set (option_list o)))
  | fs_mkdir v s rf up cl dirs :         (** a build makes the directory of its version *)
      WBuild v ∈ db_work (d_db s) -> fine_step lawful peers (FSys s rf up cl dirs) (FSys s rf up cl ({[ v_name v ]} ∪ dirs))
  | fs_delete v w1 w2 d l r k rf up cl dirs :
      db_work d = (w1 ++ WDelete v :: w2)%list ->
      fine_step lawful peers (FSys (DSys d l r k) rf up cl dirs)
        (FSys (DSys (with_work d (w1 ++ w2)) l r k) rf up cl (dirs ∖ {[ v_name v ]})).
End Fine.

Definition fine_init (override : Z) (dirs : gset string) : fsys := FSys (db_init override) FIdle None CIdle dirs.

(** ** The invariant *)

Definition fresh (k : gmap string vref) (names : list string) : Prop := NoDup names ∧ ∀ n, n ∈ names -> k !! n = None.
Definition rest_names (rest : option (list string)) : list string := default [] rest.

(** What holds in each phase of a refresh.  Only the holder of [refreshLock]
    opens versions, so this depends on the versions opened so far alone. *)
Definition refresh_inv (k : gmap string vref) (rf : refresher) : Prop :=
  match rf with
  | FIdle | FHolds _ | FList _ | FFound _ (Some _) => True
  | FLatest latest => ∀ n, is_Some (k !! n) -> String.le n latest
  | FFound latest None | FOpen latest => k !! latest = None
  | FBackfill names => fresh k names
  | FClose _ => False   (** not in a lawful run *)
  | FSwitch rest v => fresh k (v_name v :: rest_names rest)
  | FPrepared rest v | FPoll rest v | FUpgrade rest v | FUpgrading rest v =>
      k !! v_name v = Some v ∧ fresh k (rest_names rest)
  end.

(** Only the holder of [upgradeLock] changes the current version. *)
Definition upgrade_inv (cur : option versionReferenceCount) (k : gmap string vref) (rf : refresher)
    (up : option (bool * vref * uphase)) : Prop :=
  match up with
  | None => ∀ rest v, rf ≠ FUpgrading rest v
  | Some (b, v, u) =>
      k !! v_name v = Some v
      ∧ (if b then ∃ rest, rf = FUpgrading rest v else ∀ rest v', rf ≠ FUpgrading rest v')
      ∧ match u with
        | UStart => True
        | UHolds c | UDecide c => c = rc_version <$> cur
        | USwitched c => (∃ vs, cur = Some vs ∧ rc_version vs = v) ∧ ∀ c', c = Some c' -> str_lt (v_name c') (v_name v)
        end
  end.

Record fine_ok (s : fsys) : Prop := {
  fo_db : db_ok (f_sys s);
  fo_holds : holds (f_refresh s) (f_upgrade s) (f_clean s) ⊆+ d_inflight (f_sys s);
  fo_refresh : refresh_inv (d_known (f_sys s)) (f_refresh s);
  fo_upgrade : upgrade_inv (currentVersion (db_mux (d_db (f_sys s)))) (d_known (f_sys s)) (f_refresh s) (f_upgrade s);
}.

(** [s'] is reached within the mux's contract and does not roll back. *)
Definition fine_sim (s s' : fsys) : Prop := db_sim (f_sys s) (f_sys s') ∧ fine_ok s'.

Lemma fresh_tail k n names : fresh k (n :: names) -> fresh k names.
Proof. intros [Hd H]. apply NoDup_cons in Hd as [_ ?]. split; [done|]. intros x Hx. apply H. by right. Qed.

Lemma fresh_insert k v names : fresh k (v_name v :: names) -> fresh (<[v_name v := v]> k) names.
Proof.
  intros [Hd H]. apply NoDup_cons in Hd as [Hn ?]. split; [done|]. intros x Hx. rewrite lookup_insert_ne by (intros <-; done).
  apply H. by right.
Qed.

Lemma drop1_split v l : v ∈ l -> ∃ l1 l2, l = (l1 ++ v :: l2)%list ∧ drop1 v l = (l1 ++ l2)%list.
Proof.
  induction l as [|u l IH]; intros Hv; [by apply not_elem_of_nil in Hv|]. cbn. case_decide as Hu.
  - subst u. by exists [], l.
  - apply elem_of_cons in Hv as [?|Hv]; [by subst|]. destruct (IH Hv) as (l1 & l2 & -> & ->). by exists (u :: l1), l2.
Qed.

Lemma drop1_perm v l : v ∈ l -> l ≡ₚ v :: drop1 v l.
Proof. intros (l1 & l2 & -> & ->)%drop1_split. by rewrite Permutation_middle. Qed.

(** A phase gives back one version at most, or takes one. *)
Lemma swap_perm o new l : option_list o ⊆+ l -> (option_list o ++ swap (option_list o) new l ≡ₚ new ++ l)%list.
Proof.
  unfold swap. destruct o as [v|]; cbn; intros H; [|done].
  rewrite Permutation_middle. f_equiv. symmetry. apply drop1_perm, (elem_of_submseteq [v]); [by left|done].
Qed.

Lemma swap_holds o new l others :
  (option_list o ++ others)%list ⊆+ l -> (new ++ others)%list ⊆+ swap (option_list o) new l.
Proof.
  intros H. eapply (submseteq_app_inv_l _ _ (option_list o)).
  rewrite (swap_perm o new l) by (etransitivity; [apply submseteq_inserts_r; reflexivity|exact H]).
  rewrite (assoc_L (++)%list), (comm (++)%list (option_list o)), <- (assoc_L (++)%list).
  by apply submseteq_skips_l.
Qed.

(** ** The phases stay within the mux's contract *)

(** Neither the entries nor the current version have changed. *)
Definition same_mux (d d' : db_state) : Prop :=
  versions (db_mux d') = versions (db_mux d) ∧ currentVersion (db_mux d') = currentVersion (db_mux d).

Section Fine_props.
Context {MS : MapOrder string}.

Lemma take_current d l r k :
  db_ok (DSys d l r k) ->
  let o := rc_version <$> currentVersion (db_mux d) in
  ∃ d', on_mux getCurrent d = Some (o, d') ∧ db_sim (DSys d l r k) (DSys d' (option_list o ++ l) r k) ∧ same_mux d d'.
Proof.
  intros Hok o. destruct (read_current _ _ _ _ Hok) as (m1 & m' & Hg & _).
  assert (on_mux getCurrent d = Some (o, with_mux d m1)) as H by (unfold on_mux; by rewrite Hg).
  destruct (get_frame _ _ _ _ (or_introl eq_refl) H) as (m2 & Hm2 & Heq & Hv & Hc).
  assert (m2 = m1) as -> by congruence. exists (with_mux d m1). split_and!; [done| |by split].
  subst o. unfold getCurrent in Hg. destruct (currentVersion (db_mux d)) as [c|] eqn:Ec; cbn in *.
  - apply env_step_sim; [|done]. by apply ds_current.
  - simplify_eq. destruct d. by apply db_sim_refl.
Qed.

Lemma take_version name d l r k :
  db_ok (DSys d l r k) ->
  let o := rc_version <$> versions (db_mux d) !! name in
  ∃ d', on_mux (getVersion name) d = Some (o, d') ∧ db_sim (DSys d l r k) (DSys d' (option_list o ++ l) r k)
  ∧ same_mux d d'.
Proof.
  intros Hok o. destruct (read_version name _ _ _ _ Hok) as (m1 & m' & Hg & _).
  assert (on_mux (getVersion name) d = Some (o, with_mux d m1)) as H by (unfold on_mux; by rewrite Hg).
  destruct (get_frame _ _ _ _ (or_intror (ex_intro _ name eq_refl)) H) as (m2 & Hm2 & Heq & Hv & Hc).
  assert (m2 = m1) as -> by congruence. exists (with_mux d m1). split_and!; [done| |by split].
  subst o. unfold getVersion in Hg. destruct (versions (db_mux d) !! name) as [c|] eqn:Ec; cbn in *.
  - apply env_step_sim; [|done]. by eapply ds_version.
  - simplify_eq. destruct d. by apply db_sim_refl.
Qed.

Lemma give_back o d l r k :
  db_ok (DSys d l r k) -> option_list o ⊆+ l ->
  ∃ d', on_mux (release o) d = Some (tt, d') ∧ db_sim (DSys d l r k) (DSys d' (swap (option_list o) [] l) r k)
  ∧ same_mux d d'.
Proof.
  intros Hok Hl. destruct o as [v|]; cbn; [|exists d; split_and!; [by destruct d|by apply db_sim_refl|done]].
  assert (v ∈ l) as Hv by (eapply elem_of_submseteq; [by left|exact Hl]).
  destruct (drop1_split _ _ Hv) as (l1 & l2 & -> & Hd). cbn. unfold swap. cbn. rewrite Hd.
  destruct (release_ok _ _ _ _ _ _ (do_sys _ Hok)) as (m' & Hr & _). exists (with_mux d m').
  assert (on_mux (release (Some v)) d = Some (tt, with_mux d m')) as H by (unfold on_mux; cbn in *; by rewrite Hr).
  split_and!; [exact H| |]. { apply env_step_sim; [by apply ds_finish|done]. }
  cbn in Hr. by apply release_frame in Hr.
Qed.

(** Work that needs no check is added. *)
Lemma spawn_sim xs d l r k :
  db_ok (DSys d l r k) -> Forall (work_ok (db_mux d) k) xs ->
  db_sim (DSys d l r k) (DSys (with_work d (db_work d ++ xs)%list) l r k).
Proof.
  intros Hok Hx. apply db_sim_intro; [apply rtc_refl|done|]. apply db_ok_work; [done|].
  apply Forall_app. split; [apply (do_work _ Hok)|done].
Qed.

(** A phase of the refresher that opens nothing. *)
Lemma phase_same rf rf' d d' l r k :
  db_ok (DSys d l r k) -> same_mux d d' -> refresh_inv k rf' ->
  db_sim (DSys d l r k) (DSys d' (swap (refresh_holds rf) (refresh_holds rf') l) r k) ->
  db_sim (DSys d l r k) (DSys d' (swap (refresh_holds rf) (refresh_holds rf') l) r (now_known k (db_mux d')))
  ∧ refresh_inv (now_known k (db_mux d')) rf' ∧ currentVersion (db_mux d') = currentVersion (db_mux d)
  ∧ k ⊆ now_known k (db_mux d').
Proof. intros Hok [Hv Hc] Hi Hs. rewrite (now_known_same _ _ _ _ _ Hok Hv). by split_and!. Qed.

(** The newest version listed is at least every version that was opened. *)
Lemma listed_top names latest after k :
  StronglySorted str_lt names -> Forall (str_lt after) names -> last names = Some latest ->
  (∀ n, is_Some (k !! n) -> str_lt after n -> n ∈ names) ->
  ∀ n, is_Some ((k : gmap string vref) !! n) -> String.le n latest.
Proof.
  intros Hs Ha Hl Hall n Hn. apply last_Some in Hl as [l' ->].
  assert (str_lt after latest) as Hal by (rewrite Forall_forall in Ha; apply Ha; set_solver).
  destruct (decide (str_lt after n)) as [Hlt|Hnot].
  - apply (Hall n Hn) in Hlt. apply elem_of_app in Hlt as [Hin|Hin].
    + apply str_lt_le. eapply StronglySorted_app_1_elem_of; [exact Hs|exact Hin|by left].
    + apply list_elem_of_singleton in Hin as ->. by apply str_ltb_false, not_true_iff_false, str_lt_irrefl.
  - apply str_lt_le. eapply str_le_lt_trans; [|exact Hal]. by apply str_ltb_false, not_true_iff_false.
Qed.

(** The newest version is not in the mux: it has never been opened. *)
Lemma absent_unknown latest d l r k :
  db_ok (DSys d l r k) -> (∀ n, is_Some (k !! n) -> String.le n latest) ->
  versions (db_mux d) !! latest = None -> k !! latest = None.
Proof.
  intros Hok Htop Hnone. destruct (k !! latest) as [u|] eqn:Ek; [|done].
  destruct (do_known _ Hok _ _ Ek) as [[? ?]|(c & Hc & Hlt)]; cbn in *; [congruence|].
  exfalso. apply (str_lt_irrefl (v_name (rc_version c))). eapply str_le_lt_trans; [|exact Hlt].
  apply Htop. rewrite (known_current _ _ _ _ _ Hok Hc). by eexists.
Qed.

Ltac phase_done := eexists _, _; split; [reflexivity|].

Lemma refresh_phase_ok rf a d l r k :
  db_ok (DSys d l r k) -> refresh_holds rf ⊆+ l -> refresh_inv k rf -> answer_ok true k rf a ->
  ∃ rf' d', refresh_phase rf a d = Some (rf', d')
  ∧ (db_sim (DSys d l r k) (DSys d' (swap (refresh_holds rf) (refresh_holds rf') l) r (now_known k (db_mux d')))
     ∧ refresh_inv (now_known k (db_mux d')) rf' ∧ currentVersion (db_mux d') = currentVersion (db_mux d)
     ∧ k ⊆ now_known k (db_mux d'))
  ∧ ∀ rest v, rf' ≠ FUpgrading rest v.
Proof.
  intros Hok Hl Hi [Ha Hans].
  destruct rf as [|c|after|latest|latest e|latest|[|n names]|[|u us]|rest v|rest v|rest v|rest v|rest v];
    destruct a as [|[names'|err]|[v'|err]|[]]; try done; cbn in Hi, Hl, Hans; cbn [refresh_phase].
  - destruct (take_current _ _ _ _ Hok) as (d' & Hg & Hs & Hsame). rewrite GoM_bind_eq, Hg. phase_done.
    split; [|done]. by apply phase_same.
  - destruct (give_back c _ _ _ _ Hok Hl) as (d' & Hg & Hs & Hsame). rewrite GoM_bind_eq, Hg. phase_done.
    split; [|done]. by apply phase_same.
  - phase_done. destruct (Hans eq_refl) as (H1 & H2 & H3). destruct (last names') as [latest|] eqn:El;
      (split; [|done]); (apply phase_same; [done|done| |by apply db_sim_refl]); [|done].
    cbn. by eapply listed_top; eauto.
  - phase_done. split; [|done]. by apply phase_same; [| | |apply db_sim_refl].
  - destruct (take_version latest _ _ _ _ Hok) as (d' & Hg & Hs & Hsame). rewrite GoM_bind_eq, Hg. phase_done.
    split; [|done]. apply phase_same; [done|done| |done]. cbn.
    destruct (versions (db_mux d) !! latest) eqn:Ev; cbn; [done|]. by eapply absent_unknown.
  - destruct (give_back e _ _ _ _ Hok Hl) as (d' & Hg & Hs & Hsame). rewrite GoM_bind_eq, Hg.
    destruct e as [v|]; phase_done; (split; [|done]); apply phase_same; try done.
    eapply db_sim_trans; [exact Hs|]. apply spawn_sim; [apply Hs|by repeat constructor].
  - phase_done. split; [|done]. apply phase_same; [done|done| |by apply db_sim_refl].
    cbn. split; [by apply NoDup_singleton|]. intros n ->%list_elem_of_singleton. by rewrite Hans.
  - phase_done. split; [|done]. by apply phase_same; [| | |apply db_sim_refl].
  - phase_done. split; [|done]. apply phase_same; [done|done|done|]. apply spawn_sim; [done|by repeat constructor].
  - phase_done. split; [|done]. apply phase_same; [done|done| |by apply db_sim_refl]. cbn. by rewrite Hans.
  - phase_done. split; [|done]. apply phase_same; [done|done| |by apply db_sim_refl]. by eapply fresh_tail.
  - assert (k !! v_name v = None) as Hnew by (apply Hi; by left).
    destruct (prepare_sim _ _ _ _ _ Hok Hnew) as (m1 & vs & Hp & Hvs & Hvm & Hcm & Hsim).
    rewrite GoM_bind_eq. unfold set_state. erewrite on_mux_bind by exact Hp. phase_done. split; [|done]. cbn.
    rewrite (now_known_insert _ _ _ _ _ _ _ Hok Hvs Hvm Hnew). split_and!.
    + specialize (Hsim (<[v_id v := if decide (default versionBuilding (db_states d !! v_id v) = versionError)
        then default versionBuilding (db_states d !! v_id v) else versionAvailable]> (db_states d)) []).
      rewrite app_nil_r in Hsim. apply Hsim. constructor.
    + by rewrite lookup_insert_eq.
    + by apply fresh_insert.
    + done.
    + by apply insert_subseteq.
  - phase_done. split; [|done]. apply phase_same; [done|done|done|].
    assert (db_sim (DSys d l r k) (DSys (with_work d (db_work d ++ [WBuild v])%list) l r k)) as Hs
      by (apply spawn_sim; [done|by repeat constructor]).
    eapply db_sim_trans; [exact Hs|]. apply (spawn_sim [WAdvertise v]); [apply Hs|by repeat constructor].
  - phase_done. split; [|done]. by apply phase_same; [| | |apply db_sim_refl].
  - phase_done. split; [|by destruct rest]. destruct Hi as [Hkv Hf].
    assert (refresh_holds (not_ready rest) = []) as Hn by by destruct rest.
    apply phase_same; [done|done|by destruct rest|]. rewrite Hn. apply spawn_sim; [done|by repeat constructor].
Qed.

Lemma upgrade_phase_ok b v u d l r k rf :
  db_ok (DSys d l r k) -> upgrade_holds (Some (b, v, u)) ⊆+ l ->
  upgrade_inv (currentVersion (db_mux d)) k rf (Some (b, v, u)) ->
  ∃ o d', upgrade_phase v u d = Some (o, d')
  ∧ let up' := (λ u', (b, v, u')) <$> o in
    db_sim (DSys d l r k) (DSys d' (swap (upgrade_holds (Some (b, v, u))) (upgrade_holds up') l) r k)
    ∧ upgrade_inv (currentVersion (db_mux d')) k (match o with Some _ => rf | None => returned b rf end) up'.
Proof.
  intros Hok Hl (Hkv & Hb & Hu).
  assert (∀ rest v', returned b rf ≠ FUpgrading rest v') as Hret.
  { intros rest v'. destruct b; [destruct Hb as [rest' ->]; by destruct rest'|]. by destruct rf. }
  destruct u as [|c|c|c]; cbn in Hl, Hu; cbn [upgrade_phase].
  - destruct (take_current _ _ _ _ Hok) as (d' & Hg & Hs & _ & Hc). rewrite GoM_bind_eq, Hg. phase_done.
    split; [exact Hs|]. cbn. by rewrite Hc.
  - destruct (give_back c _ _ _ _ Hok Hl) as (d' & Hg & Hs & _ & Hc). rewrite GoM_bind_eq, Hg. phase_done.
    split; [exact Hs|]. cbn. by rewrite Hc.
  - destruct (from_option _ false c) eqn:Eold; [|case_bool_decide as Esame].
    + phase_done. split; [|done]. apply spawn_sim; [done|]. repeat constructor; [done|]. subst c.
      destruct (currentVersion (db_mux d)) as [c|] eqn:Ec; [|done]. by exists c.
    + phase_done. split; [by apply db_sim_refl|done].
    + subst c. pose proof (upgrade_newer _ _ _ _ _ Hok Hkv Eold Esame) as Hnew.
      destruct (mux_upgrade_sim v _ _ _ _ Hok Hkv Hnew) as (vs & Hup & Hrc & Hs).
      erewrite on_mux_bind by exact Hup. phase_done. split.
      * specialize (Hs (db_states d) []). rewrite app_nil_r in Hs. apply Hs. constructor.
      * cbn. split_and!; [done..| |done]. by exists vs.
  - destruct Hu as [(vs & Hcur & Hv) Hc]. rewrite GoM_bind_eq. unfold set_state. rewrite GoM_bind_eq. unfold db_getAll.
    phase_done. split; [|exact Hret]. apply db_sim_intro; [apply rtc_refl|done|].
    apply (db_ok_work d); [done|]. apply Forall_app. split; [apply (do_work _ Hok)|].
    apply (removals_ok d l r k); [exact Hok|exact Hc|]. intros n Hn. exists vs. by rewrite Hv.
Qed.

Lemma clean_phase_ok cl d l r k :
  db_ok (DSys d l r k) -> clean_holds cl ⊆+ l ->
  ∃ c o d', clean_phase cl d = Some ((c, o), d')
  ∧ db_sim (DSys d l r k) (DSys d' (swap (clean_holds cl) (clean_holds c) l) r k) ∧ same_mux d d'.
Proof.
  intros Hok Hl. destruct cl as [|[|[name []] dirs]|name v dirs|name dirs]; cbn in Hl; cbn [clean_phase].
  1,2,4,6: (eexists _, _, _; split; [reflexivity|]; split; [by apply db_sim_refl|done]).
  - destruct (take_version name _ _ _ _ Hok) as (d' & Hg & Hs & Hsame). rewrite GoM_bind_eq, Hg.
    eexists _, _, _. split; [reflexivity|]. done.
  - destruct (give_back v _ _ _ _ Hok Hl) as (d' & Hg & Hs & Hsame). rewrite GoM_bind_eq, Hg.
    eexists _, _, _. split; [reflexivity|]. split; [|done]. by destruct v.
Qed.

(** What an upgrade in progress relies on: more versions may be opened. *)
Lemma upgrade_inv_known cur k k' rf rf' up :
  k ⊆ k' -> (∀ rest v, rf ≠ FUpgrading rest v) -> (∀ rest v, rf' ≠ FUpgrading rest v) ->
  upgrade_inv cur k rf up -> upgrade_inv cur k' rf' up.
Proof.
  intros Hk Hrf Hrf'. destruct up as [[[b v] u]|]; cbn; [|done]. intros (Hkv & Hb & Hu).
  split_and!; [by eapply lookup_weaken| |done]. destruct b; [|done]. destruct Hb as [rest ->]. by destruct (Hrf rest v).
Qed.

Lemma env_frame s s' :
  env_step s s' ->
  d_known s' = d_known s ∧ currentVersion (db_mux (d_db s')) = currentVersion (db_mux (d_db s)).
Proof.
  intros [d l r k v d' H|name d l r k v d' H|d l1 v l2 r k d' H|t d l r k Ht|v st d l r k d' H
    |d l r k r' m' d' Hs H]; cbn; (split; [done|]).
  - by destruct (get_frame _ _ _ _ (or_introl eq_refl) H) as (m1 & E & -> & ? & ?).
  - by destruct (get_frame _ _ _ _ (or_intror (ex_intro _ name eq_refl)) H) as (m1 & E & -> & ? & ?).
  - unfold on_mux in H. destruct (release (Some v) (db_mux d)) as [[[] m1]|] eqn:E; [|done]. cbn in H. simplify_eq.
    by apply release_frame in E as [? ?].
  - done.
  - unfold set_state in H. by simplify_eq.
  - destruct (remove_step_frame _ _ _ _ "" Hs) as (Hc & _). rewrite <- Hc.
    destruct r' as [| | | | |[u|]]; cbn [removed] in H; try by (injection H as <-).
    rewrite GoM_bind_eq in H. unfold version_close, spawn in H. case_bool_decide; [done|]. cbn in H. by simplify_eq.
Qed.

(** Work is taken up by an operation of its own. *)
Lemma take_sim d l r k w1 x w2 :
  db_ok (DSys d l r k) -> db_work d = (w1 ++ x :: w2)%list ->
  db_sim (DSys d l r k) (DSys (with_work d (w1 ++ w2)) l r k).
Proof. intros Hok Hw. destruct (take_work _ _ _ _ _ _ _ Hok Hw). by apply db_sim_intro; [apply rtc_refl| |]. Qed.

Lemma not_upgrading_asks rf a : asks rf a = true -> ∀ rest v, rf ≠ FUpgrading rest v.
Proof. intros H rest v ->. done. Qed.

(** The three holders of versions in turn. *)
Lemma holds_refresh rf rf' up cl l :
  holds rf up cl ⊆+ l -> holds rf' up cl ⊆+ swap (refresh_holds rf) (refresh_holds rf') l.
Proof. unfold holds. intros H. destruct rf; try (by apply (swap_holds None)); by apply swap_holds. Qed.

Lemma holds_upgrade rf rf' up up' cl l :
  refresh_holds rf' = refresh_holds rf -> holds rf up cl ⊆+ l ->
  holds rf' up' cl ⊆+ swap (upgrade_holds up) (upgrade_holds up') l.
Proof.
  unfold holds. intros -> H. rewrite (assoc_L (++)%list), (comm (++)%list (refresh_holds rf)), <- (assoc_L (++)%list) in *.
  destruct up as [[[b v] []]|]; try (by apply (swap_holds None)); by apply swap_holds.
Qed.

Lemma holds_clean rf up cl cl' l :
  holds rf up cl ⊆+ l -> holds rf up cl' ⊆+ swap (clean_holds cl) (clean_holds cl') l.
Proof.
  unfold holds. intros H. rewrite (assoc_L (++)%list), (comm (++)%list _ (clean_holds cl)) in H.
  rewrite (assoc_L (++)%list), (comm (++)%list _ (clean_holds cl')).
  destruct cl; try (by apply (swap_holds None)); by apply swap_holds.
Qed.

Lemma holds_parts rf up cl l :
  holds rf up cl ⊆+ l -> refresh_holds rf ⊆+ l ∧ upgrade_holds up ⊆+ l ∧ clean_holds cl ⊆+ l.
Proof.
  unfold holds. intros H. split_and!; (etransitivity; [|exact H]).
  - by apply submseteq_inserts_r.
  - by apply submseteq_inserts_l, submseteq_inserts_r.
  - by do 2 apply submseteq_inserts_l.
Qed.

Lemma fine_step_sim peers s s' : fine_step true peers s s' -> fine_ok s -> fine_sim s s'.
Proof.
  intros [a d l r k rf up cl dirs rf' d' Ha H|names s1 up cl dirs Hlaw Hne|s1 up cl dirs Hf|d l r k rf up cl dirs d' Hf
    |rest v s1 cl dirs
    |v w1 w2 d l r k rf cl dirs Hw|b v u o d l r k rf cl dirs d' H up'|s1 s2 rf up cl dirs H Hh
    |v w w1 w2 d l r k r' d' rf up dirs Hw Ht H|w1 w2 d l r k rf up dirs listed Hw Ht Hl
    |c o d l r k rf up cl dirs d' H|v s1 rf up cl dirs Hw|v w1 w2 d l r k rf up cl dirs Hw]
    [Hok Hholds Hrf Hup]; unfold fine_sim; cbn in *.
  - destruct (holds_parts _ _ _ _ Hholds) as (Hl & _).
    destruct (refresh_phase_ok _ _ _ _ _ _ Hok Hl Hrf Ha) as (rf2 & d2 & H2 & (Hs & Hi & Hc & Hk) & Hno).
    rewrite H in H2. simplify_eq. split; [exact Hs|]. split; cbn; [apply Hs|by apply holds_refresh|done|].
    rewrite Hc. eapply upgrade_inv_known; [done| |done|exact Hup]. by eapply not_upgrading_asks, Ha.
  - destruct (Hlaw eq_refl) as [Hk Hsort]. split; [by apply db_sim_refl|]. split; cbn; [done|done| |].
    + rewrite Hk. split; [|by intros n _; apply lookup_empty]. rewrite reverse_Permutation.
      apply newest3_sorted in Hsort. clear -Hsort. induction Hsort as [|n l Hl IH Hn]; [constructor|].
      constructor; [|done]. intros Hin. rewrite Forall_forall in Hn. by apply (str_lt_irrefl n), Hn.
    + eapply upgrade_inv_known; [reflexivity| |done|exact Hup]. done.
  - done.
  - done.
  - split; [by apply db_sim_refl|]. split; cbn; [done|done|done|]. destruct Hrf as [? _]. by split_and!; [|exists rest|].
  - split; [by eapply take_sim|]. destruct (take_work _ _ _ _ _ _ _ Hok Hw) as [Hok1 Hkv].
    split; cbn; [done|done|done|]. by split_and!.
  - destruct (holds_parts _ _ _ _ Hholds) as (_ & Hl & _).
    destruct (upgrade_phase_ok _ _ _ _ _ _ _ _ Hok Hl Hup) as (o2 & d2 & H2 & Hs & Hi).
    rewrite H in H2. simplify_eq. split; [exact Hs|]. destruct Hup as (_ & Hb & _).
    assert (refresh_inv k (returned b rf) ∧ refresh_holds (returned b rf) = refresh_holds rf) as [Hri Hrh].
    { destruct rf as [| | | | | | | | | | | |rest v']; try done. destruct b; [|done]. cbn.
      destruct rest as [names|]; cbn; [|done]. split; [|done]. split; [constructor|by intros n ?%not_elem_of_nil]. }
    split; cbn; [apply Hs| | |exact Hi].
    + eapply (holds_upgrade _ _ (Some (b, v, u))); [|exact Hholds]. by destruct o2.
    + by destruct o2.
  - pose proof (env_step_sim _ _ H Hok) as Hs. destruct (env_frame _ _ H) as [Hk Hc]. split; [exact Hs|].
    split; cbn; [apply Hs|done|by rewrite Hk|by rewrite Hk, Hc].
  - destruct (removeVersion_ok peers _ _ _ _ _ _ _ _ Hok Hw Ht) as (r2 & d2 & H2 & Hs). rewrite H in H2. simplify_eq.
    split; [exact Hs|]. unfold removeVersion, set_state in H. rewrite GoM_bind_eq in H. injection H as <- <-.
    split; cbn; [apply Hs|done|done|done].
  - split; [by eapply take_sim|]. destruct (take_work _ _ _ _ _ _ _ Hok Hw) as [Hok1 _]. split; cbn; [done..|].
    done.
  - destruct (holds_parts _ _ _ _ Hholds) as (_ & _ & Hl).
    destruct (clean_phase_ok _ _ _ _ _ Hok Hl) as (c2 & o2 & d2 & H2 & Hs & _ & Hc).
    rewrite H in H2. simplify_eq. split; [exact Hs|]. split; cbn; [apply Hs|by apply holds_clean|done|by rewrite Hc].
  - split; [by apply db_sim_refl|by split].
  - split; [by eapply take_sim|]. destruct (take_work _ _ _ _ _ _ _ Hok Hw) as [Hok1 _]. split; cbn; done.
Qed.

Lemma fine_init_ok t dirs : fine_ok (fine_init t dirs).
Proof. split; cbn; [apply db_init_ok|constructor|done|done]. Qed.

Lemma fine_run peers s s' : rtc (fine_step true peers) s s' -> fine_ok s -> fine_sim s s'.
Proof.
  induction 1 as [|x y z Hxy Hyz IH]; intros Hok; [split; [apply db_sim_refl, Hok|done]|].
  destruct (fine_step_sim _ _ _ Hxy Hok) as [Hs1 Hok1]. destruct (IH Hok1) as [Hs2 Hok2].
  split; [by eapply db_sim_trans|done].
Qed.

Lemma fine_reachable peers t dirs s : rtc (fine_step true peers) (fine_init t dirs) s -> fine_sim (fine_init t dirs) s.
Proof. intros Hr. apply (fine_run _ _ _ Hr), fine_init_ok. Qed.

(** ** Every operation ends *)

Definition rest_left (rest : option (list string)) : nat :=
  match rest with None => 0 | Some names => 1 + 7 * length names end.

(** A bound on the phases that are left. *)
Definition refresh_left (rf : refresher) : nat :=
  match rf with
  | FIdle => 0
  | FUpgrading rest _ => 1 + rest_left rest
  | FUpgrade rest _ => 2 + rest_left rest
  | FPoll rest _ => 3 + rest_left rest
  | FPrepared rest _ => 4 + rest_left rest
  | FSwitch rest _ => 5 + rest_left rest
  | FBackfill names => rest_left (Some names)
  | FClose all => 1 + length all
  | FOpen _ => 6
  | FFound _ _ => 7
  | FLatest _ => 8
  | FList _ => 9
  | FHolds _ => 10
  end.

Definition upgrade_left (u : uphase) : nat :=
  match u with UStart => 4 | UHolds _ => 3 | UDecide _ => 2 | USwitched _ => 1 end.

Definition clean_left (c : cleaner) : nat :=
  match c with
  | CIdle => 0
  | CLoop dirs => 1 + 3 * length dirs
  | CHolds _ _ dirs => 3 + 3 * length dirs
  | CRemove _ dirs => 2 + 3 * length dirs
  end.

(** A phase that ends in a pure step ends where it says. *)
Lemma phase_result {A B} (f : GoM db_state A) (g : A -> B) d b d' :
  (x ← f; mret (g x)) d = Some (b, d') -> ∃ x, b = g x.
Proof. rewrite GoM_bind_eq. destruct (f d) as [[x d1]|]; [|done]. intros [= <- _]. by exists x. Qed.

Lemma refresh_left_decreases rf a d rf' d' :
  asks rf a = true -> refresh_phase rf a d = Some (rf', d') -> (rf = FIdle ∨ refresh_left rf' < refresh_left rf)%nat.
Proof.
  intros Ha H.
  destruct rf as [|c|after|latest|latest e|latest|[|n names]|[|u us]|rest v|rest v|rest v|rest v|rest v]; [by left|right..];
    destruct a as [|[names'|err]|[v'|err]|[]]; try done; cbn [refresh_phase] in H.
  - apply phase_result in H as [? ->]. cbn. lia.
  - injection H as <- _. destruct (last names'); cbn; lia.
  - injection H as <- _. cbn. lia.
  - apply phase_result in H as [? ->]. cbn. lia.
  - rewrite GoM_bind_eq in H. destruct (on_mux (release e) d) as [[[] d1]|]; [|done].
    destruct e; injection H as <- _; cbn; lia.
  - injection H as <- _. cbn. lia.
  - injection H as <- _. cbn. lia.
  - injection H as <- _. cbn. lia.
  - injection H as <- _. cbn. lia.
  - injection H as <- _. cbn. lia.
  - injection H as <- _. cbn. lia.
  - apply phase_result in H as [? ->]. cbn. lia.
  - rewrite GoM_bind_eq in H. destruct (set_state v versionAvailable d) as [[[] d1]|]; [|done].
    apply phase_result in H as [? ->]. cbn. lia.
  - injection H as <- _. cbn. lia.
  - injection H as <- _. cbn. lia.
  - injection H as <- _. destruct rest; cbn; lia.
Qed.

Lemma upgrade_left_decreases v u d o d' :
  upgrade_phase v u d = Some (o, d') -> (from_option upgrade_left 0 o < upgrade_left u)%nat.
Proof.
  intros H. destruct u as [|c|c|c]; cbn [upgrade_phase] in H.
  - apply phase_result in H as [? ->]. cbn. lia.
  - apply phase_result in H as [? ->]. cbn. lia.
  - destruct (from_option _ false c); [|case_bool_decide]; [injection H as <- _; cbn; lia..|].
    apply phase_result in H as [? ->]. cbn. lia.
  - injection H as <- _. cbn. lia.
Qed.

Lemma clean_left_decreases cl d c o d' :
  clean_phase cl d = Some ((c, o), d') -> (cl = CIdle ∨ clean_left c < clean_left cl)%nat.
Proof.
  intros H. destruct cl as [|[|[name []] dirs]|name v dirs|name dirs]; [by left|right..]; cbn [clean_phase] in H.
  - injection H as <- _ _. cbn. lia.
  - apply phase_result in H as [? [= -> ->]]. cbn. lia.
  - injection H as <- _ _. cbn. lia.
  - apply phase_result in H as [? [= -> ->]]. destruct v; cbn; lia.
  - injection H as <- _ _. cbn. lia.
Qed.

(** C4: every run of a database, with its refreshes, upgrades and cleanups
    interleaved with requests and removals in any way, is a run of its mux
    within the mux's contract: a name is prepared once, a version being removed
    never becomes current and the current version is never removed, so what
    holds of the mux under that contract (a version is closed only after its
    last request) holds of the database.  The lists of the backend have to be
    complete (sorted, after the version asked for, and a version that was opened
    does not disappear from them) and the database is not closed or deleted. *)
Theorem fine_refines_mux peers t dirs s :
  rtc (fine_step true peers) (fine_init t dirs) s -> rtc sys_step (sys_init t) (mux_of (f_sys s)).
Proof. intros [[[Hr _] _] _]%fine_reachable. exact Hr. Qed.

(** C20: no operation of a database that is not closed or deleted panics, as
    long as the backend's lists are sorted, after the version asked for and
    without gaps (a version that was opened does not disappear from them; a list
    that has lost one, or a database closed while a version is loading, can take
    the node down: [stale_list_panics], [delete_while_loading_panics]).  Whatever
    phase it is in and whatever the others have done in the meantime: preparing a version finds no
    other of its name, upgrading finds the version it waited for, a removed
    version is closed only once, and whoever holds a version can give it back.
    Every phase brings the holder of a lock closer to releasing it, whatever it
    is answered; a refresher that waits for an upgrade waits for one that is in
    progress. *)
Theorem fine_never_panics peers t dirs s :
  rtc (fine_step true peers) (fine_init t dirs) s ->
  let d := d_db (f_sys s) in
  (∀ a, answer_ok true (d_known (f_sys s)) (f_refresh s) a ->
     ∃ rf' d', refresh_phase (f_refresh s) a d = Some (rf', d')
     ∧ (f_refresh s = FIdle ∨ refresh_left rf' < refresh_left (f_refresh s))%nat)
  ∧ (∀ b v u, f_upgrade s = Some (b, v, u) ->
     ∃ o d', upgrade_phase v u d = Some (o, d') ∧ (from_option upgrade_left 0 o < upgrade_left u)%nat)
  ∧ (∃ c o d', clean_phase (f_clean s) d = Some ((c, o), d')
     ∧ (f_clean s = CIdle ∨ clean_left c < clean_left (f_clean s))%nat)
  ∧ (∀ r r' m', d_remover (f_sys s) = Some r -> remove_step r (db_mux d) = Some (r', m') ->
     is_Some (removed r' (with_mux d m')))
  ∧ (∀ v, v ∈ d_inflight (f_sys s) -> is_Some (release (Some v) (db_mux d)))
  ∧ (∀ rest v, f_refresh s = FUpgrading rest v -> ∃ u, f_upgrade s = Some (true, v, u)).
Proof.
  intros [_ [Hok Hh Hrf Hup]]%fine_reachable. destruct s as [[d l r k] rf up cl dirs']. cbn in *.
  destruct (holds_parts _ _ _ _ Hh) as (Hl1 & Hl2 & Hl3). split_and!.
  - intros a Ha. destruct (refresh_phase_ok _ _ _ _ _ _ Hok Hl1 Hrf Ha) as (rf' & d' & H & _). exists rf', d'.
    split; [done|]. by eapply refresh_left_decreases; [apply Ha|].
  - intros b v u ->. destruct (upgrade_phase_ok _ _ _ _ _ _ _ _ Hok Hl2 Hup) as (o & d' & H & _). exists o, d'.
    split; [done|]. by eapply upgrade_left_decreases.
  - destruct (clean_phase_ok _ _ _ _ _ Hok Hl3) as (c & o & d' & H & _). exists c, o, d'.
    split; [done|]. by eapply clean_left_decreases.
  - intros r0 r' m' -> Hs. destruct (remover_sim _ _ _ _ _ _ Hok Hs) as (d2 & -> & _). by eexists.
  - intros v (l1 & l2 & ->)%list_elem_of_split. destruct (release_ok _ _ _ _ _ _ (do_sys _ Hok)) as (m1 & H & _).
    cbn in H. by rewrite H.
  - intros rest v ->. destruct up as [[[b v'] u]|]; [|by destruct (Hup rest v)].
    destruct Hup as (_ & Hb & _). destruct b; [destruct Hb as [? Hb]; simplify_eq; eauto|by destruct (Hb rest v)].
Qed.

(** ** Rolling forward, lawful or not *)

Lemma bind_result {A B} (f : GoM db_state A) (g : A -> GoM db_state B) d b d' :
  (x ← f; g x) d = Some (b, d') -> ∃ x d1, f d = Some (x, d1) ∧ g x d1 = Some (b, d').
Proof. rewrite GoM_bind_eq. destruct (f d) as [[x d1]|]; [|done]. intros H. by exists x, d1. Qed.

Definition cur_of (d : db_state) : option versionReferenceCount := currentVersion (db_mux d).

Lemma getCurrent_current d o d' :
  on_mux getCurrent d = Some (o, d') -> o = rc_version <$> cur_of d ∧ cur_of d' = cur_of d.
Proof.
  intros H. destruct (get_frame _ _ _ _ (or_introl eq_refl) H) as (m1 & Hg & -> & _ & Hc). split; [|done].
  unfold getCurrent, acquire in Hg. unfold cur_of. destruct (currentVersion (db_mux d)); [|by simplify_eq].
  destruct (wg_Add _ _ _); [|done]. cbn in Hg. by simplify_eq.
Qed.

Lemma getVersion_current name d o d' : on_mux (getVersion name) d = Some (o, d') -> cur_of d' = cur_of d.
Proof. intros H. by destruct (get_frame _ _ _ _ (or_intror (ex_intro _ name eq_refl)) H) as (m1 & _ & -> & _ & Hc). Qed.

Lemma release_current o d d' : on_mux (release o) d = Some (tt, d') -> cur_of d' = cur_of d.
Proof.
  unfold on_mux. destruct (release o (db_mux d)) as [[[] m]|] eqn:E; [|done]. cbn. intros H. simplify_eq.
  destruct o as [v|]; [by apply release_frame in E as [_ ?]|]. cbn in E. by simplify_eq.
Qed.

Lemma prepare_current v d d' : on_mux (prepare v) d = Some (tt, d') -> cur_of d' = cur_of d.
Proof. unfold on_mux, prepare. destruct (versions (db_mux d) !! v_name v); [done|]. cbn. intros H. by simplify_eq. Qed.

Lemma set_state_current v st d d' : set_state v st d = Some (tt, d') -> cur_of d' = cur_of d.
Proof. unfold set_state. intros H. by simplify_eq. Qed.

Lemma spawn_current xs d d' : spawn xs d = Some (tt, d') -> cur_of d' = cur_of d.
Proof. unfold spawn. intros H. by simplify_eq. Qed.

Lemma version_close_current v d d' : version_close v d = Some (tt, d') -> cur_of d' = cur_of d.
Proof. unfold version_close, spawn. case_bool_decide; [done|]. by intros [= <-]. Qed.

Lemma upgrade_current v d d' :
  on_mux (upgrade v) d = Some (tt, d') -> ∃ c, cur_of d' = Some c ∧ rc_version c = v.
Proof.
  unfold on_mux, upgrade, mustGet. destruct (versions (db_mux d) !! v_name v) as [vs|]; [|done]. cbn.
  case_bool_decide as Hv; [|done]. cbn. intros H. simplify_eq. by eexists.
Qed.

(** Takes a phase apart: each call keeps the current version. *)
Ltac keeps_current H :=
  repeat (let x := fresh "x" in let d := fresh "d" in let E := fresh "E" in
          apply bind_result in H as (x & d & E & H));
  repeat match goal with
  | x : unit |- _ => destruct x
  | E : on_mux getCurrent _ = _ |- _ => apply getCurrent_current in E as [-> E]
  | E : on_mux (getVersion _) _ = _ |- _ => apply getVersion_current in E
  | E : on_mux (release _) _ = _ |- _ => apply release_current in E
  | E : on_mux (prepare _) _ = _ |- _ => apply prepare_current in E
  | E : set_state _ _ _ = _ |- _ => apply set_state_current in E
  | E : spawn _ _ = _ |- _ => apply spawn_current in E
  | E : version_close _ _ = _ |- _ => apply version_close_current in E
  end.

(** Only [upgrade] changes the current version. *)
Lemma refresh_phase_current rf a d rf' d' : refresh_phase rf a d = Some (rf', d') -> cur_of d' = cur_of d.
Proof.
  intros H.
  destruct rf as [|c|after|latest|latest [e|]|latest|[|n names]|[|u us]|rest v|rest v|rest v|rest v|rest v];
    destruct a as [|[names'|err]|[v'|err]|[]]; cbn [refresh_phase] in H;
    keeps_current H; try (injection H as _ <-); congruence.
Qed.

Lemma clean_phase_current cl d r d' : clean_phase cl d = Some (r, d') -> cur_of d' = cur_of d.
Proof.
  intros H. destruct cl as [|[|[name []] dirs]|name v dirs|name dirs]; cbn [clean_phase] in H;
    keeps_current H; try (injection H as _ <-); congruence.
Qed.

(** What [upgrade] has read is still the current version. *)
Definition has_read (cur : option versionReferenceCount) (u : option uphase) : Prop :=
  match u with Some (UHolds c | UDecide c) => c = rc_version <$> cur | _ => True end.

(** If there is a current version there still is one, of that name or a later one. *)
Definition forward (cur cur' : option versionReferenceCount) : Prop :=
  ∀ c, cur = Some c -> ∃ c', cur' = Some c' ∧ String.le (v_name (rc_version c)) (v_name (rc_version c')).

Lemma forward_refl cur : forward cur cur.
Proof. intros c ->. exists c. split; [done|]. by apply str_ltb_false, not_true_iff_false, str_lt_irrefl. Qed.

Lemma upgrade_phase_forward v u d o d' :
  upgrade_phase v u d = Some (o, d') -> has_read (cur_of d) (Some u) ->
  forward (cur_of d) (cur_of d') ∧ has_read (cur_of d') o.
Proof.
  intros H Hu. destruct u as [|c|c|c]; cbn in Hu; cbn [upgrade_phase] in H.
  - keeps_current H. injection H as <- <-. rewrite E. split; [apply forward_refl|done].
  - keeps_current H. injection H as <- <-. rewrite E. split; [apply forward_refl|done].
  - destruct (from_option _ false c) eqn:Eold; [|case_bool_decide as Esame].
    + keeps_current H. injection H as <- <-. rewrite E. split; [apply forward_refl|done].
    + injection H as <- <-. split; [apply forward_refl|done].
    + keeps_current H. apply upgrade_current in E as (c' & Hc' & Hv). injection H as <- <-. split; [|done].
      intros c0 Hc0. exists c'. split; [done|]. rewrite Hv. subst c. rewrite Hc0 in Eold. by apply str_ltb_false.
  - apply bind_result in H as ([] & d1 & E & H). apply set_state_current in E. rewrite GoM_bind_eq in H.
    unfold db_getAll in H. keeps_current H. injection H as <- <-. replace (cur_of d0) with (cur_of d) by congruence.
    split; [apply forward_refl|done].
Qed.

Definition f_cur (s : fsys) : option versionReferenceCount := cur_of (d_db (f_sys s)).
Definition f_read (s : fsys) : Prop := has_read (f_cur s) (snd <$> f_upgrade s).

(** The current version does not change outside of [upgrade]. *)
Lemma same_forward s s' :
  f_cur s' = f_cur s -> f_upgrade s' = f_upgrade s -> f_read s -> forward (f_cur s) (f_cur s') ∧ f_read s'.
Proof. unfold f_read. intros -> -> ?. split; [apply forward_refl|done]. Qed.

Lemma fine_step_forward lawful peers s s' :
  fine_step lawful peers s s' -> f_read s -> forward (f_cur s) (f_cur s') ∧ f_read s'.
Proof.
  intros [a d l r k rf up cl dirs rf' d' Ha H|names s1 up cl dirs Hlaw Hne|s1 up cl dirs Hf|d l r k rf up cl dirs d' Hf H
    |rest v s1 cl dirs
    |v w1 w2 d l r k rf cl dirs Hw|b v u o d l r k rf cl dirs d' H up'|s1 s2 rf up cl dirs H Hh
    |v w w1 w2 d l r k r' d' rf up dirs Hw Ht H|w1 w2 d l r k rf up dirs listed Hw Ht Hl
    |c o d l r k rf up cl dirs d' H|v s1 rf up cl dirs Hw|v w1 w2 d l r k rf up cl dirs Hw] Hread;
    try (by apply same_forward).
  - apply same_forward; [by eapply refresh_phase_current|done..].
  - apply same_forward; [|done..]. unfold db_delete, db_getAll in H. rewrite GoM_bind_eq in H. by apply spawn_current in H.
  - split; [apply forward_refl|done].
  - split; [apply forward_refl|done].
  - destruct (upgrade_phase_forward _ _ _ _ _ H Hread) as [Hf Hr]. split; [exact Hf|]. by destruct o.
  - apply same_forward; [|done..]. by apply env_frame in H as [_ ?].
  - apply same_forward; [|done..]. unfold removeVersion in H. keeps_current H. injection H as _ <-. exact E.
  - apply same_forward; [by eapply clean_phase_current|done..].
Qed.

Lemma fine_steps_forward lawful peers s s' :
  rtc (fine_step lawful peers) s s' -> f_read s -> forward (f_cur s) (f_cur s') ∧ f_read s'.
Proof.
  induction 1 as [|x y z Hxy Hyz IH]; intros Hx; [split; [apply forward_refl|done]|].
  destruct (fine_step_forward _ _ _ _ Hxy Hx) as [H1 Hy]. destruct (IH Hy) as [H2 Hz]. split; [|done].
  intros c Hc. destruct (H1 c Hc) as (c1 & Hc1 & Hle1). destruct (H2 c1 Hc1) as (c2 & Hc2 & Hle2). exists c2.
  split; [done|]. by eapply str_le_trans.
Qed.

(** C21: a database only rolls forward: once there is a current version there
    always is one, and its name never decreases.  This holds whatever the
    backend lists (lists out of order, with versions missing, with versions
    older than the current one), whether or not the database is closed or
    deleted, and however refreshes, upgrades, removals and cleanups interleave
    with each other and with requests. *)
Theorem fine_rolls_forward lawful peers t dirs s s' c :
  rtc (fine_step lawful peers) (fine_init t dirs) s -> rtc (fine_step lawful peers) s s' ->
  currentVersion (db_mux (d_db (f_sys s))) = Some c ->
  ∃ c', currentVersion (db_mux (d_db (f_sys s'))) = Some c'
        ∧ String.le (v_name (rc_version c)) (v_name (rc_version c')).
Proof.
  intros [_ Hread]%fine_steps_forward Hs Hc; [|done].
  destruct (fine_steps_forward _ _ _ _ Hs Hread) as [Hf _]. by apply Hf.
Qed.

(** ** A refresh that is not interrupted *)

Lemma refresh_same lawful peers rf a rf' d d' l r k up cl dirs :
  db_ok (DSys d l r k) -> answer_ok lawful k rf a -> refresh_phase rf a d = Some (rf', d') ->
  versions (db_mux d') = versions (db_mux d) ->
  fine_step lawful peers (FSys (DSys d l r k) rf up cl dirs)
    (FSys (DSys d' (swap (refresh_holds rf) (refresh_holds rf') l) r k) rf' up cl dirs).
Proof.
  intros Hok Ha H Hv. pose proof (fs_refresh lawful peers a _ l r k _ up cl dirs _ _ Ha H) as Hs.
  by rewrite (now_known_same _ _ _ _ _ Hok Hv) in Hs.
Qed.

Lemma swap_nil new l : swap [] new l = (new ++ l)%list.
Proof. reflexivity. Qed.

Lemma swap_back o l : swap (option_list o) [] (option_list o ++ l) = l.
Proof. unfold swap. destruct o; cbn; [|done]. by rewrite decide_True. Qed.

(** [upgrade], from the lock to the return. *)
Lemma upgrade_atomic lawful peers b v d l r k d' rf cl dirs :
  db_ok (DSys d l r k) -> k !! v_name v = Some v -> db_upgrade v d = Some (tt, d') ->
  rtc (fine_step lawful peers) (FSys (DSys d l r k) rf (Some (b, v, UStart)) cl dirs)
    (FSys (DSys d' l r k) (returned b rf) None cl dirs).
Proof.
  intros Hok Hkv H. destruct (take_current _ _ _ _ Hok) as (d1 & Hg & Hs1 & _ & Hc1).
  set (cur := rc_version <$> currentVersion (db_mux d)) in *.
  destruct (give_back cur _ _ _ _ (proj2 Hs1)) as (d2 & Hr & Hs2 & _ & Hc2); [by apply submseteq_inserts_r|].
  rewrite swap_back in Hs2.
  unfold db_upgrade in H. rewrite GoM_bind_eq, Hg, GoM_bind_eq, Hr in H.
  eapply rtc_l; [apply fs_upgrade; cbn [upgrade_phase]; rewrite GoM_bind_eq, Hg; reflexivity|]. cbn.
  eapply rtc_l; [apply fs_upgrade; cbn [upgrade_phase]; rewrite GoM_bind_eq, Hr; reflexivity|].
  cbn [upgrade_holds fmap option_fmap option_map]. rewrite swap_back.
  destruct (from_option (λ c, String.ltb (v_name v) (v_name c)) false cur) eqn:Eold; [|case_bool_decide as Esame].
  - eapply rtc_l; [apply fs_upgrade; cbn [upgrade_phase]; rewrite Eold; reflexivity|]. cbn in *. unfold spawn in H.
    simplify_eq. apply rtc_refl.
  - eapply rtc_l; [apply fs_upgrade; cbn [upgrade_phase]; rewrite Eold, bool_decide_true by done; reflexivity|].
    injection H as <-. apply rtc_refl.
  - rewrite GoM_bind_eq in H. destruct (on_mux (upgrade v) d2) as [[[] d3]|] eqn:Eu; [|done].
    eapply rtc_l; [apply fs_upgrade; cbn [upgrade_phase]; rewrite Eold, bool_decide_false by done;
      rewrite GoM_bind_eq, Eu; reflexivity|].
    eapply rtc_l; [apply fs_upgrade; reflexivity|]. injection H as <-. apply rtc_refl.
Qed.

(** [switchVersion], from the call to the return. *)
Lemma switch_atomic lawful peers rest v ready d l r k d' cl dirs :
  db_ok (DSys d l r k) -> k !! v_name v = None -> switchVersion v ready d = Some (ready, d') ->
  rtc (fine_step lawful peers) (FSys (DSys d l r k) (FSwitch rest v) None cl dirs)
    (FSys (DSys d' l r (<[v_name v := v]> k)) (if ready then was_ready rest else not_ready rest) None cl dirs).
Proof.
  intros Hok Hnew H. destruct (prepare_sim _ _ _ _ _ Hok Hnew) as (m1 & vs & Hp & Hvs & Hvm & Hcm & Hsim).
  unfold switchVersion in H. rewrite GoM_bind_eq in H. destruct (set_state v versionAvailable d) as [[[] d0]|] eqn:E0; [|done].
  assert (db_mux d0 = db_mux d ∧ db_work d0 = db_work d ∧ db_closed d0 = db_closed d) as (Hm0 & Hw0 & Hc0)
    by (unfold set_state in E0; by simplify_eq).
  rewrite <- Hm0 in Hp. erewrite on_mux_bind in H by exact Hp. rewrite !spawn_bind in H.
  set (d1 := with_mux d0 m1) in *.
  assert (∀ w, Forall (work_ok m1 (<[v_name v := v]> k)) w ->
    db_ok (DSys (with_work d1 (db_work d1 ++ w)%list) l r (<[v_name v := v]> k))) as Hok1.
  { intros w Hw. destruct (Hsim (db_states d0) w Hw) as [_ H1]. rewrite <- Hw0, <- Hc0 in H1. exact H1. }
  assert (db_ok (DSys d1 l r (<[v_name v := v]> k))) as Hok2.
  { specialize (Hok1 [] (Forall_nil_2 _)). rewrite app_nil_r in Hok1. by destruct d0. }
  eapply rtc_l.
  { eapply (fs_refresh lawful peers ANone _ _ _ _ _ _ _ _ (FPrepared rest v) d1); [done|].
    cbn [refresh_phase]. rewrite GoM_bind_eq, E0. by erewrite on_mux_bind by exact Hp. }
  cbn [refresh_holds swap app foldr db_mux d1 with_mux].
  rewrite (now_known_insert _ _ _ _ _ _ _ Hok Hvs Hvm Hnew). fold d1.
  set (d2 := with_work (with_work d1 (db_work d1 ++ [WBuild v])%list)
               (db_work (with_work d1 (db_work d1 ++ [WBuild v])%list) ++ [WAdvertise v])%list) in *.
  eapply rtc_l; [by apply (refresh_same lawful peers (FPrepared rest v) ANone (FPoll rest v) d1 d2)|].
  cbn [refresh_holds swap app foldr].
  assert (db_ok (DSys d2 l r (<[v_name v := v]> k))) as Hok3.
  { unfold d2, with_work. cbn. rewrite <- (assoc_L (++)%list). apply Hok1. by repeat constructor. }
  destruct ready.
  - eapply rtc_l; [by apply (refresh_same lawful peers (FPoll rest v) (AReady true) (FUpgrade rest v) d2 d2)|].
    eapply rtc_l; [apply fs_lock|]. rewrite GoM_bind_eq in H. cbn [refresh_holds swap app foldr].
    destruct (db_upgrade v d2) as [[[] d3]|] eqn:Eu; [|done]. injection H as <-.
    apply upgrade_atomic; [done|by rewrite lookup_insert_eq|done].
  - injection H as <-. eapply rtc_l; [by eapply (refresh_same lawful peers (FPoll rest v) (AReady false))|].
    replace (refresh_holds (not_ready rest)) with (@nil vref) by by destruct rest. apply rtc_refl.
Qed.

(** A [ListVersions] that lists every version opened so far. *)
Definition lists_known (k : gmap string vref) (LV : string -> res (list string)) : Prop :=
  ∀ after names n, LV after = Ok names -> is_Some (k !! n) -> str_lt after n -> n ∈ names.

Lemma refresh_run peers LV NV e d l r k d' cl dirs :
  db_ok (DSys d l r k) -> lists_after LV -> lists_known k LV -> opens NV -> db_refresh LV NV d = Some (e, d') ->
  rtc (fine_step true peers) (FSys (DSys d l r k) FIdle None cl dirs)
    (FSys (DSys d' l r (now_known k (db_mux d'))) FIdle None cl dirs).
Proof.
  intros Hok HLV Hall HNV H. destruct (take_current _ _ _ _ Hok) as (d1 & Hg & Hs1 & Hv1 & _).
  set (cur := rc_version <$> currentVersion (db_mux d)) in *.
  destruct (give_back cur _ _ _ _ (proj2 Hs1)) as (d2 & Hr & Hs2 & Hv2 & _); [by apply submseteq_inserts_r|].
  rewrite swap_back in Hs2. unfold db_refresh in H. rewrite GoM_bind_eq, Hg, GoM_bind_eq, Hr in H.
  eapply rtc_l; [apply (refresh_same true peers FIdle ANone (FHolds cur) d d1); [done|done| |done];
    cbn [refresh_phase]; by rewrite GoM_bind_eq, Hg|]. cbn [refresh_holds]. rewrite swap_nil.
  eapply rtc_l; [apply (refresh_same true peers (FHolds cur) ANone (FList (from_option v_name "" cur)) d1 d2);
    [apply Hs1|done| |done]; cbn [refresh_phase]; by rewrite GoM_bind_eq, Hr|].
  cbn [refresh_holds]. rewrite swap_back. pose proof (proj2 Hs2) as Hok2.
  assert (now_known k (db_mux d2) = k) as Hk2 by (eapply now_known_same; [exact Hok|congruence]).
  set (after := from_option v_name "" cur) in *.
  destruct (LV after) as [names|err] eqn:EL.
  2: { injection H as _ <-. rewrite Hk2. apply rtc_once.
       by apply (refresh_same true peers (FList after) (AList (Err err)) FIdle d2 d2). }
  destruct (HLV _ _ EL) as [Hsort Hafter].
  assert (answer_ok true k (FList after) (AList (Ok names))) as Ha.
  { split; [done|]. intros _. split_and!; [done..|]. intros n. by apply Hall. }
  pose proof (refresh_same true peers _ _ _ _ _ l r k None cl dirs Hok2 Ha eq_refl eq_refl) as Hstep.
  destruct (last names) as [latest|] eqn:El.
  2: { injection H as _ <-. rewrite Hk2. by apply rtc_once. }
  eapply rtc_l; [exact Hstep|]. cbn [refresh_holds]. rewrite swap_nil. cbn [app].
  destruct (take_version latest _ _ _ _ Hok2) as (d3 & Hg3 & Hs3 & Hv3 & _).
  set (ex := rc_version <$> versions (db_mux d2) !! latest) in *.
  destruct (give_back ex _ _ _ _ (proj2 Hs3)) as (d4 & Hr4 & Hs4 & Hv4 & _); [by apply submseteq_inserts_r|].
  rewrite swap_back in Hs4. rewrite GoM_bind_eq, Hg3, GoM_bind_eq, Hr4 in H. pose proof (proj2 Hs4) as Hok4.
  assert (now_known k (db_mux d4) = k) as Hk4 by (eapply now_known_same; [exact Hok|congruence]).
  eapply rtc_l; [apply (refresh_same true peers (FLatest latest) ANone (FFound latest ex) d2 d3); [done|done| |done];
    cbn [refresh_phase]; by rewrite GoM_bind_eq, Hg3|]. cbn [refresh_holds]. rewrite swap_nil.
  destruct ex as [v|] eqn:Ex; (eapply rtc_l; [eapply (refresh_same true peers (FFound latest _) ANone); [apply Hs3|done|
    cbn [refresh_phase]; rewrite GoM_bind_eq, Hr4; reflexivity|done]|]); cbn [refresh_holds]; rewrite swap_back.
  { injection H as _ <-. cbn [db_mux with_work]. rewrite Hk4. apply rtc_refl. }
  destruct (NV latest) as [[v ready]|err] eqn:EN.
  2: { injection H as _ <-. rewrite Hk4. apply rtc_once.
       by apply (refresh_same true peers (FOpen latest) (AOpen (Err err)) FIdle d4 d4). }
  pose proof (HNV _ _ _ EN) as Hname.
  assert (k !! v_name v = None) as Hnew.
  { rewrite Hname. eapply absent_unknown; [exact Hok2| |].
    - eapply listed_top; [exact Hsort|exact Hafter|exact El|]. intros n. by apply Hall.
    - subst ex. by destruct (versions (db_mux d2) !! latest). }
  eapply rtc_l; [by apply (refresh_same true peers (FOpen latest) (AOpen (Ok v)) (FSwitch None v) d4 d4)|].
  destruct (switchVersion_ok v ready _ _ _ _ Hok4 Hnew) as (d5 & vs & Hsw & _ & Hvs & Hvd & _).
  rewrite GoM_bind_eq, Hsw in H. injection H as _ <-.
  rewrite (now_known_insert _ _ _ _ _ _ _ Hok4 Hvs Hvd Hnew).
  pose proof (switch_atomic true peers None v ready d4 l r k d5 cl dirs Hok4 Hnew Hsw) as Hrun. by destruct ready.
Qed.

Lemma backfill_run peers NV names d l r k d' cl dirs :
  db_ok (DSys d l r k) -> opens NV -> fresh k names -> backfill_loop NV names d = Some (tt, d') ->
  ∃ k', db_ok (DSys d' l r k')
  ∧ rtc (fine_step true peers) (FSys (DSys d l r k) (FBackfill names) None cl dirs)
      (FSys (DSys d' l r k') (FBackfill []) None cl dirs).
Proof.
  intros Hok HNV. revert d k Hok. induction names as [|n names IH]; intros d k Hok Hf H.
  { injection H as <-. exists k. split; [done|apply rtc_refl]. }
  cbn [backfill_loop] in H. destruct (NV n) as [[v ready]|e] eqn:EN.
  2: { destruct (IH d k Hok (fresh_tail _ _ _ Hf) H) as (k' & Hok' & Hr). exists k'. split; [done|].
       eapply rtc_l; [|exact Hr]. by apply (refresh_same true peers (FBackfill (n :: names)) (AOpen (Err e)) (FBackfill names) d d). }
  pose proof (HNV _ _ _ EN) as <-. assert (k !! v_name v = None) as Hnew by (apply Hf; by left).
  destruct (switchVersion_ok v ready _ _ _ _ Hok Hnew) as (d1 & vs & Hsw & Hs & _).
  rewrite GoM_bind_eq, Hsw in H.
  pose proof (switch_atomic true peers (Some names) v ready d l r k d1 cl dirs Hok Hnew Hsw) as Hrun.
  assert (fine_step true peers (FSys (DSys d l r k) (FBackfill (v_name v :: names)) None cl dirs)
    (FSys (DSys d l r k) (FSwitch (Some names) v) None cl dirs)) as H1
    by by apply (refresh_same true peers (FBackfill (v_name v :: names)) (AOpen (Ok v)) (FSwitch (Some names) v) d d).
  destruct ready.
  - injection H as <-. exists (<[v_name v := v]> k). split; [apply Hs|]. by eapply rtc_l.
  - destruct (IH d1 _ (proj2 Hs) (fresh_insert _ _ _ Hf) H) as (k' & Hok' & Hr). exists k'. split; [done|].
    eapply rtc_l; [exact H1|]. by etransitivity.
Qed.

(** A refresh, or the backfill at startup, that is not interrupted: its phases,
    one after the other, do what the function does. *)
Theorem refresh_atomic peers t dirs s LV NV e d' :
  rtc (fine_step true peers) (fine_init t dirs) s -> f_refresh s = FIdle -> f_upgrade s = None ->
  lists_after LV -> lists_known (d_known (f_sys s)) LV -> opens NV ->
  db_refresh LV NV (d_db (f_sys s)) = Some (e, d')
  ∨ d_known (f_sys s) = ∅ ∧ backfillVersions LV NV (d_db (f_sys s)) = Some (e, d') ->
  ∃ k', rtc (fine_step true peers) s
    (FSys (DSys d' (d_inflight (f_sys s)) (d_remover (f_sys s)) k') FIdle None (f_clean s) (f_dirs s)).
Proof.
  intros [_ Hok]%fine_reachable Hrf Hup HLV Hall HNV H. destruct s as [[d l r k] rf up cl dirs'].
  pose proof (fo_db _ Hok) as Hdb. cbn in *. subst rf up. destruct H as [H|[-> H]].
  { eexists. by eapply refresh_run. }
  unfold backfillVersions in H. destruct (LV "") as [[|n names]|err] eqn:EL;
    [injection H as _ <-; eexists; apply rtc_refl| |injection H as _ <-; eexists; apply rtc_refl].
  destruct (HLV _ _ EL) as [Hsort _]. rewrite GoM_bind_eq in H.
  destruct (backfill_loop NV (reverse (newest3 (n :: names))) d) as [[[] d1]|] eqn:Eb; [|done].
  injection H as _ <-.
  assert (fine_step true peers (FSys (DSys d l r ∅) FIdle None cl dirs')
    (FSys (DSys d l r ∅) (FBackfill (reverse (newest3 (n :: names)))) None cl dirs')) as H1 by by apply fs_backfill.
  destruct (fine_step_sim _ _ _ H1 Hok) as [_ [_ _ Hf _]].
  destruct (backfill_run peers NV _ _ _ _ _ _ cl dirs' Hdb HNV Hf Eb) as (k' & Hok' & Hr). exists k'.
  eapply rtc_l; [exact H1|]. etransitivity; [exact Hr|]. apply rtc_once.
  by apply (refresh_same true peers (FBackfill []) ANone FIdle d1).
Qed.
End Fine_props.

(** ** Running the database

    [fine_exec] takes one step of a schedule; [None] when the step is not
    possible. *)

Inductive event :=
  | ERefresh (a : answer) | EBackfill (names : list string) | EClose | EDbDelete | ELock | EAwait (v : vref) | EUpgrade
  | ECurrent | EVersion (name : string) | EFinish (v : vref) | ETick (t : Z)
  | ERemove (v : vref) (shouldWait : bool) | ERemover
  | ECleanup (listed : list (string * bool)) | EClean | EMkdir (v : vref) | EDelete (v : vref).

#[global] Instance work_eq_dec : EqDecision work.
Proof. solve_decision. Defined.

Fixpoint split_work (x : work) (w : list work) : option (list work) :=
  match w with
  | [] => None
  | y :: w' => if decide (y = x) then Some w' else (y ::.) <$> split_work x w'
  end.

Definition answer_okb (lawful : bool) (k : gmap string vref) (rf : refresher) (a : answer) : bool :=
  asks rf a &&
  match rf, a with
  | FList after, AList (Ok names) =>
      negb lawful || (bool_decide (Sorted str_lt names) && bool_decide (Forall (str_lt after) names)
        && forallb (λ x, negb (String.ltb after x.1) || bool_decide (x.1 ∈ names)) (map_to_list k))
  | FOpen n, AOpen (Ok v) | FBackfill (n :: _), AOpen (Ok v) => bool_decide (v_name v = n)
  | _, _ => true
  end.

Definition guard_holds (rf : refresher) (up : option (bool * vref * uphase)) (cl : cleaner) (dirs : gset string)
    (s : dsys) : option fsys :=
  if bool_decide (holds rf up cl ⊆+ d_inflight s) then Some (FSys s rf up cl dirs) else None.

Section Exec.
Context {MS : MapOrder string}.

Definition fine_exec (lawful peers : bool) (s : fsys) (e : event) : option fsys :=
  let '(FSys (DSys d l r k) rf up cl dirs) := s in
  match e with
  | ERefresh a =>
      if answer_okb lawful k rf a then
        '(rf', d') ← refresh_phase rf a d;
        Some (FSys (DSys d' (swap (refresh_holds rf) (refresh_holds rf') l) r (now_known k (db_mux d'))) rf' up cl dirs)
      else None
  | EBackfill names =>
      match rf with
      | FIdle =>
          if (negb lawful || (bool_decide (k = ∅) && bool_decide (Sorted str_lt names))) && bool_decide (names ≠ [])
          then Some (FSys (DSys d l r k) (FBackfill (reverse (newest3 names))) up cl dirs) else None
      | _ => None
      end
  | EClose =>
      match rf, lawful with
      | FIdle, false => Some (FSys (DSys d l r k) (FClose (mux_getAll (db_mux d))) up cl dirs)
      | _, _ => None
      end
  | EDbDelete =>
      if lawful then None else '(_, d') ← db_delete d; Some (FSys (DSys d' l r k) rf up cl dirs)
  | ELock =>
      match rf, up with
      | FUpgrade rest v, None => Some (FSys (DSys d l r k) (FUpgrading rest v) (Some (true, v, UStart)) cl dirs)
      | _, _ => None
      end
  | EAwait v =>
      match up with
      | None => w ← split_work (WAwait v) (db_work d);
                Some (FSys (DSys (with_work d w) l r k) rf (Some (false, v, UStart)) cl dirs)
      | Some _ => None
      end
  | EUpgrade =>
      '(b, v, u) ← up; '(o, d') ← upgrade_phase v u d;
      let up' := (λ u', (b, v, u')) <$> o in
      Some (FSys (DSys d' (swap (upgrade_holds (Some (b, v, u))) (upgrade_holds up') l) r k)
                 (match o with Some _ => rf | None => returned b rf end) up' cl dirs)
  | ECurrent => '(o, d') ← on_mux getCurrent d; v ← o; guard_holds rf up cl dirs (DSys d' (v :: l) r k)
  | EVersion name => '(o, d') ← on_mux (getVersion name) d; v ← o; guard_holds rf up cl dirs (DSys d' (v :: l) r k)
  | EFinish v =>
      if bool_decide (v ∈ l) then
        '(_, d') ← on_mux (release (Some v)) d; guard_holds rf up cl dirs (DSys d' (drop1 v l) r k)
      else None
  | ETick t =>
      if (0 <=? t)%Z then guard_holds rf up cl dirs (DSys (with_mux d (tick t (db_mux d))) l r k) else None
  | ERemove v w =>
      match cl, target r with
      | CIdle, None => w' ← split_work (WRemove v w) (db_work d);
                       '(r', d') ← removeVersion peers v w (with_work d w');
                       Some (FSys (DSys d' l (Some r') k) rf up cl dirs)
      | _, _ => None
      end
  | ERemover =>
      r0 ← r; '(r', m') ← remove_step r0 (db_mux d); '(_, d') ← removed r' (with_mux d m');
      guard_holds rf up cl dirs (DSys d' l (Some r') k)
  | ECleanup listed =>
      match cl, target r with
      | CIdle, None =>
          w' ← split_work WCleanup (db_work d);
          if bool_decide (list_to_set (omap (λ x, if (x.2 : bool) then Some x.1 else None) listed) = dirs)
          then Some (FSys (DSys (with_work d w') l r k) rf up (CLoop listed) dirs) else None
      | _, _ => None
      end
  | EClean =>
      '(c, o, d') ← clean_phase cl d;
      Some (FSys (DSys d' (swap (clean_holds cl) (clean_holds c) l) r k) rf up c (dirs ∖ list_to_set (option_list o)))
  | EMkdir v =>
      if bool_decide (WBuild v ∈ db_work d) then Some (FSys (DSys d l r k) rf up cl ({[ v_name v ]} ∪ dirs)) else None
  | EDelete v =>
      w' ← split_work (WDelete v) (db_work d);
      Some (FSys (DSys (with_work d w') l r k) rf up cl (dirs ∖ {[ v_name v ]}))
  end.

Fixpoint fine_execs (lawful peers : bool) (s : fsys) (es : list event) : option fsys :=
  match es with
  | [] => Some s
  | e :: es' => s' ← fine_exec lawful peers s e; fine_execs lawful peers s' es'
  end.
End Exec.

Lemma split_work_elim x w w' : split_work x w = Some w' -> ∃ w1 w2, w = (w1 ++ x :: w2)%list ∧ w' = (w1 ++ w2)%list.
Proof.
  revert w'. induction w as [|y w IH]; intros w' H; [done|]. cbn in H. case_decide as Hy.
  - injection H as <-. subst. by exists [], w.
  - apply fmap_Some in H as (w0 & H & ->). destruct (IH _ H) as (w1 & w2 & -> & ->). by exists (y :: w1), w2.
Qed.

Lemma str_Sorted_strong names : Sorted str_lt names -> StronglySorted str_lt names.
Proof. apply Sorted_StronglySorted. intros x y z. apply str_lt_trans. Qed.

Lemma answer_okb_elim lawful k rf a : answer_okb lawful k rf a = true -> answer_ok lawful k rf a.
Proof.
  unfold answer_okb, answer_ok. intros [Ha H]%andb_true_iff. split; [done|].
  destruct rf as [| |after| | | |[|n ns]| | | | | |]; try done; destruct a as [|[names|]|[v'|]|]; try done;
    try (by apply bool_decide_eq_true in H).
  intros ->. cbn in H. apply andb_true_iff in H as [H12 H3].
  apply andb_true_iff in H12 as [H1%bool_decide_eq_true H2%bool_decide_eq_true].
  split_and!; [by apply str_Sorted_strong|done|]. intros n [v Hn] Hlt. rewrite forallb_forall in H3.
  specialize (H3 (n, v)). rewrite <- list_elem_of_In, elem_of_map_to_list in H3. apply H3 in Hn. cbn in Hn.
  rewrite Hlt in Hn. cbn in Hn. by apply bool_decide_eq_true in Hn.
Qed.

Lemma guard_holds_elim rf up cl dirs s s' :
  guard_holds rf up cl dirs s = Some s' -> s' = FSys s rf up cl dirs ∧ holds rf up cl ⊆+ d_inflight s.
Proof. unfold guard_holds. case_bool_decide; [|done]. intros [= <-]. done. Qed.

(** Opens up the bind of the option monad in [H]. *)
Ltac bind_inv H :=
  let x := fresh "x" in let E := fresh "E" in
  apply bind_Some in H as (x & E & H);
  repeat match type of x with (_ * _)%type => let y := fresh "y" in destruct x as [x y] end; cbn in H.

Section Exec_props.
Context {MS : MapOrder string}.

(** A schedule that can be run is a run. *)
Lemma fine_exec_sound lawful peers s e s' :
  fine_exec lawful peers s e = Some s' -> fine_step lawful peers s s'.
Proof.
  destruct s as [[d l r k] rf up cl dirs]. intros H.
  destruct e as [a|names| | | |v| | |name|v|t|v w| |listed| |v|v]; cbn [fine_exec] in H.
  - destruct (answer_okb lawful k rf a) eqn:Ea; [|done]. bind_inv H. injection H as <-.
    eapply fs_refresh; [by apply answer_okb_elim|done].
  - destruct rf; try done. destruct (_ && _) eqn:E; [|done]. injection H as <-.
    apply andb_true_iff in E as [E1 E2%bool_decide_eq_true]. apply fs_backfill; [|done]. intros ->. cbn in E1.
    apply andb_true_iff in E1 as [H1%bool_decide_eq_true H2%bool_decide_eq_true]. split; [done|by apply str_Sorted_strong].
  - destruct rf; try done. destruct lawful; [done|]. injection H as <-. by apply fs_close.
  - destruct lawful; [done|]. bind_inv H. destruct x. injection H as <-. by apply fs_dbdelete.
  - destruct rf; try done. destruct up; [done|]. injection H as <-. apply fs_lock.
  - destruct up; [done|]. bind_inv H. injection H as <-. apply split_work_elim in E as (w1 & w2 & Hw & ->).
    by eapply fs_await.
  - apply bind_Some in H as ([[b v] u] & -> & H). apply bind_Some in H as ([o d'] & E & H). injection H as <-.
    by apply fs_upgrade.
  - bind_inv H. bind_inv H. apply guard_holds_elim in H as [-> Hh]. apply fs_env; [|done]. subst. by apply ds_current.
  - bind_inv H. bind_inv H. apply guard_holds_elim in H as [-> Hh]. apply fs_env; [|done]. subst. by eapply ds_version.
  - case_bool_decide as Hv; [|done]. bind_inv H. destruct x. apply guard_holds_elim in H as [-> Hh]. apply fs_env; [|done].
    destruct (drop1_split _ _ Hv) as (l1 & l2 & -> & ->). by apply ds_finish.
  - destruct (Z.leb_spec 0 t); [|done]. apply guard_holds_elim in H as [-> Hh]. apply fs_env; [|done]. by apply ds_tick.
  - destruct cl; try done. destruct (target r) eqn:Et; [done|]. bind_inv H. bind_inv H. injection H as <-.
    apply split_work_elim in E as (w1 & w2 & Hw & ->). by eapply fs_remove.
  - bind_inv H. bind_inv H. bind_inv H. subst r. destruct x1. apply guard_holds_elim in H as [-> Hh].
    apply fs_env; [|done]. by eapply ds_remover.
  - destruct cl; try done. destruct (target r) eqn:Et; [done|]. bind_inv H. case_bool_decide as Hd; [|done].
    injection H as <-. apply split_work_elim in E as (w1 & w2 & Hw & ->). eapply fs_cleanup; [done|done|]. left.
    intros n. rewrite <- Hd, elem_of_list_to_set, list_elem_of_omap. split.
    + intros Hn. by exists (n, true).
    + intros ([n' []] & Hin & Hx); cbn in Hx; by simplify_eq.
  - bind_inv H. injection H as <-. by eapply fs_clean.
  - case_bool_decide; [|done]. injection H as <-. by apply fs_mkdir.
  - bind_inv H. injection H as <-. apply split_work_elim in E as (w1 & w2 & Hw & ->). by eapply fs_delete.
Qed.

Lemma fine_execs_sound lawful peers s es s' :
  fine_execs lawful peers s es = Some s' -> rtc (fine_step lawful peers) s s'.
Proof.
  revert s. induction es as [|e es IH]; intros s H; cbn in H; [injection H as <-; apply rtc_refl|].
  apply bind_Some in H as (s1 & E & H). eapply rtc_l; [by eapply fine_exec_sound|by apply IH].
Qed.

(** A schedule that ends in a state with a property that can be checked. *)
Lemma run_check lawful peers s es (P : fsys -> bool) :
  match fine_execs lawful peers s es with Some s' => P s' | None => false end = true ->
  ∃ s', rtc (fine_step lawful peers) s s' ∧ P s' = true.
Proof. destruct (fine_execs lawful peers s es) as [s'|] eqn:E; [|done]. intros HP. exists s'. eauto using fine_execs_sound. Qed.
End Exec_props.

(** ** Witnesses and schedules that go wrong *)

Module RefreshExample.
#[local] Instance order : MapOrder string := list_order.

Definition n1 : string := "20170101".
Definition n2 : string := "20170102".
Definition n3 : string := "20170103".
Definition v1 : vref := VRef 1 n1.
Definition v2 : vref := VRef 2 n2.
Definition v3 : vref := VRef 3 n3.

Definition upgrade_events : list event := [EUpgrade; EUpgrade; EUpgrade; EUpgrade].

(** The node starts with version 1. *)
Definition start : list event :=
  ([EBackfill [n1]; ERefresh (AOpen (Ok v1)); ERefresh ANone; ERefresh ANone; ERefresh (AReady true); ELock]
   ++ upgrade_events ++ [ERefresh ANone])%list.

(** A refresh up to [ListVersions]; up to [newVersion]; and to its end. *)
Definition list_events (names : list string) : list event := [ERefresh ANone; ERefresh ANone; ERefresh (AList (Ok names))].
Definition open_events (v : vref) : list event :=
  [ERefresh ANone; ERefresh ANone; ERefresh (AOpen (Ok v)); ERefresh ANone; ERefresh ANone].
Definition load_events (names : list string) (v : vref) : list event :=
  (list_events names ++ open_events v ++ [ERefresh (AReady false)])%list.

Definition current_is (s : fsys) (v : vref) : bool :=
  match currentVersion (db_mux (d_db (f_sys s))) with Some c => bool_decide (rc_version c = v) | None => false end.

(** A request runs and a refresh is about to list the versions while version 2
    has just become current. *)
Definition busy (s : fsys) : bool :=
  current_is s v2 && bool_decide (d_inflight (f_sys s) = [v1])
  && match f_refresh s, f_upgrade s with
     | FList after, Some (false, v, USwitched (Some c)) => bool_decide (after = n1 ∧ v = v2 ∧ c = v1)
     | _, _ => false
     end.

Lemma busy_run : ∃ s, rtc (fine_step true true) (fine_init 0 ∅) s ∧ busy s = true.
Proof.
  apply (run_check _ _ _ (start ++ load_events [n2] v2
    ++ [ECurrent; ERefresh ANone; ERefresh ANone; EAwait v2; EUpgrade; EUpgrade; EUpgrade])%list).
  vm_compute. reflexivity.
Qed.

Lemma busy_elim s :
  busy s = true ->
  (∃ c, currentVersion (db_mux (d_db (f_sys s))) = Some c ∧ rc_version c = v2)
  ∧ d_inflight (f_sys s) = [v1] ∧ f_refresh s = FList n1 ∧ f_upgrade s = Some (false, v2, USwitched (Some v1)).
Proof.
  unfold busy, current_is. destruct (currentVersion _) as [c|]; [|done]. case_bool_decide; [|done].
  case_bool_decide; [|done]. destruct (f_refresh s); try done. destruct (f_upgrade s) as [[[[] v] [| | |[]]]|]; try done.
  cbn. case_bool_decide; [|done]. destruct_and!. subst. eauto 6.
Qed.

Lemma fine_refines_mux_witness :
  ∃ s, f_upgrade s = Some (false, v2, USwitched (Some v1)) ∧ rtc sys_step (sys_init 0) (mux_of (f_sys s)).
Proof.
  destruct busy_run as (s & Hr & (_ & _ & _ & Hu)%busy_elim). exists s. split; [exact Hu|].
  exact (fine_refines_mux true 0 ∅ s Hr).
Defined.

Lemma fine_never_panics_witness :
  ∃ s, f_upgrade s = Some (false, v2, USwitched (Some v1)) ∧ d_inflight (f_sys s) = [v1]
  ∧ (∃ o d', upgrade_phase v2 (USwitched (Some v1)) (d_db (f_sys s)) = Some (o, d'))
  ∧ is_Some (release (Some v1) (db_mux (d_db (f_sys s)))).
Proof.
  destruct busy_run as (s & Hr & (_ & Hl & _ & Hu)%busy_elim). exists s. split; [exact Hu|]. split; [exact Hl|].
  destruct (fine_never_panics true 0 ∅ s Hr) as (_ & H2 & _ & _ & H5 & _). split.
  - destruct (H2 _ _ _ Hu) as (o & d' & H & _). exists o, d'. exact H.
  - apply H5. rewrite Hl. left.
Defined.

(** Version 2 is current; the database is closed and deleted; then a list has
    an older version only, which is opened and reported ready. *)
Definition v0 : vref := VRef 9 "20161231".
Definition lawless_events : list event :=
  (start ++ load_events [n2] v2 ++ [EAwait v2] ++ upgrade_events ++ [EClose; ERefresh ANone; ERefresh ANone; ERefresh ANone]
   ++ [EDbDelete] ++ list_events [v_name v0] ++ open_events v0 ++ [ERefresh (AReady true); ELock])%list.

Definition lawless (s : fsys) : bool :=
  current_is s v2 && bool_decide (v1 ∈ db_closed (d_db (f_sys s)) ∧ v2 ∈ db_closed (d_db (f_sys s)))
  && match f_upgrade s with Some (true, v, UStart) => bool_decide (v = v0) | _ => false end.

Lemma lawless_run :
  ∃ s c, rtc (fine_step false true) (fine_init 0 ∅) s ∧ currentVersion (db_mux (d_db (f_sys s))) = Some c
  ∧ rc_version c = v2 ∧ (v1 ∈ db_closed (d_db (f_sys s)) ∧ v2 ∈ db_closed (d_db (f_sys s)))
  ∧ f_upgrade s = Some (true, v0, UStart).
Proof.
  destruct (run_check false true (fine_init 0 ∅) lawless_events lawless) as (s & Hr & H); [vm_compute; reflexivity|].
  unfold lawless, current_is in H. destruct (currentVersion _) as [c|] eqn:Ec; [|done]. case_bool_decide; [|done].
  case_bool_decide; [|done]. destruct (f_upgrade s) as [[[[] v] [| | |]]|] eqn:Eu; try done. cbn in H.
  apply bool_decide_eq_true in H as ->. exists s, c. eauto.
Qed.

Lemma fine_rolls_forward_witness :
  ∃ s c, (currentVersion (db_mux (d_db (f_sys s))) = Some c ∧ rc_version c = v2
          ∧ (v1 ∈ db_closed (d_db (f_sys s)) ∧ v2 ∈ db_closed (d_db (f_sys s))) ∧ f_upgrade s = Some (true, v0, UStart))
  ∧ ∀ s', rtc (fine_step false true) s s' ->
    ∃ c', currentVersion (db_mux (d_db (f_sys s'))) = Some c' ∧ String.le n2 (v_name (rc_version c')).
Proof.
  destruct lawless_run as (s & c & Hr & Hc & Hv & Hcl & Hu). exists s, c. split; [exact (conj Hc (conj Hv (conj Hcl Hu)))|].
  intros s' Hs'. destruct (fine_rolls_forward false true 0 ∅ s s' c Hr Hs' Hc) as (c' & Hc' & Hle).
  exists c'. rewrite Hv in Hle. split; [exact Hc'|exact Hle].
Defined.

(** The node is idle with version 1. *)
Definition idle1 (s : fsys) : bool :=
  current_is s v1 && match f_refresh s, f_upgrade s with FIdle, None => true | _, _ => false end
  && bool_decide (d_known (f_sys s) = {[ n1 := v1 ]})
  && match db_refresh (DbExample.listed [n1; n2]) DbExample.open (d_db (f_sys s)) with Some (None, _) => true | _ => false end.

Lemma refresh_atomic_witness :
  ∃ s d' k', current_is s v1 = true
  ∧ db_refresh (DbExample.listed [n1; n2]) DbExample.open (d_db (f_sys s)) = Some (None, d')
  ∧ rtc (fine_step true true) s
    (FSys (DSys d' (d_inflight (f_sys s)) (d_remover (f_sys s)) k') FIdle None (f_clean s) (f_dirs s)).
Proof.
  destruct (run_check true true (fine_init 0 ∅) start idle1) as (s & Hr & Hi); [vm_compute; reflexivity|].
  unfold idle1 in Hi. destruct (current_is s v1) eqn:Hc; [|discriminate]. destruct (f_refresh s) eqn:Hrf; try discriminate.
  destruct (f_upgrade s) eqn:Hup; [discriminate|]. destruct (bool_decide (d_known _ = _)) eqn:Hk; [|discriminate].
  apply bool_decide_eq_true in Hk.
  destruct (db_refresh _ _ (d_db (f_sys s))) as [[[e|] d']|] eqn:Hd; try discriminate.
  destruct (refresh_atomic true 0 ∅ s (DbExample.listed [n1; n2]) DbExample.open None d' Hr Hrf Hup) as (k' & Hrun).
  - apply DbExample.listed_ok. by repeat constructor.
  - intros after names n [= <-] Hn Hlt. rewrite Hk in Hn. apply lookup_singleton_is_Some in Hn as <-.
    apply list_elem_of_filter. split; [exact Hlt|by left].
  - apply DbExample.open_ok.
  - left. exact Hd.
  - exists s, d', k'. split; [exact Hc|]. split; [exact Hd|exact Hrun].
Defined.

(** A list that has lost the version that was opened last. *)
Definition stale_events : list event :=
  (start ++ load_events [n2] v2 ++ [EVersion n2] ++ load_events [n2; n3] v3 ++ list_events [n2]
   ++ [EAwait v3] ++ upgrade_events ++ [ERemove v2 false; ERemover; ERemover] ++ open_events (VRef 4 n2))%list.

(** The lists have to be complete.  Versions 2 and 3 are being loaded and a peer
    reads from version 2; a refresh gets a list without version 3 (which the
    backend dropped, or does not show yet) while version 3 becomes current and
    version 2 is removed; the refresh opens version 2 again.  When the peer's
    request ends, [release] finds the new version under the old one's name and
    its count drops below zero: the node panics.  No version has been closed. *)
Theorem stale_list_panics :
  ∃ s, rtc (fine_step false true) (fine_init 0 ∅) s ∧ db_closed (d_db (f_sys s)) = [] ∧ v2 ∈ d_inflight (f_sys s)
  ∧ release (Some v2) (db_mux (d_db (f_sys s))) = None.
Proof.
  destruct (run_check false true (fine_init 0 ∅) stale_events
    (λ s, bool_decide (db_closed (d_db (f_sys s)) = [] ∧ v2 ∈ d_inflight (f_sys s))
          && match release (Some v2) (db_mux (d_db (f_sys s))) with None => true | Some _ => false end)) as (s & Hr & H);
    [vm_compute; reflexivity|].
  apply andb_true_iff in H as [[Hcl Hv]%bool_decide_eq_true Hrel]. exists s. split_and!; [done..|]. by destruct (release _ _).
Qed.

(** Version 1 is on the local disk; opening it at startup fails (the backend
    cannot list its files), and [cleanupStore] finds its directory. *)
Definition cleanup_events : list event :=
  ([EBackfill [n1]; ERefresh (AOpen (Err ErrNotExist)); ERefresh ANone; ECleanup [(n1, true)]; EClean; EClean]
   ++ list_events [n1] ++ [ERefresh ANone; ERefresh ANone])%list.

(** [cleanupStore] can delete the data of the version that is served: between
    its look at the mux and [RemoveAll] a refresh opens the version from the
    local directory and switches to it. *)
Theorem cleanup_deletes_current :
  ∃ s s', rtc (fine_step true true) (fine_init 0 {[ n1 ]}) s ∧ f_refresh s = FOpen n1 ∧ n1 ∈ f_dirs s
  ∧ rtc (fine_step true true) s s' ∧ current_is s' v1 = true ∧ (n1 ∉ f_dirs s')
  ∧ db_closed (d_db (f_sys s')) = [].
Proof.
  destruct (fine_execs true true (fine_init 0 {[ n1 ]}) cleanup_events) as [s|] eqn:E; [|by vm_compute in E].
  assert (match fine_execs true true (fine_init 0 {[ n1 ]}) cleanup_events with
    | Some s => match f_refresh s with FOpen n => bool_decide (n = n1) | _ => false end && bool_decide (n1 ∈ f_dirs s)
        && match fine_execs true true s ([ERefresh (AOpen (Ok v1)); ERefresh ANone; ERefresh ANone; ERefresh (AReady true);
               ELock] ++ upgrade_events ++ [EClean])%list with
           | Some s' => current_is s' v1 && bool_decide (n1 ∉ f_dirs s') && bool_decide (db_closed (d_db (f_sys s')) = [])
           | None => false
           end
    | None => false end = true) as H by (vm_compute; reflexivity).
  rewrite E in H. destruct (f_refresh s) eqn:Hrf; try done. case_bool_decide; [|done]. case_bool_decide; [|done].
  destruct (fine_execs true true s _) as [s'|] eqn:E'; [|done]. cbn in H.
  apply andb_true_iff in H as [H3 H4%bool_decide_eq_true]. apply andb_true_iff in H3 as [H3 H5%bool_decide_eq_true].
  exists s, s'. split_and!; [by eapply fine_execs_sound|congruence|done|by eapply fine_execs_sound|done..].
Qed.

(** Version 2 is superseded by version 3 and removed; its build, which had to
    wait for another, starts only then. *)
Definition late_build_events : list event :=
  (start ++ [ECleanup []; EClean] ++ load_events [n2] v2 ++ load_events [n2; n3] v3
   ++ [EAwait v3] ++ upgrade_events ++ [ERemove v2 false; ERemover; ERemover; ERemover; EDelete v2; EMkdir v2])%list.

Definition leaked (s : fsys) : bool :=
  bool_decide (n2 ∈ f_dirs s) && bool_decide (v2 ∈ db_closed (d_db (f_sys s)))
  && bool_decide (is_Some (versions (db_mux (d_db (f_sys s))) !! n2) -> False)
  && forallb (λ w, match w with WCleanup | WDelete _ => false | _ => true end) (db_work (d_db (f_sys s))).

(** A build does not check whether its version has been removed while it
    waited for its locks: it makes the directory again, after the removal has
    deleted it, and nothing is left that deletes it before the next start. *)
Theorem late_build_leaks :
  ∃ s, rtc (fine_step true true) (fine_init 0 ∅) s ∧ n2 ∈ f_dirs s ∧ v2 ∈ db_closed (d_db (f_sys s))
  ∧ versions (db_mux (d_db (f_sys s))) !! n2 = None
  ∧ Forall (λ w, w ≠ WCleanup ∧ ∀ v, w ≠ WDelete v) (db_work (d_db (f_sys s))).
Proof.
  destruct (run_check true true (fine_init 0 ∅) late_build_events leaked) as (s & Hr & H); [vm_compute; reflexivity|].
  unfold leaked in H. apply andb_true_iff in H as [H4 H5]. apply andb_true_iff in H4 as [H4 H6%bool_decide_eq_true].
  apply andb_true_iff in H4 as [H7%bool_decide_eq_true H8%bool_decide_eq_true]. exists s. split_and!; [done..| |].
  - by apply eq_None_not_Some.
  - apply Forall_forall. intros w Hw. rewrite forallb_forall in H5. apply list_elem_of_In, H5 in Hw. by destruct w.
Qed.
End RefreshExample.
