(* ===== verification/Proxy.v ===== *)
(** * proxy.go: asking the peers that have a partition

    [proxy] is a loop around a [select]: each turn starts an attempt at the
    next peer, if one is left, and then waits for one event.  The model runs
    the loop on the list of the events it receives; [http.Client] and the
    timers decide which events come and when. *)

From Stdlib Require Import ZArith Lia String.
From stdpp Require Import base gmap sets list strings.
From S2P Require Import Prelude.

Open Scope string_scope.

(** The parts of an HTTP response that are passed on. *)
Record Response := {
  rs_StatusCode : Z;
  rs_version : string;      (** the version header *)
  rs_length : string;       (** the Content-Length header *)
  rs_body : string;
}.

(** [proxyAttempt]: what is sent on the channel for the outcome of a request. *)
Definition proxyAttempt (result : res Response) : res Response :=
  match result with
  | Err e => Err e
  | Ok resp =>
      if negb (rs_StatusCode resp =? 200)%Z && negb (rs_StatusCode resp =? 404)%Z
      then Err (NewError "got an unexpected status")
      else Ok resp
  end.

Inductive proxy_event :=
  | Answer (peer : string) (result : res Response)   (** an attempt ends *)
  | TotalTimeout
  | ClientGone
  | StageTimeout.

Inductive proxy_result :=
  | Proxied (resp : Response) (peer : string)
  | ProxyFailed (e : error).

(** The variables of the loop: the attempts that are running ([outstanding] is
    their number in the source, kept apart here), those with a cancel function,
    and those that have been cancelled. *)
Record pstate := PState {
  peerIndex : nat;
  outstanding : Z;
  running : list string;
  cancels : gset string;
  canceled : gset string;
}.

(** How far the loop gets on a list of events: it waits for another one, it has
    returned, or the next event cannot happen (only running attempts end). *)
Inductive proxy_run :=
  | Waiting (st : pstate)
  | Returned (r : proxy_result) (st : pstate)
  | Impossible.

Definition pstate0 : pstate := PState 0 0 [] ∅ ∅.

Section proxy.
(** [newProxyRequest]: whether a request to the peer can be made. *)
Context (request_ok : string -> bool) (peers : list string).

(** The first half of a turn; [None] when there is nobody left to ask. *)
Definition start_attempt (st : pstate) : option pstate :=
  match peers !! peerIndex st with
  | Some peer =>
      if request_ok peer
      then Some (PState (peerIndex st) (outstanding st + 1) (peer :: running st) ({[ peer ]} ∪ cancels st) (canceled st))
      else Some st
  | None => if (outstanding st =? 0)%Z then None else Some st
  end.

Definition next_turn (st : pstate) : pstate :=
  PState (S (peerIndex st)) (outstanding st) (running st) (cancels st) (canceled st).

(** Remove one occurrence. *)
Fixpoint remove_one (x : string) (l : list string) : list string :=
  match l with
  | [] => []
  | y :: l' => if decide (x = y) then l' else y :: remove_one x l'
  end.

Fixpoint proxy_loop (events : list proxy_event) (st : pstate) : proxy_run :=
  match start_attempt st with
  | None => Returned (ProxyFailed errNoAvailablePeers) st
  | Some st =>
      match events with
      | [] => Waiting st
      | Answer peer result :: events' =>
          if bool_decide (peer ∈ running st) then
            match proxyAttempt result with
            | Err _ =>
                proxy_loop events'
                  (next_turn (PState (peerIndex st) (outstanding st - 1) (remove_one peer (running st))
                                (cancels st) ({[ peer ]} ∪ canceled st)))
            | Ok resp =>
                Returned (Proxied resp peer)
                  (PState (peerIndex st) (outstanding st) (running st) (cancels st)
                     (canceled st ∪ (cancels st ∖ {[ peer ]})))
            end
          else Impossible
      | TotalTimeout :: _ =>
          Returned (ProxyFailed errProxyTimeout)
            (PState (peerIndex st) (outstanding st) (running st) (cancels st) (canceled st ∪ cancels st))
      | ClientGone :: _ =>
          Returned (ProxyFailed errRequestCanceled)
            (PState (peerIndex st) (outstanding st) (running st) (cancels st) (canceled st ∪ cancels st))
      | StageTimeout :: events' => proxy_loop events' (next_turn st)
      end
  end.

Definition proxy (events : list proxy_event) : proxy_run := proxy_loop events pstate0.
End proxy.

(** ** The attempts *)

Section proxy_props.
Context (request_ok : string -> bool) (peers : list string) (Hnd : NoDup peers).

(** [k] peers have had their turn, and [seen] are the events so far. *)
Record turn_ok (k : nat) (seen : list proxy_event) (st : pstate) : Prop := {
  to_running : outstanding st = Z.of_nat (length (running st));
  to_nodup : NoDup (running st);
  to_cancels : ∀ p, p ∈ cancels st <-> p ∈ take k peers ∧ request_ok p = true;
  to_status : ∀ p, p ∈ cancels st ->
    (p ∈ running st ∧ p ∉ canceled st)
    ∨ ((p ∉ running st) ∧ p ∈ canceled st ∧ ∃ r e, Answer p r ∈ seen ∧ proxyAttempt r = Err e);
  to_sub : ∀ p, p ∈ running st -> p ∈ cancels st;
  to_canceled : ∀ p, p ∈ canceled st -> p ∈ cancels st;
}.

Lemma remove_one_spec x l p : NoDup l -> p ∈ remove_one x l <-> p ∈ l ∧ p ≠ x.
Proof.
  induction l as [|y l IH]; intros Hl; cbn; [set_solver|].
  apply NoDup_cons in Hl as [Hy Hl]. case_decide; subst; [set_solver|].
  rewrite !elem_of_cons, IH by done. naive_solver.
Qed.

Lemma remove_one_NoDup x l : NoDup l -> NoDup (remove_one x l).
Proof.
  induction l as [|y l IH]; intros Hl; cbn; [done|].
  apply NoDup_cons in Hl as [Hy Hl]. case_decide; [done|]. apply NoDup_cons. split; [|auto].
  rewrite remove_one_spec by done. naive_solver.
Qed.

Lemma remove_one_length x l : x ∈ l -> Z.of_nat (length (remove_one x l)) = (Z.of_nat (length l) - 1)%Z.
Proof.
  induction l as [|y l IH]; intros Hx; cbn; [by apply not_elem_of_nil in Hx|].
  case_decide; [lia|]. cbn. apply elem_of_cons in Hx as [?|Hx]; [done|]. specialize (IH Hx). lia.
Qed.

(** Starting an attempt gives the next peer its turn; without one, and with
    nobody running, every peer has failed. *)
Lemma start_attempt_ok k seen st :
  turn_ok k seen st -> peerIndex st = k ->
  match start_attempt request_ok peers st with
  | Some st' => turn_ok (S k) seen st' ∧ peerIndex st' = k
  | None => ∀ p, p ∈ peers -> request_ok p = false ∨ ∃ r e, Answer p r ∈ seen ∧ proxyAttempt r = Err e
  end.
Proof using Hnd.
  intros [Hr Hn Hc Hs Hsub Hcan] Hk. unfold start_attempt. rewrite Hk.
  destruct (peers !! k) as [peer|] eqn:Ep.
  - assert (take (S k) peers = take k peers ++ [peer])%list as Htake by by apply take_S_r.
    assert (peer ∉ take k peers) as Hnew.
    { rewrite <- (take_drop_middle peers k peer Ep) in Hnd. apply NoDup_app in Hnd as (_ & Hd & _).
      intros Hin. eapply Hd; [exact Hin|]. left. }
    assert (peer ∉ cancels st) as Hnc by (rewrite Hc; tauto).
    destruct (request_ok peer) eqn:Eok.
    + split; [|done]. split; cbn.
      * lia.
      * apply NoDup_cons. split; [|done]. intros ?%Hsub. done.
      * intros p. rewrite Htake, elem_of_union, elem_of_singleton, Hc, elem_of_app, list_elem_of_singleton.
        naive_solver.
      * intros p [->%elem_of_singleton|Hp]%elem_of_union.
        -- left. split; [left|]. by intros ?%Hcan.
        -- destruct (Hs p Hp) as [[? ?]|(? & ? & ?)]; [left; split; [by right|done]|right].
           split_and!; [|done|done]. apply not_elem_of_cons. split; [|done]. intros ->. done.
      * intros p [->|?]%elem_of_cons; [set_solver|]. apply elem_of_union. right. by apply Hsub.
      * intros p Hp. apply elem_of_union. right. by apply Hcan.
    + split; [|done]. split; try done. intros p. rewrite Htake, Hc, elem_of_app, list_elem_of_singleton.
      split; [tauto|]. intros [[?| ->] ?]; [tauto|congruence].
  - assert (take k peers = peers) as Htake by (apply take_ge, lookup_ge_None_1, Ep).
    destruct (Z.eqb_spec (outstanding st) 0) as [H0|H0].
    + assert (running st = []) as Hnil by (destruct (running st); [done|cbn in Hr; lia]).
      intros p Hp. destruct (request_ok p) eqn:Eok; [right|by left].
      assert (p ∈ cancels st) as Hpc by (apply Hc; by rewrite Htake).
      destruct (Hs p Hpc) as [[Hrun _]|(_ & _ & ?)]; [|done]. rewrite Hnil in Hrun. by apply not_elem_of_nil in Hrun.
    + split; [|done]. split; try done. intros p. rewrite Hc, Htake.
      by rewrite (take_ge peers (S k)) by (apply lookup_ge_None_1 in Ep; lia).
Qed.

Lemma turn_ok_seen k seen ev st : turn_ok k seen st -> turn_ok k (seen ++ [ev]) st.
Proof.
  intros [Hr Hn Hc Hs Hsub Hcan]. split; try done. intros p Hp. destruct (Hs p Hp) as [?|(? & ? & r & e & ? & ?)]; [by left|right].
  split_and!; [done..|]. exists r, e. split; [apply elem_of_app; by left|done].
Qed.

Lemma failed_turn k seen st peer result e :
  turn_ok k seen st -> peer ∈ running st -> proxyAttempt result = Err e ->
  turn_ok k (seen ++ [Answer peer result])
    (next_turn (PState (peerIndex st) (outstanding st - 1) (remove_one peer (running st))
                  (cancels st) ({[ peer ]} ∪ canceled st))).
Proof.
  intros [Hr Hn Hc Hs Hsub Hcan] Hrun He. split; cbn.
  - by rewrite remove_one_length, Hr.
  - by apply remove_one_NoDup.
  - done.
  - intros p Hp. rewrite remove_one_spec by done. destruct (decide (p = peer)) as [->|Hne].
    + right. split_and!; [tauto|set_solver|]. exists result, e. split; [apply elem_of_app; right; left|done].
    + destruct (Hs p Hp) as [[? ?]|(? & ? & r & e' & ? & ?)]; [left; split; [done|set_solver]|right].
      split_and!; [tauto|set_solver|]. exists r, e'. split; [apply elem_of_app; by left|done].
  - intros p. rewrite remove_one_spec by done. intros [? _]. by apply Hsub.
  - intros p [->%elem_of_singleton|?]%elem_of_union; [by apply Hsub|by apply Hcan].
Qed.

(** What can be said of each way the loop goes, at turn [k]. *)
Definition run_ok (k : nat) (all : list proxy_event) (r : proxy_run) : Prop :=
  match r with
  | Waiting st => peerIndex st = length all ∧ turn_ok (S (length all)) all st
  | Returned (Proxied resp peer) st =>
      peer ∈ peers ∧ request_ok peer = true ∧ (rs_StatusCode resp = 200 ∨ rs_StatusCode resp = 404)%Z
      ∧ Answer peer (Ok resp) ∈ all ∧ (peer ∉ canceled st)
      ∧ ∀ p, p ∈ cancels st -> p ≠ peer -> p ∈ canceled st
  | Returned (ProxyFailed e) st =>
      (∀ p, p ∈ cancels st -> p ∈ canceled st)
      ∧ ((e = errNoAvailablePeers
          ∧ ∀ p, p ∈ peers -> request_ok p = false ∨ ∃ r e, Answer p r ∈ all ∧ proxyAttempt r = Err e)
         ∨ (e = errProxyTimeout ∧ TotalTimeout ∈ all)
         ∨ (e = errRequestCanceled ∧ ClientGone ∈ all))
  | Impossible => ∃ p r, Answer p r ∈ all
  end.

Lemma proxyAttempt_ok r resp :
  proxyAttempt r = Ok resp -> r = Ok resp ∧ (rs_StatusCode resp = 200 ∨ rs_StatusCode resp = 404)%Z.
Proof.
  unfold proxyAttempt. destruct r as [x|]; [|done]. destruct (_ && _) eqn:E; [done|]. intros ?. simplify_eq.
  split; [done|]. apply andb_false_iff in E as [E%negb_false_iff%Z.eqb_eq|E%negb_false_iff%Z.eqb_eq]; auto.
Qed.

Lemma nobody_left k seen tail st :
  turn_ok k seen st -> peerIndex st = k -> start_attempt request_ok peers st = None ->
  run_ok k (seen ++ tail) (Returned (ProxyFailed errNoAvailablePeers) st).
Proof using Hnd.
  intros Ht Hk Est. pose proof (start_attempt_ok k seen st Ht Hk) as Hall. rewrite Est in Hall. cbn. split.
  - intros p Hp. unfold start_attempt in Est. destruct (peers !! peerIndex st); [by destruct (request_ok s)|].
    destruct (Z.eqb_spec (outstanding st) 0) as [H0|]; [|done].
    assert (running st = []) as Hnil by (pose proof (to_running _ _ _ Ht) as Hr; destruct (running st); [done|cbn in Hr; lia]).
    destruct (to_status _ _ _ Ht p Hp) as [[Hrun _]|(_ & ? & _)]; [|done]. rewrite Hnil in Hrun. by apply not_elem_of_nil in Hrun.
  - left. split; [done|]. intros p Hp. destruct (Hall p Hp) as [?|(r & e & ? & ?)]; [by left|right].
    exists r, e. split; [apply elem_of_app; by left|done].
Qed.

Lemma proxy_loop_ok events k seen st :
  turn_ok k seen st -> peerIndex st = k -> k = length seen ->
  run_ok k (seen ++ events) (proxy_loop request_ok peers events st).
Proof using Hnd.
  revert k seen st. induction events as [|ev events IH]; intros k seen st Ht Hk Hlen; cbn [proxy_loop];
    pose proof (start_attempt_ok k seen st Ht Hk) as Hst;
    destruct (start_attempt request_ok peers st) as [st1|] eqn:Est.
  - rewrite app_nil_r. destruct Hst as [Hst1 Hk1]. cbn. split; congruence.
  - by apply nobody_left.
  - destruct Hst as [Hst1 Hk1].
    assert (∀ ev st', turn_ok (S k) (seen ++ [ev]) st' -> peerIndex st' = S k ->
      run_ok (S k) (seen ++ ev :: events) (proxy_loop request_ok peers events st')) as Hnext.
    { intros ev' st' Ht' Hk'. change (ev' :: events) with ([ev'] ++ events)%list. rewrite (assoc_L (++)%list).
      apply IH; [done|done|rewrite length_app; cbn; lia]. }
    destruct ev as [peer result| | |].
    + case_bool_decide as Hrun; [|cbn; exists peer, result; set_solver].
      destruct (proxyAttempt result) as [resp|e] eqn:Ea.
      * apply proxyAttempt_ok in Ea as [-> Hstat]. cbn.
        pose proof (to_sub _ _ _ Hst1 peer Hrun) as Hpc. apply (to_cancels _ _ _ Hst1) in Hpc as Hpc'.
        split_and!; [destruct Hpc' as [Hin _]; by apply elem_of_take in Hin as (i & ? & _); eapply list_elem_of_lookup_2
                    |tauto|done|set_solver| |set_solver].
        destruct (to_status _ _ _ Hst1 peer Hpc) as [[_ ?]|(? & _)]; [set_solver|done].
      * apply Hnext; [by eapply failed_turn|cbn; congruence].
    + cbn. split; [set_solver|]. right. left. split; [done|set_solver].
    + cbn. split; [set_solver|]. right. right. split; [done|set_solver].
    + apply Hnext; [|cbn; congruence]. apply turn_ok_seen. by destruct Hst1.
  - by apply nobody_left.
Qed.

Lemma turn0_ok : turn_ok 0 [] pstate0.
Proof. split; cbn; try done; [constructor|set_solver..]. Qed.
End proxy_props.

(** Whatever the peers are, a response that is passed on came from an event. *)
Lemma proxy_loop_answer request_ok peers events st resp peer st' :
  proxy_loop request_ok peers events st = Returned (Proxied resp peer) st' ->
  (rs_StatusCode resp = 200 ∨ rs_StatusCode resp = 404)%Z ∧ Answer peer (Ok resp) ∈ events.
Proof.
  revert st. induction events as [|ev events IH]; intros st; cbn [proxy_loop];
    destruct (start_attempt request_ok peers st) as [st1|]; try done.
  destruct ev as [p result| | |]; try done.
  - case_bool_decide; [|done]. destruct (proxyAttempt result) as [resp'|] eqn:Ea.
    + intros ?. simplify_eq. apply proxyAttempt_ok in Ea as [-> ?]. split; [done|left].
    + intros [? ?]%IH. split; [done|by right].
  - intros [? ?]%IH. split; [done|by right].
Qed.

(** A call that waits goes on with the next event as the loop does. *)
Lemma proxy_loop_resume request_ok peers before st0 st ev after :
  proxy_loop request_ok peers before st0 = Waiting st ->
  proxy_loop request_ok peers (before ++ ev :: after) st0
  = match ev with
    | Answer peer result =>
        if bool_decide (peer ∈ running st) then
          match proxyAttempt result with
          | Err _ =>
              proxy_loop request_ok peers after
                (next_turn (PState (peerIndex st) (outstanding st - 1) (remove_one peer (running st))
                              (cancels st) ({[ peer ]} ∪ canceled st)))
          | Ok resp =>
              Returned (Proxied resp peer)
                (PState (peerIndex st) (outstanding st) (running st) (cancels st)
                   (canceled st ∪ (cancels st ∖ {[ peer ]})))
          end
        else Impossible
    | TotalTimeout =>
        Returned (ProxyFailed errProxyTimeout)
          (PState (peerIndex st) (outstanding st) (running st) (cancels st) (canceled st ∪ cancels st))
    | ClientGone =>
        Returned (ProxyFailed errRequestCanceled)
          (PState (peerIndex st) (outstanding st) (running st) (cancels st) (canceled st ∪ cancels st))
    | StageTimeout => proxy_loop request_ok peers after (next_turn st)
    end.
Proof.
  revert st0. induction before as [|ev0 before IH]; intros st0 H; cbn [proxy_loop app] in *.
  - destruct (start_attempt request_ok peers st0); [|done]. by simplify_eq.
  - destruct (start_attempt request_ok peers st0); [|done].
    destruct ev0 as [peer0 result0| | |]; [|done|done|by apply IH].
    case_bool_decide; [|done]. destruct (proxyAttempt result0); [done|by apply IH].
Qed.

(** With no more events the loop waits, unless everybody has failed. *)
Lemma proxy_loop_nil request_ok peers st :
  (∃ st', proxy_loop request_ok peers [] st = Waiting st')
  ∨ ∃ st', proxy_loop request_ok peers [] st = Returned (ProxyFailed errNoAvailablePeers) st'.
Proof. cbn. destruct (start_attempt request_ok peers st); [left|right]; by eexists. Qed.

(** Peer [p] was of no use: no request could be made to it, or it failed. *)
Definition useless (request_ok : string -> bool) (events : list proxy_event) (p : string) : Prop :=
  request_ok p = false ∨ ∃ r e, Answer p r ∈ events ∧ proxyAttempt r = Err e.

(** C19: [proxy], given distinct peers, does what its comment says.  After [k] events that have not
    ended the call, the first [k + 1] peers have had their attempt, so that no
    peer is asked twice, and of those asked the ones that have not failed are
    still running; the total timeout, or a client that goes away, then ends
    the call with the error that says so; a 200 or a 404 from a running attempt
    ends it with that answer; a failed attempt or a stage timeout does not,
    unless nobody is left.  When it returns an answer, it came from a peer that
    was asked, and all other attempts are cancelled; "no available peers" means
    that every peer was tried and failed; the other errors have their event;
    and on every error no attempt is left running. *)
Theorem proxy_outcome request_ok peers events :
  NoDup peers ->
  match proxy request_ok peers events with
  | Waiting st =>
      (∀ p, p ∈ cancels st <-> p ∈ take (S (length events)) peers ∧ request_ok p = true)
      ∧ (∀ p, p ∈ cancels st -> p ∈ running st ∨ useless request_ok events p)
      ∧ (∀ p, p ∈ running st -> p ∈ cancels st)
      ∧ ∀ ev after,
          match ev with
          | TotalTimeout =>
              ∃ st', proxy request_ok peers (events ++ ev :: after) = Returned (ProxyFailed errProxyTimeout) st'
          | ClientGone =>
              ∃ st', proxy request_ok peers (events ++ ev :: after) = Returned (ProxyFailed errRequestCanceled) st'
          | Answer peer r =>
              peer ∈ running st ->
              match proxyAttempt r with
              | Ok resp => ∃ st', proxy request_ok peers (events ++ ev :: after) = Returned (Proxied resp peer) st'
              | Err _ => (∃ st', proxy request_ok peers (events ++ [ev]) = Waiting st')
                         ∨ ∃ st', proxy request_ok peers (events ++ [ev]) = Returned (ProxyFailed errNoAvailablePeers) st'
              end
          | StageTimeout =>
              (∃ st', proxy request_ok peers (events ++ [ev]) = Waiting st')
              ∨ ∃ st', proxy request_ok peers (events ++ [ev]) = Returned (ProxyFailed errNoAvailablePeers) st'
          end
  | Returned (Proxied resp peer) st =>
      peer ∈ peers ∧ request_ok peer = true ∧ (rs_StatusCode resp = 200 ∨ rs_StatusCode resp = 404)%Z
      ∧ Answer peer (Ok resp) ∈ events ∧ (peer ∉ canceled st)
      ∧ ∀ p, p ∈ cancels st -> p ≠ peer -> p ∈ canceled st
  | Returned (ProxyFailed e) st =>
      (∀ p, p ∈ cancels st -> p ∈ canceled st)
      ∧ ((e = errNoAvailablePeers ∧ ∀ p, p ∈ peers -> useless request_ok events p)
         ∨ (e = errProxyTimeout ∧ TotalTimeout ∈ events)
         ∨ (e = errRequestCanceled ∧ ClientGone ∈ events))
  | Impossible => ∃ p r, Answer p r ∈ events
  end.
Proof.
  intros Hnd. pose proof (proxy_loop_ok request_ok peers Hnd events 0 [] pstate0 (turn0_ok request_ok peers Hnd) eq_refl eq_refl) as H.
  unfold proxy. cbn [app] in H. destruct (proxy_loop _ _ _ _) as [st|[] st|] eqn:E; try exact H.
  destruct H as [Hi Ht]. split; [apply (to_cancels _ _ _ _ _ Ht)|]. split; [|split; [apply (to_sub _ _ _ _ _ Ht)|]].
  - intros p Hp. destruct (to_status _ _ _ _ _ Ht p Hp) as [[? _]|(_ & _ & ?)]; [by left|right; by right].
  - intros ev after. pose proof (λ tail, proxy_loop_resume _ _ _ _ _ ev tail E) as Hres.
    destruct ev as [peer r| | |]; [|rewrite Hres; by eexists..|rewrite Hres; apply proxy_loop_nil].
    intros Hrun. rewrite bool_decide_true in Hres by done.
    destruct (proxyAttempt r) as [resp|e]; rewrite Hres; [by eexists|apply proxy_loop_nil].
Qed.

Module ProxyExample.
Definition ok (body : string) : Response :=
  {| rs_StatusCode := 200; rs_version := "v1"; rs_length := ""; rs_body := body |}.
Definition events : list proxy_event := [StageTimeout; Answer "a" (Err (LibErr 1)); Answer "b" (Ok (ok "x"))].

Definition asked : list proxy_event := [StageTimeout; Answer "a" (Err (LibErr 1))].

(** Two peers are asked, the first fails, the third is asked; then the total
    timeout, or the answer of the second, ends the call. *)
Lemma proxy_outcome_witness :
  ∃ st, proxy (λ _, true) ["a"; "b"; "c"] asked = Waiting st
  ∧ (∃ st', proxy (λ _, true) ["a"; "b"; "c"] (asked ++ [TotalTimeout]) = Returned (ProxyFailed errProxyTimeout) st')
  ∧ ∃ st', proxy (λ _, true) ["a"; "b"; "c"] events = Returned (Proxied (ok "x") "b") st'
    ∧ ∀ p, p ∈ cancels st' -> p ≠ "b" -> p ∈ canceled st'.
Proof.
  assert (NoDup ["a"; "b"; "c"]) as Hnd by (apply (bool_decide_unpack _); vm_compute; exact I).
  pose proof (proxy_outcome (λ _, true) ["a"; "b"; "c"] asked Hnd) as H1.
  pose proof (proxy_outcome (λ _, true) ["a"; "b"; "c"] events Hnd) as H2.
  destruct (proxy _ _ asked) as [st| |] eqn:E; [|vm_compute in E; discriminate E..].
  exists st. split; [reflexivity|]. destruct H1 as (_ & _ & _ & H1). split; [exact (H1 TotalTimeout [])|].
  destruct (proxy _ _ events) as [|[resp peer|e] st'|] eqn:E2; [vm_compute in E2; discriminate E2| |vm_compute in E2; discriminate E2..].
  vm_compute in E2. injection E2 as Hresp Hpeer Hst. exists st'. rewrite <- Hpeer in H2 |- *.
  split; [by rewrite <- Hresp|apply H2].
Defined.
End ProxyExample.
