(* ===== verification/Serve.v ===== *)
(** * serve.go: answering a request for a key

    A version looks a key up in its own store when it has one of the key's two
    partitions, and otherwise asks the peers that advertise it, unless the
    request was already proxied.  The replies carry what is written to the
    client; dates and messages are left out. *)

From Stdlib Require Import ZArith Lia Ascii String.
From stdpp Require Import base gmap sets list strings fin_maps.
From S2P Require Import Prelude Hashcode GoStrings Disk Manifest Block BlockStore Consistent Coord Peers Partitions Writable Build VersionMux Proxy.
Import GoInt.

Open Scope string_scope.

(** ** Requests and replies *)

Record Request := {
  rq_Method : string;
  rq_Path : string;
  rq_proxy : string;     (** the query parameter, "" when absent *)
}.

Record Reply := {
  rp_status : Z;
  rp_version : option string;    (** X-Sequins-Version *)
  rp_proxied : option string;    (** X-Sequins-Proxied-To *)
  rp_length : option string;     (** Content-Length *)
  rp_body : string;
}.

Definition bare (status : Z) : Reply :=
  {| rp_status := status; rp_version := None; rp_proxied := None; rp_length := None; rp_body := "" |}.

Definition StatusBadRequest : Z := 400.
Definition StatusNotFound : Z := 404.
Definition StatusInternalServerError : Z := 500.
Definition StatusNotImplemented : Z := 501.
Definition StatusBadGateway : Z := 502.
Definition StatusGatewayTimeout : Z := 504.

Definition serveNotFound (name : string) : Reply :=
  {| rp_status := StatusNotFound; rp_version := Some name; rp_proxied := None; rp_length := None; rp_body := "" |}.

Definition serveError : Reply := bare StatusInternalServerError.

(** [shuffle] with the permutation [rand.Perm] drew. *)
Definition shuffle_set (vs shuffled : list string) (iv : nat * nat) : list string :=
  <[iv.2 := default "" (vs !! iv.1)]> shuffled.

Definition shuffle (perm : list nat) (vs : list string) : list string :=
  foldl (shuffle_set vs) (replicate (length vs) "") (zip (seq 0 (length perm)) perm).

(** What the outside decides about one call of [proxy]: the order of the peers,
    which requests can be made, and the events. *)
Record weather := {
  wt_perm : list nat;
  wt_request_ok : string -> bool;
  wt_events : list proxy_event;
}.

(** [vs.proxy(r, shuffle(peers))]; [None] while it waits. *)
Definition ask (w : weather) (peers : list string) : option (res (Response * string)) :=
  match proxy (wt_request_ok w) (shuffle (wt_perm w) peers) (wt_events w) with
  | Returned (Proxied resp peer) _ => Some (Ok (resp, peer))
  | Returned (ProxyFailed e) _ => Some (Err e)
  | Waiting _ | Impossible => None
  end.

(** [serveProxied]; [w1] and [w2] are for the two calls of [proxy]. *)
Definition serveProxied (p : partitions) (w1 w2 : weather) (partition alternatePartition : Z) : option Reply :=
  let peers := getPeers p partition in
  if bool_decide (peers = []) then Some (bare StatusBadGateway)
  else
    r ← ask w1 peers;
    r ← match r with
        | Ok (resp, _) =>
            if (rs_StatusCode resp =? 404)%Z && negb (alternatePartition =? partition)%Z
            then ask w2 (getPeers p alternatePartition)
            else Some r
        | Err _ => Some r
        end;
    Some match r with
         | Err e =>
             if bool_decide (e = errNoAvailablePeers) then bare StatusBadGateway
             else if bool_decide (e = errProxyTimeout) then bare StatusGatewayTimeout
             else serveError
         | Ok (resp, peer) =>
             {| rp_status := rs_StatusCode resp; rp_version := Some (rs_version resp);
                rp_proxied := Some peer; rp_length := Some (rs_length resp); rp_body := rs_body resp |}
         end.

Section Serve.
Context {D : Disk} {SP : SyncPool HashIter}.

(** [serveLocal] with its deferred [record.Close()]. *)
Definition serveLocal (name : string) (record : option Record_) : GoM world Reply :=
  match record with
  | None => mret (serveNotFound name)
  | Some rec =>
      _ ← Record_Close rec;
      mret {| rp_status := 200; rp_version := Some name; rp_proxied := None;
              rp_length := Some (Itoa (r_ValueLen rec)); rp_body := Record_value rec |}
  end.

Definition version_serveKey (vs : version) (r : Request) (w1 w2 : weather) (key : string) : GoM world Reply := λ w,
  if (vs_numPartitions vs =? 0)%Z then Some (serveNotFound (vs_name vs), w)
  else
    pa ← KeyPartition key (vs_numPartitions vs);
    let '(partition, alternatePartition) := pa in
    if have (vs_partitions vs) partition || have (vs_partitions vs) alternatePartition
    then
      (rec ← Get (vs_blockStore vs) key;
       match rec with
       | Err _ => mret serveError
       | Ok record => serveLocal (vs_name vs) record
       end) w
    else if bool_decide (rq_proxy r = "")
    then reply ← serveProxied (vs_partitions vs) w1 w2 partition alternatePartition; Some (reply, w)
    else Some (serveError, w).
End Serve.

(** ** Routing: [versionMux.serveKey], [db.serveKey], [sequins.ServeHTTP] *)

Section Routing.
(** [serve] is [version.serveKey] of the version a pointer stands for. *)
Context (serve : vref -> Request -> string -> Reply).

Definition mux_serveKey (r : Request) (key : string) : GoM versionMux Reply :=
  let finish (v : option vref) (none : Reply) : GoM versionMux Reply :=
    match v with
    | None => mret none
    | Some v => let reply := serve v r key in _ ← release (Some v); mret reply
    end in
  if bool_decide (rq_proxy r ≠ "") then
    v ← getVersion (rq_proxy r);
    match v with
    | Some _ => finish v (bare StatusNotImplemented)
    | None => v ← getCurrent; finish v (bare StatusNotImplemented)
    end
  else
    v ← getCurrent; finish v (bare StatusNotFound).

Inductive routed :=
  | Replied (r : Reply)
  | StatusPage               (** [sequins.serveStatus] *)
  | DBStatusPage (db : string).

Definition db_serveKey (name : string) (r : Request) (key : string) : GoM versionMux routed :=
  if bool_decide (key = "") then mret (DBStatusPage name)
  else reply ← mux_serveKey r key; mret (Replied reply).

(** The database and the key a path names. *)
Definition split_path (path : string) : string * string :=
  let split := Index path "/" in
  if (split =? -1)%Z then (path, "")
  else (String.substring 0 (Z.to_nat split) path,
        String.substring (Z.to_nat split + 1) (String.length path - (Z.to_nat split + 1)) path).

Definition ServeHTTP (dbs : gmap string versionMux) (r : Request) : option (routed * gmap string versionMux) :=
  if bool_decide (rq_Method r ≠ "GET") then Some (Replied (bare StatusBadRequest), dbs)
  else if bool_decide (rq_Path r = "/") then Some (StatusPage, dbs)
  else
    let '(dbName, key) := split_path (TrimPrefix (rq_Path r) "/") in
    if bool_decide (dbName = "") then Some (Replied (bare StatusBadRequest), dbs)
    else
      match dbs !! dbName with
      | None =>
          Some (Replied (bare (if bool_decide (rq_proxy r ≠ "") then StatusNotImplemented else StatusNotFound)), dbs)
      | Some mux =>
          '(reply, mux') ← db_serveKey dbName r key mux;
          Some (reply, <[dbName := mux']> dbs)
      end.
End Routing.

(** ** Shuffling *)

Lemma shuffle_length vs l acc : length (foldl (shuffle_set vs) acc l) = length acc.
Proof. revert acc. induction l as [|x l IH]; intros acc; [done|]. cbn. rewrite IH. apply length_insert. Qed.

Lemma shuffle_skip vs l acc j : j ∉ l.*2 -> foldl (shuffle_set vs) acc l !! j = acc !! j.
Proof.
  revert acc. induction l as [|x l IH]; intros acc Hj; [done|]. rewrite fmap_cons in Hj.
  apply not_elem_of_cons in Hj as [? ?]. cbn. rewrite IH by done. by apply list_lookup_insert_ne.
Qed.

Lemma shuffle_hit vs l acc i j :
  (j < length acc)%nat -> NoDup l.*2 -> (i, j) ∈ l ->
  foldl (shuffle_set vs) acc l !! j = Some (default "" (vs !! i)).
Proof.
  revert acc. induction l as [|[a b] l IH]; intros acc Hj Hn Hin; [by apply not_elem_of_nil in Hin|].
  rewrite fmap_cons in Hn. apply NoDup_cons in Hn as [Hb Hn]. cbn. apply elem_of_cons in Hin as [Heq|Hin].
  - injection Heq as <- <-. rewrite shuffle_skip by done. by apply list_lookup_insert_eq.
  - apply IH; [by rewrite length_insert|done|done].
Qed.

Lemma shuffle_lookup perm (vs : list string) :
  NoDup perm -> (∀ j, j ∈ perm -> (j < length vs)%nat) -> length perm = length vs ->
  length (shuffle perm vs) = length vs
  ∧ ∀ i j, perm !! i = Some j -> shuffle perm vs !! j = vs !! i.
Proof.
  intros Hnd Hlt Hlen. unfold shuffle. split; [by rewrite shuffle_length, length_replicate|].
  intros i j Hij. rewrite (shuffle_hit vs _ _ i j).
  - destruct (vs !! i) eqn:E; [done|]. apply lookup_ge_None in E. apply lookup_lt_Some in Hij. lia.
  - rewrite length_replicate. by eapply Hlt, list_elem_of_lookup_2.
  - by rewrite snd_zip by (rewrite length_seq; lia).
  - apply list_elem_of_lookup. exists i. apply lookup_zip_Some. split; [|done]. apply lookup_seq.
    apply lookup_lt_Some in Hij. lia.
Qed.

(** A shuffled list has the same elements. *)
Lemma shuffle_perm perm vs : perm ≡ₚ seq 0 (length vs) -> shuffle perm vs ≡ₚ vs.
Proof.
  intros Hp. assert (length perm = length vs) as Hlen by (by rewrite Hp, length_seq).
  assert (NoDup perm) as Hnd by (rewrite Hp; apply NoDup_seq).
  assert (∀ j, j ∈ perm -> (j < length vs)%nat) as Hlt by (intros j; rewrite Hp, elem_of_seq; lia).
  destruct (shuffle_lookup perm vs Hnd Hlt Hlen) as [Hl Hs].
  symmetry. apply Permutation_inj. split; [done|].
  exists (λ i, default i (perm !! i)). split.
  - intros i j Heq. destruct (perm !! i) as [a|] eqn:Ei, (perm !! j) as [b|] eqn:Ej; cbn in Heq; subst.
    + by eapply NoDup_lookup.
    + apply lookup_ge_None in Ej. apply list_elem_of_lookup_2, Hlt in Ei. lia.
    + apply lookup_ge_None in Ei. apply list_elem_of_lookup_2, Hlt in Ej. lia.
    + done.
  - intros i. destruct (perm !! i) as [a|] eqn:Ei; cbn; [by rewrite (Hs i a)|].
    apply lookup_ge_None in Ei. rewrite !lookup_ge_None_2 by lia. done.
Qed.

(** ** Asking peers *)

(** The outside draws a permutation. *)
Definition fair (w : weather) (peers : list string) : Prop := wt_perm w ≡ₚ seq 0 (length peers).

(** No request could be made to a peer, or it failed, for each of the peers. *)
Definition all_useless (w : weather) (peers : list string) : Prop :=
  ∀ p, p ∈ peers -> useless (wt_request_ok w) (wt_events w) p.

Lemma ask_ok w peers r :
  NoDup peers -> fair w peers -> ask w peers = Some r ->
  match r with
  | Ok (resp, peer) => peer ∈ peers ∧ (rs_StatusCode resp = 200 ∨ rs_StatusCode resp = 404)%Z
                       ∧ Answer peer (Ok resp) ∈ wt_events w
  | Err e => (e = errNoAvailablePeers ∧ all_useless w peers) ∨ (e = errProxyTimeout ∧ TotalTimeout ∈ wt_events w)
             ∨ (e = errRequestCanceled ∧ ClientGone ∈ wt_events w)
  end.
Proof.
  intros Hnd Hf Ha. pose proof (shuffle_perm _ _ Hf) as Hs. unfold ask in Ha.
  set (l := shuffle (wt_perm w) peers) in *. assert (NoDup l) as Hl by by rewrite Hs.
  pose proof (proxy_loop_ok (wt_request_ok w) l Hl (wt_events w) 0 [] pstate0 (turn0_ok _ l Hl) eq_refl eq_refl) as H.
  cbn [app] in H. unfold proxy in Ha. destruct (proxy_loop _ _ _ _) as [st|[resp peer|e] st|]; simplify_eq; cbn in H.
  - destruct H as (Hin & _ & Hst & Hans & _). by rewrite Hs in Hin.
  - destruct H as [_ [[? Hall]|[?|?]]]; auto. left. split; [done|]. intros p Hp. apply Hall. by rewrite Hs.
Qed.

Lemma ask_answer w peers resp peer :
  ask w peers = Some (Ok (resp, peer)) ->
  (rs_StatusCode resp = 200 ∨ rs_StatusCode resp = 404)%Z ∧ Answer peer (Ok resp) ∈ wt_events w.
Proof.
  unfold ask, proxy. destruct (proxy_loop _ _ _ _) as [|[]|] eqn:E; intros ?; simplify_eq. by apply proxy_loop_answer in E.
Qed.

(** The reply that passes a response on. *)
Definition passed_on (resp : Response) (peer : string) : Reply :=
  {| rp_status := rs_StatusCode resp; rp_version := Some (rs_version resp); rp_proxied := Some peer;
     rp_length := Some (rs_length resp); rp_body := rs_body resp |}.

(** A proxied reply is the answer of a peer; the others say what went wrong. *)
Lemma serveProxied_inv p w1 w2 partition alternate reply :
  serveProxied p w1 w2 partition alternate = Some reply ->
  (∃ resp peer, reply = passed_on resp peer ∧ (rs_StatusCode resp = 200 ∨ rs_StatusCode resp = 404)%Z
     ∧ (Answer peer (Ok resp) ∈ wt_events w1 ∨ Answer peer (Ok resp) ∈ wt_events w2))
  ∨ reply = bare StatusBadGateway ∨ reply = bare StatusGatewayTimeout ∨ reply = serveError.
Proof.
  intros H. unfold serveProxied in H. case_bool_decide; [simplify_eq; auto|].
  destruct (ask w1 _) as [r1|] eqn:E1; [|done]. cbn in H.
  assert (∀ e, match e with e => if bool_decide (e = errNoAvailablePeers) then bare StatusBadGateway
    else if bool_decide (e = errProxyTimeout) then bare StatusGatewayTimeout else serveError end = reply ->
    reply = bare StatusBadGateway ∨ reply = bare StatusGatewayTimeout ∨ reply = serveError) as Herr.
  { intros e <-. repeat case_bool_decide; auto. }
  destruct r1 as [[resp peer]|e]; [|cbn in H; injection H as H; right; by eapply Herr].
  destruct (_ && _).
  - destruct (ask w2 _) as [[[resp2 peer2]|e2]|] eqn:E2; [|cbn in H; injection H as H; right; by eapply Herr|done].
    cbn in H. simplify_eq. apply ask_answer in E2 as [? ?]. left. exists resp2, peer2. auto.
  - cbn in H. simplify_eq. apply ask_answer in E1 as [? ?]. left. exists resp, peer. auto.
Qed.

(** ** Local replies *)

Section Serve_props.
Context {D : Disk} {L : DiskLaws D} {SP : SyncPool HashIter} {U : Uuid} {MZ : MapOrder Z}.

Lemma Record_Close_total rec (w : world) : ∃ w', Record_Close rec w = Some (tt, w').
Proof. unfold Record_Close, Pool_put. by eexists. Qed.

(** What a version whose store holds the records [kept] may reply for a key of
    a partition it has. *)
Definition local_reply (vs : version) (kept : log) (key : string) (p a : Z) (reply : Reply) : Prop :=
  rp_proxied reply = None
  ∧ ((∃ v, log_map kept !! key = Some v ∧ rp_status reply = 200%Z ∧ rp_body reply = v
           ∧ rp_version reply = Some (vs_name vs) ∧ rp_length reply = Some (Itoa (Z.of_nat (String.length v))))
     ∨ (log_map kept !! key = None ∧ reply = serveNotFound (vs_name vs))
     ∨ (reply = serveError
        ∧ ((∃ e, library_error key e)
           ∨ ∀ kv, kv ∈ kept -> ¬ in_part (vs_numPartitions vs) p kv ∧ ¬ in_part (vs_numPartitions vs) a kv))).

Lemma held_reply vs kept (w : world) r w1 w2 key p a :
  holds (vs_numPartitions vs) kept (vs_blockStore vs) w ->
  KeyPartition key (vs_numPartitions vs) = Some (p, a) ->
  have (vs_partitions vs) p || have (vs_partitions vs) a = true ->
  ∃ reply w', version_serveKey vs r w1 w2 key w = Some (reply, w')
  ∧ holds (vs_numPartitions vs) kept (vs_blockStore vs) w' ∧ local_reply vs kept key p a reply.
Proof.
  intros Hh HK Hhave. unfold version_serveKey. destruct (Z.eqb_spec (vs_numPartitions vs) 0) as [H0|_].
  { destruct Hh as [[Hn _] _ Hnum _ _]. lia. }
  destruct (holds_lookup _ _ _ _ key Hh) as (res & w3 & Hget & Hh3 & Hres).
  rewrite HK. cbn [mbind option_bind]. rewrite Hhave, GoM_bind_eq, Hget. destruct res as [[rec|]|e].
  - destruct Hres as (Hv & Hlen & Hb). cbn in Hv, Hlen, Hb. destruct (Record_Close_total rec w3) as [w4 Hc].
    unfold serveLocal. rewrite GoM_bind_eq, Hc. cbv [mret GoM_ret]. eexists _, _. split; [done|].
    split; [by eapply holds_close|]. split; [done|]. left. exists (Record_value rec). split_and!; try done. cbn. by rewrite Hlen.
  - destruct Hres as [Hv _]. cbn in Hv. eexists _, _. split; [done|]. split; [done|]. split; [done|]. right. left. done.
  - eexists _, _. split; [done|]. split; [done|]. split; [done|]. right. right. split; [done|].
    destruct Hres as [?|(_ & p' & a' & HK' & Hnone)]; [left; by exists e|right]. rewrite HK in HK'. by simplify_eq.
Qed.

(** Requests that a version answers one after the other, with what the outside
    decides about each. *)
Fixpoint answered (vs : version) (requests : list (Request * weather * weather * string)) (w : world) : option world :=
  match requests with
  | [] => Some w
  | (r, w1, w2, key) :: requests' => '(_, w') ← version_serveKey vs r w1 w2 key w; answered vs requests' w'
  end.

Lemma answered_holds vs kept requests (w w' : world) :
  holds (vs_numPartitions vs) kept (vs_blockStore vs) w -> answered vs requests w = Some w' ->
  holds (vs_numPartitions vs) kept (vs_blockStore vs) w'.
Proof.
  revert w. induction requests as [|[[[r w1] w2] key] requests IH]; intros w Hh H; cbn in H; [by simplify_eq|].
  destruct (version_serveKey vs r w1 w2 key w) as [[reply w3]|] eqn:E; [|done]. cbn in H. eapply IH, H.
  destruct (KeyPartition key (vs_numPartitions vs)) as [[p a]|] eqn:HK.
  - destruct (have (vs_partitions vs) p || have (vs_partitions vs) a) eqn:Eh.
    + destruct (held_reply vs kept w r w1 w2 key p a Hh HK Eh) as (reply' & w3' & E' & Hh' & _). by simplify_eq.
    + unfold version_serveKey in E. destruct (_ =? 0)%Z; [by simplify_eq|]. rewrite HK in E. cbn in E. rewrite Eh in E.
      case_bool_decide; [|by simplify_eq]. by destruct (serveProxied _ _ _ _ _); simplify_eq/=.
  - unfold version_serveKey in E. destruct (_ =? 0)%Z; [by simplify_eq|]. by rewrite HK in E.
Qed.

Lemma loaded_holds path n c sz (w0 : world) files parts selected s w :
  path ≠ "" -> (0 < n < 2 ^ 62)%Z -> files ≠ [] ->
  addFiles n files parts selected (New path n c sz) w0 = Some ((s, None), w) ->
  holds n (files.*2 ≫= file_log n parts) s w.
Proof.
  intros Hp Hn Hne Hload. destruct (addFiles_adds _ _ _ _ _ _ _ _ _ _ Hp Hn Hne Hload) as (s1 & ws & Hadds & Hsave).
  by eapply built_holds.
Qed.

Lemma reloaded_holds path n c sz (w0 : world) files parts selected s w s' m w' :
  path ≠ "" -> (0 < n < 2 ^ 62)%Z -> files ≠ [] ->
  addFiles n files parts selected (New path n c sz) w0 = Some ((s, None), w) ->
  NewFromManifest path w = Some (Ok (s', m), w') -> holds n (files.*2 ≫= file_log n parts) s' w'.
Proof.
  intros Hp Hn Hne Hload Hm. destruct (addFiles_adds _ _ _ _ _ _ _ _ _ _ Hp Hn Hne Hload) as (s1 & ws & Hadds & Hsave).
  by eapply holds_reload.
Qed.

(** C2: what a node answers for a key of a partition it holds.  The version
    was loaded by [addFiles] and has answered any number of requests since; the
    request returns without a panic and without asking anybody, with the last
    value loaded for the key and its length (200), or with 404, which is given
    only for a key that was not loaded, or with 500; and 500 is given only for
    an error of sparkey, or when no record at all was loaded in either
    partition of the key. *)
Theorem serve_local path n c sz (w0 : world) files parts selected w before w' vs r w1 w2 key p a :
  path ≠ "" -> (0 < n < 2 ^ 62)%Z -> files ≠ [] -> vs_numPartitions vs = n ->
  addFiles n files parts selected (New path n c sz) w0 = Some ((vs_blockStore vs, None), w) ->
  answered vs before w = Some w' ->
  KeyPartition key n = Some (p, a) ->
  have (vs_partitions vs) p || have (vs_partitions vs) a = true ->
  ∃ reply w'', version_serveKey vs r w1 w2 key w' = Some (reply, w'')
  ∧ local_reply vs (files.*2 ≫= file_log n parts) key p a reply.
Proof.
  intros Hp Hn Hne <- Hload Hbefore HK Hhave. apply loaded_holds in Hload; [|done..].
  eapply answered_holds in Hbefore; [|done].
  destruct (held_reply _ _ _ r w1 w2 _ _ _ Hbefore HK Hhave) as (reply & w3 & ? & _ & ?). by exists reply, w3.
Qed.
End Serve_props.

(** C15: the cluster does not forward twice.  A request that a peer proxied to
    us is answered at once (it waits for nobody), from the local store, or
    with an error when the partition is not here, and the answer never depends
    on other nodes. *)
Theorem no_second_hop {D : Disk} {SP : SyncPool HashIter} vs r w1 w2 w1' w2' key (w : world) :
  rq_proxy r ≠ "" ->
  version_serveKey vs r w1 w2 key w = version_serveKey vs r w1' w2' key w
  ∧ ∀ reply w', version_serveKey vs r w1 w2 key w = Some (reply, w') ->
      rp_proxied reply = None
      ∧ (∀ p a, (vs_numPartitions vs ≠ 0)%Z -> KeyPartition key (vs_numPartitions vs) = Some (p, a) ->
         have (vs_partitions vs) p = false -> have (vs_partitions vs) a = false -> reply = serveError ∧ w' = w).
Proof.
  intros Hr. unfold version_serveKey. rewrite bool_decide_false by done. split.
  { destruct (vs_numPartitions vs =? 0)%Z; [done|]. destruct (KeyPartition _ _) as [[p a]|]; done. }
  intros reply w' H. destruct (Z.eqb_spec (vs_numPartitions vs) 0); [simplify_eq; split; [done|lia]|].
  destruct (KeyPartition _ _) as [[p a]|]; [|done]. cbn in H.
  destruct (have (vs_partitions vs) p || have (vs_partitions vs) a) eqn:Eh.
  - split.
    + rewrite GoM_bind_eq in H. destruct (Get _ _ _) as [[[[rec|]|e] w3]|]; [| | |done]; cbv [mret GoM_ret] in H.
      * unfold serveLocal in H. rewrite GoM_bind_eq in H. destruct (Record_Close rec w3) as [[[] w4]|]; [|done].
        cbv [mret GoM_ret] in H. by simplify_eq.
      * cbn in H. cbv [mret GoM_ret] in H. by simplify_eq.
      * by simplify_eq.
    + intros p' a' _ ? Hp Ha. simplify_eq. rewrite Hp, Ha in Eh. done.
  - simplify_eq. done.
Qed.

(** A 404 of a peer sends the request to the peers of the other partition. *)
Definition retried (p : partitions) (w1 : weather) (partition alternate : Z) : Prop :=
  alternate ≠ partition ∧ ∃ peer resp, peer ∈ getPeers p partition ∧ rs_StatusCode resp = 404%Z
                          ∧ Answer peer (Ok resp) ∈ wt_events w1.

(** C14: what a node answers for a partition it does not hold.  A reply that
    was proxied comes, with its status, version, length and body, from a peer
    that advertises the partition of the key, and is then a 200, or a 404 if
    the key has no other partition; or, when such a peer has answered 404, from
    one that advertises the key's other partition, and is then a 200 or a 404.
    (The peers of a partition are listed once each, and the shuffle draws a
    permutation.)  The other replies are 502, when nobody advertises the partition or every
    peer failed, 504, after the total timeout, and 500, when the client went
    away; each of them for the first partition, or, after a 404, for the
    other. *)
Theorem serve_proxied p w1 w2 partition alternate reply :
  NoDup (getPeers p partition) -> NoDup (getPeers p alternate) ->
  fair w1 (getPeers p partition) -> fair w2 (getPeers p alternate) ->
  serveProxied p w1 w2 partition alternate = Some reply ->
  match rp_proxied reply with
  | Some peer =>
      ∃ resp, reply = passed_on resp peer
      ∧ ((peer ∈ getPeers p partition ∧ Answer peer (Ok resp) ∈ wt_events w1
          ∧ (rs_StatusCode resp = 200 ∨ (rs_StatusCode resp = 404 ∧ alternate = partition))%Z)
         ∨ (retried p w1 partition alternate ∧ peer ∈ getPeers p alternate ∧ Answer peer (Ok resp) ∈ wt_events w2
            ∧ (rs_StatusCode resp = 200 ∨ rs_StatusCode resp = 404)%Z))
  | None =>
      (reply = bare StatusBadGateway
       ∧ (getPeers p partition = [] ∨ all_useless w1 (getPeers p partition)
          ∨ (retried p w1 partition alternate ∧ all_useless w2 (getPeers p alternate))))
      ∨ (reply = bare StatusGatewayTimeout
         ∧ (TotalTimeout ∈ wt_events w1 ∨ (retried p w1 partition alternate ∧ TotalTimeout ∈ wt_events w2)))
      ∨ (reply = serveError
         ∧ (ClientGone ∈ wt_events w1 ∨ (retried p w1 partition alternate ∧ ClientGone ∈ wt_events w2)))
  end.
Proof.
  intros Hn1 Hn2 Hf1 Hf2 H. unfold serveProxied in H. case_bool_decide as Hnil; [simplify_eq; left; split; [done|by left]|].
  destruct (ask w1 _) as [r1|] eqn:E1; [|done]. pose proof (ask_ok _ _ _ Hn1 Hf1 E1) as H1. cbn in H.
  destruct r1 as [[resp peer]|e].
  - destruct H1 as (Hin & Hst & Hans).
    destruct ((rs_StatusCode resp =? 404)%Z && negb (alternate =? partition)%Z) eqn:Ealt.
    + apply andb_true_iff in Ealt as [H404%Z.eqb_eq Hne%negb_true_iff%Z.eqb_neq].
      assert (retried p w1 partition alternate) as Hret by (split; [done|by exists peer, resp]).
      destruct (ask w2 _) as [r2|] eqn:E2; [|done]. pose proof (ask_ok _ _ _ Hn2 Hf2 E2) as H2. cbn in H. simplify_eq.
      destruct r2 as [[resp2 peer2]|e2].
      * destruct H2 as (Hin2 & Hst2 & Hans2). cbn. exists resp2. split; [done|]. by right.
      * destruct H2 as [[-> ?]|[[-> ?]|[-> ?]]]; cbn; [left|right; left|right; right]; (split; [done|]); auto.
    + cbn in H. simplify_eq. cbn. exists resp. split; [done|]. left. split_and!; [done..|].
      apply andb_false_iff in Ealt as [Hne%Z.eqb_neq|Heq%negb_false_iff%Z.eqb_eq]; [left|]; naive_solver.
  - cbn in H. simplify_eq. destruct H1 as [[-> ?]|[[-> ?]|[-> ?]]]; cbn; [left|right; left|right; right]; (split; [done|]); auto.
Qed.

(** ** Routing *)

(** The entry a request is routed to: the version it names, if it is proxied
    and that version is here, and the current one otherwise. *)
Definition routed_entry (r : Request) (m : versionMux) : option versionReferenceCount :=
  if bool_decide (rq_proxy r ≠ "") then
    match versions m !! rq_proxy r with
    | Some vs => Some vs
    | None => currentVersion m
    end
  else currentVersion m.

(** A request is answered by the version it asks for, and gives it back.
    In every state of a mux the request gets a reply: that of the routed
    version, or 404 (501 to a peer) when there is none; and afterwards every
    version is held by the same requests as before. *)
Theorem mux_serveKey_ok serve r key m l rm k :
  sys_ok (Sys m l rm k) ->
  ∃ m', mux_serveKey serve r key m
        = Some (match routed_entry r m with
                | Some vs => serve (rc_version vs) r key
                | None => bare (if bool_decide (rq_proxy r ≠ "") then StatusNotImplemented else StatusNotFound)
                end, m')
  ∧ versions m' = versions m ∧ currentVersion m' = currentVersion m ∧ sys_ok (Sys m' l rm k).
Proof.
  intros Hok. unfold mux_serveKey, routed_entry.
  destruct (getCurrent_release m l rm k Hok) as (mc & mc' & Hc & Hcr & Hcok).
  destruct (getVersion_release (rq_proxy r) m l rm k Hok) as (mv & mv' & Hv & Hvr & Hvok).
  case_bool_decide.
  - rewrite GoM_bind_eq, Hv. destruct (versions m !! rq_proxy r) as [vs|] eqn:Ev; cbn [fmap option_fmap option_map] in *.
    + rewrite GoM_bind_eq, Hvr. by exists mv'.
    + assert (mv = m) as -> by (unfold getVersion in Hv; rewrite Ev in Hv; by simplify_eq).
      rewrite GoM_bind_eq, Hc. destruct (currentVersion m) as [c|]; cbn [fmap option_fmap option_map] in *.
      * rewrite GoM_bind_eq, Hcr. by exists mc'.
      * cbn in Hcr. simplify_eq. by exists mc'.
  - rewrite GoM_bind_eq, Hc. destruct (currentVersion m) as [c|]; cbn [fmap option_fmap option_map] in *.
    + rewrite GoM_bind_eq, Hcr. by exists mc'.
    + cbn in Hcr. simplify_eq. by exists mc'.
Qed.

(** The replies of a mux are those of its versions, or say that there is none. *)
Lemma mux_serveKey_inv serve r key m reply m' :
  mux_serveKey serve r key m = Some (reply, m') ->
  (∃ v, reply = serve v r key)
  ∨ reply = bare (if bool_decide (rq_proxy r ≠ "") then StatusNotImplemented else StatusNotFound).
Proof.
  unfold mux_serveKey.
  assert (∀ v none mm,
    match v with
    | None => mret none
    | Some v => let reply := serve v r key in _ ← release (Some v); mret reply
    end mm = Some (reply, m') -> (∃ v, reply = serve v r key) ∨ reply = none) as Hfin.
  { intros [v|] none mm H; [|cbv [mret GoM_ret] in H; simplify_eq; by right]. cbv zeta in H. rewrite GoM_bind_eq in H.
    destruct (release (Some v) mm) as [[[] m1]|]; [|done]. cbv [mret GoM_ret] in H. simplify_eq. left. by exists v. }
  intros H. case_bool_decide; rewrite GoM_bind_eq in H.
  - destruct (getVersion _ _) as [[[v|] m1]|]; [| |done]; [by eapply (Hfin (Some v)), H|].
    rewrite GoM_bind_eq in H. destruct (getCurrent _) as [[v m2]|]; [|done]. by eapply (Hfin v), H.
  - destruct (getCurrent _) as [[v m2]|]; [|done]. by eapply (Hfin v), H.
Qed.

Lemma split_path_key db key : has_char "/" db = false -> split_path (db ++ String "/" key) = (db, key).
Proof.
  intros H. unfold split_path. rewrite Index_app by done.
  destruct (Z.eqb_spec (Z.of_nat (String.length db)) (-1)); [lia|]. rewrite Nat2Z.id. f_equal.
  - apply substring_prefix.
  - rewrite str_length_app. cbn [String.length].
    replace (String.length db + S (String.length key) - (String.length db + 1))%nat with (String.length key) by lia.
    replace (db ++ String "/" key) with ((db ++ "/") ++ key) by by rewrite str_app_assoc.
    replace (String.length db + 1)%nat with (String.length (db ++ "/")) by (rewrite str_length_app; done).
    apply substring_suffix.
Qed.

Lemma split_path_db db : has_char "/" db = false -> split_path db = (db, "").
Proof. intros H. unfold split_path. by rewrite Index_none. Qed.

(** A request for a key is answered by a version of the database, if any. *)
Lemma ServeHTTP_key_inv serve dbs db key proxy o dbs' :
  db ≠ "" -> has_char "/" db = false -> key ≠ "" ->
  let r := {| rq_Method := "GET"; rq_Path := "/" ++ db ++ "/" ++ key; rq_proxy := proxy |} in
  ServeHTTP serve dbs r = Some (o, dbs') ->
  ∃ reply, o = Replied reply
  ∧ ((∃ v, reply = serve v r key)
     ∨ reply = bare (if bool_decide (proxy ≠ "") then StatusNotImplemented else StatusNotFound)).
Proof.
  intros Hdb Hs Hkey r H. unfold ServeHTTP in H. cbn [rq_Method rq_Path rq_proxy r] in H.
  rewrite bool_decide_false in H by (intros E; by apply E).
  rewrite bool_decide_false in H by (intros E; injection E; by destruct db). rewrite TrimPrefix_slash in H.
  change (db ++ "/" ++ key) with (db ++ String "/" key) in H. rewrite split_path_key, bool_decide_false in H by done.
  destruct (dbs !! db) as [mux|]; [|simplify_eq; eexists; split; [done|by right]].
  unfold db_serveKey in H. rewrite bool_decide_false, GoM_bind_eq in H by done. fold r in H.
  destruct (mux_serveKey serve r key mux) as [[reply m']|] eqn:E; [|done]. cbv [mret GoM_ret mbind option_bind] in H. simplify_eq.
  exists reply. split; [done|]. by apply mux_serveKey_inv in E.
Qed.

(** C36: paths are routed as they are written.  For a database name without a
    slash, [/db/key] (the key may hold slashes) asks that database for that key,
    [/db] and [/db/] are the status page of the database, [/] is the status
    page of the node, and an unknown database is a 404, or a 501 to a peer.
    A method other than GET and an empty database name are 400. *)
Theorem ServeHTTP_routes serve dbs db key proxy :
  db ≠ "" -> has_char "/" db = false -> key ≠ "" ->
  let get path := {| rq_Method := "GET"; rq_Path := path; rq_proxy := proxy |} in
  let missing := Replied (bare (if bool_decide (proxy ≠ "") then StatusNotImplemented else StatusNotFound)) in
  ServeHTTP serve dbs (get ("/" ++ db ++ "/" ++ key))
  = match dbs !! db with
    | None => Some (missing, dbs)
    | Some mux =>
        match mux_serveKey serve (get ("/" ++ db ++ "/" ++ key)) key mux with
        | Some (reply, mux') => Some (Replied reply, <[db := mux']> dbs)
        | None => None
        end
    end
  ∧ (∀ tail, tail = "" ∨ tail = "/" ->
     ServeHTTP serve dbs (get ("/" ++ db ++ tail))
     = match dbs !! db with None => Some (missing, dbs) | Some _ => Some (DBStatusPage db, dbs) end)
  ∧ ServeHTTP serve dbs (get "/") = Some (StatusPage, dbs)
  ∧ ServeHTTP serve dbs (get ("//" ++ key)) = Some (Replied (bare StatusBadRequest), dbs)
  ∧ ∀ m path, m ≠ "GET" ->
      ServeHTTP serve dbs {| rq_Method := m; rq_Path := path; rq_proxy := proxy |}
      = Some (Replied (bare StatusBadRequest), dbs).
Proof.
  intros Hdb Hslash Hkey get missing.
  assert (∀ s, s ≠ "" -> bool_decide (rq_Path (get ("/" ++ s)) = "/") = false) as Hroot.
  { intros s Hs. apply bool_decide_eq_false. cbn. intros ?. by simplify_eq. }
  assert (∀ t, db ++ t ≠ "") as Happ by (intros t [? _]%str_app_eq_nil; done).
  unfold ServeHTTP. split_and!.
  - rewrite bool_decide_false by (intros H; by apply H). rewrite Hroot by apply Happ. cbn [rq_Path get rq_proxy].
    rewrite TrimPrefix_slash. cbn [String.append]. rewrite split_path_key by done. rewrite bool_decide_false by done.
    destruct (dbs !! db) as [mux|]; [|done]. unfold db_serveKey. rewrite bool_decide_false by done.
    rewrite GoM_bind_eq. by destruct (mux_serveKey _ _ _ _) as [[reply mux']|].
  - intros tail Htail. rewrite bool_decide_false by (intros H; by apply H). rewrite Hroot by apply Happ.
    cbn [rq_Path get rq_proxy]. rewrite TrimPrefix_slash.
    assert (split_path (db ++ tail) = (db, "")) as ->.
    { destruct Htail as [->| ->]; [rewrite str_app_nil_r; by apply split_path_db|by apply split_path_key]. }
    rewrite bool_decide_false by done. destruct (dbs !! db) as [mux|] eqn:Em; [|done].
    change (Some (DBStatusPage db, <[db := mux]> dbs) = Some (DBStatusPage db, dbs)). by rewrite insert_id.
  - done.
  - change ("//" ++ key) with ("/" ++ ("/" ++ key)).
    rewrite bool_decide_false by (intros H; by apply H). rewrite (Hroot ("/" ++ key)) by done.
    cbn [rq_Path get rq_proxy]. rewrite (TrimPrefix_slash ("/" ++ key)).
    change ("/" ++ key) with ("" ++ String "/" key). by rewrite split_path_key.
  - intros m path Hm. by rewrite bool_decide_true.
Qed.

(** ** Witnesses and counterexamples *)

Module ServeExample.
Import BlockExample BlockStoreExample BuildExample.
#[local] Existing Instances RingExample.order_string PartitionsExample.order_peer SetCoord.coord SetCoord.laws.

Definition get (proxy : string) : Request := {| rq_Method := "GET"; rq_Path := "/db/key"; rq_proxy := proxy |}.
Definition calm : weather := {| wt_perm := []; wt_request_ok := λ _, true; wt_events := [] |}.

(** A version that holds the partitions [local] out of [n]; a peer has the
    others. *)
Definition holding (n : Z) (local : gset Z) (remote : gmap Z (list string)) (s : BlockStore) : version :=
  {| vs_path := "/data"; vs_name := "v1"; vs_numPartitions := n; vs_blockStore := s;
     vs_partitions := set_places (unpicked (Some (new_peers "shard1" "10.0.0.1:9599")) "db" "v1" n 1) local remote;
     vs_state := versionAvailable; vs_ready := true; vs_built := true |}.

Definition earlier : list (Request * weather * weather * string) :=
  [(get "", calm, calm, "Bob"); (get "v1", calm, calm, "Alice"); (get "", calm, calm, "Alice")].

Lemma serve_local_witness :
  ∃ s w w', addFiles 2 files parts parts (New "/data" 2 SnappyCompression 4096) w0 = Some ((s, None), w)
  ∧ answered (holding 2 parts ∅ s) earlier w = Some w'
  ∧ ∃ reply w'', version_serveKey (holding 2 parts ∅ s) (get "") calm calm "Alice" w' = Some (reply, w'')
    ∧ local_reply (holding 2 parts ∅ s) (files.*2 ≫= file_log 2 parts) "Alice" 0 0 reply.
Proof.
  assert (match addFiles 2 files parts parts (New "/data" 2 SnappyCompression 4096) w0 with
          | Some ((s, None), w) => match answered (holding 2 parts ∅ s) earlier w with Some _ => true | None => false end
          | _ => false end = true) as H by (vm_compute; reflexivity).
  destruct (addFiles 2 files parts parts (New "/data" 2 SnappyCompression 4096) w0) as [[[s [e|]] w]|] eqn:E; [done| |done].
  destruct (answered (holding 2 parts ∅ s) earlier w) as [w'|] eqn:Hw; [|done]. exists s, w, w'. split; [done|]. split; [done|].
  apply (serve_local "/data" 2 SnappyCompression 4096 w0 files parts parts w earlier w' (holding 2 parts ∅ s) (get "") calm calm
           "Alice" 0 0); [done|lia|done|done|exact E|exact Hw|vm_compute; reflexivity|vm_compute; reflexivity].
Defined.

Lemma no_second_hop_witness :
  version_serveKey (holding 2 ∅ ∅ s0) (get "v1") calm calm "Alice" w0
  = version_serveKey (holding 2 ∅ ∅ s0) (get "v1") calm calm "Alice" w0
  ∧ ∀ reply w', version_serveKey (holding 2 ∅ ∅ s0) (get "v1") calm calm "Alice" w0 = Some (reply, w') ->
      rp_proxied reply = None
      ∧ (∀ p a, (2 ≠ 0)%Z -> KeyPartition "Alice" 2 = Some (p, a) ->
         have (vs_partitions (holding 2 ∅ ∅ s0)) p = false -> have (vs_partitions (holding 2 ∅ ∅ s0)) a = false ->
         reply = serveError ∧ w' = w0).
Proof. apply (no_second_hop (holding 2 ∅ ∅ s0) (get "v1") calm calm calm calm "Alice" w0). done. Defined.

Definition places : partitions :=
  vs_partitions (holding 20 ∅ {[ 3%Z := ["10.0.0.2:9599"]; 5%Z := ["10.0.0.3:9599"] ]} s0).
Definition answer404 : weather :=
  {| wt_perm := [0%nat]; wt_request_ok := λ _, true;
     wt_events := [Answer "10.0.0.2:9599" (Ok {| rs_StatusCode := 404; rs_version := "v1"; rs_length := ""; rs_body := "" |})] |}.
Definition answer200 : weather :=
  {| wt_perm := [0%nat]; wt_request_ok := λ _, true;
     wt_events := [StageTimeout; Answer "10.0.0.3:9599" (Ok {| rs_StatusCode := 200; rs_version := "v1"; rs_length := "1"; rs_body := "x" |})] |}.

(** The peer of the first partition answers 404, that of the other 200. *)
Lemma serve_proxied_witness :
  ∃ reply peer resp, serveProxied places answer404 answer200 3 5 = Some reply
  ∧ reply = passed_on resp peer ∧ rs_body resp = "x"
  ∧ ((peer ∈ getPeers places 3 ∧ Answer peer (Ok resp) ∈ wt_events answer404
      ∧ (rs_StatusCode resp = 200 ∨ (rs_StatusCode resp = 404 ∧ 5 = 3))%Z)
     ∨ (retried places answer404 3 5 ∧ peer ∈ getPeers places 5 ∧ Answer peer (Ok resp) ∈ wt_events answer200
        ∧ (rs_StatusCode resp = 200 ∨ rs_StatusCode resp = 404)%Z)).
Proof.
  assert (rp_proxied <$> serveProxied places answer404 answer200 3 5 = Some (Some "10.0.0.3:9599")) as Hp
    by (vm_compute; reflexivity).
  assert (rp_body <$> serveProxied places answer404 answer200 3 5 = Some "x") as Hb by (vm_compute; reflexivity).
  destruct (serveProxied places answer404 answer200 3 5) as [reply|] eqn:E; [|discriminate Hp].
  injection Hp as Hp. injection Hb as Hb.
  assert (fair answer404 (getPeers places 3)) as Hf1 by (unfold fair; reflexivity).
  assert (fair answer200 (getPeers places 5)) as Hf2 by (unfold fair; reflexivity).
  pose proof (serve_proxied places answer404 answer200 3 5 reply (NoDup_singleton _) (NoDup_singleton _) Hf1 Hf2 E) as H.
  rewrite Hp in H. destruct H as (resp & Hr & H). exists reply, "10.0.0.3:9599", resp. split; [reflexivity|].
  split; [exact Hr|]. split; [rewrite Hr in Hb; exact Hb|exact H].
Defined.

Lemma mux_serveKey_ok_witness :
  ∃ m', mux_serveKey (λ v _ _, serveNotFound (v_name v)) (get "") "key" (s_mux (sys_init 0))
        = Some (bare StatusNotFound, m')
  ∧ versions m' = versions (s_mux (sys_init 0)) ∧ currentVersion m' = currentVersion (s_mux (sys_init 0))
  ∧ sys_ok (Sys m' [] None ∅).
Proof.
  apply (mux_serveKey_ok (λ v _ _, serveNotFound (v_name v)) (get "") "key" (s_mux (sys_init 0)) [] None ∅).
  apply sys_init_ok.
Defined.

Lemma ServeHTTP_routes_witness :
  ServeHTTP (λ v _ _, serveNotFound (v_name v)) {[ "db" := s_mux (sys_init 0) ]}
    {| rq_Method := "GET"; rq_Path := "/"; rq_proxy := "" |} = Some (StatusPage, {[ "db" := s_mux (sys_init 0) ]}).
Proof.
  apply (ServeHTTP_routes (λ v _ _, serveNotFound (v_name v)) {[ "db" := s_mux (sys_init 0) ]} "db" "a/b" ""); done.
Defined.

(** The status and body of a lookup in a store filled from [fs]. *)
Definition lookup (n : Z) (fs : list (bool * opened_file)) (local : gset Z) (remote : gmap Z (list string))
    (key : string) : option (Z * string) :=
  match addFiles n fs local local (New "/data" n SnappyCompression 4096) w0 with
  | Some ((s, None), w) =>
      match version_serveKey (holding n local remote s) (get "") calm calm key w with
      | Some (reply, _) => Some (rp_status reply, rp_body reply)
      | None => None
      end
  | _ => None
  end.

Definition file (records : log) : bool * opened_file :=
  (false, Opened {| rd_keyClass := TextClassName; rd_valueClass := TextClassName;
                    rd_records := (λ kv, (write_text kv.1, write_text kv.2)) <$> records; rd_err := None |}).

(** A key that is absent gets a 500 instead of a 404 when it falls into a
    partition of which the data set has no record, although the node holds that
    partition: the store has no entry for the partition and reports it as not
    found. *)
Theorem empty_partition_500 :
  lookup 2 [file [("Alice", "Practice")]; file []] {[ 0%Z; 1%Z ]} ∅ "Alice" = Some (200%Z, "Practice")
  ∧ lookup 2 [file [("Alice", "Practice")]; file []] {[ 0%Z; 1%Z ]} ∅ "Bob" = Some (StatusInternalServerError, "").
Proof. split; vm_compute; reflexivity. Qed.

Definition peer_with (p : Z) : gmap Z (list string) := {[ p := ["10.0.0.2:9599"] ]}.

(** A pathological key can be lost to clients.  The key belongs to
    partition 19 by its hash and to partition 11 by its place in the data set.
    The node that holds partition 11 serves it; the node that holds partition
    19 does not have it and answers 404, without asking the peer that
    advertises partition 11. *)
Theorem pathological_404 :
  let fs := [file [("ah", "x"); (pathological_key, "value")]; file [("ap", "y")]] in
  KeyPartition pathological_key 20 = Some (19, 11)%Z
  ∧ lookup 20 fs {[ 11%Z ]} (peer_with 19) pathological_key = Some (200%Z, "value")
  ∧ lookup 20 fs {[ 19%Z ]} (peer_with 11) pathological_key = Some (StatusNotFound, "").
Proof. split_and!; vm_compute; reflexivity. Qed.
End ServeExample.
