(* ===== verification/Url.v ===== *)
(** * The request a node sends to a peer: [newProxyRequest] of proxy.go

    The path of the client's request and the name of the version travel in a
    URL.  This file models the functions of Go's [net/url] and [net/http] that
    write the URL on one node and read it on the other, up to the [Request]
    that [ServeHTTP] of the peer looks at.  User names in URLs and zones of
    IPv6 addresses are not modelled. *)

From Stdlib Require Import ZArith Lia Ascii String.
From stdpp Require Import base list strings.
From S2P Require Import Prelude GoStrings Hashcode Disk Manifest Block BlockStore Consistent Coord Peers Partitions Writable Build VersionMux Proxy Serve.

Open Scope string_scope.
Set Default Proof Using "Type".

(** ** Escaping *)

Definition in_string (c : ascii) (s : string) : bool := has_char c s.

Definition alnum (c : ascii) : bool :=
  in_string c "abcdefghijklmnopqrstuvwxyzABCDEFGHIJKLMNOPQRSTUVWXYZ0123456789".

Inductive encoding := encodePath | encodeHost.

Definition double_quote : ascii := "034".

(** [shouldEscape]. *)
Definition shouldEscape (c : ascii) (mode : encoding) : bool :=
  if alnum c then false
  else
    match mode with
    | encodeHost =>
        if in_string c "!$&'()*+,;=:[]<>" || Ascii.eqb c double_quote then false else negb (in_string c "-_.~")
    | encodePath => negb (in_string c "-_.~$&+,/:;=@")
    end.

Definition upperhex : list ascii :=
  ["0"; "1"; "2"; "3"; "4"; "5"; "6"; "7"; "8"; "9"; "A"; "B"; "C"; "D"; "E"; "F"]%char.

Definition hex_digit (n : nat) : ascii := default "0"%char (upperhex !! n).

Fixpoint escape (s : string) (mode : encoding) : string :=
  match s with
  | "" => ""
  | String c s' =>
      if shouldEscape c mode
      then String "%" (String (hex_digit (nat_of_ascii c / 16)%nat) (String (hex_digit (nat_of_ascii c mod 16)%nat) (escape s' mode)))
      else String c (escape s' mode)
  end.

(** The value of a hexadecimal digit. *)
Definition unhex (c : ascii) : option nat :=
  (let n := nat_of_ascii c in
  if (48 <=? n) && (n <=? 57) then Some (n - 48)
  else if (97 <=? n) && (n <=? 102) then Some (n - 87)
  else if (65 <=? n) && (n <=? 70) then Some (n - 55)
  else None)%nat.

(** [unescape] for paths, and for the parts of a query, where a plus is a
    space. *)
Fixpoint unescape (query : bool) (s : string) : option string :=
  match s with
  | "" => Some ""
  | String c s1 =>
      if Ascii.eqb c "%" then
        match s1 with
        | String a (String b s2) =>
            x ← unhex a; y ← unhex b; t ← unescape query s2; Some (String (ascii_of_nat (16 * x + y)%nat) t)
        | _ => None
        end
      else t ← unescape query s1; Some (String (if query && Ascii.eqb c "+" then " "%char else c) t)
  end.

(** For hosts: [%25] and bytes that are not ASCII may be escaped, and what has
    to be escaped may not stand there. *)
Fixpoint unescape_host (s : string) : option string :=
  match s with
  | "" => Some ""
  | String c s1 =>
      if Ascii.eqb c "%" then
        match s1 with
        | String a (String b s2) =>
            x ← unhex a; y ← unhex b;
            if (x <? 8)%nat && negb ((x =? 2)%nat && (y =? 5)%nat) then None
            else t ← unescape_host s2; Some (String (ascii_of_nat (16 * x + y)%nat) t)
        | _ => None
        end
      else if (nat_of_ascii c <? 128)%nat && shouldEscape c encodeHost then None
      else t ← unescape_host s1; Some (String c t)
  end.

(** ** URLs *)

Record URL := {
  u_Host : string;
  u_Path : string;
  u_RawPath : string;
  u_ForceQuery : bool;
  u_RawQuery : string;
}.

(** [split(s, sep, true)]; the second part is empty without a separator. *)
Fixpoint cut (sep : ascii) (s : string) : string * string :=
  match s with
  | "" => ("", "")
  | String c s' => if Ascii.eqb c sep then ("", s') else let '(a, b) := cut sep s' in (String c a, b)
  end.

(** [split(s, "/", false)]: the slash stays with the second part. *)
Fixpoint cut_path (s : string) : string * string :=
  match s with
  | "" => ("", "")
  | String c s' => if Ascii.eqb c "/" then ("", s) else let '(a, b) := cut_path s' in (String c a, b)
  end.

Fixpoint valid_chars (ok : ascii -> bool) (s : string) : bool :=
  match s with
  | "" => true
  | String c s' => ok c && valid_chars ok s'
  end.

Definition validEncodedPath (s : string) : bool :=
  valid_chars (λ c, in_string c "!$&'()*+,;=:@[]%" || negb (shouldEscape c encodePath)) s.

Definition EscapedPath (u : URL) : string :=
  if bool_decide (u_RawPath u ≠ "") && validEncodedPath (u_RawPath u)
     && bool_decide (unescape false (u_RawPath u) = Some (u_Path u))
  then u_RawPath u
  else if bool_decide (u_Path u = "*") then "*"
  else escape (u_Path u) encodePath.

Definition query_part (u : URL) : string :=
  if u_ForceQuery u || bool_decide (u_RawQuery u ≠ "") then "?" ++ u_RawQuery u else "".

(** [URL.String] with the scheme http and a host. *)
Definition url_String (u : URL) : string :=
  let path := EscapedPath u in
  "http://" ++ escape (u_Host u) encodeHost
  ++ (if bool_decide (path ≠ "") && negb (HasPrefix path "/") && bool_decide (u_Host u ≠ "") then "/" else "")
  ++ path ++ query_part u.

(** The part of [parse] that splits off the query. *)
Definition split_query (rest : string) : string * bool * string :=
  if HasSuffix rest "?" && negb (has_char "?" (TrimSuffix rest "?")) then (TrimSuffix rest "?", true, "")
  else let '(a, b) := cut "?" rest in (a, false, b).

Definition setPath (host p : string) (force : bool) (query : string) : option URL :=
  path ← unescape false p;
  Some {| u_Host := host; u_Path := path; u_RawPath := if bool_decide (p = escape path encodePath) then "" else p;
          u_ForceQuery := force; u_RawQuery := query |}.

Definition validOptionalPort (port : string) : bool :=
  match port with
  | "" => true
  | String c port' => Ascii.eqb c ":" && valid_chars (λ d, in_string d "0123456789") port'
  end.

Definition parseHost (host : string) : option string :=
  if HasPrefix host "[" then
    match reverse (split "]" host) with
    | colonPort :: _ :: _ => if validOptionalPort colonPort then unescape_host host else None
    | _ => None
    end
  else unescape_host host.

(** [url.Parse] of an address that starts with [http://]. *)
Definition url_Parse_http (rawurl : string) : option URL :=
  let '(s, frag) := cut "#" rawurl in
  _ ← unescape false frag;
  if negb (HasPrefix s "http://") then None
  else
    let '(rest, force, query) := split_query (TrimPrefix s "http://") in
    let '(authority, path) := cut_path rest in
    host ← parseHost authority;
    setPath host path force query.

(** [newProxyRequest]: the URL of the request, or an error. *)
Definition newProxyRequest (vs_name path peer : string) : option URL :=
  url_Parse_http (url_String {| u_Host := peer; u_Path := path; u_RawPath := ""; u_ForceQuery := false;
                                u_RawQuery := "proxy=" ++ vs_name |}).

(** ** The other end *)

(** The request line that the client writes. *)
Definition RequestURI (u : URL) : string :=
  (if bool_decide (EscapedPath u = "") then "/" else EscapedPath u) ++ query_part u.

Definition CRLF : string := String "013" (String "010" "").

Definition write_request (u : URL) : string := "GET " ++ RequestURI u ++ " HTTP/1.1" ++ CRLF.

(** [url.ParseRequestURI] of an absolute path. *)
Definition ParseRequestURI (uri : string) : option URL :=
  if HasPrefix uri "/" then let '(path, force, query) := split_query uri in setPath "" path force query else None.

(** [url.ParseQuery]; parts that do not unescape are left out. *)
Definition query_fields (query : string) : list string := split "&" query ≫= split ";".

Definition parse_field (field : string) : option (string * string) :=
  if bool_decide (field = "") then None
  else let '(k, v) := cut "=" field in k ← unescape true k; v ← unescape true v; Some (k, v).

Definition ParseQuery (query : string) : list (string * string) := omap parse_field (query_fields query).

(** [Values.Get]. *)
Definition query_Get (key : string) (values : list (string * string)) : string :=
  default "" (snd <$> head (filter (λ kv, kv.1 = key) values)).

(** What [ServeHTTP] of the peer is called with; [None] is a 400 of the HTTP
    server. *)
Definition read_request (text : string) : option Request :=
  let '(line, _) := cut "010" text in
  let '(method, rest) := cut " " (TrimSuffix line (String "013" "")) in
  let '(uri, proto) := cut " " rest in
  if bool_decide (proto = "HTTP/1.1") then
    u ← ParseRequestURI uri;
    Some {| rq_Method := method; rq_Path := u_Path u; rq_proxy := query_Get "proxy" (ParseQuery (u_RawQuery u)) |}
  else None.

(** ** Round trip *)

Lemma cut_app sep a b : has_char sep a = false -> cut sep (a ++ String sep b) = (a, b).
Proof.
  induction a as [|c a IH]; cbn; [by rewrite Ascii.eqb_refl|]. intros [Hc Ha]%orb_false_iff.
  rewrite IH by done. destruct (Ascii.eqb_spec c sep); [|done]. by rewrite bool_decide_true in Hc.
Qed.

Lemma cut_none sep a : has_char sep a = false -> cut sep a = (a, "").
Proof.
  induction a as [|c a IH]; cbn; [done|]. intros [Hc Ha]%orb_false_iff.
  rewrite IH by done. destruct (Ascii.eqb_spec c sep); [|done]. by rewrite bool_decide_true in Hc.
Qed.

Lemma cut_path_app a b : has_char "/" a = false -> cut_path (a ++ String "/" b) = (a, String "/" b).
Proof.
  induction a as [|c a IH]; cbn; [done|]. intros [Hc Ha]%orb_false_iff.
  rewrite IH by done. destruct (Ascii.eqb_spec c "/"); [|done]. by rewrite bool_decide_true in Hc.
Qed.

Definition hex_char (c : ascii) : bool := in_string c "0123456789ABCDEF%".

Lemma hex_digit_char n : hex_char (hex_digit n) = true.
Proof. do 17 (destruct n as [|n]; [reflexivity|]). reflexivity. Qed.

(** What is always escaped does not occur in the result. *)
Lemma escape_no_char c s mode : shouldEscape c mode = true -> hex_char c = false -> has_char c (escape s mode) = false.
Proof.
  intros Hc Hx. assert (∀ n, bool_decide (hex_digit n = c) = false) as Hd.
  { intros n. apply bool_decide_eq_false. intros <-. by rewrite hex_digit_char in Hx. }
  induction s as [|d s IH]; [done|]. cbn [escape]. destruct (shouldEscape d mode) eqn:E; cbn [has_char]; rewrite IH.
  - rewrite !Hd, !orb_false_r. apply bool_decide_eq_false. intros <-. done.
  - rewrite orb_false_r. apply bool_decide_eq_false. congruence.
Qed.

Lemma unescape_escape s query : (query = true -> has_char "+" s = false) -> unescape query (escape s encodePath) = Some s.
Proof.
  intros Hq. induction s as [|c s IH]; [done|]. cbn [escape].
  assert (query = true -> bool_decide (c = "+"%char) = false ∧ has_char "+" s = false) as Hq'
    by (intros ->; apply orb_false_iff; by apply Hq).
  destruct (shouldEscape c encodePath) eqn:E.
  - cbn [unescape]. rewrite Ascii.eqb_refl, IH by (intros; by apply Hq'). 
    assert (unhex (hex_digit (nat_of_ascii c / 16)) = Some (nat_of_ascii c / 16)%nat
            ∧ unhex (hex_digit (nat_of_ascii c mod 16)) = Some (nat_of_ascii c mod 16)%nat) as [-> ->]
      by (destruct c as [[] [] [] [] [] [] [] []]; split; reflexivity).
    cbn [mbind option_bind]. do 2 f_equal. rewrite <- (ascii_nat_embedding c) at 3. f_equal.
    symmetry. apply Nat.div_mod_eq.
  - cbn [unescape]. destruct (Ascii.eqb_spec c "%") as [->|_]; [done|]. rewrite IH by (intros; by apply Hq').
    cbn [mbind option_bind]. do 2 f_equal. destruct query; [|done]. destruct Hq' as [Hc _]; [done|].
    destruct (Ascii.eqb_spec c "+"); [by rewrite bool_decide_true in Hc|done].
Qed.

Lemma setPath_escape host path force query :
  setPath host (escape path encodePath) force query
  = Some {| u_Host := host; u_Path := path; u_RawPath := ""; u_ForceQuery := force; u_RawQuery := query |}.
Proof. unfold setPath. rewrite unescape_escape by done. cbn. by rewrite bool_decide_true. Qed.

(** A version name that is safe in a query: none of the characters that have a
    meaning there. *)
Definition plain_name (name : string) : bool :=
  valid_chars (λ c, negb (in_string c "#&;%+ ") && negb (Ascii.eqb c "010") && negb (Ascii.eqb c "013")) name.

Lemma plain_no_char name c :
  plain_name name = true -> in_string c "#&;%+ " || Ascii.eqb c "010" || Ascii.eqb c "013" = true -> has_char c name = false.
Proof.
  intros Hn Hc. unfold plain_name in Hn. induction name as [|d name IH]; [done|].
  cbn [valid_chars has_char] in *. apply andb_true_iff in Hn as [Hd Hn]. rewrite IH, orb_false_r by done.
  apply bool_decide_eq_false. intros ->.
  destruct (in_string c "#&;%+ "), (Ascii.eqb c "010"), (Ascii.eqb c "013"); done.
Qed.

Lemma unescape_plain query name : plain_name name = true -> unescape query name = Some name.
Proof.
  intros Hn. assert (has_char "%" name = false ∧ has_char "+" name = false) as [Hp Hq] by (split; by apply plain_no_char).
  clear Hn. induction name as [|c name IH]; [done|]. cbn [has_char] in Hp, Hq.
  apply orb_false_iff in Hp as [Hc Hp], Hq as [Hc' Hq]. cbn [unescape].
  destruct (Ascii.eqb_spec c "%"); [by rewrite bool_decide_true in Hc|]. rewrite IH by done. cbn [mbind option_bind].
  destruct (Ascii.eqb_spec c "+"); [by rewrite bool_decide_true in Hc'|]. by rewrite andb_false_r.
Qed.

Lemma split_query_app path query :
  has_char "?" path = false -> query ≠ "" -> split_query (path ++ String "?" query) = (path, false, query).
Proof.
  intros Hp Hq. unfold split_query. rewrite cut_app by done.
  destruct (HasSuffix (path ++ String "?" query) "?") eqn:Es; [|done].
  apply HasSuffix_inv in Es as Heq. destruct (str_last query Hq) as (q & c & ->).
  replace (path ++ String "?" (q ++ String c "")) with ((path ++ String "?" q) ++ String c "") in Heq at 1
    by by rewrite str_app_assoc.
  apply str_snoc_inj in Heq as [Heq _]. rewrite <- Heq, has_char_app. cbn [has_char].
  rewrite bool_decide_true by done. cbn. by rewrite orb_true_r.
Qed.

(** The URL [newProxyRequest] makes for an absolute path. *)
Definition proxy_url (vs_name path peer : string) : URL :=
  {| u_Host := peer; u_Path := path; u_RawPath := ""; u_ForceQuery := false; u_RawQuery := "proxy=" ++ vs_name |}.

Lemma EscapedPath_abs name p peer : EscapedPath (proxy_url name ("/" ++ p) peer) = "/" ++ escape p encodePath.
Proof. reflexivity. Qed.

Lemma escape_no_meaning c p : in_string c "# ?" || Ascii.eqb c "010" || Ascii.eqb c "013" = true -> has_char c (escape p encodePath) = false.
Proof.
  intros H. apply escape_no_char; destruct c as [[] [] [] [] [] [] [] []]; cbn in *; done.
Qed.

Lemma newProxyRequest_abs name p peer :
  has_char "#" name = false ->
  newProxyRequest name ("/" ++ p) peer
  = match parseHost (escape peer encodeHost) with
    | Some host => Some (proxy_url name ("/" ++ p) host)
    | None => None
    end.
Proof.
  intros Hname. unfold newProxyRequest, url_String. fold (proxy_url name ("/" ++ p) peer). rewrite EscapedPath_abs.
  assert (∀ c, shouldEscape c encodeHost = true -> hex_char c = false -> has_char c (escape peer encodeHost) = false) as Hh
    by (intros; by apply escape_no_char).
  cbn [u_Host proxy_url]. rewrite bool_decide_true by done. rewrite (HasPrefix_app "/" (escape p encodePath)). cbn [andb negb].
  unfold query_part. cbn [u_ForceQuery u_RawQuery]. cbn [orb]. rewrite bool_decide_true by done.
  set (rest := escape peer encodeHost ++ "/" ++ escape p encodePath ++ "?" ++ "proxy=" ++ name).
  change (url_Parse_http ("http://" ++ rest) = match parseHost (escape peer encodeHost) with
    Some host => Some (proxy_url name ("/" ++ p) host) | None => None end).
  unfold url_Parse_http. rewrite cut_none.
  2:{ unfold rest. rewrite !has_char_app, Hh, (escape_no_meaning "#" p), Hname by done. done. }
  cbn [unescape mbind option_bind]. rewrite HasPrefix_app, TrimPrefix_app. cbn [negb].
  replace rest with ((escape peer encodeHost ++ String "/" (escape p encodePath)) ++ String "?" ("proxy=" ++ name))
    by (unfold rest; by rewrite !str_app_assoc).
  rewrite split_query_app.
  2:{ rewrite has_char_app, Hh by done. cbn [has_char orb]. by rewrite (escape_no_meaning "?" p). }
  2:{ done. }
  rewrite cut_path_app by by apply Hh. destruct (parseHost _) as [host|]; [|done]. cbn [mbind option_bind].
  change (String "/" (escape p encodePath)) with (escape ("/" ++ p) encodePath). by rewrite setPath_escape.
Qed.

Lemma ParseQuery_proxy name : plain_name name = true -> query_Get "proxy" (ParseQuery ("proxy=" ++ name)) = name.
Proof.
  intros Hn. unfold ParseQuery, query_fields.
  rewrite split_no_sep by (rewrite has_char_app; cbn; by apply plain_no_char). cbn [mbind list_bind].
  rewrite split_no_sep by (rewrite has_char_app; cbn; by apply plain_no_char).
  rewrite app_nil_r. cbn [omap list_omap]. unfold parse_field. rewrite bool_decide_false by done.
  change ("proxy=" ++ name) with ("proxy" ++ String "=" name). rewrite cut_app by done.
  rewrite (unescape_plain true name) by done. done.
Qed.

Lemma read_write name p peer :
  plain_name name = true ->
  read_request (write_request (proxy_url name ("/" ++ p) peer))
  = Some {| rq_Method := "GET"; rq_Path := "/" ++ p; rq_proxy := name |}.
Proof.
  intros Hn. unfold write_request, RequestURI. rewrite EscapedPath_abs. rewrite bool_decide_false by done.
  unfold query_part. cbn [u_ForceQuery u_RawQuery proxy_url orb]. rewrite bool_decide_true by done.
  set (uri := ("/" ++ escape p encodePath) ++ "?" ++ "proxy=" ++ name).
  assert (∀ c, in_string c " " || Ascii.eqb c "010" || Ascii.eqb c "013" = true -> has_char c uri = false) as Hu.
  { intros c Hc. unfold uri. rewrite !has_char_app. rewrite (escape_no_meaning c p), (plain_no_char name c Hn).
    - destruct c as [[] [] [] [] [] [] [] []]; cbn in Hc; done.
    - destruct c as [[] [] [] [] [] [] [] []]; cbn in Hc; done.
    - destruct c as [[] [] [] [] [] [] [] []]; cbn in Hc; done. }
  unfold read_request.
  replace ("GET " ++ uri ++ " HTTP/1.1" ++ CRLF)
    with (("GET " ++ uri ++ " HTTP/1.1" ++ String "013" "") ++ String "010" "") by by rewrite !str_app_assoc.
  rewrite cut_app by (rewrite !has_char_app, Hu by done; done).
  replace ("GET " ++ uri ++ " HTTP/1.1" ++ String "013" "") with (("GET " ++ uri ++ " HTTP/1.1") ++ String "013" "")
    by by rewrite !str_app_assoc.
  rewrite TrimSuffix_app. change ("GET " ++ uri ++ " HTTP/1.1") with ("GET" ++ String " " (uri ++ String " " "HTTP/1.1")).
  rewrite cut_app by done. rewrite cut_app by by apply Hu. rewrite bool_decide_true by done.
  unfold ParseRequestURI. unfold uri at 1. rewrite str_app_assoc, HasPrefix_app.
  change (uri) with (("/" ++ escape p encodePath) ++ String "?" ("proxy=" ++ name)).
  rewrite split_query_app by (by rewrite ?has_char_app, ?(escape_no_meaning "?" p)).
  change ("/" ++ escape p encodePath) with (escape ("/" ++ p) encodePath). rewrite setPath_escape. cbn [mbind option_bind u_Path u_RawQuery].
  by rewrite ParseQuery_proxy.
Qed.

(** What the peer reads does not depend on how it was reached. *)
Lemma proxied_request name p peer u :
  plain_name name = true -> newProxyRequest name ("/" ++ p) peer = Some u ->
  read_request (write_request u) = Some {| rq_Method := "GET"; rq_Path := "/" ++ p; rq_proxy := name |}.
Proof.
  intros Hn H. rewrite newProxyRequest_abs in H by by apply plain_no_char.
  destruct (parseHost _); [|done]. simplify_eq. by apply read_write.
Qed.

(** C18: a proxied request arrives as it was meant.  For every path (any bytes
    after the slash) and every address that [net/url] accepts, the peer's
    [ServeHTTP] sees the path of the client's request and, if the name has none
    of the characters [#], [&], [;], [%], [+], space and line ends, the name of
    the version that sent it. *)
Theorem proxy_request_roundtrip name p peer :
  parseHost (escape peer encodeHost) = Some peer -> plain_name name = true ->
  ∃ u, newProxyRequest name ("/" ++ p) peer = Some u ∧ u_Host u = peer
  ∧ read_request (write_request u) = Some {| rq_Method := "GET"; rq_Path := "/" ++ p; rq_proxy := name |}.
Proof.
  intros Hpeer Hn. exists (proxy_url name ("/" ++ p) peer). split; [|split; [done|by apply read_write]].
  rewrite newProxyRequest_abs by by apply plain_no_char. by rewrite Hpeer.
Qed.

Module UrlExample.
Definition strange_path : string := "db/a key?#%/" ++ String "010" "é".

Lemma proxy_request_roundtrip_witness :
  ∃ u, newProxyRequest "2016-01-01" ("/" ++ strange_path) "[::1]:9599" = Some u ∧ u_Host u = "[::1]:9599"
  ∧ read_request (write_request u)
    = Some {| rq_Method := "GET"; rq_Path := "/" ++ strange_path; rq_proxy := "2016-01-01" |}.
Proof. apply (proxy_request_roundtrip "2016-01-01" strange_path "[::1]:9599"); vm_compute; reflexivity. Defined.

(** What the peer sees for a version name. *)
Definition seen_name (name : string) : option string :=
  u ← newProxyRequest name "/db/key" "10.0.0.2:9599"; r ← read_request (write_request u); Some (rq_proxy r).

(** The name of the version is put into the query as it is: other names arrive
    changed; one that ends in a percent sign is lost, so that the peer takes
    the request for a client's; and with a space in it the request is
    malformed. *)
Theorem proxy_name_changed :
  seen_name "v1" = Some "v1" ∧ seen_name "1+1" = Some "1 1" ∧ seen_name "a&b" = Some "a" ∧ seen_name "a#b" = Some "a"
  ∧ seen_name "%41" = Some "A" ∧ seen_name "50%" = Some "" ∧ seen_name "#1" = Some "" ∧ seen_name "my version" = None.
Proof. vm_compute. done. Qed.
End UrlExample.
