(* ===== verification/Cluster.v ===== *)
(** * A cluster: the answer to a client, through two nodes

    A client asks one node.  The node answers from its own store, or sends the
    request to peers, which read it off the wire and answer from their stores.
    This file composes the components: what was loaded from the files of a
    version ([Build.v]), the lookups ([Serve.v]), the request to the peer
    ([Url.v]), its routing there, and the way back ([Proxy.v]).  The nodes may
    be at different versions, and may have loaded different partitions. *)

From Stdlib Require Import ZArith Lia Ascii String.
From stdpp Require Import base gmap sets list strings fin_maps.
From S2P Require Import Prelude GoStrings Hashcode Disk Manifest Block BlockStore Consistent Coord Peers Partitions Writable Build VersionMux Proxy Serve Url.

Open Scope string_scope.

(** ** The data of a version *)

(** The files of a version and the records they hold. *)
Record dataset := Dataset {
  ds_files : list opened_file;
  ds_records : list log;
}.

Definition file_data (f : opened_file) (recs : log) : Prop :=
  ∃ r, f = Opened r
  ∧ Forall2 (λ kv x, unwrapKeyValue (rd_keyClass r) (rd_valueClass r) kv = Ok x) (rd_records r) recs.

Definition dataset_ok (d : dataset) : Prop := Forall2 file_data (ds_files d) (ds_records d).

Definition ds_num (d : dataset) : Z := Z.of_nat (length (ds_files d)).

(** A file is the output of one partition, as far as one can tell: the hash of
    some keys leaves two partitions possible.  A long file does not start with
    such keys only. *)
Definition well_partitioned (n : Z) (recs : log) : Prop :=
  ∃ q, Forall (may_be n q) recs
  ∧ ((Z.of_nat (length recs) <= 5001)%Z ∨ ∃ kv, kv ∈ take (Z.to_nat 5002) recs ∧ KeyPartition kv.1 n = Some (q, q)).

(** The partition of the key is certain. *)
Definition certain (key : string) (n : Z) : Prop := ∃ p, KeyPartition key n = Some (p, p).

Lemma no_guess n : guess_ok n [] no_assumption.
Proof. intros _. by left. Qed.

Lemma file_log_sound n parts f recs kv :
  (0 < n < 2 ^ 62)%Z -> file_data f recs -> kv ∈ file_log n parts f -> kv ∈ recs.
Proof.
  intros Hn (r & -> & Hall) Hin.
  destruct (select_spec n parts _ _ _ recs [] no_assumption Hn (no_guess n) Hall) as [Hs _]. by apply Hs.
Qed.

Lemma file_log_complete n parts f recs kv p :
  (0 < n < 2 ^ 62)%Z -> file_data f recs -> well_partitioned n recs ->
  KeyPartition kv.1 n = Some (p, p) -> p ∈ parts -> kv ∈ recs -> kv ∈ file_log n parts f.
Proof.
  intros Hn (r & -> & Hall) (q' & Hq' & Hlong) HK Hp Hin.
  destruct (select_spec n parts _ _ _ recs [] no_assumption Hn (no_guess n) Hall) as [_ [Hc|(q & m & Hq & Hm & Hlen & Hf)]].
  { apply Hc; [done|]. by exists p. }
  exfalso. cbn [app] in Hlen, Hf. destruct Hlong as [?|(kv' & Hkv' & HK')]; [lia|].
  rewrite Forall_forall in Hq', Hf. destruct (Hq' kv Hin) as (? & ? & E & Hor).
  destruct (Hf kv') as (? & ? & E' & Hor').
  - assert (take (Z.to_nat 5002) recs = take (Z.to_nat 5002) (take m recs)) as Ht by (rewrite take_take; f_equal; lia).
    rewrite Ht in Hkv'. apply elem_of_take in Hkv' as (i & Hi & _). by eapply list_elem_of_lookup_2.
  - rewrite HK in E. rewrite HK' in E'. simplify_eq. destruct Hor as [->| ->], Hor' as [->| ->]; done.
Qed.

(** ** Nodes *)

Section cluster.
Context {D : Disk} {L : DiskLaws D} {SP : SyncPool HashIter} {U : Uuid} {MZ : MapOrder Z}.

(** The versions of the database, by name. *)
Context (data : string -> option dataset).

(** A node has loaded its share of the version, may have been restarted, and has
    answered any number of requests since; the partitions it says it has were loaded. *)
Definition loaded (d : dataset) (vs : version) (w : world) : Prop :=
  ∃ path c sz w0 files parts selected s w1 w2 before,
    path ≠ "" ∧ files.*2 = ds_files d ∧ files ≠ []
    ∧ addFiles (ds_num d) files parts selected (New path (ds_num d) c sz) w0 = Some ((s, None), w1)
    ∧ ((vs_blockStore vs = s ∧ w2 = w1) ∨ ∃ m, NewFromManifest path w1 = Some (Ok (vs_blockStore vs, m), w2))
    ∧ answered vs before w2 = Some w
    ∧ ∀ p, have (vs_partitions vs) p = true -> p ∈ parts.

Definition version_ok (vs : version) (w : world) : Prop :=
  ∃ d, data (vs_name vs) = Some d ∧ dataset_ok d ∧ vs_numPartitions vs = ds_num d ∧ (ds_num d < 2 ^ 62)%Z
  ∧ (ds_files d = [] ∨ loaded d vs w).

(** What a client may be told about a key.  A reply that names a version gives
    a value that this version has for the key, or is a 404; and that, if the
    partition of the key is certain and the files are well partitioned, only
    for a key which the version does not have. *)
Definition truthful (key : string) (reply : Reply) : Prop :=
  match rp_version reply with
  | None => rp_status reply ∈ [500; 502; 504]%Z
  | Some name =>
      ∃ d, data name = Some d
      ∧ ((rp_status reply = 200%Z ∧ (key, rp_body reply) ∈ mjoin (ds_records d))
         ∨ (rp_status reply = 404%Z
            ∧ (certain key (ds_num d) -> Forall (well_partitioned (ds_num d)) (ds_records d) ->
               key ∉ (mjoin (ds_records d)).*1)))
  end.

Lemma truthful_bare key status : status ∈ [500; 502; 504]%Z -> truthful key (bare status).
Proof. done. Qed.

Lemma kept_sound d parts kv :
  (0 < ds_num d < 2 ^ 62)%Z -> dataset_ok d -> kv ∈ ds_files d ≫= file_log (ds_num d) parts -> kv ∈ mjoin (ds_records d).
Proof.
  intros Hn Hd Hin. apply list_elem_of_bind in Hin as (f & Hkv & Hf). apply list_elem_of_lookup in Hf as [i Hi].
  destruct (Forall2_lookup_l _ _ _ _ _ Hd Hi) as (recs & Hr & Hfd). apply list_elem_of_join. exists recs.
  split; [by eapply file_log_sound|by eapply list_elem_of_lookup_2].
Qed.

Lemma kept_complete d parts key p :
  (0 < ds_num d < 2 ^ 62)%Z -> dataset_ok d -> Forall (well_partitioned (ds_num d)) (ds_records d) ->
  KeyPartition key (ds_num d) = Some (p, p) -> p ∈ parts ->
  log_map (ds_files d ≫= file_log (ds_num d) parts) !! key = None -> key ∉ (mjoin (ds_records d)).*1.
Proof.
  intros Hn Hd Hw HK Hp Hnone Hin. apply list_elem_of_fmap in Hin as ([k v] & -> & Hin). cbn in *.
  apply list_elem_of_join in Hin as (recs & Hin & Hr). apply list_elem_of_lookup in Hr as [i Hi].
  destruct (Forall2_lookup_r _ _ _ _ _ Hd Hi) as (f & Hf & Hfd).
  assert ((k, v) ∈ ds_files d ≫= file_log (ds_num d) parts) as Hkept.
  { apply list_elem_of_bind. exists f. split; [|by eapply list_elem_of_lookup_2].
    eapply (file_log_complete _ _ _ _ (k, v)); try done. rewrite Forall_forall in Hw. by eapply Hw, list_elem_of_lookup_2. }
  destruct (log_map_elem (ds_files d ≫= file_log (ds_num d) parts) k) as [v' Hv']; [|congruence].
  apply list_elem_of_fmap. by exists (k, v).
Qed.

(** The version itself: no records, a lookup, an answer that is passed on, or
    an error. *)
Lemma version_truthful vs (w : world) r w1 w2 key reply w' :
  version_ok vs w -> version_serveKey vs r w1 w2 key w = Some (reply, w') ->
  (rq_proxy r = "" -> ∀ resp peer, (rs_StatusCode resp = 200 ∨ rs_StatusCode resp = 404)%Z ->
     Answer peer (Ok resp) ∈ wt_events w1 ∨ Answer peer (Ok resp) ∈ wt_events w2 ->
     truthful key (passed_on resp peer)) ->
  truthful key reply.
Proof.
  intros (d & Hd & Hdok & Hnum & Hmax & Hload) H Hpeers. destruct Hload as [Hnil|Hload].
  { assert (ds_num d = 0%Z) as H0 by (unfold ds_num; by rewrite Hnil).
    unfold version_serveKey in H. rewrite Hnum, H0 in H. cbn in H. simplify_eq. unfold truthful. cbn. exists d. split; [done|]. right. split; [done|]. intros _ _. destruct d as [files recs]. cbn in *. subst files.
    apply Forall2_nil_inv_l in Hdok. cbn in Hdok. subst recs. apply not_elem_of_nil. }
  destruct Hload as (path & c & sz & w0 & files & parts & selected & s & wl & wr & before & Hp & Hfiles & Hne & Hload & Hopen & Hans & Hparts).
  assert (0 < ds_num d < 2 ^ 62)%Z as Hn.
  { split; [|done]. unfold ds_num. rewrite <- Hfiles, length_fmap. destruct files; [done|]. cbn. lia. }
  assert (holds (vs_numPartitions vs) (ds_files d ≫= file_log (ds_num d) parts) (vs_blockStore vs) wr) as Hh.
  { rewrite Hnum, <- Hfiles. destruct Hopen as [[-> ->]|[m Hm]]; [by eapply loaded_holds|by eapply reloaded_holds]. }
  eapply answered_holds in Hans; [|exact Hh].
  destruct (KeyPartition_total key (vs_numPartitions vs)) as (p & a & HK & _); [by rewrite Hnum|].
  destruct (have (vs_partitions vs) p || have (vs_partitions vs) a) eqn:Eh.
  - destruct (held_reply vs _ w r w1 w2 key p a Hans HK Eh) as (reply' & w3 & H' & _ & _ & Hcases). simplify_eq.
    rewrite Hnum in HK. destruct Hcases as [(v & Hv & Hs & Hb & Hver & _)|[[Hnone ->]|[-> _]]].
    + unfold truthful. rewrite Hver. exists d. split; [done|]. left. split; [done|]. rewrite Hb.
      eapply kept_sound; [done|done|]. by apply log_map_in.
    + unfold truthful. cbn. exists d. split; [done|]. right. split; [done|]. intros [p' HK'] Hw. rewrite HK in HK'. simplify_eq.
      eapply kept_complete; [done..| |exact Hnone]. apply Hparts. by rewrite orb_diag in Eh.
    + apply truthful_bare. set_solver.
  - unfold version_serveKey in H. rewrite (proj2 (Z.eqb_neq _ _)), HK in H by lia. cbn in H. rewrite Eh in H.
    case_bool_decide as Hr; [|simplify_eq; apply truthful_bare; set_solver].
    destruct (serveProxied _ _ _ _ _) as [reply'|] eqn:E; [|done]. cbn in H. simplify_eq.
    apply serveProxied_inv in E as [(resp & peer & -> & Hst & Hin)|[->|[->| ->]]];
      [by apply Hpeers|apply truthful_bare; set_solver..].
Qed.

(** A node answers a request with the versions it has. *)
Definition node_replies (peers_ok : version -> weather -> Prop) (r : Request) (key : string) (o : routed) : Prop :=
  ∃ serve dbs dbs', ServeHTTP serve dbs r = Some (o, dbs')
  ∧ ∀ v, ∃ vs w w1 w2 w', version_ok vs w ∧ peers_ok vs w1 ∧ peers_ok vs w2
                          ∧ version_serveKey vs r w1 w2 key w = Some (serve v r key, w').

(** The headers, the status and the body that cross the wire. *)
Definition response_of (reply : Reply) : Response :=
  {| rs_StatusCode := rp_status reply; rs_version := default "" (rp_version reply);
     rs_length := default "" (rp_length reply); rs_body := rp_body reply |}.

(** Peers are nodes of the same kind: what they answer is what their
    [ServeHTTP] replied to the request that [newProxyRequest] sent. *)
Definition peers_answer (db key : string) (vs : version) (w : weather) : Prop :=
  ∀ peer resp, Answer peer (Ok resp) ∈ wt_events w ->
  ∃ u r reply, newProxyRequest (vs_name vs) ("/" ++ db ++ "/" ++ key) peer = Some u
  ∧ read_request (write_request u) = Some r
  ∧ node_replies (λ _ _, True) r key (Replied reply) ∧ resp = response_of reply.

(** The reply of a peer to a proxied request, seen through the proxying node. *)
Lemma peer_truthful db key name reply peer :
  db ≠ "" -> has_char "/" db = false -> key ≠ "" -> name ≠ "" ->
  node_replies (λ _ _, True) {| rq_Method := "GET"; rq_Path := "/" ++ db ++ "/" ++ key; rq_proxy := name |} key (Replied reply) ->
  (rp_status reply = 200 ∨ rp_status reply = 404)%Z -> truthful key (passed_on (response_of reply) peer).
Proof.
  intros Hdb Hs Hkey Hname (serve & dbs & dbs' & Hhttp & Hserve) Hst.
  apply ServeHTTP_key_inv in Hhttp as (reply' & [= <-] & [[v ->]| ->]); [| |done..].
  - destruct (Hserve v) as (vs & w & w1 & w2 & w' & Hok & _ & _ & Hv).
    eapply version_truthful in Hv; [|done|by intros E; destruct (Hname E)]. clear Hserve.
    generalize dependent (serve v {| rq_Method := "GET"; rq_Path := "/" ++ db ++ "/" ++ key; rq_proxy := name |} key).
    intros reply Hst Hv. unfold truthful in *. cbn. destruct (rp_version reply) as [n|]; [done|]. exfalso.
    rewrite !elem_of_cons, elem_of_nil in Hv. lia.
  - rewrite bool_decide_true in Hst by done. cbn in Hst. naive_solver.
Qed.

(** C1: a cluster tells the truth.  A client asks any node for a key; the node
    answers from its own store or passes the request to peers, at whatever
    versions the nodes are (their names are not empty and have no character that
    a URL's query would change).  If the reply names a version, its body is a value
    that the data of that version has for the key (200), or it is a 404, and
    then, if the partition of the key is certain and the files of the version
    are well partitioned, the version does not have the key.  All other replies
    are errors, and a 404 without a version for a database that has none. *)
Theorem cluster_truthful db key o :
  db ≠ "" -> has_char "/" db = false -> key ≠ "" ->
  (∀ name d, data name = Some d -> plain_name name = true ∧ name ≠ "") ->
  node_replies (peers_answer db key) {| rq_Method := "GET"; rq_Path := "/" ++ db ++ "/" ++ key; rq_proxy := "" |} key o ->
  ∃ reply, o = Replied reply ∧ (truthful key reply ∨ reply = bare StatusNotFound).
Proof.
  intros Hdb Hs Hkey Hnames (serve & dbs & dbs' & Hhttp & Hserve).
  apply ServeHTTP_key_inv in Hhttp as (reply & -> & Hreply); [|done..]. exists reply. split; [done|].
  destruct Hreply as [[v ->]| ->]; [left|by right].
  destruct (Hserve v) as (vs & w & w1 & w2 & w' & Hok & Hp1 & Hp2 & Hv).
  pose proof Hok as (d & Hd & _). destruct (Hnames _ _ Hd) as [Hplain Hne].
  eapply version_truthful; [done|exact Hv|]. intros _ resp peer Hst Hin.
  assert (∃ u r reply, newProxyRequest (vs_name vs) ("/" ++ db ++ "/" ++ key) peer = Some u
    ∧ read_request (write_request u) = Some r
    ∧ node_replies (λ _ _, True) r key (Replied reply) ∧ resp = response_of reply) as (u & r & reply & Hu & Hr & Hn & ->)
    by (destruct Hin as [Hin|Hin]; [by apply Hp1|by apply Hp2]).
  rewrite (proxied_request _ _ _ _ Hplain Hu) in Hr. simplify_eq. eapply (peer_truthful db key (vs_name vs)); done.
Qed.
End cluster.

Module ClusterExample.
Import BlockExample BlockStoreExample BuildExample ServeExample.
#[local] Existing Instances RingExample.order_string PartitionsExample.order_peer SetCoord.coord SetCoord.laws.

Definition d1 : dataset := Dataset files.*2 [records; records].
Definition data (name : string) : option dataset := if bool_decide (name = "v1") then Some d1 else None.

Lemma d1_ok : dataset_ok d1.
Proof. repeat constructor; (exists reader; split; [done|]; repeat (constructor; [reflexivity|]); constructor). Qed.

(** The store of a node that loaded the partitions [ps]. *)
Definition load_parts (ps : gset Z) : BlockStore * world :=
  match addFiles 2 files ps ps (New "/data" 2 SnappyCompression 4096) w0 with
  | Some ((s, None), w) => (s, w)
  | _ => (s0, w0)
  end.

Definition address : string := "10.0.0.2:9599".
Definition node_a : version := holding 2 ∅ {[ 0%Z := [address]; 1%Z := [address] ]} (load_parts ∅).1.
Definition node_b : version := holding 2 parts ∅ (load_parts parts).1.

Definition serve_of (vs : version) (w : world) (wt : weather) (_ : vref) (r : Request) (key : string) : Reply :=
  match version_serveKey vs r wt wt key w with Some (reply, _) => reply | None => serveError end.

Definition v1 : vref := VRef 0 "v1".
Definition dbs : gmap string versionMux :=
  match (_ ← prepare v1; upgrade v1) (newVersionMux 0) with
  | Some (_, m) => {[ "db" := m ]}
  | None => ∅
  end.

Definition reply_b : Reply :=
  {| rp_status := 200; rp_version := Some "v1"; rp_proxied := None; rp_length := Some "6"; rp_body := "Cooper" |}.
Definition asked : weather :=
  {| wt_perm := [0%nat]; wt_request_ok := λ _, true; wt_events := [Answer address (Ok (response_of reply_b))] |}.
Definition for_alice (proxy : string) : Request :=
  {| rq_Method := "GET"; rq_Path := "/db/Alice"; rq_proxy := proxy |}.

Lemma version_ok_of local remote ps :
  (match addFiles 2 files ps ps (New "/data" 2 SnappyCompression 4096) w0 with Some ((_, None), _) => true | _ => false end = true) ->
  local ⊆ ps -> version_ok data (holding 2 local remote (load_parts ps).1) (load_parts ps).2.
Proof.
  intros H Hsub. exists d1. split; [done|]. split; [apply d1_ok|]. split; [done|]. split; [done|]. right.
  unfold load_parts. destruct (addFiles 2 files ps ps (New "/data" 2 SnappyCompression 4096) w0) as [[[s [e|]] w]|] eqn:E; [done| |done].
  exists "/data", SnappyCompression, 4096%Z, w0, files, ps, ps, s, w, w, []. split_and!; try done; [by left|].
  intros p Hp. unfold have in Hp. apply bool_decide_eq_true in Hp. by apply Hsub.
Qed.

Lemma node_b_replies :
  node_replies data (λ _ _, True) (for_alice "v1") "Alice" (Replied reply_b).
Proof.
  set (serve := serve_of node_b (load_parts parts).2 calm).
  assert (fst <$> ServeHTTP serve dbs (for_alice "v1") = Some (Replied reply_b)) as H by (vm_compute; reflexivity).
  destruct (ServeHTTP serve dbs (for_alice "v1")) as [[o dbs']|] eqn:E; [|discriminate H].
  cbv [fmap option_fmap option_map fst] in H. injection H as ->.
  exists serve, dbs, dbs'. split; [exact E|]. intros v.
  assert (match version_serveKey node_b (for_alice "v1") calm calm "Alice" (load_parts parts).2 with Some _ => true | None => false end = true)
    as Hs by (vm_compute; reflexivity).
  unfold serve, serve_of.
  destruct (version_serveKey node_b (for_alice "v1") calm calm "Alice" (load_parts parts).2) as [[reply w']|] eqn:Ev; [|discriminate Hs].
  exists node_b, (load_parts parts).2, calm, calm, w'. split; [|split; [exact I|split; [exact I|exact Ev]]].
  apply version_ok_of; [vm_compute; reflexivity|reflexivity].
Qed.
Lemma node_b_answers : peers_answer data "db" "Alice" node_a asked.
Proof.
  intros peer resp [= -> ->]%list_elem_of_singleton.
  destruct (newProxyRequest "v1" "/db/Alice" address) as [u|] eqn:Eu; [|vm_compute in Eu; discriminate Eu].
  exists u, (for_alice "v1"), reply_b. split; [exact Eu|]. split; [|split; [apply node_b_replies|reflexivity]].
  apply (proxied_request "v1" "db/Alice" address u); [reflexivity|exact Eu].
Qed.

Lemma cluster_truthful_witness :
  node_replies data (peers_answer data "db" "Alice") (for_alice "") "Alice" (Replied (passed_on (response_of reply_b) address))
  ∧ ∃ reply, Replied (passed_on (response_of reply_b) address) = Replied reply
             ∧ (truthful data "Alice" reply ∨ reply = bare StatusNotFound).
Proof.
  assert (node_replies data (peers_answer data "db" "Alice") (for_alice "") "Alice"
            (Replied (passed_on (response_of reply_b) address))) as Hn.
  { set (serve := serve_of node_a (load_parts ∅).2 asked).
    assert (fst <$> ServeHTTP serve dbs (for_alice "") = Some (Replied (passed_on (response_of reply_b) address))) as H
      by (vm_compute; reflexivity).
    destruct (ServeHTTP serve dbs (for_alice "")) as [[o dbs']|] eqn:E; [|discriminate H].
    cbv [fmap option_fmap option_map fst] in H. injection H as ->.
    exists serve, dbs, dbs'. split; [exact E|]. intros v.
    assert (match version_serveKey node_a (for_alice "") asked asked "Alice" (load_parts ∅).2 with Some _ => true | None => false end = true)
      as Hs by (vm_compute; reflexivity).
    unfold serve, serve_of.
    destruct (version_serveKey node_a (for_alice "") asked asked "Alice" (load_parts ∅).2) as [[reply w']|] eqn:Ev; [|discriminate Hs].
    exists node_a, (load_parts ∅).2, asked, asked, w'.
    split; [|split; [apply node_b_answers|split; [apply node_b_answers|exact Ev]]].
    apply version_ok_of; [vm_compute; reflexivity|reflexivity]. }
  split; [exact Hn|].
  apply (cluster_truthful data "db" "Alice" (Replied (passed_on (response_of reply_b) address)));
    [discriminate|reflexivity|discriminate| |exact Hn].
  intros name d Hd. unfold data in Hd. case_bool_decide; [|discriminate Hd]. subst name. split; [reflexivity|discriminate].
Defined.
End ClusterExample.
