(* ===== verification/Status.v ===== *)
(** * status.go: what the nodes say about the versions

    A node reports, for every version of every database, its state and the
    partitions it has selected; a status page asks all peers and merges their
    reports with its own, then counts how often each partition is served.

    Maps of a status may be [nil] when the status comes from a peer: reading a
    [nil] map finds nothing, writing to it panics ([None]).  The reply of a peer
    is a parameter; times count nanoseconds from Go's zero time; the average
    is an IEEE single. *)

From Stdlib Require Import ZArith Lia String SpecFloat.
From stdpp Require Import base gmap sets list strings fin_maps sorting.
From S2P Require Import Prelude GoStrings Consistent Peers Build VersionMux.

Open Scope string_scope.
Set Default Proof Using "Type".

(** ** Data *)

Definition nilmap (A : Type) : Type := option (gmap string A).

(** Reading and writing a map that may be [nil]. *)
Definition entries {A} (m : nilmap A) : gmap string A := default ∅ m.
Definition nm_set {A} (k : string) (a : A) (m : nilmap A) : option (nilmap A) := m ← m; Some (Some (<[k := a]> m)).
Definition nm_map {A B} (f : A -> B) (m : nilmap A) : nilmap B := option_map (fmap f) m.

Definition float32 : Type := spec_float.
Definition float32_of (z : Z) : float32 := binary_normalize 24 128 z 0 false.

Record nodeVersionStatus := NVS {
  CreatedAt : Z;
  AvailableAt : Z;
  Current : bool;
  State : string;
  Partitions : list Z;
}.

Record versionStatus := VSt {
  Path : string;
  NumPartitions : Z;
  UnderreplicatedPartitions : Z;
  OverreplicatedPartitions : Z;
  MissingPartitions : Z;
  TargetReplication : Z;
  AverageReplication : float32;
  Nodes : nilmap nodeVersionStatus;
}.

Record dbStatus := DBSt { Versions : nilmap versionStatus }.
Record status := Status { DBs : nilmap dbStatus }.

Definition state_name (s : versionState) : string :=
  match s with
  | versionAvailable => "AVAILABLE"
  | versionRemoving => "REMOVING"
  | versionBuilding => "BUILDING"
  | versionError => "ERROR"
  end.

Definition with_nodes (vst : versionStatus) (nodes : nilmap nodeVersionStatus) : versionStatus :=
  VSt (Path vst) (NumPartitions vst) (UnderreplicatedPartitions vst) (OverreplicatedPartitions vst)
      (MissingPartitions vst) (TargetReplication vst) (AverageReplication vst) nodes.

(** Calls in sequence, the first panic ends them. *)
Fixpoint each {A B} (f : A -> B -> option B) (l : list A) (b : B) : option B :=
  match l with
  | [] => Some b
  | a :: l' => b ← f a b; each f l' b
  end.

(** ** What a node reports *)

(** The fields of a version that [version.status] reads; [vi_path] is what
    the backend's [DisplayPath] gives. *)
Record version_info := VInfo {
  vi_path : string;
  vi_numPartitions : Z;
  vi_state : versionState;
  vi_created : Z;
  vi_available : Z;
  vi_selected : gset Z;
}.

Definition truncate_second (t : Z) : Z := t - t mod 1000000000.

(** [setState], at time [now]. *)
Definition vi_setState (vi : version_info) (st : versionState) (now : Z) : version_info :=
  if decide (vi_state vi = versionError) then vi
  else VInfo (vi_path vi) (vi_numPartitions vi) st (vi_created vi)
             (if decide (st = versionAvailable) then now else vi_available vi) (vi_selected vi).

Definition hostname (address : option string) : string := default "localhost" address.

Section status.
Context {MZ : MapOrder Z} {MS : MapOrder string} {MP : MapOrder peer}.

Definition version_status (address : option string) (vi : version_info) : versionStatus :=
  let partitions := merge_sort Z.le (range_set (vi_selected vi)) in
  let nodeStatus :=
    NVS (truncate_second (vi_created vi))
        (if (vi_available vi =? 0)%Z then 0 else truncate_second (vi_available vi))
        false (state_name (vi_state vi)) partitions in
  VSt (vi_path vi) (vi_numPartitions vi) 0 0 0 0 (S754_zero false) (Some {[ hostname address := nodeStatus ]}).

(** The loop of [db.status] that marks the current version. *)
Definition mark_current (host : string) (current : option vref) (name : string) (vst : versionStatus) : versionStatus :=
  let st := default (NVS 0 0 false "" []) (entries (Nodes vst) !! host) in
  let st := NVS (CreatedAt st) (AvailableAt st) (from_option (λ c, bool_decide (name = v_name c)) false current)
                (State st) (Partitions st) in
  with_nodes vst (Some (<[host := st]> (entries (Nodes vst)))).

(** [db.status]; [info] reads the fields of a version. *)
Definition db_status (address : option string) (info : vref -> version_info) : GoM versionMux dbStatus :=
  all ← (λ m, Some (mux_getAll m, m));
  let versions : gmap string versionStatus :=
    foldl (λ m v, <[v_name v := version_status address (info v)]> m) ∅ all in
  current ← getCurrent;
  _ ← release current;
  mret (DBSt (Some (map_imap (λ name vst, Some (mark_current (hostname address) current name vst)) versions))).

(** ** Merging *)

Definition fresh_version (vst : versionStatus) : versionStatus :=
  VSt (Path vst) (NumPartitions vst) 0 0 0 (TargetReplication vst) (S754_zero false) (Some ∅).

(** The body of the loop of [mergeDBStatus]. *)
Definition merge_version (e : string * versionStatus) (left : nilmap versionStatus) : option (nilmap versionStatus) :=
  let '(v, vst) := e in
  left ← match entries left !! v with
         | None => nm_set v (fresh_version vst) left
         | Some _ => Some left
         end;
  each (λ '(host, node) left,
          lv ← entries left !! v;
          nodes ← nm_set host node (Nodes lv);
          nm_set v (with_nodes lv nodes) left)
       (range (entries (Nodes vst))) left.

Definition mergeDBStatus (left right : dbStatus) : option dbStatus :=
  l ← each merge_version (range (entries (Versions right))) (Versions left); Some (DBSt l).

Definition copyDBStatus (s : dbStatus) : option dbStatus := mergeDBStatus (DBSt (Some ∅)) s.

(** ** Counting *)

Definition serving (node : nodeVersionStatus) : bool :=
  bool_decide (State node = state_name versionAvailable ∨ State node = state_name versionRemoving).

(** The map [replication]; a missing entry reads as 0. *)
Definition at0 (m : gmap Z Z) (p : Z) : Z := default 0%Z (m !! p).
Definition count_partitions (ps : list Z) (m : gmap Z Z) : gmap Z Z :=
  foldl (λ m p, <[p := (at0 m p + 1)%Z]> m) m ps.
Definition replication_map (nodes : list (string * nodeVersionStatus)) : gmap Z Z :=
  foldl (λ m '(_, node), if serving node then count_partitions (Partitions node) m else m) ∅ nodes.

(** One turn of the loop over the partitions: the struct and [total]. *)
Definition count_partition (replication : gmap Z Z) (acc : versionStatus * Z) (p : Z) : versionStatus * Z :=
  let '(vst, total) := acc in
  let r := at0 replication p in
  let total := (total + r)%Z in
  (if (r =? 0)%Z
   then VSt (Path vst) (NumPartitions vst) (UnderreplicatedPartitions vst) (OverreplicatedPartitions vst)
            (MissingPartitions vst + 1) (TargetReplication vst) (AverageReplication vst) (Nodes vst)
   else if (r <? TargetReplication vst)%Z
   then VSt (Path vst) (NumPartitions vst) (UnderreplicatedPartitions vst + 1) (OverreplicatedPartitions vst)
            (MissingPartitions vst) (TargetReplication vst) (AverageReplication vst) (Nodes vst)
   else if (TargetReplication vst <? r)%Z
   then VSt (Path vst) (NumPartitions vst) (UnderreplicatedPartitions vst) (OverreplicatedPartitions vst + 1)
            (MissingPartitions vst) (TargetReplication vst) (AverageReplication vst) (Nodes vst)
   else vst, total).

Definition calculateReplicationStats (vst : versionStatus) : versionStatus :=
  let replication := replication_map (range (entries (Nodes vst))) in
  let '(vst, total) := foldl (count_partition replication) (vst, 0%Z) (seqZ 0 (NumPartitions vst)) in
  VSt (Path vst) (NumPartitions vst) (UnderreplicatedPartitions vst) (OverreplicatedPartitions vst)
      (MissingPartitions vst) (TargetReplication vst)
      (if (NumPartitions vst =? 0)%Z then S754_zero false
       else SFdiv 24 128 (float32_of total) (float32_of (NumPartitions vst)))
      (Nodes vst).

(** ** Serving *)

(** What a request to a peer gives: whether the address parses, and the reply
    as decoded from JSON, for the whole node and for one database. *)
Class PeerHttp := {
  NewRequest_ok : string -> bool;
  Do_status : string -> res status;
  Do_dbStatus : string -> res dbStatus;
}.

Definition status_url (peer db : string) : string :=
  let url := "http://" ++ peer ++ "/" ++ db ++ "?proxy=status" in
  if HasSuffix url "/" then url else url ++ "/".

(** [getPeerStatus] uses the request before it looks at the error: it panics
    when the address does not parse. *)
Definition getPeerStatus {H : PeerHttp} (peer db : string) : option (res status) :=
  let url := status_url peer db in
  if negb (NewRequest_ok url) then None
  else Some (if bool_decide (db = "") then Do_status url
             else match Do_dbStatus url with
                  | Ok s => Ok (Status (Some {[ db := s ]}))
                  | Err e => Err e
                  end).

Context {H : PeerHttp}.

(** The loops over the peers; an error skips the peer. *)
Definition merge_own (e : string * dbStatus) (merged : nilmap dbStatus) : option (nilmap dbStatus) :=
  let '(db, own) := e in
  match entries merged !! db with
  | Some theirs => s ← mergeDBStatus theirs own; nm_set db s merged
  | None => nm_set db own merged
  end.

Definition merge_peer (p : string) (st : status) : option status :=
  r ← getPeerStatus p "";
  match r with
  | Err _ => Some st
  | Ok peerStatus => m ← each merge_own (range (entries (DBs st))) (DBs peerStatus); Some (Status m)
  end.

Definition merge_db_peer (name p : string) (s : dbStatus) : option dbStatus :=
  r ← getPeerStatus p name;
  match r with
  | Err _ => Some s
  | Ok peerStatus => mergeDBStatus (default (DBSt None) (entries (DBs peerStatus) !! name)) s
  end.

Definition stats_of (s : dbStatus) : dbStatus := DBSt (nm_map calculateReplicationStats (Versions s)).

(** The status both pages show: [peers] are the other nodes, if there are any,
    and [proxied] tells whether the parameter [proxy] is set. *)
Definition served_status (own : gmap string dbStatus) (peers : option (list string)) (proxied : bool) : option status :=
  copies ← each (λ '(name, s) m, s ← copyDBStatus s; nm_set name s m) (range own) (Some ∅);
  let st := Status copies in
  match peers with
  | Some ps => if proxied then Some st
               else st ← each merge_peer ps st; Some (Status (nm_map stats_of (DBs st)))
  | None => Some st
  end.

Definition served_db_status (name : string) (own : dbStatus) (peers : option (list string)) (proxied : bool)
    : option dbStatus :=
  match peers with
  | Some ps => if proxied then Some own else s ← each (merge_db_peer name) ps own; Some (stats_of s)
  | None => Some own
  end.

Definition acceptsJSON (accept : list string) : bool := existsb (λ a, bool_decide (a = "application/json")) accept.

(** The reply: JSON of what the page is about, or the page.  [json.Marshal]
    fails on infinities and on NaN. *)
Inductive status_reply :=
  | StatusJSON (st : status)
  | DBStatusJSON (s : dbStatus)
  | StatusHTML (st : status)
  | StatusError.

Definition finite (f : float32) : bool :=
  match f with S754_zero _ | S754_finite _ _ _ => true | _ => false end.
Definition marshals (s : dbStatus) : bool :=
  bool_decide (map_Forall (λ _ vst, finite (AverageReplication vst) = true) (entries (Versions s))).

Definition sequins_serveStatus (own : gmap string dbStatus) (peers : option (list string)) (proxied : bool)
    (accept : list string) : option status_reply :=
  st ← served_status own peers proxied;
  Some (if acceptsJSON accept
        then if bool_decide (map_Forall (λ _ s, marshals s = true) (entries (DBs st))) then StatusJSON st else StatusError
        else StatusHTML st).

Definition db_serveStatus (name : string) (own : dbStatus) (peers : option (list string)) (proxied : bool)
    (accept : list string) : option status_reply :=
  s ← served_db_status name own peers proxied;
  Some (if acceptsJSON accept then if marshals s then DBStatusJSON s else StatusError
        else StatusHTML (Status (Some {[ name := s ]}))).
End status.

(** ** Merging, in closed form *)

Section merging.
Context {MS : MapOrder string}.

(** The entries of the second map are worked into the first. *)
Definition into {A B} (g : option B -> A -> B) (ol : option B) (oa : option A) : option B :=
  match oa with
  | None => ol
  | Some a => Some (g ol a)
  end.

(** A loop that updates the entry of each key: the order does not matter. *)
Lemma each_into {A B} (f : string * A -> nilmap B -> option (nilmap B)) g (P : B -> Prop) l L :
  (∀ k a (L : gmap string B), (∀ b, L !! k = Some b -> P b) -> f (k, a) (Some L) = Some (Some (<[k := g (L !! k) a]> L))) ->
  NoDup l.*1 -> (∀ k b, k ∈ l.*1 -> L !! k = Some b -> P b) ->
  each f l (Some L) = Some (Some (merge (into g) L (list_to_map l))).
Proof.
  intros Hf. revert L. induction l as [|[k a] l IH]; intros L Hnd HP; cbn [each].
  - do 2 f_equal. apply map_eq. intros i. rewrite lookup_merge. cbn. rewrite lookup_empty. by destruct (L !! i).
  - apply NoDup_cons in Hnd as [Hk Hnd]. cbn in Hk, Hnd, HP. rewrite Hf by (intros b; apply HP; left).
    cbn [mbind option_bind]. rewrite IH; [|done|].
    + do 2 f_equal. apply map_eq. intros i. rewrite !lookup_merge, !lookup_insert. cbn. rewrite lookup_insert.
      case_decide; [subst i|done]. rewrite not_elem_of_list_to_map_1 by done. cbn. by destruct (L !! k).
    + intros k' b Hk' Hb. rewrite lookup_insert_ne in Hb by (intros ->; done). eapply HP; [by right|done].
Qed.

(** The node entries are added, those on the right win. *)
Definition merged_version (ol : option versionStatus) (vst : versionStatus) : versionStatus :=
  let lv := default (fresh_version vst) ol in
  with_nodes lv (Some (entries (Nodes vst) ∪ entries (Nodes lv))).

Lemma merge_nodes_eq v l (L : gmap string versionStatus) lv N :
  L !! v = Some lv -> Nodes lv = Some N -> NoDup l.*1 ->
  each (λ '(host, node) left,
          lv ← entries left !! v;
          nodes ← nm_set host node (Nodes lv);
          nm_set v (with_nodes lv nodes) left) l (Some L)
  = Some (Some (<[v := with_nodes lv (Some (list_to_map l ∪ N))]> L)).
Proof.
  revert L lv N. induction l as [|[host node] l IH]; intros L lv N Hv HN Hnd; cbn [each].
  - do 2 f_equal. cbn. rewrite (left_id_L ∅ (∪)), <- HN. rewrite insert_id; [done|]. by destruct lv.
  - apply NoDup_cons in Hnd as [Hh Hnd]. change (entries (Some L)) with L. rewrite Hv. cbn [mbind option_bind]. rewrite HN.
    cbn [mbind option_bind nm_set fst]. rewrite (IH _ (with_nodes lv (Some (<[host := node]> N))) (<[host := node]> N)).
    + do 2 f_equal. rewrite insert_insert_eq. f_equal. unfold with_nodes. cbn. do 2 f_equal.
      rewrite <- insert_union_r by (by apply not_elem_of_list_to_map_1). by rewrite insert_union_l.
    + apply lookup_insert_eq.
    + done.
    + done.
Qed.

Lemma merge_version_eq v vst (L : gmap string versionStatus) :
  (∀ lv, L !! v = Some lv -> is_Some (Nodes lv)) ->
  merge_version (v, vst) (Some L) = Some (Some (<[v := merged_version (L !! v) vst]> L)).
Proof.
  intros HL. destruct (range_map (entries (Nodes vst))) as [Hnd Hmap]. unfold merge_version. change (entries (Some L)) with L.
  destruct (L !! v) as [lv|] eqn:Ev; cbn [mbind option_bind nm_set].
  - destruct (HL lv eq_refl) as [N HN]. rewrite (merge_nodes_eq v _ L lv N) by done. rewrite Hmap.
    unfold merged_version. cbn. by rewrite HN.
  - rewrite (merge_nodes_eq v _ _ (fresh_version vst) ∅); [|apply lookup_insert_eq|done|done].
    rewrite Hmap, insert_insert_eq. done.
Qed.

(** No map is [nil]; and a property of the versions that merging keeps. *)
Context (Q : versionStatus -> Prop).

Definition wf_db (s : dbStatus) : Prop :=
  is_Some (Versions s) ∧ map_Forall (λ _ vst, is_Some (Nodes vst) ∧ Q vst) (entries (Versions s)).
Definition all_versions (s : dbStatus) : Prop := map_Forall (λ _ vst, Q vst) (entries (Versions s)).
Definition wf_status (st : status) : Prop := is_Some (DBs st) ∧ map_Forall (λ _ s, wf_db s) (entries (DBs st)).

Definition merged_db (left right : dbStatus) : dbStatus :=
  DBSt (Some (merge (into merged_version) (entries (Versions left)) (entries (Versions right)))).

Lemma mergeDBStatus_eq left right : wf_db left -> mergeDBStatus left right = Some (merged_db left right).
Proof.
  intros [[L HL] Hwf]. unfold mergeDBStatus, merged_db. rewrite HL in *. destruct (range_map (entries (Versions right))) as [Hnd Hmap].
  rewrite (each_into merge_version merged_version (λ vst, is_Some (Nodes vst))); [|apply merge_version_eq|done|].
  - cbn [mbind option_bind]. by rewrite Hmap.
  - intros k b _ Hb. by destruct (Hwf k b Hb).
Qed.

Hypothesis Q_nodes : ∀ vst nodes, Q vst -> Q (with_nodes vst nodes).
Hypothesis Q_fresh : ∀ vst, Q vst -> Q (fresh_version vst).

Lemma merged_db_wf left right : wf_db left -> all_versions right -> wf_db (merged_db left right).
Proof using Q_nodes Q_fresh.
  intros [[L HL] Hwf] Hr. split; [by eexists|]. rewrite HL in *. cbn. intros v vst. rewrite lookup_merge. rewrite HL. cbn.
  destruct (entries (Versions right) !! v) as [r|] eqn:Er, (L !! v) as [l|] eqn:El; cbn; intros ?; simplify_eq.
  - split; [by eexists|]. apply Q_nodes. by destruct (Hwf v l El).
  - split; [by eexists|]. apply Q_nodes, Q_fresh. by apply (Hr v).
  - by apply (Hwf v).
Qed.

Lemma wf_all s : wf_db s -> all_versions s.
Proof. intros [_ Hwf] v vst Hv. by destruct (Hwf v vst Hv). Qed.

Lemma option_union_assoc {A} (a b c : option A) : (a ∪ b) ∪ c = a ∪ (b ∪ c).
Proof. by destruct a, b, c. Qed.

(** What a status says of a host. *)
Definition node_at (s : dbStatus) (v host : string) : option nodeVersionStatus :=
  vst ← entries (Versions s) !! v; entries (Nodes vst) !! host.
Definition report (st : status) (db v host : string) : option nodeVersionStatus :=
  s ← entries (DBs st) !! db; node_at s v host.

Lemma merged_db_node left right v host :
  node_at (merged_db left right) v host = node_at right v host ∪ node_at left v host.
Proof.
  unfold node_at, merged_db. cbn. rewrite lookup_merge.
  destruct (entries (Versions right) !! v) as [r|], (entries (Versions left) !! v) as [l|]; cbn;
    rewrite ?lookup_union, ?lookup_empty; [done| | |done].
  - by rewrite (right_id_L None (∪)).
  - by destruct (entries (Nodes l) !! host).
Qed.

(** *** The pages *)

Context {MZ : MapOrder Z} {MP : MapOrder peer} {H : PeerHttp}.

Definition merged_own (theirs : option dbStatus) (own : dbStatus) : dbStatus :=
  match theirs with
  | Some theirs => merged_db theirs own
  | None => own
  end.

Lemma merge_own_eq d own (M : gmap string dbStatus) :
  (∀ s, M !! d = Some s -> wf_db s) -> merge_own (d, own) (Some M) = Some (Some (<[d := merged_own (M !! d) own]> M)).
Proof.
  intros HM. unfold merge_own. change (entries (Some M)) with M.
  destruct (M !! d) as [s|]; [|done]. by rewrite mergeDBStatus_eq by auto.
Qed.

Lemma report_into (M O : gmap string dbStatus) d v host :
  report (Status (Some (merge (into merged_own) M O))) d v host
  = report (Status (Some O)) d v host ∪ report (Status (Some M)) d v host.
Proof.
  unfold report. cbn. rewrite lookup_merge. destruct (O !! d) as [own|], (M !! d) as [s|]; cbn.
  - apply merged_db_node.
  - by destruct (node_at own v host).
  - by destruct (node_at s v host).
  - done.
Qed.

(** A peer whose address parses and whose reply, if any, has no [nil] map. *)
Definition peer_ok (p : string) : Prop :=
  NewRequest_ok (status_url p "") = true ∧ ∀ st, Do_status (status_url p "") = Ok st -> wf_status st.

Definition reply_of (p : string) : option status :=
  match Do_status (status_url p "") with
  | Ok st => Some st
  | Err _ => None
  end.

Lemma merge_peer_ok p st :
  wf_status st -> peer_ok p ->
  ∃ st', merge_peer p st = Some st' ∧ wf_status st'
  ∧ ∀ d v host, report st' d v host = report st d v host ∪ (s ← reply_of p; report s d v host).
Proof using Q_nodes Q_fresh.
  intros [[O HO] Hst] [Hnew Hreply]. unfold merge_peer, getPeerStatus, reply_of. rewrite Hnew. cbn [negb].
  rewrite bool_decide_true by done. cbn [mbind option_bind]. destruct (Do_status _) as [ps|e].
  2:{ exists st. split_and!; [done|by split; [eexists|]|]. intros. by destruct (report st d v host). }
  destruct (Hreply _ eq_refl) as [[M HM] Hps]. rewrite HM, HO in *. destruct (range_map O) as [Hnd Hmap].
  change (entries (Some O)) with O. rewrite (each_into merge_own merged_own wf_db); [|apply merge_own_eq|done|].
  - rewrite Hmap. eexists. split; [reflexivity|]. split.
    + split; [by eexists|]. intros d s. cbn. rewrite lookup_merge.
      destruct (O !! d) as [own|] eqn:Eo, (M !! d) as [th|] eqn:Em; cbn; intros ?; simplify_eq.
      * apply merged_db_wf; [by apply (Hps d)|]. apply wf_all. by apply (Hst d).
      * by apply (Hst d).
      * by apply (Hps d).
    + intros d v host. rewrite report_into. unfold report. cbn [mbind option_bind]. by rewrite HM, HO.
  - intros k b _ Hb. by apply (Hps k).
Qed.

(** The first of several reports. *)
Definition first_report (sts : list status) (d v host : string) : option nodeVersionStatus :=
  foldr (λ st r, report st d v host ∪ r) None sts.

Lemma each_peer_ok ps st :
  wf_status st -> Forall peer_ok ps ->
  ∃ st', each merge_peer ps st = Some st' ∧ wf_status st'
  ∧ ∀ d v host, report st' d v host = first_report (st :: omap reply_of ps) d v host.
Proof using Q_nodes Q_fresh.
  intros Hst Hps. revert st Hst. induction Hps as [|p ps Hp Hps IH]; intros st Hst; cbn [each omap list_omap].
  - exists st. split_and!; [done..|]. intros. cbn. by destruct (report st d v host).
  - destruct (merge_peer_ok p st Hst Hp) as (st1 & -> & Hst1 & Hr1). cbn [mbind option_bind].
    destruct (IH st1 Hst1) as (st' & -> & Hst' & Hr). exists st'. split_and!; [done..|]. intros d v host.
    rewrite Hr. cbn [first_report foldr]. rewrite Hr1, option_union_assoc. f_equal.
    destruct (reply_of p) as [s|]; cbn [mbind option_bind foldr]; [done|by destruct (foldr _ _ _)].
Qed.

(** The local reports are copied, without the counts. *)
Lemma copies_ok (own : gmap string dbStatus) :
  map_Forall (λ _ s, all_versions s) own ->
  ∃ st, each (λ '(name, s) m, s ← copyDBStatus s; nm_set name s m) (range own) (Some ∅) = Some (DBs st) ∧ wf_status st
  ∧ ∀ d v host, report st d v host = report (Status (Some own)) d v host.
Proof using Q_nodes Q_fresh.
  intros Hown. destruct (range_map own) as [Hnd Hmap]. assert (wf_db (DBSt (Some ∅))) as Hwf by (split; [by eexists|intros i x Hx; cbn in Hx; by rewrite lookup_empty in Hx]).
  rewrite (each_into _ (λ _ s, merged_db (DBSt (Some ∅)) s) (λ _, True)); [| |done|done].
  - rewrite Hmap. eexists (Status _). split; [reflexivity|]. split; [split; [by eexists|]|].
    + intros d s. cbn. rewrite lookup_merge, lookup_empty. destruct (own !! d) as [s0|] eqn:E; cbn; intros ?; simplify_eq.
      apply merged_db_wf; [done|]. by apply (Hown d).
    + intros d v host. unfold report. cbn. rewrite lookup_merge, lookup_empty. destruct (own !! d) as [s0|]; cbn; [|done].
      rewrite merged_db_node. cbn. by destruct (node_at s0 v host).
  - intros k a L _. unfold copyDBStatus. by rewrite mergeDBStatus_eq.
Qed.

End merging.

(** ** Counting, in closed form *)

Section counting.
Context {MS : MapOrder string}.

Definition sum_list_Z (l : list Z) : Z := foldr Z.add 0%Z l.

Lemma count_loop repl l vst t :
  let r := at0 repl in
  foldl (count_partition repl) (vst, t) l
  = (VSt (Path vst) (NumPartitions vst)
         (UnderreplicatedPartitions vst + tally (λ p, r p ≠ 0 ∧ r p < TargetReplication vst)%Z l)
         (OverreplicatedPartitions vst + tally (λ p, r p ≠ 0 ∧ TargetReplication vst < r p)%Z l)
         (MissingPartitions vst + tally (λ p, r p = 0%Z) l)
         (TargetReplication vst) (AverageReplication vst) (Nodes vst), (t + sum_list_Z (r <$> l))%Z).
Proof.
  cbn zeta. revert vst t. induction l as [|p l IH]; intros vst t; cbn [foldl].
  - cbn. destruct vst; cbn. by rewrite !Z.add_0_r.
  - rewrite !tally_cons. cbn [sum_list_Z foldr fmap list_fmap].
    unfold count_partition at 2. cbn zeta.
    destruct (Z.eqb_spec (at0 repl p) 0); [|destruct (Z.ltb_spec (at0 repl p) (TargetReplication vst));
      [|destruct (Z.ltb_spec (TargetReplication vst) (at0 repl p))]]; rewrite IH; cbn;
      repeat case_decide; try lia; unfold sum_list_Z; f_equal; first [lia | f_equal; lia].
Qed.

Lemma count_partitions_at ps m p : at0 (count_partitions ps m) p = (at0 m p + tally (λ q, q = p) ps)%Z.
Proof.
  revert m. induction ps as [|q ps IH]; intros m; cbn [count_partitions foldl]; [rewrite tally_nil; lia|].
  fold (count_partitions ps (<[q := (at0 m q + 1)%Z]> m)). rewrite IH, tally_cons.
  unfold at0 at 1. rewrite lookup_insert. case_decide as Hqp.
  - subst q. cbn [default from_option id]. lia.
  - fold (at0 m p). lia.
Qed.

Lemma tally_NoDup (ps : list Z) p : NoDup ps -> tally (λ q, q = p) ps = if decide (p ∈ ps) then 1%Z else 0%Z.
Proof.
  induction 1 as [|q ps Hq Hnd IH]; [done|]. rewrite tally_cons, IH. repeat case_decide; subst; try done; set_solver.
Qed.

(** The node is up and has the partition. *)
Definition serves (p : Z) (e : string * nodeVersionStatus) : Prop := serving e.2 = true ∧ p ∈ Partitions e.2.
#[global] Instance serves_dec p e : Decision (serves p e).
Proof. unfold serves. apply _. Defined.

Lemma replication_map_at nodes p :
  Forall (λ e, NoDup (Partitions e.2)) nodes -> at0 (replication_map nodes) p = tally (serves p) nodes.
Proof.
  intros Hnd. unfold replication_map.
  assert (∀ m, at0 (foldl (λ m '(_, node), if serving node then count_partitions (Partitions node) m else m) m nodes) p
               = (at0 m p + tally (serves p) nodes)%Z) as Hgen.
  { induction Hnd as [|[h node] nodes Hn Hnd IH]; intros m; cbn [foldl]; [rewrite tally_nil; lia|].
    rewrite IH, tally_cons. destruct (decide (serves p (h, node))) as [[Hs Hp]|Hno]; cbn [snd] in *.
    - rewrite Hs, count_partitions_at, tally_NoDup by done. rewrite decide_True by done. lia.
    - destruct (serving node) eqn:Es; [|lia]. rewrite count_partitions_at, tally_NoDup by done.
      rewrite decide_False by (intros ?; apply Hno; done). lia. }
  by rewrite Hgen.
Qed.

(** The nodes that are up and have partition [p]. *)
Definition holders (vst : versionStatus) (p : Z) : gset string := dom (filter (serves p) (entries (Nodes vst))).

Lemma tally_holders vst p : tally (serves p) (range (entries (Nodes vst))) = Z.of_nat (size (holders vst p)).
Proof.
  unfold tally, holders. rewrite size_dom. f_equal. rewrite range_perm. symmetry.
  rewrite <- length_map_to_list, map_filter_alt. apply Permutation_length, map_to_list_to_map.
  apply NoDup_fmap_filter, NoDup_fst_map_to_list.
Qed.

Lemma calculate_eq vst :
  let r := at0 (replication_map (range (entries (Nodes vst)))) in
  let ps := seqZ 0 (NumPartitions vst) in
  calculateReplicationStats vst
  = VSt (Path vst) (NumPartitions vst)
        (UnderreplicatedPartitions vst + tally (λ p, r p ≠ 0 ∧ r p < TargetReplication vst)%Z ps)
        (OverreplicatedPartitions vst + tally (λ p, r p ≠ 0 ∧ TargetReplication vst < r p)%Z ps)
        (MissingPartitions vst + tally (λ p, r p = 0%Z) ps)
        (TargetReplication vst)
        (if (NumPartitions vst =? 0)%Z then S754_zero false
         else SFdiv 24 128 (float32_of (sum_list_Z (r <$> ps))) (float32_of (NumPartitions vst)))
        (Nodes vst).
Proof. cbn zeta. unfold calculateReplicationStats. by rewrite count_loop. Qed.

Lemma replication_nonneg nodes p : (0 <= at0 (replication_map nodes) p)%Z.
Proof.
  unfold replication_map. assert (∀ m, (0 <= at0 m p)%Z ->
    (0 <= at0 (foldl (λ m '(_, node), if serving node then count_partitions (Partitions node) m else m) m nodes) p)%Z) as Hgen.
  { induction nodes as [|[h node] nodes IH]; intros m Hm; cbn [foldl]; [done|]. apply IH.
    destruct (serving node); [|done]. rewrite count_partitions_at. unfold tally. lia. }
  by apply Hgen.
Qed.

(** The counts of a status page.  When every node lists each of its
    partitions once, a partition is counted as missing exactly when no node
    that is up has it, as underreplicated or overreplicated exactly when it is
    served by fewer, or by more, nodes than the target; the average is the
    total number of served copies over the number of partitions, as a single
    precision float; and the reports themselves are unchanged. *)
Theorem replication_counts vst :
  map_Forall (λ _ n, NoDup (Partitions n)) (entries (Nodes vst)) ->
  UnderreplicatedPartitions vst = 0%Z -> OverreplicatedPartitions vst = 0%Z -> MissingPartitions vst = 0%Z ->
  let r p := Z.of_nat (size (holders vst p)) in
  let ps := seqZ 0 (NumPartitions vst) in
  let s := calculateReplicationStats vst in
  MissingPartitions s = tally (λ p, holders vst p = ∅) ps
  ∧ UnderreplicatedPartitions s = tally (λ p, holders vst p ≠ ∅ ∧ r p < TargetReplication vst)%Z ps
  ∧ OverreplicatedPartitions s = tally (λ p, holders vst p ≠ ∅ ∧ TargetReplication vst < r p)%Z ps
  ∧ (NumPartitions vst ≠ 0%Z ->
     AverageReplication s = SFdiv 24 128 (float32_of (sum_list_Z (r <$> ps))) (float32_of (NumPartitions vst)))
  ∧ Nodes s = Nodes vst.
Proof.
  intros Hnd Hu Ho Hm r ps s.
  assert (∀ p, at0 (replication_map (range (entries (Nodes vst)))) p = r p) as Hr.
  { intros p. rewrite replication_map_at; [apply tally_holders|]. rewrite range_perm. apply Forall_forall.
    intros [h n] Hin%elem_of_map_to_list. by apply (Hnd h). }
  assert (∀ p, holders vst p = ∅ <-> r p = 0%Z) as H0.
  { intros p. unfold r. rewrite <- (leibniz_equiv_iff (holders vst p)), <- size_empty_iff. lia. }
  subst s. rewrite calculate_eq, Hu, Ho, Hm. cbn. fold ps. split_and!.
  - apply tally_iff. intros p. by rewrite Hr, H0.
  - apply tally_iff. intros p. by rewrite Hr, H0.
  - apply tally_iff. intros p. by rewrite Hr, H0.
  - intros Hn. rewrite (proj2 (Z.eqb_neq _ _) Hn). do 3 f_equal. apply list_fmap_ext. intros i p _. apply Hr.
  - done.
Qed.
End counting.

(** ** The local report *)

Section report.
Context {MZ : MapOrder Z} {MS : MapOrder string}.

Lemma foldl_named {B} (f : vref -> B) l (m : gmap string B) :
  NoDup (v_name <$> l) ->
  (∀ v, v ∈ l -> foldl (λ m v, <[v_name v := f v]> m) m l !! v_name v = Some (f v))
  ∧ ∀ n, n ∉ v_name <$> l -> foldl (λ m v, <[v_name v := f v]> m) m l !! n = m !! n.
Proof.
  revert m. induction l as [|u l IH]; intros m Hnd; cbn [foldl]; [by split; [intros v ?%not_elem_of_nil|]|].
  apply NoDup_cons in Hnd as [Hu Hnd]. destruct (IH (<[v_name u := f u]> m) Hnd) as [Hin Hout]. split.
  - intros v [->|Hv]%elem_of_cons; [|by apply Hin]. by rewrite Hout, lookup_insert_eq.
  - intros n [Hne Hn]%not_elem_of_cons. by rewrite Hout, lookup_insert_ne.
Qed.

Lemma getAll_table {B} (f : vref -> B) m l rm k name :
  sys_ok (Sys m l rm k) ->
  foldl (λ t v, <[v_name v := f v]> t) (∅ : gmap string B) (mux_getAll m) !! name = (λ vs, f (rc_version vs)) <$> versions m !! name.
Proof.
  intros Hok. assert (v_name <$> mux_getAll m = (range (versions m)).*1) as Hnames.
  { unfold mux_getAll. rewrite <- list_fmap_compose. apply list_fmap_ext. intros i [n vs] Hi%list_elem_of_lookup_2.
    rewrite range_perm, elem_of_map_to_list in Hi. apply (entry_name _ _ _ _ _ _ Hok Hi). }
  destruct (range_map (versions m)) as [Hnd _]. destruct (foldl_named f (mux_getAll m) ∅) as [Hin Hout]; [by rewrite Hnames|].
  destruct (versions m !! name) as [vs|] eqn:E.
  - destruct (entry_name _ _ _ _ _ _ Hok E) as [<- _]. rewrite Hin; [done|]. apply list_elem_of_fmap.
    exists (v_name (rc_version vs), vs). split; [done|]. by rewrite range_perm, elem_of_map_to_list.
  - rewrite Hout; [apply lookup_empty|]. rewrite Hnames. intros ([n vs] & -> & Hx)%list_elem_of_fmap.
    rewrite range_perm, elem_of_map_to_list in Hx. cbn in E. congruence.
Qed.

(** What a node reports about its versions: exactly the versions in the
    mux, each with its state and its selected partitions, sorted; the version
    that answers requests, and no other, is marked as current; and taking the
    report leaves the mux as it was. *)
Theorem db_status_exact d m l rm k address info :
  rtc sys_step (sys_init d) (Sys m l rm k) ->
  ∃ s m', db_status address info m = Some (s, m')
  ∧ versions m' = versions m ∧ currentVersion m' = currentVersion m
  ∧ (∀ name, is_Some (entries (Versions s) !! name) <-> is_Some (versions m !! name))
  ∧ ∀ name vs, versions m !! name = Some vs ->
    ∃ n, node_at s name (hostname address) = Some n
    ∧ State n = state_name (vi_state (info (rc_version vs)))
    ∧ Partitions n ≡ₚ elements (vi_selected (info (rc_version vs))) ∧ Sorted Z.le (Partitions n)
    ∧ (Current n = true <-> rc_version <$> currentVersion m = Some (rc_version vs)).
Proof.
  intros Hr. pose proof (reachable_ok _ _ Hr) as Hok.
  destruct (getCurrent_release _ _ _ _ Hok) as (m1 & m' & Hg & Hrel & Hv & Hc & _).
  unfold db_status. rewrite !GoM_bind_eq, Hg. cbn beta iota. rewrite GoM_bind_eq, Hrel. eexists _, m'.
  split; [reflexivity|]. split_and!; [done|done|..].
  - intros name. cbn. rewrite map_lookup_imap, (getAll_table _ _ _ _ _ _ Hok).
    destruct (versions m !! name); cbn; [by rewrite !is_Some_alt|done].
  - intros name vs Hvs. eexists. split.
    { unfold node_at. cbn. rewrite map_lookup_imap, (getAll_table _ _ _ _ _ _ Hok), Hvs. cbn.
      rewrite lookup_insert_eq. reflexivity. }
    cbn. rewrite lookup_singleton_eq. cbn. split_and!; [done|..].
    + by rewrite merge_sort_Permutation, range_set_perm.
    + apply Sorted_merge_sort. intros x y. lia.
    + destruct (entry_name _ _ _ _ _ _ Hok Hvs) as [Hname _].
      destruct (currentVersion m) as [c|] eqn:Ec; cbn; [|done]. rewrite bool_decide_eq_true.
      destruct (so_current _ Hok c Ec) as (_ & vs0 & Hvs0 & Hv0 & _). cbn in Hvs0.
      split; [intros Heq; rewrite Heq in Hvs; congruence|]. intros [= ->]. done.
Qed.
End report.

(** ** The pages *)

Section pages.
Context {MZ : MapOrder Z} {MS : MapOrder string} {MP : MapOrder peer} {H : PeerHttp}.

Lemma stats_node s v host : node_at (stats_of s) v host = node_at s v host.
Proof.
  unfold node_at, stats_of. destruct (Versions s) as [V|]; [|done]. cbn. rewrite lookup_fmap.
  destruct (V !! v) as [vst|]; [|done]. cbn. by rewrite calculate_eq.
Qed.

Lemma stats_report st d v host : report (Status (nm_map stats_of (DBs st))) d v host = report st d v host.
Proof.
  unfold report. destruct (DBs st) as [M|]; [|done]. cbn. rewrite lookup_fmap.
  destruct (M !! d) as [s|]; [|done]. cbn. apply stats_node.
Qed.

(** The page, for any property of the versions that merging keeps. *)
Lemma served_status_ok (Q : versionStatus -> Prop) own ps :
  (∀ vst nodes, Q vst -> Q (with_nodes vst nodes)) -> (∀ vst, Q vst -> Q (fresh_version vst)) ->
  map_Forall (λ _ s, all_versions Q s) own -> Forall (peer_ok Q) ps ->
  ∃ st, served_status own (Some ps) false = Some (Status (nm_map stats_of (DBs st))) ∧ wf_status Q st
  ∧ ∀ d v host, report st d v host = first_report (Status (Some own) :: omap reply_of ps) d v host.
Proof.
  intros Hn Hf Hown Hps. unfold served_status. destruct (copies_ok Q Hn Hf own Hown) as (st & -> & Hst & Hrep).
  cbn [mbind option_bind]. assert (Status (DBs st) = st) as -> by by destruct st.
  destruct (each_peer_ok Q Hn Hf ps st Hst Hps) as (st' & -> & Hst' & Hrep'). exists st'. split_and!; [done|done|].
  intros d v host. rewrite Hrep'. cbn [first_report foldr]. by rewrite Hrep.
Qed.

(** C17: a status page merges the reports of the cluster.  If no reply has a
    [nil] map and the address of every peer parses as part of a URL ([peer_ok];
    otherwise the handler panics), the page is served, and for every database, version and host it
    shows the node's own report, or else the first report of a peer that
    answered, in the order in which they were asked; peers that fail are left
    out. *)
Theorem status_merges own ps :
  Forall (peer_ok (λ _, True)) ps ->
  ∃ st, served_status own (Some ps) false = Some st
  ∧ ∀ d v host, report st d v host = first_report (Status (Some own) :: omap reply_of ps) d v host.
Proof.
  intros Hps. destruct (served_status_ok (λ _, True) own ps) as (st & Hst & _ & Hrep); [done|done|by intros d s _ v vst|done|].
  eexists. split; [exact Hst|]. intros d v host. by rewrite stats_report.
Qed.

(** The counts and the target are as [version.status] leaves them. *)
Definition uncounted (vst : versionStatus) : Prop :=
  TargetReplication vst = 0%Z ∧ UnderreplicatedPartitions vst = 0%Z ∧ OverreplicatedPartitions vst = 0%Z
  ∧ MissingPartitions vst = 0%Z.

(** This is what every node sends. *)
Lemma db_status_uncounted address info m s m' : db_status address info m = Some (s, m') -> all_versions uncounted s.
Proof.
  unfold db_status. rewrite !GoM_bind_eq. cbn beta iota. destruct (getCurrent m) as [[c m1]|]; [|done]. rewrite GoM_bind_eq.
  destruct (release c m1) as [[[] m2]|]; [|done]. intros Hs. injection Hs as <- _. intros name vst. cbn.
  rewrite map_lookup_imap. set (T := foldl _ _ _).
  assert (∀ n x, T !! n = Some x -> uncounted x) as HT.
  { subst T. generalize (mux_getAll m). intros l. induction l as [|v l IH] using rev_ind; intros n x; [cbn; by rewrite lookup_empty|].
    rewrite foldl_app. cbn. rewrite lookup_insert. case_decide; [|by apply IH]. by intros [= <-]. }
  destruct (T !! name) as [x|] eqn:E; [|done]. cbn. intros [= <-]. apply (HT name x E).
Qed.

Lemma uncounted_stats vst :
  uncounted vst -> (0 <= NumPartitions vst)%Z ->
  UnderreplicatedPartitions (calculateReplicationStats vst) = 0%Z
  ∧ (OverreplicatedPartitions (calculateReplicationStats vst) + MissingPartitions (calculateReplicationStats vst)
     = NumPartitions vst)%Z.
Proof.
  intros (Ht & Hu & Ho & Hm) Hnum. rewrite calculate_eq. cbn. rewrite Ht, Hu, Ho, Hm, !Z.add_0_l.
  set (r := at0 _). assert (∀ p, (0 <= r p)%Z) as Hr by (intros p; apply replication_nonneg). split.
  - unfold tally. rewrite filter_none; [done|]. intros p _ [H0 H1]. specialize (Hr p). lia.
  - rewrite tally_split; [rewrite length_seqZ; lia|]. intros p _. specialize (Hr p). lia.
Qed.

(** No status page ever shows an underreplicated partition:
    [version.status] does not fill in the target, so it is 0 in every report,
    and every partition that is served at all counts as overreplicated. *)
Theorem never_underreplicated own ps st d s v vst :
  map_Forall (λ _ s, all_versions uncounted s) own -> Forall (peer_ok uncounted) ps ->
  served_status own (Some ps) false = Some st ->
  entries (DBs st) !! d = Some s -> entries (Versions s) !! v = Some vst -> (0 <= NumPartitions vst)%Z ->
  UnderreplicatedPartitions vst = 0%Z
  ∧ OverreplicatedPartitions vst = (NumPartitions vst - MissingPartitions vst)%Z.
Proof.
  intros Hown Hps Hst Hd Hv Hnum.
  destruct (served_status_ok uncounted own ps) as (st' & Hst' & [_ Hwf] & _); [by intros x ? ?|by intros x (? & _)|done|done|].
  rewrite Hst in Hst'. injection Hst' as ->. destruct (DBs st') as [M|] eqn:EM; [|done]. cbn in Hd. rewrite lookup_fmap in Hd.
  destruct (M !! d) as [s'|] eqn:Ed; [|done]. injection Hd as <-. destruct (Hwf d s' Ed) as [_ Hvs]. cbn in Hv.
  destruct (Versions s') as [V|]; [|done]. cbn in Hv. rewrite lookup_fmap in Hv. destruct (V !! v) as [x|] eqn:Ev; [|done].
  injection Hv as <-. destruct (Hvs v x Ev) as [_ Hu]. rewrite calculate_eq in Hnum. cbn in Hnum.
  destruct (uncounted_stats x Hu Hnum) as [H1 H2]. split; [done|]. rewrite calculate_eq at 2. cbn [NumPartitions]. lia.
Qed.
End pages.

(** ** Witnesses *)

Module StatusExample.
#[local] Instance order_Z' : MapOrder Z := list_order.
#[local] Instance order_string' : MapOrder string := list_order.

(** Two nodes with two of four partitions each; a third does not answer. *)
Definition info_of (ps : list Z) : version_info :=
  VInfo "s3://bucket/db/1" 4 versionAvailable 1500000000 0 (list_to_set ps).
Definition report_of (address : string) (ps : list Z) : dbStatus :=
  DBSt (Some {[ "1" := version_status (Some address) (info_of ps) ]}).

#[local] Instance net : PeerHttp := {|
  NewRequest_ok _ := true;
  Do_status url := if bool_decide (url = status_url "b:9599" "")
                   then Ok (Status (Some {[ "db" := report_of "b:9599" [1; 2]%Z ]})) else Err (LibErr 111);
  Do_dbStatus _ := Err (LibErr 111);
|}.

Definition own : gmap string dbStatus := {[ "db" := report_of "a:9599" [0; 1]%Z ]}.
Definition others : list string := ["c:9599"; "b:9599"].

Lemma report_wf (Q : versionStatus -> Prop) address ps :
  Q (version_status (Some address) (info_of ps)) -> wf_db Q (report_of address ps).
Proof.
  intros HQ. split; [by eexists|]. intros v vst. cbn. intros [_ <-]%lookup_singleton_Some. split; [by eexists|done].
Qed.

Lemma others_ok (Q : versionStatus -> Prop) :
  (∀ address ps, Q (version_status (Some address) (info_of ps))) -> Forall (peer_ok Q) others.
Proof.
  intros HQ. apply Forall_forall. intros p _. split; [done|]. intros st. cbn. case_bool_decide; [|done].
  intros [= <-]. split; [by eexists|]. intros d s. cbn. intros [_ <-]%lookup_singleton_Some. by apply report_wf.
Qed.

Lemma status_merges_witness :
  ∃ st, served_status own (Some others) false = Some st
  ∧ (Partitions <$> report st "db" "1" "a:9599") = Some [0; 1]%Z
  ∧ (Partitions <$> report st "db" "1" "b:9599") = Some [1; 2]%Z.
Proof.
  destruct (status_merges own others) as (st & Hst & Hrep); [by apply others_ok|].
  exists st. split; [exact Hst|]. rewrite !Hrep. split; vm_compute; reflexivity.
Defined.

Lemma uncounted_report address ps : uncounted (version_status (Some address) (info_of ps)).
Proof. unfold uncounted, version_status. cbn. by split_and!. Qed.

Lemma own_uncounted : map_Forall (λ _ s, all_versions uncounted s) own.
Proof. intros d x. unfold own. intros [_ <-]%lookup_singleton_Some. apply wf_all, report_wf, uncounted_report. Qed.

Definition page : status := default (Status None) (served_status own (Some others) false).
Definition page_db : dbStatus := default (DBSt None) (entries (DBs page) !! "db").
Definition page_version : versionStatus :=
  default (version_status None (info_of [])) (entries (Versions page_db) !! "1").

Lemma never_underreplicated_witness :
  served_status own (Some others) false = Some page
  ∧ entries (DBs page) !! "db" = Some page_db ∧ entries (Versions page_db) !! "1" = Some page_version
  ∧ MissingPartitions page_version = 1%Z ∧ UnderreplicatedPartitions page_version = 0%Z
  ∧ OverreplicatedPartitions page_version = (NumPartitions page_version - MissingPartitions page_version)%Z.
Proof.
  assert (served_status own (Some others) false = Some page) as Est by (unfold page; apply (default_ok (Status None)); vm_compute; reflexivity).
  assert (entries (DBs page) !! "db" = Some page_db) as Es by (unfold page_db; apply (default_ok (DBSt None)); vm_compute; reflexivity).
  assert (entries (Versions page_db) !! "1" = Some page_version) as Ev
    by (unfold page_version; apply (default_ok (version_status None (info_of []))); vm_compute; reflexivity).
  split; [exact Est|]. split; [exact Es|]. split; [exact Ev|]. split; [vm_compute; reflexivity|].
  apply (never_underreplicated own others page "db" page_db "1" page_version own_uncounted
           (others_ok uncounted uncounted_report) Est Es Ev).
  vm_compute. discriminate.
Defined.

(** With a target of two: partition 1 has it, 0 and 2 do not, 3 is missing. *)
Definition merged : versionStatus :=
  VSt "s3://bucket/db/1" 4 0 0 0 2 (S754_zero false)
      (Some {[ "a:9599" := NVS 1 1 true "AVAILABLE" [0; 1]%Z; "b:9599" := NVS 1 1 true "REMOVING" [1; 2]%Z;
               "c:9599" := NVS 1 0 false "BUILDING" [2; 3]%Z ]}).

Lemma replication_counts_witness :
  MissingPartitions (calculateReplicationStats merged) = 1%Z
  ∧ UnderreplicatedPartitions (calculateReplicationStats merged) = 2%Z
  ∧ OverreplicatedPartitions (calculateReplicationStats merged) = 0%Z
  ∧ AverageReplication (calculateReplicationStats merged) = float32_of 1.
Proof.
  destruct (replication_counts merged) as (Hm & Hu & Ho & Ha & _); [|reflexivity..|].
  - apply (bool_decide_unpack _). vm_compute. exact I.
  - rewrite Hm, Hu, Ho, Ha by discriminate. split_and!; vm_compute; reflexivity.
Defined.

Definition v1 : vref := VRef 1 "1".
Definition v2 : vref := VRef 2 "2".

Lemma two_versions : ∃ m k, rtc sys_step (sys_init 0) (Sys m [] None k)
  ∧ rc_version <$> currentVersion m = Some v1 ∧ rc_version <$> versions m !! "2" = Some v2.
Proof.
  eexists _, _. split.
  { unfold sys_init. eapply rtc_l; [eapply (sy_prepare v1); vm_compute; reflexivity|].
    eapply rtc_l; [eapply (sy_upgrade v1); [done|vm_compute; reflexivity]|].
    eapply rtc_l; [eapply (sy_prepare v2); vm_compute; reflexivity|]. apply rtc_refl. }
  split; vm_compute; reflexivity.
Qed.

(** The version that is prepared but not current is not marked. *)
Lemma db_status_exact_witness :
  ∃ m s m' n, db_status None (λ _, info_of [1; 0]%Z) m = Some (s, m') ∧ node_at s "2" "localhost" = Some n
  ∧ State n = "AVAILABLE" ∧ Current n = false.
Proof.
  destruct two_versions as (m & k & Hr & Hc & Hv). destruct (versions m !! "2") as [vs|] eqn:E; [|discriminate].
  injection Hv as Hv. destruct (db_status_exact 0 m [] None k None (λ _, info_of [1; 0]%Z) Hr) as (s & m' & Hs & _ & _ & _ & Hall).
  destruct (Hall "2" vs E) as (n & Hn & Hst & _ & _ & Hcur). exists m, s, m', n.
  split; [exact Hs|]. split; [exact Hn|]. split; [exact Hst|]. destruct (Current n); [|reflexivity].
  rewrite Hc, Hv in Hcur. destruct Hcur as [Hcur _]. specialize (Hcur eq_refl). discriminate.
Defined.
End StatusExample.
