(* ===== verification/Multilock.v ===== *)
(** * multilock/multilock.go: at most N builds at a time

    A lock is a buffered channel that starts with N tokens: [Lock] receives
    one, [Unlock] sends one back.  The model has the number of tokens in the
    channel and the clients that hold the lock; a client unlocks what it
    locked. *)

From Stdlib Require Import ZArith Lia.
From stdpp Require Import base gmap sets list relations.
From S2P Require Import Prelude.

Record Multilock := { ml_capacity : nat; ml_tokens : nat }.

(** The loop of [New]: sends that would block panic the runtime (deadlock);
    they do not, as the buffer has room. *)
Fixpoint ml_fill (k : nat) (m : Multilock) : option Multilock :=
  match k with
  | O => Some m
  | S k' =>
      if (ml_tokens m <? ml_capacity m)%nat
      then ml_fill k' {| ml_capacity := ml_capacity m; ml_tokens := S (ml_tokens m) |}
      else None
  end.

(** [make(chan bool, n)] panics on a negative size. *)
Definition ml_New (n : Z) : option Multilock :=
  if (n <? 0)%Z then None else ml_fill (Z.to_nat n) {| ml_capacity := Z.to_nat n; ml_tokens := 0 |}.

(** [None]: the caller blocks. *)
Definition ml_Lock (m : Multilock) : option Multilock :=
  match ml_tokens m with
  | O => None
  | S t => Some {| ml_capacity := ml_capacity m; ml_tokens := t |}
  end.

Definition ml_Unlock (m : Multilock) : option Multilock :=
  if (ml_tokens m <? ml_capacity m)%nat
  then Some {| ml_capacity := ml_capacity m; ml_tokens := S (ml_tokens m) |}
  else None.

(** Clients by number; each locks, works and unlocks, any number of times. *)
Inductive ml_step : Multilock * gset nat -> Multilock * gset nat -> Prop :=
  | ml_lock c m m' holders :
      c ∉ holders -> ml_Lock m = Some m' -> ml_step (m, holders) (m', {[ c ]} ∪ holders)
  | ml_unlock c m m' holders :
      c ∈ holders -> ml_Unlock m = Some m' -> ml_step (m, holders) (m', holders ∖ {[ c ]}).

Lemma ml_fill_ok k m :
  (ml_tokens m + k <= ml_capacity m)%nat ->
  ml_fill k m = Some {| ml_capacity := ml_capacity m; ml_tokens := ml_tokens m + k |}.
Proof.
  revert m. induction k as [|k IH]; intros m Hm; cbn [ml_fill].
  - rewrite Nat.add_0_r. by destruct m.
  - destruct (Nat.ltb_spec (ml_tokens m) (ml_capacity m)); [|lia]. rewrite IH by (cbn; lia). cbn. do 2 f_equal. lia.
Qed.

(** Tokens and holders add up to the capacity. *)
Definition ml_ok (s : Multilock * gset nat) : Prop :=
  (ml_tokens s.1 + size s.2 = ml_capacity s.1)%nat.

Lemma ml_step_ok s s' : ml_step s s' -> ml_ok s -> ml_ok s' ∧ ml_capacity s'.1 = ml_capacity s.1.
Proof.
  intros [c m m' holders Hc Hl|c m m' holders Hc Hu] Hok; unfold ml_ok in *; cbn in *.
  - unfold ml_Lock in Hl. destruct (ml_tokens m) eqn:E; [done|]. simplify_eq. cbn.
    rewrite size_union, size_singleton by set_solver. split; [lia|done].
  - unfold ml_Unlock in Hu. destruct (Nat.ltb_spec (ml_tokens m) (ml_capacity m)); [|done]. simplify_eq. cbn.
    rewrite size_difference, size_singleton by set_solver. split; [|done].
    assert (size holders ≠ 0)%nat; [|lia]. intros ?%size_empty_inv. set_solver.
Qed.

(** The lock admits exactly N clients.  [New] succeeds; in every state at
    most N clients hold the lock, a client that holds it can unlock without
    blocking, and a client can lock as soon as fewer than N hold it. *)
Theorem multilock_admits n m holders m0 :
  (0 <= n)%Z -> ml_New n = Some m0 -> rtc ml_step (m0, ∅) (m, holders) ->
  (Z.of_nat (size holders) <= n)%Z
  ∧ (holders ≠ ∅ -> is_Some (ml_Unlock m))
  ∧ (is_Some (ml_Lock m) <-> (Z.of_nat (size holders) < n)%Z).
Proof.
  intros Hn Hnew Hr. unfold ml_New in Hnew. destruct (Z.ltb_spec n 0); [lia|].
  rewrite ml_fill_ok in Hnew by (cbn; lia). simplify_eq.
  assert (∀ s s', rtc ml_step s s' -> ml_ok s -> ml_ok s' ∧ ml_capacity s'.1 = ml_capacity s.1) as Hsteps.
  { induction 1 as [|s1 s2 s3 H12 H23 IH]; [done|]. intros H1. destruct (ml_step_ok _ _ H12 H1) as [H2 Hc].
    destruct (IH H2). split; [done|congruence]. }
  destruct (Hsteps _ _ Hr) as [Hok Hcap].
  { unfold ml_ok. cbn. rewrite size_empty. lia. }
  unfold ml_ok in Hok. cbn in Hok, Hcap. rewrite Hcap in Hok. split; [lia|]. split.
  - intros Hne. unfold ml_Unlock. rewrite Hcap.
    assert (size holders ≠ 0)%nat by (intros Hz%size_empty_inv; by apply leibniz_equiv in Hz).
    destruct (Nat.ltb_spec (ml_tokens m) (Z.to_nat n)); [by eexists|lia].
  - unfold ml_Lock. destruct (ml_tokens m) eqn:E; split; try (by intros [? ?]); try lia; by eexists.
Qed.

Lemma multilock_admits_witness :
  ∃ m m0, ml_New 2 = Some m0
  ∧ (Z.of_nat (size ({[ 7%nat ]} ∪ ∅ : gset nat)) <= 2)%Z
  ∧ ({[ 7%nat ]} ∪ ∅ ≠ (∅ : gset nat) -> is_Some (ml_Unlock m))
  ∧ (is_Some (ml_Lock m) <-> (Z.of_nat (size ({[ 7%nat ]} ∪ ∅ : gset nat)) < 2)%Z).
Proof.
  eexists {| ml_capacity := 2; ml_tokens := 1 |}, _. split; [reflexivity|].
  eapply (multilock_admits 2 {| ml_capacity := 2; ml_tokens := 1 |} ({[ 7%nat ]} ∪ ∅)); [lia|reflexivity|].
  apply rtc_once. apply ml_lock; [set_solver|reflexivity].
Defined.
