(* ===== verification/BuildLocks.v ===== *)
(** * build.go: the locks of builds

    A build takes three locks in turn: that of its version, that of its
    database, and, if the number of parallel loads is limited, one of the tokens
    of the server's [multilock] ([Multilock.v]).  The goroutine that
    [version.close] starts takes the lock of the version, and closes the store.
    What a build does once it has the locks is [build] of [Build.v]; here it
    succeeds or fails. *)

From Stdlib Require Import ZArith Lia.
From stdpp Require Import base gmap sets list list_numbers relations.
From S2P Require Import Prelude Multilock.

Set Default Proof Using "Type".

(** Where a goroutine is; a version is a number. *)
Inductive build_pc :=
  | BStart             (** waiting for the lock of the version *)
  | BVersion           (** waiting for the lock of the database *)
  | BDb                (** waiting for a token *)
  | BBuilding
  | BReturned.

Inductive goroutine :=
  | GBuild (v : nat) (pc : build_pc)
  | GClose (v : nat) (closed : bool).

Record builds := Builds {
  bl_routines : list goroutine;
  bl_versions : gset nat;          (** the versions whose lock is held *)
  bl_dbs : gset nat;               (** the databases whose lock is held *)
  bl_global : option Multilock;    (** [nil] if there is no limit *)
  bl_built : gset nat;             (** the flag [built] *)
}.

(** Taking and giving back the server's lock, if there is one. *)
Definition global_Lock (m : option Multilock) : option (option Multilock) :=
  match m with None => Some None | Some m => Some <$> ml_Lock m end.
Definition global_Unlock (m : option Multilock) : option (option Multilock) :=
  match m with None => Some None | Some m => Some <$> ml_Unlock m end.

Section Builds.
(** The database of a version. *)
Context (db_of : nat -> nat).

Inductive build_step : builds -> builds -> Prop :=
  | bs_spawn x g vl dl m b :       (** [go version.build()], [version.close()] *)
      (∃ v, x = GBuild v BStart ∨ x = GClose v false) ->
      build_step (Builds g vl dl m b) (Builds (g ++ [x]) vl dl m b)
  | bs_version g1 v g2 vl dl m b :
      v ∉ vl -> v ∉ b ->
      build_step (Builds (g1 ++ GBuild v BStart :: g2) vl dl m b) (Builds (g1 ++ GBuild v BVersion :: g2) ({[ v ]} ∪ vl) dl m b)
  | bs_built g1 v g2 vl dl m b :   (** the previous holder has finished the build *)
      v ∉ vl -> v ∈ b ->
      build_step (Builds (g1 ++ GBuild v BStart :: g2) vl dl m b) (Builds (g1 ++ GBuild v BReturned :: g2) vl dl m b)
  | bs_db g1 v g2 vl dl m b :
      db_of v ∉ dl ->
      build_step (Builds (g1 ++ GBuild v BVersion :: g2) vl dl m b) (Builds (g1 ++ GBuild v BDb :: g2) vl ({[ db_of v ]} ∪ dl) m b)
  | bs_global g1 v g2 vl dl m b m' :
      global_Lock m = Some m' ->
      build_step (Builds (g1 ++ GBuild v BDb :: g2) vl dl m b) (Builds (g1 ++ GBuild v BBuilding :: g2) vl dl m' b)
  | bs_return (ok : bool) g1 v g2 vl dl m b m' :
      global_Unlock m = Some m' ->
      build_step (Builds (g1 ++ GBuild v BBuilding :: g2) vl dl m b)
        (Builds (g1 ++ GBuild v BReturned :: g2) (vl ∖ {[ v ]}) (dl ∖ {[ db_of v ]}) m' (if ok then {[ v ]} ∪ b else b))
  | bs_close g1 v g2 vl dl m b :   (** the store is closed under the lock *)
      v ∉ vl ->
      build_step (Builds (g1 ++ GClose v false :: g2) vl dl m b) (Builds (g1 ++ GClose v true :: g2) vl dl m b).

Definition builds_init (m : option Multilock) : builds := Builds [] ∅ ∅ m ∅.

(** ** The locks and their holders *)

Definition has_version (v : nat) (x : goroutine) : bool :=
  match x with GBuild u (BVersion | BDb | BBuilding) => bool_decide (u = v) | _ => false end.
Definition has_db (d : nat) (x : goroutine) : bool :=
  match x with GBuild u (BDb | BBuilding) => bool_decide (db_of u = d) | _ => false end.
Definition is_building (x : goroutine) : bool := match x with GBuild _ BBuilding => true | _ => false end.

Definition count (P : goroutine -> bool) (g : list goroutine) : nat := length (filter (λ x, P x = true) g).

Record builds_ok (limit : option nat) (s : builds) : Prop := {
  bo_versions : ∀ v, count (has_version v) (bl_routines s) = if decide (v ∈ bl_versions s) then 1 else 0;
  bo_dbs : ∀ d, count (has_db d) (bl_routines s) = if decide (d ∈ bl_dbs s) then 1 else 0;
  bo_global : match bl_global s, limit with
              | Some m, Some n => ml_capacity m = n ∧ ml_tokens m + count is_building (bl_routines s) = n
              | None, None => True
              | _, _ => False
              end;
}.

#[local] Arguments count : simpl never.

Lemma count_mid P g1 x g2 : count P (g1 ++ x :: g2) = count P (g1 ++ g2) + (if P x then 1 else 0).
Proof.
  unfold count. rewrite !filter_app, filter_cons, !length_app. destruct (P x) eqn:E.
  - rewrite decide_True by done. cbn. lia.
  - rewrite decide_False by done. lia.
Qed.

Lemma count_snoc P g x : count P (g ++ [x]) = count P g + (if P x then 1 else 0).
Proof. by rewrite count_mid, app_nil_r. Qed.

Lemma count_pos P g x : x ∈ g -> P x = true -> 0 < count P g.
Proof. intros (g1 & g2 & ->)%list_elem_of_split Hp. rewrite count_mid, Hp. lia. Qed.

(** A lock that is free, or freed: the count of its holders follows. *)
Ltac holders H u :=
  specialize (H u); rewrite ?count_mid, ?count_snoc in *; cbn in *;
  repeat case_bool_decide; repeat case_decide; subst; try lia; set_solver.

Lemma count_some P g : count P g ≠ 0 -> ∃ x, x ∈ g ∧ P x = true.
Proof.
  intros Hc. unfold count in Hc. destruct (filter (λ x, P x = true) g) as [|x l] eqn:E; [done|]. exists x.
  assert (x ∈ filter (λ x, P x = true) g) as [? ?]%list_elem_of_filter by (rewrite E; left). done.
Qed.

Lemma build_step_ok limit s s' : build_step s s' -> builds_ok limit s -> builds_ok limit s'.
Proof.
  intros Hs [Hv Hd Hg]. destruct Hs as [x g vl dl m b (v & Hx)|g1 v g2 vl dl m b Hn Hb|g1 v g2 vl dl m b Hn Hb
    |g1 v g2 vl dl m b Hn|g1 v g2 vl dl m b m' Hl|ok g1 v g2 vl dl m b m' Hl|g1 v g2 vl dl m b Hn]; cbn in *.
  - split; cbn.
    + intros u. rewrite count_snoc, Hv. destruct Hx as [->| ->]; cbn; lia.
    + intros u. rewrite count_snoc, Hd. destruct Hx as [->| ->]; cbn; lia.
    + rewrite count_snoc. replace (is_building x) with false by (by destruct Hx as [->| ->]). by rewrite Nat.add_0_r.
  - split; cbn; [intros u; holders Hv u|intros u; holders Hd u|]. by rewrite count_mid in *.
  - split; cbn; [intros u; holders Hv u|intros u; holders Hd u|]. by rewrite count_mid in *.
  - split; cbn; [intros u; holders Hv u|intros u; holders Hd u|]. by rewrite count_mid in *.
  - split; cbn; [intros u; holders Hv u|intros u; holders Hd u|].
    rewrite count_mid in *. cbn in *. destruct m as [m|]; cbn in Hl; [|by simplify_eq].
    unfold ml_Lock in Hl. destruct (ml_tokens m) eqn:E; [done|]. cbn in Hl. simplify_eq. cbn.
    destruct limit; [|done]. split; [apply Hg|]. destruct Hg. lia.
  - split; cbn; [intros u; holders Hv u|intros u; holders Hd u|].
    rewrite count_mid in *. cbn in *. destruct m as [m|]; cbn in Hl; [|by simplify_eq].
    unfold ml_Unlock in Hl. destruct (_ <? _)%nat; [|done]. cbn in Hl. simplify_eq. cbn.
    destruct limit; [|done]. split; [apply Hg|]. destruct Hg. lia.
  - split; cbn; [intros u; holders Hv u|intros u; holders Hd u|]. by rewrite count_mid in *.
Qed.

(** The server's lock for [max_parallel_loads]: none for 0. *)
Definition server_lock (n : Z) : option (option Multilock) :=
  if (n =? 0)%Z then Some None else Some <$> ml_New n.

Definition limit_of (n : Z) : option nat := if (n =? 0)%Z then None else Some (Z.to_nat n).

Lemma builds_init_ok n m : (0 <= n)%Z -> server_lock n = Some m -> builds_ok (limit_of n) (builds_init m).
Proof.
  intros Hn Hm. unfold server_lock, limit_of, ml_New in *. split; cbn; try done.
  destruct (Z.eqb_spec n 0); [by simplify_eq|]. destruct (Z.ltb_spec n 0); [lia|].
  rewrite ml_fill_ok in Hm by (cbn; lia). cbn in Hm. simplify_eq. cbn. change (count is_building []) with 0. lia.
Qed.

Lemma builds_reachable n m s :
  (0 <= n)%Z -> server_lock n = Some m -> rtc build_step (builds_init m) s -> builds_ok (limit_of n) s.
Proof.
  intros Hn Hm Hr. pose proof (builds_init_ok n m Hn Hm) as H0. induction Hr; eauto using build_step_ok.
Qed.

(** Two goroutines are counted twice. *)
Lemma count_two P g i j x y : i ≠ j -> g !! i = Some x -> g !! j = Some y -> P x = true -> P y = true -> 2 <= count P g.
Proof.
  intros Hij Hi Hj Hx Hy. apply list_elem_of_split_length in Hi as (g1 & g2 & -> & ->). rewrite count_mid, Hx.
  assert (y ∈ (g1 ++ g2)%list) as Hin.
  { rewrite elem_of_app. apply lookup_app_Some in Hj as [Hj|[Hge Hj]]; [left; by eapply list_elem_of_lookup_2|right].
    destruct (j - length g1) as [|k] eqn:E; [lia|]. by eapply list_elem_of_lookup_2. }
  pose proof (count_pos P _ _ Hin Hy). lia.
Qed.

(** Builds exclude each other. *)
Lemma builds_exclusive n m s :
  (0 <= n)%Z -> server_lock n = Some m -> rtc build_step (builds_init m) s ->
  (∀ i j u v, i ≠ j -> bl_routines s !! i = Some (GBuild u BBuilding) -> bl_routines s !! j = Some (GBuild v BBuilding) ->
     u ≠ v ∧ db_of u ≠ db_of v)
  ∧ (n ≠ 0 -> Z.of_nat (count is_building (bl_routines s)) <= n)%Z
  ∧ (∀ v x, x ∈ bl_routines s -> has_version v x = true -> v ∈ bl_versions s).
Proof.
  intros Hn Hm Hr. destruct (builds_reachable n m s Hn Hm Hr) as [Hv Hd Hg]. split_and!.
  - intros i j u v Hij Hi Hj. split; intros Heq.
    + specialize (Hv v). pose proof (count_two (has_version v) _ _ _ _ _ Hij Hi Hj) as H2. cbn in H2.
      rewrite !bool_decide_true in H2 by done. specialize (H2 eq_refl eq_refl). case_decide; lia.
    + specialize (Hd (db_of v)). pose proof (count_two (has_db (db_of v)) _ _ _ _ _ Hij Hi Hj) as H2. cbn in H2.
      rewrite !bool_decide_true in H2 by done. specialize (H2 eq_refl eq_refl). case_decide; lia.
  - intros Hz. unfold limit_of in Hg. destruct (Z.eqb_spec n 0); [done|]. destruct (bl_global s); [|done]. lia.
  - intros v x Hx Hp. pose proof (count_pos (has_version v) _ _ Hx Hp) as H. rewrite Hv in H. by case_decide; [|lia].
Qed.

(** ** Every build returns *)

Definition left_of (x : goroutine) : nat :=
  match x with
  | GBuild _ BStart => 4 | GBuild _ BVersion => 3 | GBuild _ BDb => 2 | GBuild _ BBuilding => 1 | GBuild _ BReturned => 0
  | GClose _ closed => if closed then 0 else 1
  end.

Definition steps_left (g : list goroutine) : nat := sum_list_with left_of g.

Lemma steps_left_mid g1 x g2 : steps_left (g1 ++ x :: g2) = steps_left (g1 ++ g2) + left_of x.
Proof. unfold steps_left. rewrite !sum_list_with_app. cbn. lia. Qed.

(** A goroutine that holds every lock before it can go on; so can one that
    waits for a token when no build runs, and so on: the locks are taken in the
    same order. *)
Lemma holder_steps n m s (pc : build_pc) v :
  (0 <= n)%Z -> server_lock n = Some m -> rtc build_step (builds_init m) s -> GBuild v pc ∈ bl_routines s ->
  match pc with
  | BBuilding => True
  | BDb => ∀ u, GBuild u BBuilding ∉ bl_routines s
  | BVersion => ∀ u q, GBuild u q ∈ bl_routines s -> has_db (db_of v) (GBuild u q) = false
  | BStart => v ∉ bl_versions s
  | BReturned => False
  end -> ∃ s', build_step s s' ∧ length (bl_routines s') = length (bl_routines s).
Proof.
  intros Hn Hm Hr Hin Hpc. destruct (builds_reachable n m s Hn Hm Hr) as [Hv Hd Hg]. destruct s as [g vl dl lk b]. cbn in *.
  apply list_elem_of_split in Hin as (g1 & g2 & ->).
  assert (∀ x y : goroutine, length (g1 ++ x :: g2) = length (g1 ++ y :: g2)) as Hlen
    by (intros; rewrite !length_app; done).
  destruct pc; [..|done].
  - destruct (decide (v ∈ b)); eexists; [split; [by apply bs_built|apply Hlen]|split; [by apply bs_version|apply Hlen]].
  - eexists. split; [apply bs_db|apply Hlen]. intros Hin. specialize (Hd (db_of v)). rewrite decide_True in Hd by done.
    destruct (count_some (has_db (db_of v)) (g1 ++ GBuild v BVersion :: g2)) as (x & Hxin & Hx); [by rewrite Hd|].
    destruct x as [u q|u q]; [|done]. apply Hpc in Hxin. cbn in Hx. congruence.
  - assert (is_Some (global_Lock lk)) as [lk' Hl].
    { destruct lk as [lk|]; cbn; [|by eexists]. unfold limit_of in Hg. destruct (Z.eqb_spec n 0); [done|].
      assert (count is_building (g1 ++ GBuild v BDb :: g2) = 0) as H0.
      { destruct (decide (count is_building (g1 ++ GBuild v BDb :: g2) = 0)) as [?|(x & Hxin & Hx)%count_some]; [done|].
        destruct x as [u []|]; try done. by apply Hpc in Hxin. }
      unfold ml_Lock. destruct (ml_tokens lk); [lia|]. by eexists. }
    eexists. split; [by apply bs_global|apply Hlen].
  - assert (is_Some (global_Unlock lk)) as [lk' Hl].
    { destruct lk as [lk|]; cbn; [|by eexists]. unfold limit_of in Hg. destruct (Z.eqb_spec n 0); [done|].
      rewrite count_mid in Hg. cbn in Hg. unfold ml_Unlock.
      destruct (Nat.ltb_spec (ml_tokens lk) (ml_capacity lk)); [by eexists|lia]. }
    eexists. split; [by apply (bs_return true)|apply Hlen].
Qed.

(** No deadlock, and every step counts. *)
Lemma builds_return n m s :
  (0 <= n)%Z -> server_lock n = Some m -> rtc build_step (builds_init m) s ->
  (steps_left (bl_routines s) ≠ 0 ->
     ∃ s', build_step s s' ∧ length (bl_routines s') = length (bl_routines s))
  ∧ (∀ s', build_step s s' -> length (bl_routines s') = length (bl_routines s) ->
     steps_left (bl_routines s') < steps_left (bl_routines s)).
Proof.
  intros Hn Hm Hr. split.
  - intros Hleft. pose proof (holder_steps n m s) as Hst.
    assert (∀ P : goroutine -> Prop, (∀ x, Decision (P x)) -> Exists P (bl_routines s) ∨ ∀ x, x ∈ bl_routines s -> ¬ P x) as Hdec.
    { intros P HP. destruct (decide (Exists P (bl_routines s))) as [?|Hno]; [by left|right].
      intros x Hx Hp. apply Hno, Exists_exists. by exists x. }
    destruct (Hdec (λ x, is_building x = true) _) as [(x & Hx & Hp)%Exists_exists|Hb].
    { destruct x as [v []|]; try done. by apply (Hst BBuilding v). }
    assert (∀ u, GBuild u BBuilding ∉ bl_routines s) as Hb' by (intros u Hu; by apply (Hb _ Hu)).
    destruct (Hdec (λ x, match x with GBuild _ BDb => true | _ => false end = true) _) as [(x & Hx & Hp)%Exists_exists|Hdb].
    { destruct x as [v []|]; try done. by apply (Hst BDb v). }
    destruct (Hdec (λ x, match x with GBuild _ BVersion => true | _ => false end = true) _) as [(x & Hx & Hp)%Exists_exists|Hvb].
    { destruct x as [v []|]; try done. apply (Hst BVersion v); try done. intros u q Hu. destruct q; try done.
      - by destruct (Hdb _ Hu).
      - by destruct (Hb' u). }
    assert (∀ v, v ∉ bl_versions s) as Hfree.
    { destruct (builds_reachable n m s Hn Hm Hr) as [Hv _ _]. intros v Hin. specialize (Hv v). rewrite decide_True in Hv by done.
      destruct (count_some (has_version v) (bl_routines s)) as (x & Hxin & Hx); [by rewrite Hv|].
      destruct x as [u []|]; try done; [by destruct (Hvb _ Hxin)|by destruct (Hdb _ Hxin)|by destruct (Hb' u)]. }
    destruct (Hdec (λ x, left_of x ≠ 0) _) as [(x & Hx & Hp)%Exists_exists|Hz].
    + destruct x as [v q|v []]; [|done|].
      * destruct q; try done; [by apply (Hst BStart v)|by destruct (Hvb _ Hx)|by destruct (Hdb _ Hx)|by destruct (Hb' v)].
      * destruct s as [g vl dl lk b]. cbn in *. apply list_elem_of_split in Hx as (g1 & g2 & ->).
        eexists. split; [by apply bs_close|]. cbn. rewrite !length_app. done.
    + exfalso. apply Hleft. unfold steps_left. clear -Hz. induction (bl_routines s) as [|x g IH]; [done|]. cbn.
      rewrite IH by set_solver. specialize (Hz x). destruct (left_of x); [done|]. exfalso. apply Hz; [left|done].
  - intros s' Hs Hlen. destruct Hs; cbn in *; rewrite ?steps_left_mid; cbn; try lia.
    rewrite length_app in Hlen. cbn in Hlen. lia.
Qed.

(** C30: the locks of builds do their work.  Two builds that run at the same
    time are of different versions and different databases, no more of them run
    than [max_parallel_loads] allows (any number if it is 0), and a version that
    is being built, or waits for its turn, has its lock held, so that its store
    is not closed under the build.  They never block each other for ever: as
    long as a build or a closing goroutine has not returned, one of them can go
    on, and each step that is not the start of another goroutine brings them all
    closer to their end. *)
Theorem build_locks_sound n m s :
  (0 <= n)%Z -> server_lock n = Some m -> rtc build_step (builds_init m) s ->
  (∀ i j u v, i ≠ j -> bl_routines s !! i = Some (GBuild u BBuilding) -> bl_routines s !! j = Some (GBuild v BBuilding) ->
     u ≠ v ∧ db_of u ≠ db_of v)
  ∧ (n ≠ 0 -> Z.of_nat (count is_building (bl_routines s)) <= n)%Z
  ∧ (∀ v x, x ∈ bl_routines s -> has_version v x = true -> v ∈ bl_versions s)
  ∧ (steps_left (bl_routines s) ≠ 0 ->
     ∃ s', build_step s s' ∧ length (bl_routines s') = length (bl_routines s))
  ∧ (∀ s', build_step s s' -> length (bl_routines s') = length (bl_routines s) ->
     steps_left (bl_routines s') < steps_left (bl_routines s)).
Proof.
  intros Hn Hm Hr. destruct (builds_exclusive n m s Hn Hm Hr) as (H1 & H2 & H3).
  destruct (builds_return n m s Hn Hm Hr) as (H4 & H5). by split_and!.
Qed.
End Builds.

(** ** Witnesses: two databases and one token *)

Module BuildLocksExample.
Definition token (t : nat) : option Multilock := Some {| ml_capacity := 1; ml_tokens := t |}.

(** Version 1 is being built; version 2, of another database, waits. *)
Definition one_waits : builds :=
  Builds [GBuild 1 BBuilding; GBuild 2 BDb] ({[ 2 ]} ∪ ({[ 1 ]} ∪ ∅)) ({[ 2 ]} ∪ ({[ 1 ]} ∪ ∅)) (token 0) ∅.

Lemma one_waits_run : rtc (build_step id) (builds_init (token 1)) one_waits.
Proof.
  eapply rtc_l; [apply (bs_spawn _ (GBuild 1 BStart)); eauto|]. eapply rtc_l; [apply (bs_spawn _ (GBuild 2 BStart)); eauto|].
  eapply rtc_l; [apply (bs_version _ [] 1 [GBuild 2 BStart]); set_solver|].
  eapply rtc_l; [apply (bs_db _ [] 1 [GBuild 2 BStart]); set_solver|].
  eapply rtc_l; [eapply (bs_global _ [] 1 [GBuild 2 BStart]); reflexivity|].
  eapply rtc_l; [apply (bs_version _ [GBuild 1 BBuilding] 2 []); set_solver|].
  eapply rtc_l; [apply (bs_db _ [GBuild 1 BBuilding] 2 []); set_solver|]. apply rtc_refl.
Qed.

Lemma build_locks_sound_witness :
  (Z.of_nat (count is_building (bl_routines one_waits)) <= 1)%Z ∧ 2 ∈ bl_versions one_waits
  ∧ ∃ s', build_step id one_waits s' ∧ length (bl_routines s') = length (bl_routines one_waits).
Proof.
  destruct (build_locks_sound id 1 (token 1) one_waits) as (_ & H2 & H3 & H4 & _);
    [lia|reflexivity|exact one_waits_run|].
  split; [by apply H2|]. split; [apply (H3 2 (GBuild 2 BDb)); [right; left|reflexivity]|]. apply H4. discriminate.
Defined.
End BuildLocksExample.
