(* ===== verification/Config.v ===== *)
(** * config.go: the configuration and the checks on it

    A configuration starts from the defaults, is overridden by the first file
    of the search path that exists, and is checked before the server starts.
    Durations are nanoseconds.  The TOML decoder and [url.Parse] are arguments
    of the definitions that call them. *)

From Stdlib Require Import ZArith Lia Ascii String.
From stdpp Require Import base list strings.
From S2P Require Import Prelude GoStrings Manifest.

Open Scope string_scope.
Set Default Proof Using "Type".

(** ** Data *)

Definition second : Z := 1000000000.
Definition millisecond : Z := 1000000.

Record storageConfig := StorageC { sc_Compression : Compression; sc_BlockSize : Z }.
Record s3Config := S3C { s3_Region : string; s3_AccessKeyId : string; s3_SecretAccessKey : string }.

Record shardingConfig := ShardingC {
  sh_Enabled : bool;
  sh_Replication : Z;
  sh_TimeToConverge : Z;
  sh_ProxyTimeout : Z;
  sh_ProxyStageTimeout : Z;
  sh_ClusterName : string;
  sh_AdvertisedHostname : string;
  sh_ShardID : string;
}.

Record zkConfig := ZKC { zk_Servers : list string; zk_ConnectTimeout : Z; zk_SessionTimeout : Z }.
Record debugConfig := DebugC { dbg_Bind : string; dbg_Expvars : bool; dbg_Pprof : bool }.

Record testConfig := TestC {
  t_UpgradeDelay : Z;
  t_AllowLocalCluster : bool;
  t_VersionRemoveTimeout : Z;
  t_S3 : s3Config;
}.

Record sequinsConfig := SequinsC {
  c_Source : string;
  c_Bind : string;
  c_MaxParallelLoads : Z;
  c_ThrottleLoads : Z;
  c_LocalStore : string;
  c_RefreshPeriod : Z;
  c_RequireSuccessFile : bool;
  c_ContentType : string;
  c_Storage : storageConfig;
  c_S3 : s3Config;
  c_Sharding : shardingConfig;
  c_ZK : zkConfig;
  c_Debug : debugConfig;
  c_Test : testConfig;
}.

(** Fields that are not named have their zero value. *)
Definition defaultConfig : sequinsConfig :=
  {| c_Source := ""; c_Bind := "0.0.0.0:9599"; c_LocalStore := "/var/sequins/"; c_MaxParallelLoads := 0;
     c_ThrottleLoads := 0; c_RefreshPeriod := 0; c_RequireSuccessFile := false; c_ContentType := "";
     c_Storage := {| sc_Compression := SnappyCompression; sc_BlockSize := 4096 |};
     c_S3 := S3C "" "" "";
     c_Sharding :=
       {| sh_Enabled := false; sh_Replication := 2; sh_TimeToConverge := 10 * second;
          sh_ProxyTimeout := 100 * millisecond; sh_ProxyStageTimeout := 0; sh_ClusterName := "sequins";
          sh_AdvertisedHostname := ""; sh_ShardID := "" |};
     c_ZK := {| zk_Servers := ["localhost:2181"]; zk_ConnectTimeout := 1 * second; zk_SessionTimeout := 10 * second |};
     c_Debug := {| dbg_Bind := ""; dbg_Expvars := true; dbg_Pprof := false |};
     c_Test := {| t_UpgradeDelay := 0; t_AllowLocalCluster := false; t_VersionRemoveTimeout := 0; t_S3 := S3C "" "" "" |} |}.

(** ** Loading *)

Definition defaultSearchPath : string := "sequins.conf:/etc/sequins.conf".
Definition errNoConfig : error := NewError "no config file found".

(** [filepath.SplitList] on Unix. *)
Definition SplitList (p : string) : list string := if bool_decide (p = "") then [] else split ":" p.

(** What [toml.DecodeFile] did: the keys it did not recognize, or an error. *)
Definition DecodeFile : Type := string -> sequinsConfig -> sequinsConfig * res (list string).

Fixpoint load_loop (decode : DecodeFile) (paths : list string) (config : sequinsConfig) : sequinsConfig * option error :=
  match paths with
  | [] => (config, Some errNoConfig)
  | path :: paths' =>
      let '(config, r) := decode path config in
      match r with
      | Err ErrNotExist => load_loop decode paths' config
      | Err e => (config, Some e)
      | Ok (_ :: _) => (config, Some (NewError "found unrecognized properties"))
      | Ok [] => (config, None)
      end
  end.

Definition loadConfig (decode : DecodeFile) (searchPath : string) : sequinsConfig * option error :=
  let searchPath := if bool_decide (searchPath = "") then defaultSearchPath else searchPath in
  load_loop decode (SplitList searchPath) defaultConfig.

(** ** Checking *)

(** [filepath] on Unix. *)
Definition IsAbs (p : string) : bool := is_rooted p.
Definition filepath_Dir (p : string) : string := path_Clean (path_Split p).1.

(** The fields of a [url.URL] that are read. *)
Record URL := { u_Scheme : string; u_Host : string; u_Path : string }.

(** Whether a source is on the local disk. *)
Definition local_scheme (u : URL) : bool := bool_decide (u_Scheme u = "" ∨ u_Scheme u = "file").

Section validate.
Context (url_Parse : string -> res URL).

Definition validateConfig (config : sequinsConfig) : option error :=
  if negb (IsAbs (c_LocalStore config)) then Some (NewError "local store path must be absolute")
  else if bool_decide (c_Source config = "") then Some (NewError "source must be set")
  else
    match url_Parse (c_Source config) with
    | Err e => Some (Errorf "parsing source" e)
    | Ok parsed =>
        let sourceErr :=
          if local_scheme parsed then
            if bool_decide (u_Host parsed ≠ "") then Some (NewError "local source path is invalid")
            else if negb (IsAbs (u_Path parsed)) then Some (NewError "local source path must be absolute")
            else if HasPrefix (filepath_Dir (c_LocalStore config)) (path_Clean (u_Path parsed))
            then Some (NewError "local store can't be within source root")
            else if sh_Enabled (c_Sharding config) && negb (t_AllowLocalCluster (c_Test config))
            then Some (NewError "you can't run sequins with sharding enabled on local paths")
            else None
          else None in
        match sourceErr with
        | Some e => Some e
        | None =>
            if bool_decide (sc_Compression (c_Storage config) ≠ SnappyCompression
                            ∧ sc_Compression (c_Storage config) ≠ NoCompression)
            then Some (NewError "unrecognized compression option")
            else if (sh_Replication (c_Sharding config) <=? 0)%Z then Some (NewError "invalid replication factor")
            else None
        end
    end.
End validate.

(** ** Paths inside one another *)

Lemma abs_path_prefix es es' : es `prefix_of` es' -> HasPrefix (abs_path es') (abs_path es) = true.
Proof.
  intros [rest ->]. assert (∃ t, abs_path (es ++ rest) = abs_path es ++ t) as [t ->]; [|apply HasPrefix_app].
  induction rest as [|e rest IH] using rev_ind; [exists ""; by rewrite app_nil_r, str_app_nil_r|].
  destruct IH as [t Ht]. rewrite app_assoc. unfold abs_path in *. rewrite concat_snoc.
  case_decide as Hnil.
  - apply app_nil in Hnil as [-> ->]. by exists e.
  - exists (t ++ "/" ++ e). by rewrite <- !str_app_assoc, <- Ht, !str_app_assoc.
Qed.

Lemma path_Split_rooted p : is_rooted p = true -> is_rooted (path_Split p).1 = true.
Proof.
  destruct p as [|c p]; [done|]. unfold is_rooted, HasPrefix. cbn [String.prefix].
  destruct (ascii_dec "/" c) as [<-|]; [|discriminate]. intros _. cbn [path_Split].
  destruct (path_Split p) as [dir file]. case_decide; [by rewrite decide_True|]. by destruct dir.
Qed.

Lemma filepath_Dir_abs es e : Forall plain_elem (es ++ [e])%list -> filepath_Dir (abs_path (es ++ [e])) = abs_path es.
Proof.
  intros Hp. apply Forall_app in Hp as [Hes [He _]%Forall_cons]. unfold filepath_Dir. rewrite path_Split_abs by done. cbn [fst].
  case_decide; [by subst|]. by apply path_Clean_abs.
Qed.

Lemma filepath_Dir_rooted p : is_rooted p = true -> ∃ es, Forall plain_elem es ∧ filepath_Dir p = abs_path es.
Proof. intros Hr. by apply path_Clean_rooted, path_Split_rooted. Qed.

(** ** What a checked configuration guarantees *)

Section validated.
Context (url_Parse : string -> res URL).

Lemma validate_replication config :
  validateConfig url_Parse config = None -> (0 < sh_Replication (c_Sharding config))%Z.
Proof.
  unfold validateConfig. destruct (negb _); [done|]. destruct (bool_decide _); [done|].
  destruct (url_Parse _) as [u|]; [|done]. cbn zeta. destruct (if local_scheme u then _ else _); [done|].
  destruct (bool_decide _); [done|]. destruct (Z.leb_spec (sh_Replication (c_Sharding config)) 0); done.
Qed.

(** C25: a configuration that passes the checks is safe to start with: the
    local store is an absolute path, the replication factor is positive (the
    server divides by it), the compression is one the block writer knows, and
    for a source on the local disk, the directory of the local store is not the
    source root and not below it, however the two paths are written. *)
Theorem validate_sound config :
  validateConfig url_Parse config = None ->
  IsAbs (c_LocalStore config) = true ∧ (0 < sh_Replication (c_Sharding config))%Z
  ∧ (sc_Compression (c_Storage config) = SnappyCompression ∨ sc_Compression (c_Storage config) = NoCompression)
  ∧ ∃ u, url_Parse (c_Source config) = Ok u
  ∧ (local_scheme u = true ->
     u_Host u = "" ∧ (sh_Enabled (c_Sharding config) = true -> t_AllowLocalCluster (c_Test config) = true)
     ∧ ∃ src dir, path_Clean (u_Path u) = abs_path src ∧ filepath_Dir (c_LocalStore config) = abs_path dir
       ∧ ¬ src `prefix_of` dir).
Proof.
  intros Hv. pose proof (validate_replication config Hv) as Hrep. revert Hv.
  unfold validateConfig. destruct (IsAbs (c_LocalStore config)) eqn:Habs; [|done]. cbn [negb].
  case_bool_decide; [done|]. destruct (url_Parse (c_Source config)) as [u|]; [|done].
  match goal with |- match ?x with _ => _ end = None -> _ => destruct x as [e|] eqn:Esrc; [done|] end.
  destruct (bool_decide (sc_Compression _ ≠ _ ∧ _)) eqn:Hcomp; [done|]. apply bool_decide_eq_false in Hcomp.
  intros _. split_and!; [done|done| |].
  { destruct (decide (sc_Compression (c_Storage config) = SnappyCompression)); [by left|].
    destruct (decide (sc_Compression (c_Storage config) = NoCompression)); [by right|]. exfalso. by apply Hcomp. }
  exists u. split; [done|]. intros Hloc. rewrite Hloc in Esrc. case_bool_decide as Hhost; [done|].
  destruct (IsAbs (u_Path u)) eqn:Hup; [|done]. cbn [negb] in Esrc. destruct (HasPrefix _ _) eqn:Hpre; [done|].
  destruct (path_Clean_rooted _ Hup) as (src & _ & Hsrc). destruct (filepath_Dir_rooted _ Habs) as (dir & _ & Hdir).
  split_and!.
  - done.
  - intros He. rewrite He in Esrc. by destruct (t_AllowLocalCluster (c_Test config)).
  - exists src, dir. split_and!; [done|done|]. intros Hp. rewrite Hsrc, Hdir, abs_path_prefix in Hpre; done.
Qed.

(** The check looks at the parent of the local store: a local store that is
    the source root itself, written without a trailing slash, is accepted. *)
Theorem store_in_source_accepted config es e :
  Forall plain_elem (es ++ [e])%list -> c_LocalStore config = abs_path (es ++ [e]) -> c_Source config = c_LocalStore config ->
  url_Parse (c_Source config) = Ok {| u_Scheme := ""; u_Host := ""; u_Path := c_Source config |} ->
  sh_Enabled (c_Sharding config) = false -> sc_Compression (c_Storage config) = SnappyCompression ->
  (0 < sh_Replication (c_Sharding config))%Z ->
  validateConfig url_Parse config = None.
Proof.
  intros Hp Hst Hsrc Hurl Hsh Hcomp Hrep. unfold validateConfig. rewrite Hurl, Hsrc, Hst, Hsh, Hcomp. cbn [u_Path u_Host].
  assert (is_rooted (abs_path (es ++ [e])) = true) as Hr by apply (HasPrefix_app "/"). unfold IsAbs. rewrite Hr. cbn [negb].
  rewrite filepath_Dir_abs by done. rewrite (proj1 (path_Clean_abs (es ++ [e])%list Hp)).
  assert (HasPrefix (abs_path es) (abs_path (es ++ [e])) = false) as ->.
  { apply not_true_is_false. intros Hpre%HasPrefix_length. apply Forall_app in Hp as [_ [[He _] _]%Forall_cons].
    unfold abs_path in Hpre. rewrite concat_snoc, !str_length_app in Hpre.
    assert (0 < String.length e)%nat by (destruct e; [done|cbn; lia]).
    case_decide; [subst es|rewrite str_length_app in Hpre]; cbn in Hpre; lia. }
  destruct (Z.leb_spec (sh_Replication (c_Sharding config)) 0); [lia|]. done.
Qed.

(** Which file wins.  Of the files of the search path, the first that
    exists is the only one that counts: it is decoded over the defaults, and
    the files after it are not looked at; without any, the caller is told that
    there is no configuration. *)
Theorem loadConfig_first (decode : DecodeFile) searchPath absent path rest config r :
  (∀ p, p ∈ absent -> decode p defaultConfig = (defaultConfig, Err ErrNotExist)) ->
  SplitList (if bool_decide (searchPath = "") then defaultSearchPath else searchPath) = (absent ++ path :: rest)%list ->
  decode path defaultConfig = (config, r) -> r ≠ Err ErrNotExist ->
  (loadConfig decode searchPath).1 = config
  ∧ ((loadConfig decode searchPath).2 = None <-> r = Ok [])
  ∧ (∀ e, r = Err e -> (loadConfig decode searchPath).2 = Some e).
Proof.
  intros Habs Hsplit Hdec Hr. unfold loadConfig. rewrite Hsplit. clear Hsplit.
  induction absent as [|p absent IH]; cbn [app load_loop].
  - rewrite Hdec. destruct r as [[|k ks]|e]; cbn.
    + split_and!; [done|done|by intros].
    + split_and!; [done|by split|by intros].
    + destruct e; cbn; (split_and!; [done|by split|by intros e' [= <-]]) || done.
  - rewrite Habs by left. apply IH. intros q Hq. apply Habs. by right.
Qed.
End validated.

(** ** Witnesses *)

Module ConfigExample.

(** An address that is a plain path. *)
Definition plain_url (s : string) : res URL := Ok {| u_Scheme := ""; u_Host := ""; u_Path := s |}.

Definition with_paths (source store : string) : sequinsConfig :=
  SequinsC source (c_Bind defaultConfig) 0 0 store 0 false "" (c_Storage defaultConfig) (c_S3 defaultConfig)
           (c_Sharding defaultConfig) (c_ZK defaultConfig) (c_Debug defaultConfig) (c_Test defaultConfig).

Lemma validate_sound_witness :
  validateConfig plain_url (with_paths "/mnt/data" "/var/sequins/") = None
  ∧ ∃ src dir, path_Clean "/mnt/data" = abs_path src ∧ filepath_Dir "/var/sequins/" = abs_path dir ∧ ¬ src `prefix_of` dir.
Proof.
  assert (validateConfig plain_url (with_paths "/mnt/data" "/var/sequins/") = None) as Hv by (vm_compute; reflexivity).
  split; [exact Hv|]. destruct (validate_sound plain_url _ Hv) as (_ & _ & _ & u & Hu & Hlocal).
  injection Hu as <-. exact (proj2 (proj2 (Hlocal eq_refl))).
Defined.

(** A store below the source root is refused, but the source root is not. *)
Lemma store_in_source_accepted_witness :
  validateConfig plain_url (with_paths "/mnt/data" "/mnt/data/store") = Some (NewError "local store can't be within source root")
  ∧ validateConfig plain_url (with_paths "/mnt/data" "/mnt/data") = None.
Proof.
  split; [vm_compute; reflexivity|].
  apply (store_in_source_accepted plain_url _ ["mnt"] "data"); try reflexivity.
  apply (bool_decide_unpack _). vm_compute. exact I.
Defined.

(** Only the second file of the default search path exists. *)
Definition etc_only (path : string) (config : sequinsConfig) : sequinsConfig * res (list string) :=
  if bool_decide (path = "/etc/sequins.conf") then (with_paths "/mnt/data" (c_LocalStore config), Ok [])
  else (config, Err ErrNotExist).

Lemma loadConfig_first_witness : loadConfig etc_only "" = (with_paths "/mnt/data" "/var/sequins/", None).
Proof.
  destruct (loadConfig_first etc_only "" ["sequins.conf"] "/etc/sequins.conf" [] (with_paths "/mnt/data" "/var/sequins/") (Ok []))
    as (H1 & H2 & _); [|reflexivity|reflexivity|discriminate|].
  - intros p ->%list_elem_of_singleton. reflexivity.
  - rewrite <- H1, <- (proj2 H2 eq_refl). destruct (loadConfig etc_only ""). reflexivity.
Defined.
End ConfigExample.
