(* ===== verification/Server.v ===== *)
(** * sequins.go: joining the cluster and keeping the databases current

    The server joins the cluster, opens the databases the backend lists, and on
    every refresh adds, refreshes and closes databases.  A database is a
    pointer; what is started on it is appended to a log, in order.  The
    zookeeper connection, the name of the host and the listing are arguments.

    [refreshAll] holds [refreshLock]: refreshes do not overlap.  Requests only
    read the map of databases. *)

From Stdlib Require Import ZArith Lia Ascii String.
From stdpp Require Import base gmap sets list strings fin_maps.
From S2P Require Import Prelude GoStrings Multilock Config.

Open Scope string_scope.
Set Default Proof Using "Type".

(** ** Joining the cluster *)

(** [time.Duration] division: a zero divisor panics. *)
Definition go_quot (a b : Z) : option Z := if (b =? 0)%Z then None else Some (Z.quot a b).

(** [net.SplitHostPort]: the port follows the last colon; a host with colons is
    in brackets. *)
Definition last_colon (s : string) : option (string * string) :=
  match reverse (split ":" s) with
  | port :: host => if bool_decide (host = []) then None else Some (String.concat ":" (reverse host), port)
  | [] => None
  end.

Definition SplitHostPort (hostport : string) : res (string * string) :=
  match last_colon hostport with
  | None => Err (NewError "missing port in address")
  | Some (host, port) =>
      if HasPrefix host "[" then
        let inner := TrimPrefix host "[" in
        let bare := TrimSuffix inner "]" in
        if negb (HasSuffix inner "]") then Err (NewError "malformed address")
        else if has_char "[" bare || has_char "]" bare || has_char "[" port || has_char "]" port
        then Err (NewError "unexpected bracket in address")
        else Ok (bare, port)
      else if has_char ":" host then Err (NewError "too many colons in address")
      else if has_char "%" host then Err (NewError "missing brackets in address")
      else if has_char "[" hostport || has_char "]" hostport then Err (NewError "unexpected bracket in address")
      else Ok (host, port)
  end.

Definition JoinHostPort (host port : string) : string :=
  if has_char ":" host || has_char "%" host then "[" ++ host ++ "]:" ++ port else host ++ ":" ++ port.

(** What [initCluster] sets up: the timeout of a stage, the prefix of the
    cluster in zookeeper, and the arguments of [watchPeers]. *)
Record cluster := Cluster {
  cl_stageTimeout : Z;
  cl_prefix : string;
  cl_shardID : string;
  cl_address : string;
}.

(** [connect] is the error of [connectZookeeper] with a prefix; [Hostname] is
    [os.Hostname]. *)
Definition initCluster (connect : string -> option error) (Hostname : res string) (config : sequinsConfig)
    : option (res cluster) :=
  let sh := c_Sharding config in
  stage ← (if (sh_ProxyStageTimeout sh =? 0)%Z then go_quot (sh_ProxyTimeout sh) (sh_Replication sh)
           else Some (sh_ProxyStageTimeout sh));
  let prefix := path_Join ["/"; sh_ClusterName sh] in
  Some match connect prefix with
       | Some e => Err e
       | None =>
           match (if bool_decide (sh_AdvertisedHostname sh = "") then Hostname else Ok (sh_AdvertisedHostname sh)) with
           | Err e => Err e
           | Ok host =>
               match SplitHostPort (c_Bind config) with
               | Err e => Err e
               | Ok (_, port) =>
                   let address := JoinHostPort host port in
                   let shardID := if bool_decide (sh_ShardID sh = "") then address else sh_ShardID sh in
                   Ok (Cluster stage prefix shardID address)
               end
           end
       end.

(** ** Refreshing *)

(** A pointer to a [db]. *)
Record dbref := DBRef { r_id : nat; r_name : string }.

#[global] Instance dbref_eq_dec : EqDecision dbref.
Proof. solve_decision. Defined.
#[global] Instance dbref_countable : Countable dbref.
Proof. apply (inj_countable' (λ d, (r_id d, r_name d)) (λ p, DBRef p.1 p.2)). by intros []. Qed.

(** What is done with the databases. *)
Inductive server_work :=
  | SBackfill (d : dbref)     (** [db.backfillVersions()], waited for *)
  | SRefresh (d : dbref)      (** [go db.refresh()] *)
  | SClose (d : dbref)
  | SDelete (d : dbref)
  | SCleanup.                 (** [zkWatcher.triggerCleanup()] *)

Record server := Server {
  s_dbs : gmap string dbref;
  s_next : nat;               (** the next address *)
  s_log : list server_work;
}.

Definition newSequins : server := Server ∅ 0 [].

Definition log_work (w : list server_work) (s : server) : server := Server (s_dbs s) (s_next s) (s_log s ++ w)%list.

(** The loop over the listed names: [old] is [s.dbs], which does not change. *)
Fixpoint refresh_loop (old : gmap string dbref) (names : list string) (newDBs : gmap string dbref) (s : server)
    : gmap string dbref * server :=
  match names with
  | [] => (newDBs, s)
  | name :: names' =>
      match old !! name with
      | None =>
          let d := DBRef (s_next s) name in
          refresh_loop old names' (<[name := d]> newDBs)
            (log_work [SBackfill d] (Server (s_dbs s) (S (s_next s)) (s_log s)))
      | Some d => refresh_loop old names' (<[name := d]> newDBs) (log_work [SRefresh d] s)
      end
  end.

(** The databases that are gone are closed, and their files deleted. *)
Definition close_gone (oldDBs : list (string * dbref)) (dbs : gmap string dbref) : list server_work :=
  oldDBs ≫= λ '(name, d), match dbs !! name with None => [SClose d; SDelete d] | Some _ => [] end.

Section refresh.
Context {MS : MapOrder string}.

(** [refreshAll]; [zk] tells whether there is a cluster. *)
Definition refreshAll (ListDBs : res (list string)) (zk : bool) (s : server) : server :=
  match ListDBs with
  | Err _ => s
  | Ok names =>
      let '(newDBs, s) := refresh_loop (s_dbs s) names ∅ s in
      let oldDBs := s_dbs s in
      let s := Server newDBs (s_next s) (s_log s) in
      let s := log_work (close_gone (range oldDBs) newDBs) s in
      if zk then log_work [SCleanup] s else s
  end.
End refresh.

(** ** Starting *)

Definition errDirLocked : error := NewError "failed to acquire lock".

(** The errors of [os.MkdirAll] and of the lock file. *)
Definition initLocalStore (MkdirAll TryLock : option error) : option error :=
  match MkdirAll with
  | Some e => Some e
  | None => match TryLock with Some _ => Some errDirLocked | None => None end
  end.

(** What the world answers while the server starts. *)
Record startup := Startup {
  up_connect : string -> option error;
  up_Hostname : res string;
  up_MkdirAll : option error;
  up_TryLock : option error;
}.

Record started := Started {
  st_cluster : option cluster;
  st_buildLock : option Multilock;
  st_server : server;
  st_refresh : option Z;       (** the period of the ticker *)
}.

(** [init]; [ListDBs] is what the backend of the server lists for the first
    [refreshAll]. *)
Definition sequins_init {MS : MapOrder string} (up : startup) (ListDBs : res (list string)) (config : sequinsConfig)
    : option (res started) :=
  joined ← (if sh_Enabled (c_Sharding config)
            then r ← initCluster (up_connect up) (up_Hostname up) config;
                 Some (match r with Ok cl => Ok (Some cl) | Err e => Err e end)
            else Some (Ok None));
  match joined with
  | Err e => Some (Err e)
  | Ok cl =>
      match initLocalStore (up_MkdirAll up) (up_TryLock up) with
      | Some e => Some (Err (Errorf "error initializing local store" e))
      | None =>
          lock ← (if (c_MaxParallelLoads config =? 0)%Z then Some None
                  else m ← ml_New (c_MaxParallelLoads config); Some (Some m));
          let s := refreshAll ListDBs (bool_decide (is_Some cl)) newSequins in
          let refresh := c_RefreshPeriod config in
          Some (Ok (Started cl lock s (if (refresh =? 0)%Z then None else Some refresh)))
      end
  end.

(** ** The cluster *)

Lemma last_colon_app a b : has_char ":" b = false -> last_colon (a ++ ":" ++ b) = Some (a, b).
Proof.
  intros Hb. unfold last_colon. change (a ++ ":" ++ b) with (a ++ String ":" b).
  rewrite split_app, (split_no_sep ":" b), reverse_app, reverse_singleton by done. cbn [app].
  rewrite bool_decide_false; [by rewrite reverse_involutive, concat_split|].
  destruct (split_cons ":" a) as (w & ws & ->). rewrite reverse_cons. by destruct (reverse ws).
Qed.

(** Without brackets. *)
Definition no_bracket (s : string) : Prop := has_char "[" s = false ∧ has_char "]" s = false.

Lemma SplitHostPort_Join host port :
  no_bracket host -> no_bracket port -> has_char ":" port = false -> SplitHostPort (JoinHostPort host port) = Ok (host, port).
Proof.
  intros [H1 H2] [P1 P2] Hp. unfold JoinHostPort. destruct (has_char ":" host || has_char "%" host) eqn:E.
  - unfold SplitHostPort. replace ("[" ++ host ++ "]:" ++ port) with (("[" ++ host ++ "]") ++ ":" ++ port) by by rewrite !str_app_assoc.
    rewrite last_colon_app, HasPrefix_app, TrimPrefix_app, HasSuffix_app, TrimSuffix_app by done. cbn [negb].
    by rewrite H1, H2, P1, P2.
  - apply orb_false_iff in E as [Ec Ep]. unfold SplitHostPort. rewrite last_colon_app by done.
    assert (HasPrefix host "[" = false) as ->.
    { destruct host as [|c host]; [done|]. unfold HasPrefix. cbn [String.prefix]. destruct (ascii_dec "[" c) as [<-|]; [|done].
      cbn in H1. by rewrite bool_decide_true in H1. }
    rewrite Ec, Ep, !has_char_app, H1, H2, P1, P2. done.
Qed.

Lemma initCluster_total url_Parse connect Hostname config :
  validateConfig url_Parse config = None -> ∃ r, initCluster connect Hostname config = Some r.
Proof.
  intros Hv. pose proof (validate_replication _ _ Hv) as Hrep. unfold initCluster, go_quot.
  rewrite (proj2 (Z.eqb_neq (sh_Replication _) 0)) by lia. destruct (_ =? 0)%Z; cbn; eexists; reflexivity.
Qed.

(** C26: joining the cluster with a checked configuration.  It does not panic.
    When it succeeds, zookeeper was reached under the prefix it reports, an
    absolute path; a stage timeout that was not configured is the share of a
    proxy timeout that is not negative for each replica, so that all replicas
    can be asked in time; the address it registers joins the advertised
    hostname, or the host's own name when none is configured, with the port of
    the address it listens on, and splits back into the two if neither has a
    bracket and the port has no colon; and the shard id is the configured one,
    or the address. *)
Theorem initCluster_ok url_Parse connect Hostname config :
  validateConfig url_Parse config = None ->
  ∃ r, initCluster connect Hostname config = Some r
  ∧ ∀ cl, r = Ok cl ->
    (∃ es, Forall plain_elem es ∧ cl_prefix cl = abs_path es) ∧ connect (cl_prefix cl) = None
    ∧ (sh_ProxyStageTimeout (c_Sharding config) ≠ 0%Z -> cl_stageTimeout cl = sh_ProxyStageTimeout (c_Sharding config))
    ∧ (sh_ProxyStageTimeout (c_Sharding config) = 0%Z -> (0 <= sh_ProxyTimeout (c_Sharding config))%Z ->
       (sh_Replication (c_Sharding config) * cl_stageTimeout cl <= sh_ProxyTimeout (c_Sharding config)
        < sh_Replication (c_Sharding config) * (cl_stageTimeout cl + 1))%Z)
    ∧ ∃ host bindHost port,
      (if bool_decide (sh_AdvertisedHostname (c_Sharding config) = "") then Hostname = Ok host
       else host = sh_AdvertisedHostname (c_Sharding config))
      ∧ SplitHostPort (c_Bind config) = Ok (bindHost, port)
      ∧ cl_address cl = JoinHostPort host port
      ∧ cl_shardID cl = (if bool_decide (sh_ShardID (c_Sharding config) = "") then cl_address cl
                         else sh_ShardID (c_Sharding config))
      ∧ (no_bracket host -> no_bracket port -> has_char ":" port = false -> SplitHostPort (cl_address cl) = Ok (host, port)).
Proof.
  intros Hv. pose proof (validate_replication _ _ Hv) as Hrep. unfold initCluster, go_quot.
  set (sh := c_Sharding config) in *. rewrite (proj2 (Z.eqb_neq (sh_Replication sh) 0)) by lia.
  set (q := Z.quot (sh_ProxyTimeout sh) (sh_Replication sh)).
  assert (∃ stage, (if (sh_ProxyStageTimeout sh =? 0)%Z then Some q else Some (sh_ProxyStageTimeout sh)) = Some stage
    ∧ (sh_ProxyStageTimeout sh ≠ 0%Z -> stage = sh_ProxyStageTimeout sh) ∧ (sh_ProxyStageTimeout sh = 0%Z -> stage = q))
    as (stage & -> & Hs1 & Hs2).
  { destruct (Z.eqb_spec (sh_ProxyStageTimeout sh) 0); by eexists. }
  cbn [mbind option_bind]. eexists. split; [reflexivity|]. intros cl Hcl. destruct (connect _) eqn:Econ; [done|].
  destruct (if bool_decide (sh_AdvertisedHostname sh = "") then Hostname else _) as [host|] eqn:Eh; [|done].
  destruct (SplitHostPort (c_Bind config)) as [[bh port]|] eqn:Eb; [|done]. injection Hcl as <-. cbn. split_and!.
  - by apply path_Join_rooted.
  - exact Econ.
  - exact Hs1.
  - intros H0 Hpos. rewrite (Hs2 H0). unfold q. rewrite Z.quot_div_nonneg by lia.
    pose proof (Z.mul_div_le (sh_ProxyTimeout sh) (sh_Replication sh)).
    pose proof (Z.mul_succ_div_gt (sh_ProxyTimeout sh) (sh_Replication sh)). lia.
  - exists host, bh, port. split; [|by split_and!; [..|intros; apply SplitHostPort_Join]].
    case_bool_decide; [exact Eh|congruence].
Qed.

(** ** The life of a database *)

Definition closed (log : list server_work) : list dbref := omap (λ w, match w with SClose d => Some d | _ => None end) log.
Definition opened (log : list server_work) : list dbref := omap (λ w, match w with SBackfill d => Some d | _ => None end) log.

Lemma closed_app l l' : closed (l ++ l') = (closed l ++ closed l')%list.
Proof. apply omap_app. Qed.
Lemma opened_app l l' : opened (l ++ l') = (opened l ++ opened l')%list.
Proof. apply omap_app. Qed.

Lemma cleanup_log_1 l : closed (l ++ [SCleanup]) = closed l.
Proof. rewrite closed_app. apply app_nil_r. Qed.
Lemma cleanup_log_2 l : opened (l ++ [SCleanup]) = opened l.
Proof. rewrite opened_app. apply app_nil_r. Qed.

Record loop_ok (old newDBs : gmap string dbref) (names : list string) (s : server)
    (n' : gmap string dbref) (s' : server) : Prop := {
  lo_dbs : s_dbs s' = s_dbs s;
  lo_next : (s_next s <= s_next s')%nat;
  lo_closed : closed (s_log s') = closed (s_log s);
  lo_kept : ∀ n d, n ∈ names -> old !! n = Some d -> n' !! n = Some d;
  lo_new : ∀ n, n ∈ names -> old !! n = None ->
    ∃ d, n' !! n = Some d ∧ r_name d = n ∧ (s_next s <= r_id d < s_next s')%nat ∧ d ∈ opened (s_log s');
  lo_other : ∀ n, n ∉ names -> n' !! n = newDBs !! n;
  lo_mono : ∀ d, d ∈ opened (s_log s) -> d ∈ opened (s_log s');
  lo_opened : ∀ d, d ∈ opened (s_log s') ->
    d ∈ opened (s_log s) ∨ (old !! r_name d = None ∧ n' !! r_name d = Some d);
}.

Lemma refresh_loop_ok old names newDBs s n' s' :
  NoDup names -> refresh_loop old names newDBs s = (n', s') -> loop_ok old newDBs names s n' s'.
Proof.
  intros Hnd. revert newDBs s. induction Hnd as [|name names Hname Hnd IH]; intros newDBs s H; cbn in H.
  { injection H as <- <-. split; try done; [set_solver..|by left]. }
  destruct (old !! name) as [d|] eqn:Eo.
  - apply IH in H as [Hd Hx Hc Hk Hn Ho Hm Hop]. cbn in *. rewrite closed_app, opened_app in *.
    split; try done.
    + rewrite Hc. cbn. by rewrite app_nil_r.
    + intros n d' [->|Hin]%elem_of_cons Hold; [|by apply Hk]. rewrite Ho, lookup_insert_eq by done. congruence.
    + intros n [->|Hin]%elem_of_cons Hold; [congruence|]. by apply Hn.
    + intros n [Hne Hin]%not_elem_of_cons. by rewrite Ho, lookup_insert_ne.
    + intros d' Hd'. apply Hm. rewrite elem_of_app. by left.
    + intros d' [Hd'|?]%Hop; [|by right]. rewrite app_nil_r in Hd'. by left.
  - set (d := DBRef (s_next s) name) in *. apply IH in H as [Hd Hx Hc Hk Hn Ho Hm Hop]. cbn in *. rewrite closed_app, opened_app in *.
    assert (n' !! name = Some d) as Hnew by (rewrite Ho by done; apply lookup_insert_eq).
    split; try done.
    + lia.
    + rewrite Hc. cbn. by rewrite app_nil_r.
    + intros n d' [->|Hin]%elem_of_cons Hold; [congruence|]. by apply Hk.
    + intros n [->|Hin]%elem_of_cons Hold; [|destruct (Hn n Hin Hold) as (d' & ? & ? & ? & ?); exists d'; split_and!; (done || lia)].
      exists d. split_and!; [done|done|cbn; lia|cbn; lia|]. apply Hm. rewrite elem_of_app. right. by left.
    + intros n [Hne Hin]%not_elem_of_cons. by rewrite Ho, lookup_insert_ne.
    + intros d' Hd'. apply Hm. rewrite elem_of_app. by left.
    + intros d' [Hd'|?]%Hop; [|by right]. apply elem_of_app in Hd' as [?| ->%list_elem_of_singleton]; [by left|by right].
Qed.

(** Every database that was opened is either in the map or closed, never both;
    the addresses are fresh. *)
Record server_ok (s : server) : Prop := {
  sv_names : ∀ n d, s_dbs s !! n = Some d -> r_name d = n ∧ (r_id d < s_next s)%nat ∧ d ∈ opened (s_log s);
  sv_closed : ∀ d, d ∈ closed (s_log s) -> (r_id d < s_next s)%nat ∧ d ∈ opened (s_log s) ∧ s_dbs s !! r_name d ≠ Some d;
  sv_opened : ∀ d, d ∈ opened (s_log s) -> s_dbs s !! r_name d = Some d ∨ d ∈ closed (s_log s);
  sv_once : NoDup (closed (s_log s));
}.

Section lifecycle.
Context {MS : MapOrder string}.

Lemma closed_gone_list l (dbs : gmap string dbref) :
  (∀ n d, (n, d) ∈ l -> r_name d = n) -> NoDup l.*1 ->
  NoDup (closed (close_gone l dbs)) ∧ opened (close_gone l dbs) = []
  ∧ ∀ d, d ∈ closed (close_gone l dbs) <-> (r_name d, d) ∈ l ∧ dbs !! r_name d = None.
Proof.
  induction l as [|[n x] l IH]; intros Hname Hnd.
  { split_and!; [constructor|done|]. intros d. split; [by intros ?%not_elem_of_nil|by intros [?%not_elem_of_nil _]]. }
  apply NoDup_cons in Hnd as [Hn Hnd]. destruct IH as (IH1 & IH2 & IH3); [intros ? ? ?; apply Hname; by right|done|].
  assert (r_name x = n) as Hx by (apply Hname; left). unfold close_gone in *. cbn [mbind list_bind].
  rewrite closed_app, opened_app, IH2. destruct (dbs !! n) as [y|] eqn:E.
  - change (closed []) with (@nil dbref). change (opened []) with (@nil dbref). cbn [app]. split_and!; [done|done|]. intros d. rewrite IH3, elem_of_cons. split; [tauto|].
    intros [[Heq|?] ?]; [injection Heq as H1 ->; congruence|done].
  - change (closed [SClose x; SDelete x]) with [x]. change (opened [SClose x; SDelete x]) with (@nil dbref). cbn [app].
    split_and!; [|done|].
    + apply NoDup_cons. split; [|done]. rewrite IH3. intros [Hin _]. apply Hn. apply list_elem_of_fmap.
      exists (r_name x, x). split; [by rewrite Hx|done].
    + intros d. rewrite !elem_of_cons, IH3. split.
      * intros [->|[? ?]]; [|split; [by right|done]]. rewrite Hx. split; [by left|done].
      * intros [[Heq|?] ?]; [|by right]. injection Heq as _ ->. by left.
Qed.

Lemma newSequins_ok : server_ok newSequins.
Proof. split; cbn; try done; [by intros d ?%not_elem_of_nil..|constructor]. Qed.

Lemma refreshAll_ok names zk s :
  NoDup names -> server_ok s ->
  server_ok (refreshAll (Ok names) zk s)
  ∧ (∀ n, is_Some (s_dbs (refreshAll (Ok names) zk s) !! n) <-> n ∈ names)
  ∧ ∀ n d, n ∈ names -> s_dbs s !! n = Some d -> s_dbs (refreshAll (Ok names) zk s) !! n = Some d.
Proof.
  intros Hnd Hok. unfold refreshAll. destruct (refresh_loop (s_dbs s) names ∅ s) as [n' s'] eqn:E.
  apply refresh_loop_ok in E as [Hd Hx Hc Hk Hn Ho Hm Hop]; [|done].
  assert (∀ n, is_Some (n' !! n) <-> n ∈ names) as Hdom.
  { intros n. destruct (decide (n ∈ names)) as [Hin|Hin].
    - split; [done|]. intros _. destruct (s_dbs s !! n) as [d|] eqn:En; [by rewrite (Hk n d)|].
      destruct (Hn n Hin En) as (d & -> & _). done.
    - rewrite Ho, lookup_empty by done. split; [by intros [? ?]|done]. }
  destruct (closed_gone_list (range (s_dbs s)) n') as (G1 & G2 & G3').
  { intros n d Hin. rewrite range_perm, elem_of_map_to_list in Hin. by apply (sv_names _ Hok). }
  { apply range_map. }
  rewrite Hd. set (w := close_gone (range (s_dbs s)) n') in *.
  assert (∀ d, d ∈ closed w <-> s_dbs s !! r_name d = Some d ∧ n' !! r_name d = None) as G3.
  { intros d. by rewrite G3', range_perm, elem_of_map_to_list. }
  assert (server_ok (log_work w (Server n' (s_next s') (s_log s')))) as Hok'.
  { split; cbn; rewrite ?closed_app, ?opened_app, ?G2, ?app_nil_r.
    - intros n d Hl. assert (n ∈ names) as Hin by (apply Hdom; by eexists).
      destruct (s_dbs s !! n) as [d0|] eqn:En.
      + rewrite (Hk n d0 Hin En) in Hl. simplify_eq. destruct (sv_names _ Hok n d En) as (? & ? & ?). split_and!; [done|lia|auto].
      + destruct (Hn n Hin En) as (d' & Hd' & Hnm & Hid & Hopn). simplify_eq. split_and!; [done|lia|done].
    - intros d. rewrite Hc, elem_of_app, G3. intros [Hcl|[Hold Hnone]].
      + destruct (sv_closed _ Hok d Hcl) as (Hid & Hopn & Hnot). split_and!; [lia|auto|]. intros Hl.
        assert (r_name d ∈ names) as Hin by (apply Hdom; by eexists). destruct (s_dbs s !! r_name d) as [d0|] eqn:En.
        * rewrite (Hk _ d0 Hin En) in Hl. congruence.
        * destruct (Hn _ Hin En) as (d' & Hd' & _ & Hid' & _). simplify_eq. lia.
      + destruct (sv_names _ Hok _ d Hold) as (_ & ? & ?). split_and!; [lia|auto|congruence].
    - intros d [Ho'|[_ ?]]%Hop; [|by left]. rewrite Hc, elem_of_app, G3.
      destruct (sv_opened _ Hok d Ho') as [Hl|Hcl]; [|by right; left].
      destruct (decide (r_name d ∈ names)) as [Hin|Hin]; [left; by apply Hk|]. right. right. split; [done|].
      by rewrite Ho, lookup_empty.
    - rewrite Hc. apply NoDup_app. split_and!; [apply Hok| |done]. intros d Hcl [Hl _]%G3.
      by apply (sv_closed _ Hok d Hcl). }
  destruct zk; [|by split_and!]. split_and!; [|done|done].
  destruct Hok' as [K1 K2 K3 K4]. split; cbn in *; rewrite ?cleanup_log_1, ?cleanup_log_2; done.
Qed.

End lifecycle.

(** Starting with a checked configuration.  Unless the limit on parallel
    loads is negative, the server starts or reports an error, and does not
    panic.  When it starts: it is in a cluster exactly when sharding is enabled;
    builds are limited exactly when a limit is set, and to that many; and it
    serves exactly the databases that the backend listed. *)
Theorem sequins_init_ok {MS : MapOrder string} url_Parse up config names :
  validateConfig url_Parse config = None -> (0 <= c_MaxParallelLoads config)%Z -> NoDup names ->
  ∃ r, sequins_init up (Ok names) config = Some r
  ∧ ∀ st, r = Ok st ->
    up_TryLock up = None
    ∧ (is_Some (st_cluster st) <-> sh_Enabled (c_Sharding config) = true)
    ∧ (ml_capacity <$> st_buildLock st
       = if (c_MaxParallelLoads config =? 0)%Z then None else Some (Z.to_nat (c_MaxParallelLoads config)))
    ∧ (∀ m, st_buildLock st = Some m -> ml_tokens m = ml_capacity m)
    ∧ ∀ n, is_Some (s_dbs (st_server st) !! n) <-> n ∈ names.
Proof.
  intros Hv Hmax Hnd. destruct (initCluster_total url_Parse (up_connect up) (up_Hostname up) config Hv) as [rc Hrc].
  unfold sequins_init. rewrite Hrc. set (joined := if sh_Enabled _ then _ else _).
  assert (∃ r, joined = Some r ∧ ∀ cl, r = Ok cl -> is_Some cl <-> sh_Enabled (c_Sharding config) = true) as (r & -> & Hcl).
  { subst joined. destruct (sh_Enabled _); cbn; [destruct rc as [cl|e]|]; eexists; (split; [reflexivity|]);
      intros ? [= <-]; rewrite is_Some_alt; done. }
  cbn [mbind option_bind]. destruct r as [cl|e]; [|eexists; split; [reflexivity|done]].
  unfold initLocalStore. destruct (up_MkdirAll up); [eexists; by split|]. destruct (up_TryLock up); [eexists; by split|].
  set (lock := if (c_MaxParallelLoads config =? 0)%Z then _ else _).
  assert (∃ l, lock = Some l ∧ (ml_capacity <$> l
    = if (c_MaxParallelLoads config =? 0)%Z then None else Some (Z.to_nat (c_MaxParallelLoads config)))
    ∧ ∀ m, l = Some m -> ml_tokens m = ml_capacity m) as (l & -> & Hl1 & Hl2).
  { subst lock. destruct (c_MaxParallelLoads config =? 0)%Z; [by eexists|]. unfold ml_New.
    destruct (Z.ltb_spec (c_MaxParallelLoads config) 0); [lia|]. rewrite ml_fill_ok by (cbn; lia). cbn.
    eexists. split_and!; [reflexivity|done|by intros m [= <-]]. }
  cbn [mbind option_bind]. eexists. split; [reflexivity|].
  destruct (refreshAll_ok names (bool_decide (is_Some cl)) newSequins Hnd newSequins_ok) as (_ & Hdom & _).
  revert Hdom. generalize (refreshAll (Ok names) (bool_decide (is_Some cl)) newSequins). intros s Hdom st [= <-].
  by split_and!; [|apply Hcl|..].
Qed.

(** ** Witnesses *)

Module ServerExample.
#[local] Instance by_name : MapOrder string := list_order.

Definition addr (s : string) : res URL := Ok {| u_Scheme := "hdfs"; u_Host := "namenode"; u_Path := s |}.

(** A cluster on hdfs, with the default timeouts. *)
Definition config : sequinsConfig :=
  SequinsC "hdfs://namenode/data" "0.0.0.0:9599" 4 0 "/var/sequins/" 0 false "" (c_Storage defaultConfig) (c_S3 defaultConfig)
           (ShardingC true 3 0 100000000 0 "sequins" "node1" "") (c_ZK defaultConfig) (c_Debug defaultConfig) (c_Test defaultConfig).

Definition up : startup := Startup (λ _, None) (Ok "node1") None None.

Lemma config_ok : validateConfig addr config = None.
Proof. vm_compute. reflexivity. Qed.

(** A third of the proxy timeout, rounded down. *)
Lemma initCluster_ok_witness :
  initCluster (λ _, None) (Ok "node1") config = Some (Ok (Cluster 33333333 "/sequins" "node1:9599" "node1:9599"))
  ∧ (3 * 33333333 <= 100000000 < 3 * (33333333 + 1))%Z.
Proof.
  destruct (initCluster_ok addr (λ _, None) (Ok "node1") config config_ok) as (r & Hr & Hall).
  assert (initCluster (λ _, None) (Ok "node1") config = Some (Ok (Cluster 33333333 "/sequins" "node1:9599" "node1:9599"))) as E
    by (vm_compute; reflexivity).
  rewrite E in Hr. injection Hr as <-. destruct (Hall _ eq_refl) as (_ & _ & _ & Ht & _). split; [exact E|].
  apply Ht; [reflexivity|vm_compute; discriminate].
Defined.

Lemma sequins_init_ok_witness :
  ∃ st, sequins_init up (Ok ["pets"; "cities"]) config = Some (Ok st) ∧ ml_capacity <$> st_buildLock st = Some 4%nat
  ∧ is_Some (s_dbs (st_server st) !! "pets").
Proof.
  destruct (sequins_init_ok addr up config ["pets"; "cities"] config_ok) as (r & Hr & Hall); [vm_compute; discriminate| |].
  { apply (bool_decide_unpack _). vm_compute. exact I. }
  destruct r as [st|e]; [|vm_compute in Hr; discriminate]. exists st. split; [exact Hr|].
  destruct (Hall st eq_refl) as (_ & _ & Hlock & _ & Hdom). split; [rewrite Hlock; reflexivity|].
  apply Hdom. left.
Defined.

(** A database disappears, and comes back as a new one. *)
Definition listings : list (res (list string)) :=
  [Ok ["pets"; "cities"]; Err (LibErr 1); Ok ["cities"]; Ok ["pets"; "cities"]].

Definition after : server := foldl (λ s l, refreshAll l true s) newSequins listings.

End ServerExample.
