(* ===== verification/Debug.v ===== *)
(** * debug.go: counting requests

    Requests for keys are tracked: when one ends, its status and duration are
    put into a channel; a goroutine counts them and publishes the counts of
    each second.  The channel has room for 1024 queries; more are dropped.
    The histogram of latencies is a library ([Histogram]). *)

From Stdlib Require Import ZArith Lia Ascii String SpecFloat.
From stdpp Require Import base gmap sets list strings relations.
From S2P Require Import Prelude GoStrings Disk Manifest Block BlockStore Hashcode Consistent Coord Peers Partitions Writable Build VersionMux Proxy Serve Config.

Open Scope string_scope.
Set Default Proof Using "Type".

(** ** The histogram *)

Class Histogram := {
  hist : Type;
  hist_New : Z -> Z -> Z -> hist;
  RecordValue : Z -> hist -> hist;      (** a value out of range is an error, which is ignored *)
  hist_Reset : hist -> hist;
  hist_Max : hist -> Z;
  hist_Mean : hist -> spec_float;
  ValueAtQuantile : spec_float -> hist -> Z;
}.

Definition float64_of (z : Z) : spec_float := binary_normalize 53 1024 z 0 false.
Definition float64_div (a b : spec_float) : spec_float := SFdiv 53 1024 a b.

(** ** Data *)

Record queryStats := Query { q_duration : Z; q_status : Z }.

(** The counts of the current second. *)
Record counters := Counters {
  qs_total : Z;
  status200 : Z;
  status400 : Z;
  status404 : Z;
  status500 : Z;
  status501 : Z;
  status502 : Z;
  status504 : Z;
}.

Definition no_counts : counters := Counters 0 0 0 0 0 0 0 0.

Record latency := Latency {
  l_Max : spec_float; l_Mean : spec_float; l_P9999 : spec_float; l_P99 : spec_float; l_P95 : spec_float;
  l_P90 : spec_float; l_P75 : spec_float; l_P50 : spec_float; l_P25 : spec_float;
}.

Definition no_latency : latency :=
  let z := S754_zero false in Latency z z z z z z z z z.

Section stats.
Context {H : Histogram}.

Record sequinsStats := Stats {
  st_Total : Z;
  st_ByStatus : option (gmap string Z);     (** [None] is [nil] *)
  st_Latency : latency;
  st_DiskUsed : Z;
  st_counts : counters;
  st_latencyHist : hist;
  st_queries : list queryStats;             (** the channel *)
}.

Definition queries_capacity : nat := 1024.

Definition newStats : sequinsStats :=
  Stats 0 None no_latency 0 no_counts (hist_New 0 10000000 5) [].

Definition with_counts (s : sequinsStats) (c : counters) (h : hist) (q : list queryStats) : sequinsStats :=
  Stats (st_Total s) (st_ByStatus s) (st_Latency s) (st_DiskUsed s) c h q.

(** The switch on the status. *)
Definition count_status (status : Z) (c : counters) : counters :=
  let '(Counters t a b d e f g h) := c in
  if bool_decide (status = 0 ∨ status = 200)%Z then Counters t (a + 1) b d e f g h
  else if (status =? 400)%Z then Counters t a (b + 1) d e f g h
  else if (status =? 404)%Z then Counters t a b (d + 1) e f g h
  else if (status =? 500)%Z then Counters t a b d (e + 1) f g h
  else if (status =? 501)%Z then Counters t a b d e (f + 1) g h
  else if (status =? 502)%Z then Counters t a b d e f (g + 1) h
  else if (status =? 504)%Z then Counters t a b d e f g (h + 1)
  else c.

Definition add_total (c : counters) : counters :=
  let '(Counters t a b d e f g h) := c in Counters (t + 1) a b d e f g h.

(** The case of [updateRequestStats] that receives a query. *)
Definition receive_query (q : queryStats) (s : sequinsStats) : sequinsStats :=
  with_counts s (count_status (q_status q) (add_total (st_counts s)))
    (RecordValue (Z.quot (q_duration q) 1000) (st_latencyHist s)) (st_queries s).

Definition by_status (c : counters) : gmap string Z :=
  {[ "200" := status200 c; "400" := status400 c; "404" := status404 c; "500" := status500 c;
     "501" := status501 c; "502" := status502 c; "504" := status504 c ]}.

(** Hundredths of a percent, as a float: 9999 is 99.99. *)
Definition percent (p : Z) : spec_float := float64_div (float64_of p) (float64_of 100).

Definition snapshotRequestStats (s : sequinsStats) : sequinsStats :=
  let ms := float64_of 1000 in
  let h := st_latencyHist s in
  let at_ p := float64_div (float64_of (ValueAtQuantile (percent p) h)) ms in
  Stats (qs_total (st_counts s)) (Some (by_status (st_counts s)))
    (Latency (float64_div (float64_of (hist_Max h)) ms) (float64_div (hist_Mean h) ms)
       (at_ 9999) (at_ 9900) (at_ 9500) (at_ 9000) (at_ 7500) (at_ 5000) (at_ 2500))
    (st_DiskUsed s) (st_counts s) h (st_queries s).

(** The case of the ticker. *)
Definition tick_stats (s : sequinsStats) : sequinsStats :=
  let s := snapshotRequestStats s in
  with_counts s no_counts (hist_Reset (st_latencyHist s)) (st_queries s).

(** [calculateDiskUsage]: [walk] are the calls of the function, with the size
    of a file, [None] for a directory or without an info, and the error that
    is passed to it and that it returns. *)
Fixpoint walk_size (walk : list (option Z * option error)) (size : Z) : res Z :=
  match walk with
  | [] => Ok size
  | (info, err) :: walk' =>
      let size := match info with Some n => GoInt.int64 (size + n) | None => size end in
      match err with
      | Some e => Err e
      | None => walk_size walk' size
      end
  end.

Definition calculateDiskUsage (walk : list (option Z * option error)) (s : sequinsStats) : sequinsStats :=
  match walk_size walk 0 with
  | Ok size => Stats (st_Total s) (st_ByStatus s) (st_Latency s) size (st_counts s) (st_latencyHist s) (st_queries s)
  | Err _ => s
  end.

(** ** Tracking *)

(** [queryTracker.done] with the global [expStats]. *)
Definition tracker_done (q : queryStats) (expStats : option sequinsStats) : option sequinsStats :=
  s ← expStats;
  Some (if (length (st_queries s) <? queries_capacity)%nat
        then with_counts s (st_counts s) (st_latencyHist s) (st_queries s ++ [q])
        else s).

(** Whether [trackingHandler.ServeHTTP] tracks a request. *)
Definition tracks (r : Request) : bool :=
  (0 <? Index (TrimPrefix (rq_Path r) "/") "/")%Z && bool_decide (rq_proxy r = "").

(** The status that [WriteHeader] noted: a local value is written without it. *)
Definition tracker_status (r : Reply) : Z :=
  if (rp_status r =? 200)%Z && bool_decide (rp_proxied r = None) then 0 else rp_status r.

(** The status that is noted for a request; a status page writes a status only
    when it cannot be encoded. *)
Definition noted_status (page_status : Z) (o : routed) : Z :=
  match o with
  | Replied r => tracker_status r
  | StatusPage | DBStatusPage _ => page_status
  end.

(** [trackingHandler.ServeHTTP]. *)
Definition tracking_ServeHTTP (serve : vref -> Request -> string -> Reply) (dbs : gmap string versionMux) (r : Request)
    (duration page_status : Z) (expStats : option sequinsStats)
    : option (routed * gmap string versionMux * option sequinsStats) :=
  '(o, dbs') ← ServeHTTP serve dbs r;
  Some (o, dbs', if tracks r then tracker_done (Query duration (noted_status page_status o)) expStats else expStats).

(** ** The debug server *)

Definition debug_routes (config : sequinsConfig) : list string :=
  ((if dbg_Expvars (c_Debug config) then ["/debug/vars"] else [])
   ++ (if dbg_Pprof (c_Debug config)
       then ["/debug/pprof/"; "/debug/pprof/cmdline"; "/debug/pprof/profile"; "/debug/pprof/symbol"; "/debug/pprof/trace"]
       else []))%list.

(** [startDebugServer]: what [expStats] is afterwards. *)
Definition startDebugServer (config : sequinsConfig) : list string * option sequinsStats :=
  (debug_routes config, if dbg_Expvars (c_Debug config) then Some newStats else None).

(** [start] tracks queries when the debug server publishes them. *)
Definition start_tracks (config : sequinsConfig) : bool :=
  bool_decide (dbg_Bind (c_Debug config) ≠ "") && dbg_Expvars (c_Debug config).
End stats.

(** ** What is published

    The specification keeps the queries themselves: those in the channel, those
    received in the current second and those of the last full second. *)

Inductive stats_event :=
  | EDone (q : queryStats)                          (** a tracked request ends *)
  | EReceive                                        (** the goroutine takes a query *)
  | ETick
  | EDisk (walk : list (option Z * option error)).

Record stats_spec := Spec {
  sp_queue : list queryStats;
  sp_now : list queryStats;
  sp_last : option (list queryStats);
}.

Definition spec_exec (e : stats_event) (s : stats_spec) : option stats_spec :=
  match e with
  | EDone q => Some (if (length (sp_queue s) <? queries_capacity)%nat
                     then Spec (sp_queue s ++ [q]) (sp_now s) (sp_last s) else s)
  | EReceive => match sp_queue s with
                | [] => None
                | q :: qs => Some (Spec qs (sp_now s ++ [q]) (sp_last s))
                end
  | ETick => Some (Spec (sp_queue s) [] (Some (sp_now s)))
  | EDisk _ => Some s
  end.

Fixpoint run_events {S} (exec : stats_event -> S -> option S) (es : list stats_event) (s : S) : option S :=
  match es with
  | [] => Some s
  | e :: es' => s ← exec e s; run_events exec es' s
  end.

(** The counts that belong to a list of queries. *)
Definition with_status (codes : list Z) (qs : list queryStats) : Z := tally (λ q, q_status q ∈ codes) qs.

Definition counts_of (qs : list queryStats) : counters :=
  Counters (Z.of_nat (length qs)) (with_status [0; 200]%Z qs) (with_status [400]%Z qs) (with_status [404]%Z qs)
    (with_status [500]%Z qs) (with_status [501]%Z qs) (with_status [502]%Z qs) (with_status [504]%Z qs).

Lemma with_status_snoc codes qs q :
  with_status codes (qs ++ [q]) = (with_status codes qs + if decide (q_status q ∈ codes) then 1 else 0)%Z.
Proof. unfold with_status. rewrite tally_app, tally_cons, tally_nil. by rewrite Z.add_0_r. Qed.

Lemma in_one (z c : Z) : (if decide (z ∈ [c]) then 1 else 0)%Z = (if (z =? c)%Z then 1 else 0)%Z.
Proof.
  destruct (Z.eqb_spec z c) as [->|Hne]; [by rewrite decide_True by left|].
  rewrite decide_False; [done|]. by rewrite list_elem_of_singleton.
Qed.

Lemma in_ok z :
  (if decide (z ∈ [0; 200]%Z) then 1 else 0)%Z = (if bool_decide (z = 0 ∨ z = 200)%Z then 1 else 0)%Z.
Proof. case_bool_decide as E; case_decide as E'; rewrite !elem_of_cons, elem_of_nil in E'; try done; tauto. Qed.

Lemma counts_of_snoc qs q : counts_of (qs ++ [q]) = count_status (q_status q) (add_total (counts_of qs)).
Proof.
  unfold counts_of, add_total, count_status. rewrite length_app, !with_status_snoc.
  rewrite in_ok, !in_one, Nat2Z.inj_add. cbn [length]. case_bool_decide as E.
  - repeat match goal with |- context [(q_status q =? ?c)%Z] => destruct (Z.eqb_spec (q_status q) c); [lia|] end.
    by rewrite !Z.add_0_r.
  - repeat match goal with |- context [(q_status q =? ?c)%Z] => destruct (Z.eqb_spec (q_status q) c); try lia end;
      by rewrite !Z.add_0_r.
Qed.

Section published.
Context {H : Histogram}.

Definition stats_exec (e : stats_event) (s : sequinsStats) : option sequinsStats :=
  match e with
  | EDone q => tracker_done q (Some s)
  | EReceive => match st_queries s with
                | [] => None
                | q :: qs => Some (receive_query q (with_counts s (st_counts s) (st_latencyHist s) qs))
                end
  | ETick => Some (tick_stats s)
  | EDisk walk => Some (calculateDiskUsage walk s)
  end.

(** The published figures are those of the last full second. *)
Definition publishes (s : sequinsStats) (last : option (list queryStats)) : Prop :=
  match last with
  | None => st_Total s = 0%Z ∧ st_ByStatus s = None
  | Some qs => st_Total s = Z.of_nat (length qs) ∧ st_ByStatus s = Some (by_status (counts_of qs))
  end.

Definition stats_sim (s : sequinsStats) (sp : stats_spec) : Prop :=
  st_queries s = sp_queue sp ∧ st_counts s = counts_of (sp_now sp) ∧ publishes s (sp_last sp)
  ∧ (length (sp_queue sp) <= queries_capacity)%nat.

Lemma stats_exec_sim e s sp :
  stats_sim s sp ->
  match stats_exec e s, spec_exec e sp with
  | Some s', Some sp' => stats_sim s' sp'
  | None, None => True
  | _, _ => False
  end.
Proof.
  intros (Hq & Hc & Hp & Hlen). destruct e as [q| | |walk]; cbn [stats_exec spec_exec tracker_done mbind option_bind].
  - rewrite Hq. destruct (Nat.ltb_spec (length (sp_queue sp)) queries_capacity); [|by split_and!].
    split_and!; cbn; [done|done|done|]. rewrite length_app. cbn. lia.
  - rewrite Hq. destruct (sp_queue sp) as [|q qs] eqn:E; [done|]. split_and!; cbn; [done| |done|cbn in Hlen; lia].
    by rewrite Hc, counts_of_snoc.
  - split_and!; cbn; [done|done| |done]. by rewrite Hc.
  - unfold calculateDiskUsage. destruct (walk_size walk 0); [by split_and!|]. by split_and!.
Qed.

Lemma newStats_sim : stats_sim newStats (Spec [] [] None).
Proof. split_and!; cbn; [done|done|done|lia]. Qed.

(** C28: the published request counts are exact.  However requests end, the
    goroutine is scheduled and the clock ticks: the counts shown are those of
    the queries received in the last full second, in total and by status, 0 and
    200 together; and a query is lost only if 1024 are waiting when it ends. *)
Theorem stats_refine events :
  match run_events stats_exec events newStats, run_events spec_exec events (Spec [] [] None) with
  | Some s, Some sp => stats_sim s sp
  | None, None => True
  | _, _ => False
  end.
Proof.
  generalize newStats_sim. generalize newStats (Spec [] [] None). induction events as [|e es IH]; intros s sp Hs; [done|]. cbn.
  pose proof (stats_exec_sim e s sp Hs) as He. destruct (stats_exec e s), (spec_exec e sp); cbn; try done. by apply IH.
Qed.
End published.

(** ** The statuses a node replies with *)

Definition known_statuses : list Z := [0; 200; 400; 404; 500; 501; 502; 504]%Z.

Definition known (z : Z) : Prop := z ∈ known_statuses.
#[local] Instance known_dec z : Decision (known z).
Proof. apply _. Defined.

Ltac known := apply (bool_decide_unpack _); vm_compute; exact I.

Lemma known_ok resp : (rs_StatusCode resp = 200 ∨ rs_StatusCode resp = 404)%Z -> known (rs_StatusCode resp).
Proof. intros [->| ->]; known. Qed.

Lemma serveProxied_status p w1 w2 partition alternate reply :
  serveProxied p w1 w2 partition alternate = Some reply -> known (rp_status reply).
Proof.
  intros [(resp & peer & -> & Hs & _)|[->|[->| ->]]]%serveProxied_inv; [by apply known_ok|known..].
Qed.

Lemma version_serveKey_status {D : Disk} {SP : SyncPool HashIter} vs r w1 w2 key (w : world) reply w' :
  version_serveKey vs r w1 w2 key w = Some (reply, w') -> known (rp_status reply).
Proof.
  intros H. unfold version_serveKey in H. destruct (_ =? 0)%Z; [simplify_eq; known|].
  destruct (KeyPartition _ _) as [[p a]|]; [|done]. cbn in H. destruct (_ || _).
  - rewrite GoM_bind_eq in H. destruct (Get _ _ _) as [[[[rec|]|e] w3]|]; [| | |done]; cbv [mret GoM_ret] in H.
    + unfold serveLocal in H. rewrite GoM_bind_eq in H. destruct (Record_Close rec w3) as [[[] w4]|]; [|done].
      cbv [mret GoM_ret] in H. simplify_eq. known.
    + cbn in H. cbv [mret GoM_ret] in H. simplify_eq. known.
    + simplify_eq. known.
  - case_bool_decide; [|simplify_eq; known]. destruct (serveProxied _ _ _ _ _) eqn:E; [|done]. cbn in H. simplify_eq.
    by eapply serveProxied_status.
Qed.

Lemma ServeHTTP_status serve dbs r reply dbs' :
  (∀ v key, known (rp_status (serve v r key))) -> ServeHTTP serve dbs r = Some (Replied reply, dbs') ->
  known (rp_status reply).
Proof.
  intros Hs H. unfold ServeHTTP in H. case_bool_decide; [simplify_eq; known|]. case_bool_decide; [done|].
  destruct (split_path _) as [db key]. case_bool_decide; [simplify_eq; known|].
  destruct (dbs !! db) as [mux|]; [|case_bool_decide; simplify_eq; known].
  unfold db_serveKey in H. case_bool_decide; [done|]. rewrite GoM_bind_eq in H.
  destruct (mux_serveKey serve r key mux) as [[reply' m']|] eqn:E; [|done]. cbn in H. simplify_eq.
  apply mux_serveKey_inv in E as [[v ->]| ->]; [apply Hs|]. case_bool_decide; known.
Qed.

Lemma noted_known page_status o :
  page_status = 0%Z ∨ page_status = 500%Z -> (∀ reply, o = Replied reply -> known (rp_status reply)) ->
  known (noted_status page_status o).
Proof.
  intros Hp Ho. destruct o as [reply| |db]; cbn; [|destruct Hp as [->| ->]; known..].
  unfold tracker_status. destruct (_ && _); [known|]. by apply Ho.
Qed.

(** ** A node with its statistics *)

Inductive node_event :=
  | NRequest (r : Request) (duration page_status : Z)
  | NReceive
  | NTick
  | NDisk (walk : list (option Z * option error)).

Section node.
Context {H : Histogram} (serve : vref -> Request -> string -> Reply).

Definition node_exec (e : node_event) (st : gmap string versionMux * sequinsStats)
    : option (gmap string versionMux * sequinsStats) :=
  let '(dbs, s) := st in
  match e with
  | NRequest r duration page_status =>
      '(_, dbs', ex) ← tracking_ServeHTTP serve dbs r duration page_status (Some s);
      s' ← ex; Some (dbs', s')
  | NReceive => s' ← stats_exec EReceive s; Some (dbs, s')
  | NTick => s' ← stats_exec ETick s; Some (dbs, s')
  | NDisk walk => s' ← stats_exec (EDisk walk) s; Some (dbs, s')
  end.

Definition node_run (es : list node_event) (st : gmap string versionMux * sequinsStats) :=
  foldl (λ acc e, st ← acc; node_exec e st) (Some st) es.

(** Every query that was counted has one of the known statuses. *)
Definition node_ok (s : sequinsStats) : Prop :=
  ∃ sp, stats_sim s sp ∧ Forall (λ q, known (q_status q)) (sp_queue sp)
        ∧ Forall (λ q, known (q_status q)) (sp_now sp)
        ∧ ∀ qs, sp_last sp = Some qs -> Forall (λ q, known (q_status q)) qs.

Definition page_ok (e : node_event) : Prop :=
  match e with NRequest _ _ page_status => page_status = 0%Z ∨ page_status = 500%Z | _ => True end.

Lemma stats_exec_ok e s s' :
  (∀ q, e = EDone q -> known (q_status q)) -> node_ok s -> stats_exec e s = Some s' -> node_ok s'.
Proof.
  intros He (sp & Hsim & Hq & Hn & Hl) Hs. pose proof (stats_exec_sim e s sp Hsim) as Hx. rewrite Hs in Hx.
  destruct (spec_exec e sp) as [sp'|] eqn:Esp; [|done]. exists sp'. split; [done|].
  destruct e as [q| | |walk]; cbn in Esp.
  - case_match; simplify_eq; [|done]. cbn. split_and!; [|done|done]. apply Forall_app. split; [done|].
    apply Forall_singleton. by apply He.
  - case_match eqn:Eq; simplify_eq. cbn. apply Forall_cons in Hq as [??]. split_and!; [done| |done].
    apply Forall_app. split; [done|]. by apply Forall_singleton.
  - simplify_eq. cbn. split_and!; [done|constructor|]. intros ? [= <-]. done.
  - by simplify_eq.
Qed.

Lemma node_exec_ok e dbs s dbs' s' :
  (∀ v r key, known (rp_status (serve v r key))) -> page_ok e ->
  node_ok s -> node_exec e (dbs, s) = Some (dbs', s') -> node_ok s'.
Proof.
  intros Hserve Hpage Hs He. destruct e as [r d page| | |walk]; cbn [node_exec] in He.
  - unfold tracking_ServeHTTP in He. destruct (ServeHTTP serve dbs r) as [[o dbs1]|] eqn:E; [|done].
    cbn [mbind option_bind] in He. destruct (tracks r); [|by simplify_eq/=].
    destruct (tracker_done _ (Some s)) as [s1|] eqn:Et; [|done]. cbn in He. simplify_eq.
    eapply (stats_exec_ok (EDone _)), Et; [|done]. intros q [= <-]. apply noted_known; [done|].
    intros reply ->. eapply ServeHTTP_status, E. intros. apply Hserve.
  - destruct (stats_exec EReceive s) eqn:E; [|done]. cbn in He. simplify_eq. by eapply stats_exec_ok, E.
  - destruct (stats_exec ETick s) eqn:E; [|done]. cbn in He. simplify_eq. by eapply stats_exec_ok, E.
  - destruct (stats_exec (EDisk walk) s) eqn:E; [|done]. cbn in He. simplify_eq. by eapply stats_exec_ok, E.
Qed.

Lemma node_run_ok es dbs s dbs' s' :
  (∀ v r key, known (rp_status (serve v r key))) -> Forall page_ok es ->
  node_ok s -> node_run es (dbs, s) = Some (dbs', s') -> node_ok s'.
Proof.
  intros Hserve. revert dbs' s'. induction es as [|e es IH] using rev_ind; intros dbs' s' Hp Hs Hr.
  { cbn in Hr. by simplify_eq. }
  unfold node_run in Hr. rewrite foldl_app in Hr. fold (node_run es (dbs, s)) in Hr. cbn in Hr.
  apply Forall_app in Hp as [Hp [Hpe _]%Forall_cons].
  destruct (node_run es (dbs, s)) as [[dbs1 s1]|]; [|done]. cbn in Hr. eapply (node_exec_ok e), Hr; [done|done|].
  by eapply IH.
Qed.
End node.

Lemma counts_of_total qs :
  Forall (λ q, known (q_status q)) qs ->
  let c := counts_of qs in
  qs_total c = (status200 c + status400 c + status404 c + status500 c + status501 c + status502 c + status504 c)%Z.
Proof.
  induction qs as [|q qs IH]; intros Hq; [done|]. apply Forall_cons in Hq as [Hq Hqs]. specialize (IH Hqs).
  unfold counts_of in *. cbn [qs_total status200 status400 status404 status500 status501 status502 status504 length] in *.
  unfold with_status in *. rewrite !tally_cons, in_ok, !in_one. revert Hq. unfold known, known_statuses. rewrite !elem_of_cons, elem_of_nil.
  intros Hq. destruct_or! Hq; try done; rewrite Hq; cbn [Z.eqb Pos.eqb];
    [rewrite bool_decide_true by lia|rewrite bool_decide_true by lia|rewrite bool_decide_false by lia..]; lia.
Qed.

Lemma by_status_sum c :
  map_fold (λ _ n total, n + total)%Z 0%Z (by_status c)
  = (status200 c + status400 c + status404 c + status500 c + status501 c + status502 c + status504 c)%Z.
Proof.
  unfold by_status. repeat (rewrite map_fold_insert_L; [|intros; lia|by vm_compute]).
  rewrite map_fold_singleton. lia.
Qed.

(** C29: the published counts of a node add up.  A node that serves requests,
    with the tracking handler in front, replies only with statuses that are
    counted, 0 (a local value), 200, 400, 404, 500, 501, 502 and 504: whatever
    requests come, and however they interleave with the goroutine and the
    clock, the total that is published is the sum of the counts by status. *)
Theorem published_totals {H : Histogram} {D : Disk} {SP : SyncPool HashIter} serve dbs es dbs' s counts :
  (∀ v r key, ∃ vs w1 w2 (w w' : world), version_serveKey vs r w1 w2 key w = Some (serve v r key, w')) ->
  Forall page_ok es ->
  node_run serve es (dbs, newStats) = Some (dbs', s) -> st_ByStatus s = Some counts ->
  st_Total s = map_fold (λ _ n total, n + total)%Z 0%Z counts.
Proof.
  intros Hserve Hp Hr Hc.
  assert (node_ok s) as (sp & (_ & _ & Hpub & _) & _ & _ & Hl).
  { eapply node_run_ok, Hr; [|done|].
    - intros v r key. destruct (Hserve v r key) as (vs & w1 & w2 & w & w' & E). by eapply version_serveKey_status.
    - exists (Spec [] [] None). split_and!; [apply newStats_sim|done..]. }
  destruct (sp_last sp) as [qs|] eqn:El; cbn in Hpub; [|naive_solver]. destruct Hpub as [Ht Hb]. rewrite Hb in Hc. simplify_eq.
  rewrite by_status_sum, Ht. by apply (counts_of_total qs), Hl.
Qed.

(** The status page of the node and [/db] are not tracked; with a slash at the
    end the status page of a database is. *)
Theorem status_page_tracked serve dbs db mux :
  db ≠ "" -> has_char "/" db = false -> dbs !! db = Some mux ->
  let get path := {| rq_Method := "GET"; rq_Path := path; rq_proxy := "" |} in
  tracks (get "/") = false ∧ tracks (get ("/" ++ db)) = false
  ∧ tracks (get ("/" ++ db ++ "/")) = true
  ∧ ServeHTTP serve dbs (get ("/" ++ db ++ "/")) = Some (DBStatusPage db, dbs).
Proof.
  intros Hdb Hs Hm get. unfold tracks. cbn [rq_Path rq_proxy get]. rewrite !TrimPrefix_slash. split_and!.
  - done.
  - by rewrite Index_none.
  - change (db ++ "/") with (db ++ String "/" ""). rewrite Index_app by done. destruct db; [done|]. cbn [String.length].
    rewrite bool_decide_true by done. rewrite andb_true_r. apply Z.ltb_lt. lia.
  - unfold ServeHTTP. cbn [rq_Method rq_Path rq_proxy get]. rewrite bool_decide_false by (intros H; by apply H).
    rewrite bool_decide_false by (intros E; injection E; by destruct db). rewrite TrimPrefix_slash.
    change (db ++ "/") with (db ++ String "/" ""). rewrite split_path_key, bool_decide_false, Hm by done.
    change (Some (DBStatusPage db, <[db := mux]> dbs) = Some (DBStatusPage db, dbs)). by rewrite insert_id.
Qed.

Module DebugExample.
Import BlockExample BlockStoreExample BuildExample ServeExample.

(** A histogram that keeps the values. *)
#[export] Instance list_histogram : Histogram := {|
  hist := list Z;
  hist_New _ _ _ := [];
  RecordValue v h := v :: h;
  hist_Reset _ := [];
  hist_Max h := foldr Z.max 0%Z h;
  hist_Mean h := float64_div (float64_of (foldr Z.add 0%Z h)) (float64_of (Z.of_nat (length h)));
  ValueAtQuantile _ h := foldr Z.max 0%Z h;
|}.

Definition one_db : gmap string versionMux := {[ "db" := newVersionMux 0 ]}.
Definition requests : list node_event :=
  [NRequest (get "") 1500 0; NRequest {| rq_Method := "POST"; rq_Path := "/db/key"; rq_proxy := "" |} 20 0;
   NReceive; NRequest (get "v1") 20 0; NReceive; NTick; NRequest (get "") 10 0].

Lemma published_totals_witness :
  ∃ dbs' s counts, node_run (λ _ _ _, serveNotFound "v1") requests (one_db, newStats) = Some (dbs', s)
  ∧ st_ByStatus s = Some counts ∧ counts !! "404" = Some 1%Z ∧ counts !! "400" = Some 1%Z ∧ st_Total s = 2%Z
  ∧ st_Total s = map_fold (λ _ n total, n + total)%Z 0%Z counts.
Proof.
  assert (∀ P : option Z * option Z * Z -> Prop, P (Some 1, Some 1, 2)%Z ->
    match node_run (λ _ _ _, serveNotFound "v1") requests (one_db, newStats) with
    | Some (_, s) => match st_ByStatus s with Some c => P (c !! "404", c !! "400", st_Total s) | None => False end
    | None => False
    end) as Hrun by (intros P HP; vm_compute; exact HP).
  specialize (Hrun (λ x, x = (Some 1, Some 1, 2)%Z) eq_refl).
  destruct (node_run _ requests _) as [[dbs' s]|] eqn:Hr; [|destruct Hrun].
  destruct (st_ByStatus s) as [counts|] eqn:Hc; [|destruct Hrun]. injection Hrun as H4 H0 Ht.
  exists dbs', s, counts. split_and!; [reflexivity|exact Hc|exact H4|exact H0|exact Ht|].
  apply (published_totals (λ _ _ _, serveNotFound "v1") one_db requests dbs' s counts); [|repeat constructor; by left|exact Hr|exact Hc].
  intros v r key. exists (holding 0 ∅ ∅ s0), calm, calm, w0, w0. done.
Defined.
End DebugExample.
