(* ===== verification/Main.v ===== *)
(** * main.go: from the command line to a running server

    The flags override the configuration, the result is checked, the source
    decides which backend is used, and the server starts, with the debug server
    beside it.  [log.Fatal] is an error; [None] is a panic.  What the operating
    system and the clients of S3 and HDFS answer is an argument. *)

From Stdlib Require Import ZArith Lia Ascii String.
From stdpp Require Import base gmap sets list strings.
From S2P Require Import Prelude GoStrings Disk Manifest Block BlockStore Multilock Backend Config Server Debug.

Open Scope string_scope.
Set Default Proof Using "Type".

(** ** The configuration *)

Record flags := Flags {
  f_bind : string;
  f_source : string;
  f_localStore : string;
  f_configPath : string;
  f_debugBind : string;
}.

Definition with_Source (c : sequinsConfig) (s : string) : sequinsConfig :=
  SequinsC s (c_Bind c) (c_MaxParallelLoads c) (c_ThrottleLoads c) (c_LocalStore c) (c_RefreshPeriod c)
    (c_RequireSuccessFile c) (c_ContentType c) (c_Storage c) (c_S3 c) (c_Sharding c) (c_ZK c) (c_Debug c) (c_Test c).
Definition with_Bind (c : sequinsConfig) (b : string) : sequinsConfig :=
  SequinsC (c_Source c) b (c_MaxParallelLoads c) (c_ThrottleLoads c) (c_LocalStore c) (c_RefreshPeriod c)
    (c_RequireSuccessFile c) (c_ContentType c) (c_Storage c) (c_S3 c) (c_Sharding c) (c_ZK c) (c_Debug c) (c_Test c).
Definition with_LocalStore (c : sequinsConfig) (p : string) : sequinsConfig :=
  SequinsC (c_Source c) (c_Bind c) (c_MaxParallelLoads c) (c_ThrottleLoads c) p (c_RefreshPeriod c)
    (c_RequireSuccessFile c) (c_ContentType c) (c_Storage c) (c_S3 c) (c_Sharding c) (c_ZK c) (c_Debug c) (c_Test c).
Definition with_DebugBind (c : sequinsConfig) (b : string) : sequinsConfig :=
  SequinsC (c_Source c) (c_Bind c) (c_MaxParallelLoads c) (c_ThrottleLoads c) (c_LocalStore c) (c_RefreshPeriod c)
    (c_RequireSuccessFile c) (c_ContentType c) (c_Storage c) (c_S3 c) (c_Sharding c) (c_ZK c)
    (DebugC b (dbg_Expvars (c_Debug c)) (dbg_Pprof (c_Debug c))) (c_Test c).

(** What the outside answers while the configuration is put together. *)
Record environment := {
  env_decode : DecodeFile;
  env_Parse : string -> res URL;
  env_Getwd : res string;
}.

Section configure.
Context (env : environment).

(** [filepath.Abs] on Unix. *)
Definition filepath_Abs (path : string) : res string :=
  if IsAbs path then Ok (path_Clean path)
  else match env_Getwd env with Err e => Err e | Ok wd => Ok (path_Join [wd; path]) end.

(** The first part of [main]: the configuration file, or the defaults. *)
Definition base_config (f : flags) : res sequinsConfig :=
  let '(config, err) := loadConfig (env_decode env) (f_configPath f) in
  match err with
  | None => Ok config
  | Some e =>
      if bool_decide (e = errNoConfig) then
        if bool_decide (f_source f ≠ "") then Ok defaultConfig else Err (NewError "No config file found!")
      else Err (Errorf "Error loading config" e)
  end.

(** The flags. *)
Definition override_source (f : flags) (config : sequinsConfig) : res sequinsConfig :=
  if bool_decide (f_source f ≠ "") then
    match env_Parse env (f_source f) with
    | Err e => Err e
    | Ok parsed =>
        if bool_decide (u_Scheme parsed = "") then
          match filepath_Abs (u_Path parsed) with Err e => Err e | Ok abs => Ok (with_Source config abs) end
        else Ok (with_Source config (f_source f))
    end
  else Ok config.

Definition override_localStore (f : flags) (config : sequinsConfig) : res sequinsConfig :=
  if bool_decide (f_localStore f ≠ "") then
    match filepath_Abs (f_localStore f) with Err e => Err e | Ok abs => Ok (with_LocalStore config abs) end
  else Ok config.

(** [main] up to the check of the configuration. *)
Definition configure (f : flags) : res sequinsConfig :=
  match base_config f with
  | Err e => Err e
  | Ok config =>
      match override_source f config with
      | Err e => Err e
      | Ok config =>
          if bool_decide (c_Source config = "") then Err (NewError "The source root must be defined")
          else
            let config := if bool_decide (f_bind f ≠ "") then with_Bind config (f_bind f) else config in
            match override_localStore f config with
            | Err e => Err e
            | Ok config =>
                let config := if bool_decide (f_debugBind f ≠ "") then with_DebugBind config (f_debugBind f) else config in
                match validateConfig (env_Parse env) config with
                | Some e => Err (Errorf "Configuration error" e)
                | None => Ok config
                end
            end
      end
  end.
End configure.

(** ** The backend *)

(** Where the credentials for S3 come from: a chain asks its providers in
    order. *)
Inductive provider :=
  | EC2RoleProvider
  | EnvProvider
  | StaticProvider (AccessKeyID SecretAccessKey : string).

Inductive backend_choice :=
  | UseLocal (path : string)
  | UseS3 (bucket path region : string) (chain : list provider)
  | UseHdfs (namenode path : string).

(** The clients the backends are made with. *)
Record clients := {
  local_ReadDir : string -> res (list FileInfo);
  local_Stat : string -> option error;
  local_Open : string -> res string;
  metadata_Region : res string;                          (** of the EC2 instance *)
  s3_ListObjects : string -> list provider -> string -> ListObjectsInput -> res ListObjectsOutput;
    (** region, credentials and bucket *)
  s3_CommonPrefix_String : string -> string;
  hdfs_New : string -> option error;
  hdfs_ReadDir : string -> string -> res (list FileInfo);                           (** the namenode *)
  hdfs_Stat : string -> string -> option error;
  hdfs_Open : string -> string -> res string;
}.

Section main.
Context (env : environment) (cl : clients).

Definition localSetup (localPath : string) : res backend_choice := Ok (UseLocal localPath).

Definition s3Setup (bucketName path : string) (config : sequinsConfig) : res backend_choice :=
  let creds := [EC2RoleProvider; EnvProvider;
                StaticProvider (s3_AccessKeyId (c_S3 config)) (s3_SecretAccessKey (c_S3 config))] in
  let use region := Ok (UseS3 bucketName path region creds) in
  if bool_decide (s3_Region (c_S3 config) = "") then
    match metadata_Region cl with
    | Ok region =>
        if bool_decide (region = "") then Err (NewError "Unspecified S3 region, and no instance region found.")
        else use region
    | Err _ => Err (NewError "Unspecified S3 region, and no instance region found.")
    end
  else use (s3_Region (c_S3 config)).

Definition hdfsSetup (namenode path : string) : res backend_choice :=
  match hdfs_New cl namenode with
  | Some e => Err (Errorf "Error connecting to HDFS" e)
  | None => Ok (UseHdfs namenode path)
  end.

Definition setup (parsed : URL) (config : sequinsConfig) : res backend_choice :=
  if local_scheme parsed then localSetup (u_Path parsed)
  else if bool_decide (u_Scheme parsed = "s3") then s3Setup (u_Host parsed) (u_Path parsed) config
  else if bool_decide (u_Scheme parsed = "hdfs") then hdfsSetup (u_Host parsed) (u_Path parsed)
  else Err (NewError "Unrecognized scheme for path").

(** [ListDBs] of the chosen backend, with what its client answers at the time;
    [fuel] is for the pages of S3. *)
Definition choice_ListDBs (cl : clients) (fuel : nat) (b : backend_choice) : option (res (list string)) :=
  match b with
  | UseLocal path => Some (ListDBs (Backend := LocalBackend (local_ReadDir cl) (local_Stat cl) (local_Open cl) path))
  | UseHdfs namenode path =>
      Some (ListDBs (Backend := HdfsBackend (hdfs_ReadDir cl namenode) (hdfs_Stat cl namenode) (hdfs_Open cl namenode) namenode path))
  | UseS3 bucket path region creds =>
      s3_ListDBs (s3_ListObjects cl region creds bucket) (s3_CommonPrefix_String cl) fuel (NewS3Backend_path path)
  end.

(** ** Running *)

Context {MS : MapOrder string} {H : Histogram}.

(** A server that listens. *)
Record serving := Serving {
  sv_config : sequinsConfig;
  sv_backend : backend_choice;
  sv_started : started;
  sv_debug : list string;                  (** what the debug server shows *)
  sv_expStats : option sequinsStats;
  sv_tracking : bool;                      (** the handler that [start] chose *)
}.

(** [later] is what the clients answer when [init] lists the databases with the
    backend that [setup] made. *)
Definition sequins_main (later : clients) (fuel : nat) (up : startup) (f : flags) : option (res serving) :=
  match configure env f with
  | Err e => Some (Err e)
  | Ok config =>
      match env_Parse env (c_Source config) with
      | Err e => Some (Err e)
      | Ok parsed =>
          match setup parsed config with
          | Err e => Some (Err e)
          | Ok b =>
              listed ← choice_ListDBs cl fuel b;
              match listed with
              | Err e => Some (Err (Errorf "Error listing DBs" e))
              | Ok _ =>
                  dbs ← choice_ListDBs later fuel b;
                  r ← sequins_init up dbs config;
                  match r with
                  | Err e => Some (Err e)
                  | Ok st =>
                      let '(routes, expStats) :=
                        if bool_decide (dbg_Bind (c_Debug config) ≠ "") then startDebugServer config else ([], None) in
                      Some (Ok (Serving config b st routes expStats (start_tracks config)))
                  end
              end
          end
      end
  end.

(** [shutdown], when [graceful.Run] has returned. *)
Inductive shutdown_action := StopSignals | StopTicker | CloseZk | UnlockStore.

Definition sequins_shutdown (s : started) : list shutdown_action :=
  (StopSignals
   :: (if bool_decide (is_Some (st_refresh s)) then [StopTicker] else [])
   ++ (if bool_decide (is_Some (st_cluster s)) then [CloseZk] else []) ++ [UnlockStore])%list.
End main.

(** ** What runs *)

Lemma validate_local url_Parse config u :
  validateConfig url_Parse config = None -> url_Parse (c_Source config) = Ok u -> local_scheme u = true ->
  IsAbs (u_Path u) = true.
Proof.
  unfold validateConfig. destruct (negb _); [done|]. case_bool_decide; [done|]. intros Hv Hu Hl. rewrite Hu, Hl in Hv.
  case_bool_decide; [done|]. by destruct (IsAbs (u_Path u)).
Qed.

Lemma init_limit {MS : MapOrder string} up dbs config st :
  sequins_init up dbs config = Some (Ok st) -> (0 <= c_MaxParallelLoads config)%Z.
Proof.
  unfold sequins_init. intros Hi. destruct (if sh_Enabled _ then _ else _) as [[cl|]|]; [|done..]. cbn in Hi.
  destruct (initLocalStore _ _); [done|]. destruct (Z.eqb_spec (c_MaxParallelLoads config) 0); [lia|].
  unfold ml_New in Hi. destruct (Z.ltb_spec (c_MaxParallelLoads config) 0); [done|lia].
Qed.

Lemma init_cluster {MS : MapOrder string} up dbs config st :
  sequins_init up dbs config = Some (Ok st) -> is_Some (st_cluster st) <-> sh_Enabled (c_Sharding config) = true.
Proof.
  unfold sequins_init. intros Hi. destruct (sh_Enabled (c_Sharding config)).
  - destruct (initCluster _ _ _) as [[cl|e]|]; [|done..]. cbn in Hi. destruct (initLocalStore _ _); [done|].
    destruct (if (c_MaxParallelLoads config =? 0)%Z then _ else _); [|done]. cbn in Hi. simplify_eq. cbn. by split; [|eexists].
  - cbn in Hi. destruct (initLocalStore _ _); [done|].
    destruct (if (c_MaxParallelLoads config =? 0)%Z then _ else _); [|done]. cbn in Hi. simplify_eq. cbn. by split; [intros []|].
Qed.

(** When the listing fails the server starts without databases. *)
Lemma init_unlisted {MS : MapOrder string} up e config st :
  sequins_init up (Err e) config = Some (Ok st) -> s_dbs (st_server st) = ∅.
Proof.
  unfold sequins_init. intros Hi. destruct (if sh_Enabled _ then _ else _) as [[cl|]|]; [|done..]. cbn in Hi.
  destruct (initLocalStore _ _); [done|].
  destruct (if (c_MaxParallelLoads config =? 0)%Z then _ else _); [|done]. cbn in Hi. by simplify_eq.
Qed.

(** The backend reads where the source points to. *)
Definition reads_from (cl : clients) (config : sequinsConfig) (u : URL) (b : backend_choice) : Prop :=
  match b with
  | UseLocal path => local_scheme u = true ∧ path = u_Path u ∧ IsAbs path = true
  | UseS3 bucket path region creds =>
      u_Scheme u = "s3" ∧ bucket = u_Host u ∧ path = u_Path u ∧ region ≠ ""
      ∧ (s3_Region (c_S3 config) ≠ "" -> region = s3_Region (c_S3 config))
      ∧ creds = [EC2RoleProvider; EnvProvider;
                 StaticProvider (s3_AccessKeyId (c_S3 config)) (s3_SecretAccessKey (c_S3 config))]
  | UseHdfs namenode path => u_Scheme u = "hdfs" ∧ namenode = u_Host u ∧ path = u_Path u ∧ hdfs_New cl namenode = None
  end.

Lemma setup_reads env cl config u b :
  validateConfig (env_Parse env) config = None -> env_Parse env (c_Source config) = Ok u ->
  setup cl u config = Ok b -> reads_from cl config u b.
Proof.
  intros Hv Hu. unfold setup. destruct (local_scheme u) eqn:El.
  { intros [= <-]. cbn. split_and!; [done|done|by eapply validate_local]. }
  case_bool_decide as Hs3.
  - unfold s3Setup. case_bool_decide as Hr; [|intros [= <-]; by split_and!].
    destruct (metadata_Region cl) as [region|]; [|done]. case_bool_decide; [done|]. intros [= <-]. by split_and!.
  - case_bool_decide as Hh; [|done]. unfold hdfsSetup. destruct (hdfs_New _ _) eqn:E; [done|]. intros [= <-]. by split_and!.
Qed.

(** A flag that is given wins. *)
Definition overrides (flag : string) (value base : string) : Prop := value = if bool_decide (flag ≠ "") then flag else base.

(** The configuration that runs, from the one in the file and the flags. *)
Record configured (env : environment) (f : flags) (base c : sequinsConfig) : Prop := {
  cf_bind : overrides (f_bind f) (c_Bind c) (c_Bind base);
  cf_debug : overrides (f_debugBind f) (dbg_Bind (c_Debug c)) (dbg_Bind (c_Debug base));
  cf_store : if bool_decide (f_localStore f ≠ "") then filepath_Abs env (f_localStore f) = Ok (c_LocalStore c)
             else c_LocalStore c = c_LocalStore base;
  cf_source : if bool_decide (f_source f ≠ "")
              then ∃ u, env_Parse env (f_source f) = Ok u
                   ∧ if bool_decide (u_Scheme u = "") then filepath_Abs env (u_Path u) = Ok (c_Source c)
                     else c_Source c = f_source f
              else c_Source c = c_Source base;
  cf_rest : c_MaxParallelLoads c = c_MaxParallelLoads base ∧ c_ThrottleLoads c = c_ThrottleLoads base
            ∧ c_RefreshPeriod c = c_RefreshPeriod base ∧ c_RequireSuccessFile c = c_RequireSuccessFile base
            ∧ c_ContentType c = c_ContentType base ∧ c_Storage c = c_Storage base ∧ c_S3 c = c_S3 base
            ∧ c_Sharding c = c_Sharding base ∧ c_ZK c = c_ZK base ∧ c_Test c = c_Test base
            ∧ dbg_Expvars (c_Debug c) = dbg_Expvars (c_Debug base) ∧ dbg_Pprof (c_Debug c) = dbg_Pprof (c_Debug base);
}.

Lemma configure_spec env f c :
  configure env f = Ok c ->
  ∃ base, base_config env f = Ok base ∧ configured env f base c ∧ validateConfig (env_Parse env) c = None.
Proof.
  unfold configure. destruct (base_config env f) as [base|]; [|done]. intros H. exists base. split; [done|].
  unfold override_source, override_localStore in H.
  destruct (bool_decide (f_source f ≠ "")) eqn:Es; [destruct (env_Parse env (f_source f)) as [u|] eqn:Eu; [|done];
    destruct (bool_decide (u_Scheme u = "")) eqn:Esch; [destruct (filepath_Abs env (u_Path u)) as [abs|] eqn:Ea; [|done]|]|];
    (destruct (bool_decide (c_Source _ = "")); [done|]); revert H;
    destruct (bool_decide (f_localStore f ≠ "")) eqn:El;
      (destruct (filepath_Abs env (f_localStore f)) as [store|] eqn:Est || idtac); try done;
    (destruct (validateConfig _ _) eqn:Ev; [done|]); intros [= <-]; (split; [|exact Ev]);
    destruct (bool_decide (f_bind f ≠ "")) eqn:Eb, (bool_decide (f_debugBind f ≠ "")) eqn:Ed;
    split; unfold overrides; rewrite ?Es, ?El, ?Eb, ?Ed, ?Est, ?Eu; try done; exists u; by rewrite Esch.
Qed.

Lemma sequins_init_total {MS : MapOrder string} url_Parse up dbs config :
  validateConfig url_Parse config = None -> (0 <= c_MaxParallelLoads config)%Z -> ∃ r, sequins_init up dbs config = Some r.
Proof.
  intros Hv Hmax. destruct (initCluster_total url_Parse (up_connect up) (up_Hostname up) config Hv) as [rc Hrc].
  unfold sequins_init. rewrite Hrc.
  assert (∃ l, (if (c_MaxParallelLoads config =? 0)%Z then Some None
                else m ← ml_New (c_MaxParallelLoads config); Some (Some m)) = Some l) as [l ->].
  { destruct (c_MaxParallelLoads config =? 0)%Z; [by eexists|]. unfold ml_New.
    destruct (Z.ltb_spec (c_MaxParallelLoads config) 0); [lia|]. rewrite ml_fill_ok by (cbn; lia). by eexists. }
  destruct (sh_Enabled _); [destruct rc as [rc|e]; [|by exists (Err e)]|]; cbn; destruct (initLocalStore _ _); by eexists.
Qed.

Section theorems.
Context {MS : MapOrder string} {H : Histogram}.


(** [main] does not panic, unless the limit on parallel loads is negative: it
    serves or says what is wrong. *)
Theorem main_total env cl later fuel up f :
  (∀ b, is_Some (choice_ListDBs cl fuel b)) -> (∀ b, is_Some (choice_ListDBs later fuel b)) ->
  (∀ base, base_config env f = Ok base -> (0 <= c_MaxParallelLoads base)%Z) ->
  is_Some (sequins_main env cl later fuel up f).
Proof.
  intros Hlist Hlater Hmax. unfold sequins_main. destruct (configure env f) as [c|] eqn:Ec; [|done].
  apply configure_spec in Ec as (base & Hbase & Hcf & Hv). apply Hmax in Hbase.
  destruct (env_Parse env (c_Source c)) as [u|]; [|done]. destruct (setup cl u c) as [b|]; [|done].
  destruct (Hlist b) as [[dbs|e] ->]; cbn; [|done]. destruct (Hlater b) as [listed ->]; cbn.
  destruct (sequins_init_total (env_Parse env) up listed c) as [[st|e] ->]; [done| | |done].
  - destruct (cf_rest _ _ _ _ Hcf) as [-> _]. done.
  - cbn. destruct (if bool_decide _ then _ else _). done.
Qed.

(** A negative limit is not among the things that are checked, and panics. *)
Theorem negative_limit_panics url_Parse up dbs config :
  validateConfig url_Parse config = None -> (c_MaxParallelLoads config < 0)%Z ->
  sh_Enabled (c_Sharding config) = false -> initLocalStore (up_MkdirAll up) (up_TryLock up) = None ->
  sequins_init up dbs config = None.
Proof.
  intros _ Hneg Hsh Hst. unfold sequins_init. rewrite Hsh. cbn. rewrite Hst, (proj2 (Z.eqb_neq (c_MaxParallelLoads config) 0)) by lia.
  unfold ml_New. by rewrite (proj2 (Z.ltb_lt _ _) Hneg).
Qed.
End theorems.

(** ** Witnesses *)

Module MainExample.
Import ConfigExample DebugExample.
#[local] Instance by_name : MapOrder string := list_order.

(** No configuration file; a relative source on the local disk. *)
Definition env : environment :=
  {| env_decode := λ _ c, (c, Err ErrNotExist); env_Parse := plain_url; env_Getwd := Ok "/home/user" |}.
Definition cl : clients :=
  {| local_ReadDir := λ _, Ok [{| fi_Name := "pets"; fi_IsDir := true |}]; local_Stat := λ _, None; local_Open := λ _, Ok "";
     metadata_Region := Ok ""; s3_ListObjects := λ _ _ _ _, Err ErrNotExist; s3_CommonPrefix_String := id;
     hdfs_New := λ _, None; hdfs_ReadDir := λ _ _, Ok []; hdfs_Stat := λ _ _, None; hdfs_Open := λ _ _, Ok "" |}.
(** A database appears between the check of [main] and the first refresh. *)
Definition grown : clients :=
  {| local_ReadDir := λ _, Ok [{| fi_Name := "cities"; fi_IsDir := true |}; {| fi_Name := "pets"; fi_IsDir := true |}];
     local_Stat := λ _, None; local_Open := λ _, Ok "";
     metadata_Region := Ok ""; s3_ListObjects := λ _ _ _ _, Err ErrNotExist; s3_CommonPrefix_String := id;
     hdfs_New := λ _, None; hdfs_ReadDir := λ _ _, Ok []; hdfs_Stat := λ _ _, None; hdfs_Open := λ _ _, Ok "" |}.
Definition up : startup := Startup (λ _, None) (Ok "node1") None None.
Definition args : flags := Flags "localhost:9599" "data" "store" "" "localhost:6060".


Lemma main_total_witness : is_Some (sequins_main env cl grown 1 up args).
Proof.
  apply (main_total env cl grown 1 up args).
  - intros [path|bucket path region creds|namenode path]; eexists; reflexivity.
  - intros [path|bucket path region creds|namenode path]; eexists; reflexivity.
  - intros base Hb. injection Hb as <-. vm_compute. discriminate.
Defined.
End MainExample.
